(* ===== verification/_CoqProject ===== *)
-Q . S2P
Prelude.v
Bytes.v
Digits.v
FileTests.v
DirScan.v
Ch03Props.v
SysInfo.v
Semaphore.v
Queue.v
QueueSystem.v
QueueInv.v
QueueFifo.v
QueueLife.v
QueueFinish.v
Items.v
Workers.v
QueueProps.v
ShmQueue.v
ShmSystem.v
ShmProps.v
NetItem.v
NetClient.v
NetServer.v
NetProps.v
NetSystem.v
NetSysInv.v
NetSysProps.v
PoolConfig.v
ThreadPool.v
PoolInv.v
PoolLife.v
PoolThreads.v
PoolSim.v
PoolCalls.v
PoolProps.v
PoolRunProps.v
SharedMem.v
MessageQueue.v
MqLife.v
MqProps.v
MqChildren.v
MqChildInv.v
MqChildProps.v
Scheduler.v
Getopt.v
SimMain.v
SimProps.v
WorkerLoop.v
ShmLife.v
ShmEnd.v
ShmLifeProps.v
SimThreads.v
SimCores.v
SimBoot.v
SimEnd.v
SimRunProps.v
Process.v
SimProcs.v
ProcLogic.v
SimInv.v
ProcEnds.v
ProcRun.v
ProcProps.v
TreeHeap.v
TreeUtil.v
TreeTest.v
TreeProps.v
