(* ===== verification/Prelude.v ===== *)
(** * Beginning_Linux_Programming: a verification development

    The repository holds a reader's programs for the chapters of "Beginning
    Linux Programming" and the beginning of a thread pool.  This library
    models its C++ programs and proves what makes them correct, or where they
    are not.  This file, the root, is the prelude: the outcomes of C++ code,
    machine integers, arrays, executions, and the automation of the library.

    ** The programs and their files here

    - Chapter12 (src/Chapter12): producers and consumers on a bounded queue.
      [Semaphore] models the C library's semaphores and deadlines.  [Queue]
      models Queue/Queue.h: the class as a record, [push] and [pop] as the
      sequence of their atomic actions (one per semaphore operation, one per
      access to a field or slot), each with its program point.  [QueueSystem]
      models the threads of Schedule/ScheduledObject.cpp, [run] being one
      action of a thread's loop, and the interleaving of any number of them;
      what work() does with the queue is the interface [Client].  [QueueInv]
      has the invariant of any number of threads, [QueueFifo] the refinement
      to an abstract FIFO for one pusher and one popper, [QueueLife] the
      counters, termination and stopping, [QueueFinish] that a thread can
      finish its call while the others wait.  [Items] models Items/WorkItem.h and
      Producer::cook_item, [Workers] the classes of Producer/ and Consumer/ as
      instances of [Client].  [Scheduler] models set_scheduler of
      ScheduledObject.cpp, which Chapter14 repeats twice, and [SimMain] main
      of Sim/ProducerConsumerSim.cpp as a function: options, queues and
      workers, deletions.  [WorkerLoop] has the worker objects, constructed, at
      work and deleted, and ScheduledObject::run on a queue of either kind (the
      class [LoopAct]); [SimThreads] the same main an action at a time among
      the threads it starts; [SimCores] the invariant of the whole and its
      projection to a [QueueSystem] for each core, [SimBoot] the program at its
      start, [SimEnd] that it can always end.
    - Chapter14 (src/Chapter14): the same programs as processes.  [ShmQueue]
      models SharedMemory/Queue/Queue.h, whose items are the bytes behind the
      object in the mapped region, [ShmSystem] the worker threads on it and
      their simulation by [QueueSystem]; the workers are those of [Workers],
      whose text SharedMemory/Producer and Consumer repeat; [ShmLife] the
      children's main from the construction of their worker to munmap, an action
      at a time with the threads, [ShmEnd] that they can always end.
      [MessageQueue]
      models the producers and consumers of MessageQueue/, over an interface
      to the kernel's queue ([MqOps], with the laws [MqLaws] of mq_overview(7)
      for messages of one priority) and its instance [posix_mq]; the deletion
      of a worker, an action of its destructors at a time, interleaves with
      its thread, and [MqLife] has what that does.  [MqChildren] has the
      processes on it, which construct, keep and delete a worker an action at a
      time, the constructor's initialisations against the thread it has started
      included; [MqChildInv] their invariant and their projection to the
      threads of [MessageQueue].
      The processes: [SharedMem] models itoa of Sim/SharedMem.h and how the
      main programs format the object's name and their children's arguments,
      [Getopt] their options, with getopt and atoi of the C library, which
      [SimMain] and [TreeTest] use too.
      [Process] is the kernel they run on: a program is the tree of its system
      calls and of how it goes on with each answer, and the kernel a step
      relation on named objects and processes (descriptors, mappings, workers,
      children) with fork, exec and wait; every call may fail where the manual
      says so.  [SimProcs] translates the six main programs
      (Sim/ProducerConsumerSim.cpp, ProducerSim.cpp, ConsumerSim.cpp, twice).
      [ProcLogic] has the predicate of programs that keep to one object and
      its preservation, [SimInv] that the simulations do, [ProcEnds] the bound
      on their steps and the tree of processes, [ProcRun] an executable
      scheduler, sound for the step relation, with which witnesses are run.
    - Chapter10 (src/Chapter10/test/util): random trees, their comparison and
      destruction.  [TreeHeap] has the nodes in a memory with malloc and free,
      and a monad of computations on it; [TreeUtil] the three functions;
      [TreeTest] the test program and the serializer, a stub.
    - Chapter15 (src/Chapter15): a client that sends checksummed items to a
      server.  [NetItem] models Common/WorkItem.h, its memory included,
      [NetClient] Client/Client.h and the atoi of Client.cpp, [NetServer]
      Server/Server.h: set-up, and the epoll loop as a step relation on the
      interest set and the shared receive buffer.  [NetSystem] has any number
      of clients and the server as one system, connections being streams of
      bytes of which recv gets what has arrived, [NetSysInv] its invariant.
    - Chapter3 (src/Chapter03): [DirScan] models dir.c on a file system with
      permissions and links, the process's current directory and its limit of
      open directories included; [FileTests] models test.c and mmap_test.c on
      the bytes of their file.
    - Chapter4 (src/Chapter04): [SysInfo] models sysinfo.c.
    - AdaptiveThreadPool: [PoolConfig] models include/WorkerConf.h,
      [ThreadPool] the class of include/AdaptiveThreadPool.h with the
      functions of AdaptiveThreadPool.cpp, [PoolInv] its loops and invariant,
      [PoolLife] its calls from set-up to tear-down and what is rejected.
      [PoolThreads] has addJob in any number of threads and the timer an action
      at a time, [PoolSim] the simulation by calls that choose their workers
      at once, [PoolCalls] what each thread and each counter sees of it.
      JobWorker, JobQueue and Job are declared nowhere: they are parameters,
      the class [PoolParts].
    - [Digits] holds what [%d], itoa, atoi and C strings share, [Bytes] the
      bytes of integers in memory.

    The properties are in [QueueProps], [ShmProps], [ShmLifeProps], [NetProps],
    [NetSysProps], [PoolProps], [PoolRunProps], [MqProps], [MqChildProps],
    [SimRunProps], [ProcProps], [TreeProps] and [Ch03Props], each with its witness, a concrete run or input; [SimProps] has
    what else holds of itoa, the arguments and Chapter12's main.

    ** What the theorems show

    - The queue: with one producer and one consumer it refines a bounded FIFO
      under every interleaving and has no data race on its slots; with any
      number of threads it never faults and never deadlocks, its calls end, a
      stopped thread exits after the call it is in, its report counts what
      went through.  It does not keep its promise with two producers or two
      consumers: a closed theorem exhibits the runs.  The main program gives
      each core's queue exactly its own workers: one of each by default.
    - The queue in shared memory: its executions, byte by byte, are those of
      Chapter12's queue, whose theorems thus hold of it.  The processes on it,
      from the construction of their workers to munmap, do nothing else to it,
      and no thread touches the region once it is unmapped; from every state
      they can all go on to their end.
    - The message queue: items sent are those received and those waiting, in
      order; ids and counts are accounted for; time-outs leave gaps.  Deleting a
      worker ends, but closes its queue before its thread stops: what the
      thread makes in between is lost.  Whenever the processes construct and
      delete their workers, the order on the queue stands, and they can always
      end; only a constructor of more than two seconds lets its thread read
      what is not yet initialised.
    - The processes of Chapter14: all workers of a simulation share one
      object, the one its parent made; nothing else in the kernel is touched;
      a process that exits with 0 has waited for its children; every run ends
      within 34 calls and never in a deadlock; the children read the settings
      of the parent's command line.  A closed theorem has two runs that go
      wrong: a child that starts late, and one whose exec fails.
    - Items on the wire: the checksum is the rotated exclusive or of 16-bit
      words, hence exactly which errors it detects; items round-trip through
      their memory.  The client sends valid, consecutively named items and
      ends; its name buffer overflows at an exact count.  The two main programs
      together: everything the client sends is reported; the client's main
      ends, its socket closed, in the missing return of Disconnect.  Any number of clients
      at once, dying when they will: the reports are what they wrote, in order,
      and the server can always catch up; only a receive that gets part of an
      item loses the rest of its connection.  The server keeps its descriptors
      in order whatever the kernel answers, and has exactly one undefined
      behaviour, which its own clients never cause.
    - The simulation of Chapter12 as a whole: from its command line on, what
      happens on a core is an execution of that core's queue with its own
      workers; no thread faults, main only in its mismatched delete, with every
      worker joined by then; from every state it can go on to that end.  All
      this as long as every worker is constructed while its thread sleeps: a
      constructor that is late has its thread call work() of an object not
      yet made.
    - Trees: generate_tree builds the tree its random draws describe in fresh
      memory, is_same_tree decides equality, destroy_tree frees exactly the
      tree; the limit on nodes bounds levels only.
    - The thread pool: what set-up builds and when it faults; from then on every
      operation keeps the pool well formed, the workers it will choose next
      being workers it has; every policy of addJob chooses a worker of the pool;
      the timer finds a least loaded worker; over its whole life each job
      reaches one worker, and the destructor joins the timer, destroys the
      semaphores and deletes each worker and queue once.  Concurrent calls: each
      chooses its worker as if at one instant, each job reaches the worker
      chosen for it, round robin is fair under every interleaving, every call
      returns and the timer exits once it is told to.  As written, though, no
      pool has a defined life: the check of a configuration either rejects it,
      and the destructor then joins a thread never created, or comes to its end
      without a return.
    - Chapter3: dir lists the tree it is given and ends on every file system,
      but loses its place behind links and closed directories; mmap_test
      leaves the records it promises; test reads what it wrote.

    ** Conventions

    A computation returns [outcome]: [Ok], or [Fault] where C++ has undefined
    behaviour, a failed assert or an exception.  An [int] is a [Z] with a
    check at each operation; unsigned types wrap around ([u16], [u32], [u64]).
    A C array is a list; reading or writing outside it is a fault.  Characters
    are their codes.  Uninitialised memory is a parameter, or [None] for
    pointers.  [rand()] is an arbitrary stream in [0, RAND_MAX]; the clock,
    and every answer of the kernel, is an argument or the environment's choice.
    Shared plain variables are accessed in some interleaving (the programs
    guard all but m_run, mTimerRun, the timer's statistics and the queue's
    slots by semaphores, and the slots are proved free of races where the
    queue is used as it is meant).

    Loops are structural on what they go through, on the number of iterations
    the code computes, or on fuel: [WORD_DIGITS] = 32 for the digits of a
    32-bit number, enough for every base from two on ([word_fuel]), and as
    much for reversing them ([itoa_reverse_ok]); [enough] for the recursions on
    trees, one more than the levels generate_tree can make; for printdir one
    more than the directories that may be open ([printdir_ends]).  The endless
    loops (threads, the server) are step relations or run for so many rounds.

    ** Not modelled

    Output, except where a program is about it (dir, the server, sysinfo, the
    test program); the bytes of the queue object itself (those of its items are
    modelled); what a worker of the pool does with its jobs, but
    for an arbitrary relation its own thread follows; what a closed
    descriptor's number is used for later; signals, and other processes that
    use the same kernel objects; the C programs of Chapter1, which print one
    line.  AdaptiveThreadPool.cpp does not
    compile as it stands (undeclared names, among others); it is modelled as
    its names suggest, except for the missing return of checkAndAjustConfig,
    which is modelled as missing. *)
From stdpp Require Export base tactics numbers option list relations.
From Stdlib Require Export ZArith Lia.

#[export] Set Default Goal Selector "!".
Open Scope Z_scope.

(** ** Outcomes of C++ code

    [Fault] is undefined behaviour (or a failed [assert]); [Ok] an ordinary
    value.  The model never continues after a fault. *)
Inductive fault :=
  | OutOfBounds      (* an access outside an array *)
  | SignedOverflow   (* an [int] result that does not fit *)
  | DivByZero        (* [/] or [%] with divisor 0 *)
  | NullPointer      (* a null pointer dereferenced *)
  | Uninitialised    (* a variable used before it was assigned *)
  | DeadBlock        (* a block of memory used or freed when it is not allocated *)
  | MismatchedDelete (* memory of [new[]] released by [delete], or the reverse *)
  | MissingReturn    (* a function with a result that ends without one *)
  | FormatMismatch   (* an argument of [printf] of another type than its conversion's *)
  | AssertFailed.    (* [assert] with a false argument *)

#[export] Instance fault_eq_dec : EqDecision fault.
Proof. solve_decision. Defined.

Inductive outcome (A : Type) :=
  | Ok (a : A)
  | Fault (f : fault).
Arguments Ok {A} a.
Arguments Fault {A} f.

#[export] Instance outcome_ret : MRet outcome := fun A a => Ok a.
#[export] Instance outcome_bind : MBind outcome :=
  fun A B k m => match m with Ok a => k a | Fault f => Fault f end.
#[export] Instance outcome_fmap : FMap outcome :=
  fun A B f m => match m with Ok a => Ok (f a) | Fault e => Fault e end.

Definition is_ok {A} (m : outcome A) : Prop :=
  match m with Ok _ => True | Fault _ => False end.

#[export] Instance is_ok_dec {A} (m : outcome A) : Decision (is_ok m).
Proof. destruct m; [left|right]; simpl; tauto. Defined.

Lemma bind_Ok {A B} (m : outcome A) (k : A → outcome B) b :
  m ≫= k = Ok b ↔ ∃ a, m = Ok a ∧ k a = Ok b.
Proof. destruct m as [a|f]; simpl; naive_solver. Qed.

Lemma bind_is_ok {A B} (m : outcome A) (k : A → outcome B) :
  is_ok (m ≫= k) ↔ ∃ a, m = Ok a ∧ is_ok (k a).
Proof. destruct m as [a|f]; simpl; naive_solver. Qed.

(** ** Machine integers *)
Definition INT_MIN : Z := -2147483648.
Definition INT_MAX : Z := 2147483647.

Definition in_int (z : Z) : bool := (INT_MIN <=? z) && (z <=? INT_MAX).

Definition u16 (z : Z) : Z := z mod 65536.
Definition u32 (z : Z) : Z := z mod 4294967296.
Definition u64 (z : Z) : Z := z mod 18446744073709551616.

(** The value of an [int] converted from [z] modulo 2^32 (two's complement). *)
Definition s32 (z : Z) : Z := (z + 2147483648) mod 4294967296 - 2147483648.

(** [int] results: the mathematical value, or a fault when it does not fit. *)
Definition int_of (z : Z) : outcome Z :=
  if in_int z then Ok z else Fault SignedOverflow.

Definition int_add (x y : Z) : outcome Z := int_of (x + y).
Definition int_sub (x y : Z) : outcome Z := int_of (x - y).
Definition int_mul (x y : Z) : outcome Z := int_of (x * y).

(** C's [%] truncates towards zero. *)
Definition int_rem (x y : Z) : outcome Z :=
  if y =? 0 then Fault DivByZero else int_of (Z.rem x y).

Definition u32_rem (x y : Z) : outcome Z :=
  if y =? 0 then Fault DivByZero else Ok (x mod y).
Definition u32_div (x y : Z) : outcome Z :=
  if y =? 0 then Fault DivByZero else Ok (x / y).

#[global] Arguments int_of : simpl never.
#[global] Arguments int_add : simpl never.
#[global] Arguments int_sub : simpl never.
#[global] Arguments int_mul : simpl never.
#[global] Arguments int_rem : simpl never.
#[global] Arguments u16 : simpl never.
#[global] Arguments u32 : simpl never.
#[global] Arguments u64 : simpl never.
#[global] Arguments s32 : simpl never.

Lemma in_int_true z : in_int z = true ↔ INT_MIN ≤ z ≤ INT_MAX.
Proof. unfold in_int. rewrite andb_true_iff, !Z.leb_le. tauto. Qed.

Lemma int_of_ok z : INT_MIN ≤ z ≤ INT_MAX → int_of z = Ok z.
Proof. intros H. unfold int_of. by rewrite (proj2 (in_int_true z) H). Qed.

Lemma int_of_Ok z v : int_of z = Ok v ↔ v = z ∧ INT_MIN ≤ z ≤ INT_MAX.
Proof.
  unfold int_of. destruct (in_int z) eqn:E.
  - apply in_int_true in E. naive_solver.
  - split; [done|]. intros [_ H]. apply in_int_true in H. congruence.
Qed.

Lemma int_rem_Ok x y v :
  int_rem x y = Ok v → v = Z.rem x y ∧ y ≠ 0.
Proof.
  unfold int_rem. destruct (Z.eqb_spec y 0); [done|].
  rewrite int_of_Ok. tauto.
Qed.

Lemma int_rem_Ok_pos x y v :
  0 ≤ x → 0 < y → int_rem x y = Ok v → v = x mod y ∧ 0 ≤ v < y.
Proof.
  intros Hx Hy [-> _]%int_rem_Ok. rewrite Z.rem_mod_nonneg by lia.
  split; [done|]. by apply Z.mod_pos_bound.
Qed.

Lemma int_rem_pos x y :
  0 ≤ x → 0 < y ≤ INT_MAX → int_rem x y = Ok (x mod y).
Proof.
  intros Hx Hy. unfold int_rem. destruct (Z.eqb_spec y 0); [lia|].
  rewrite Z.rem_mod_nonneg by lia.
  pose proof (Z.mod_pos_bound x y). apply int_of_ok. unfold INT_MIN. lia.
Qed.

Lemma u32_bounds z : 0 ≤ u32 z < 4294967296.
Proof. unfold u32. apply Z.mod_pos_bound. lia. Qed.
Lemma u16_bounds z : 0 ≤ u16 z < 65536.
Proof. unfold u16. apply Z.mod_pos_bound. lia. Qed.
Lemma u32_small z : 0 ≤ z < 4294967296 → u32 z = z.
Proof. intros. unfold u32. by apply Z.mod_small. Qed.
Lemma u16_small z : 0 ≤ z < 65536 → u16 z = z.
Proof. intros. unfold u16. by apply Z.mod_small. Qed.
Lemma s32_small z : 0 ≤ z < 2147483648 → s32 z = z.
Proof. intros Hz. unfold s32. rewrite Z.mod_small; lia. Qed.

Lemma s32_u32 a : INT_MIN ≤ a ≤ INT_MAX → s32 (u32 a) = a.
Proof.
  unfold s32, u32, INT_MIN, INT_MAX. intros Ha. rewrite Zplus_mod_idemp_l, Z.mod_small by lia. lia.
Qed.

Lemma u32_add_l x y : u32 (u32 x + y) = u32 (x + y).
Proof. unfold u32. by rewrite Zplus_mod_idemp_l. Qed.
Lemma u32_idemp x : u32 (u32 x) = u32 x.
Proof. apply u32_small, u32_bounds. Qed.

(** ** Arrays: a C array is a list; an index outside it is a fault *)
Definition array_read {A} (l : list A) (i : Z) : outcome A :=
  if i <? 0 then Fault OutOfBounds
  else match l !! Z.to_nat i with Some x => Ok x | None => Fault OutOfBounds end.

Definition array_write {A} (l : list A) (i : Z) (x : A) : outcome (list A) :=
  if (0 <=? i) && (i <? Z.of_nat (length l))
  then Ok (<[Z.to_nat i := x]> l) else Fault OutOfBounds.

#[global] Arguments array_read : simpl never.
#[global] Arguments array_write : simpl never.

Lemma array_read_Ok {A} (l : list A) i x :
  array_read l i = Ok x ↔ 0 ≤ i ∧ l !! Z.to_nat i = Some x.
Proof.
  unfold array_read. destruct (Z.ltb_spec i 0); [intuition (congruence || lia)|].
  destruct (l !! Z.to_nat i); intuition congruence.
Qed.

Lemma array_write_Ok {A} (l : list A) i x l' :
  array_write l i x = Ok l' ↔
  0 ≤ i < Z.of_nat (length l) ∧ l' = <[Z.to_nat i := x]> l.
Proof.
  unfold array_write.
  destruct (Z.leb_spec 0 i), (Z.ltb_spec i (Z.of_nat (length l))); simpl;
    intuition (congruence || lia).
Qed.

Lemma array_read_ok {A} (l : list A) i :
  0 ≤ i < Z.of_nat (length l) → ∃ x, array_read l i = Ok x ∧ l !! Z.to_nat i = Some x.
Proof.
  intros H. destruct (lookup_lt_is_Some_2 l (Z.to_nat i)) as [x Hx]; [lia|].
  exists x. rewrite array_read_Ok. split; [split; [lia|done]|done].
Qed.

Lemma array_write_ok {A} (l : list A) i x :
  0 ≤ i < Z.of_nat (length l) → array_write l i x = Ok (<[Z.to_nat i := x]> l).
Proof. intros H. by apply array_write_Ok. Qed.

Lemma array_read_insert_ne {A} (l : list A) i j x :
  0 ≤ i → i ≠ j → array_read (<[Z.to_nat i := x]> l) j = array_read l j.
Proof.
  intros Hi Hne. unfold array_read. destruct (Z.ltb_spec j 0); [done|].
  rewrite list_lookup_insert_ne by lia. done.
Qed.

Lemma array_read_insert {A} (l : list A) i x y :
  array_read l i = Ok y → array_read (<[Z.to_nat i := x]> l) i = Ok x.
Proof.
  intros [Hi Hy]%array_read_Ok. apply array_read_Ok. split; [done|].
  apply list_lookup_insert_eq. by eapply lookup_lt_Some.
Qed.

(** ** Sums over a list, updated at one position *)
Fixpoint zsum {A} (f : A → Z) (l : list A) : Z :=
  match l with [] => 0 | x :: r => f x + zsum f r end.

Lemma zsum_insert {A} (f : A → Z) l i x y :
  l !! i = Some x → zsum f (<[i := y]> l) = zsum f l - f x + f y.
Proof.
  revert i. induction l as [|z l IH]; intros [|i] H; simplify_eq/=; [lia|].
  rewrite (IH _ H). lia.
Qed.

Lemma zsum_nonneg {A} (f : A → Z) l : (∀ x, 0 ≤ f x) → 0 ≤ zsum f l.
Proof. intros H. induction l as [|x l IH]; simpl; [lia|]. specialize (H x). lia. Qed.

Lemma zsum_lookup_le {A} (f : A → Z) l i x :
  (∀ x, 0 ≤ f x) → l !! i = Some x → f x ≤ zsum f l.
Proof.
  intros H Hx. rewrite <-(take_drop_middle l i x Hx). clear Hx.
  induction (take i l) as [|y t IH]; simpl.
  - pose proof (zsum_nonneg f (drop (S i) l) H). lia.
  - specialize (H y). lia.
Qed.

(** A unit of a count is somebody's. *)
Lemma zsum_pos_lookup {A} (f : A → Z) l : 0 < zsum f l → ∃ i x, l !! i = Some x ∧ 0 < f x.
Proof.
  induction l as [|x l IH]; simpl; [lia|]. intros Hp. destruct (decide (0 < f x)); [by exists 0%nat, x|].
  destruct IH as (i & y & ? & ?); [lia|]. by exists (Datatypes.S i), y.
Qed.

Lemma sum_insert {A} (f : A → nat) l i x y :
  l !! i = Some x → (sum_list_with f (<[i := y]> l) + f x = sum_list_with f l + f y)%nat.
Proof.
  revert i. induction l as [|z l IH]; intros [|i] Hi; [done|done| |].
  - injection Hi as ->. cbn. lia.
  - cbn in Hi. specialize (IH i Hi). change (f z + sum_list_with f (<[i := y]> l) + f x = f z + sum_list_with f l + f y)%nat. lia.
Qed.

Lemma zsum_zero {A} (f : A → Z) l : Forall (λ x, f x = 0) l → zsum f l = 0.
Proof. induction 1; simpl; lia. Qed.

(** ** Arrays written in increasing order

    [progress f g i m arr]: of the first [m] elements, those before [i] hold
    [g], the others still [f]. *)
Definition progress {A} (f g : nat → A) (i m : nat) (arr : list A) : Prop :=
  ∀ k, (k < m)%nat → arr !! k = Some (if decide (k < i)%nat then g k else f k).

Section Progress.
Context {A : Type} (f g : nat → A).

Lemma progress_write i m arr :
  progress f g i m arr → (i < m)%nat → progress f g (S i) m (<[i := g i]> arr).
Proof.
  intros Hp Hi k Hk. destruct (decide (k = i)) as [->|Hne].
  - rewrite list_lookup_insert_eq by (eapply lookup_lt_Some, Hp; lia). by rewrite decide_True by lia.
  - rewrite list_lookup_insert_ne by done. rewrite Hp by done.
    repeat case_decide; try done; lia.
Qed.

Lemma progress_read i m arr : progress f g i m arr → (i < m)%nat → arr !! i = Some (f i).
Proof. intros Hp Hi. rewrite Hp by done. by rewrite decide_False by lia. Qed.

Lemma progress_length i m arr : progress f g i m arr → (m ≤ length arr)%nat.
Proof.
  intros Hp. destruct m as [|m]; [lia|].
  pose proof (lookup_lt_Some _ _ _ (Hp m ltac:(lia))). lia.
Qed.

Lemma progress_done m arr k : progress f g m m arr → (k < m)%nat → arr !! k = Some (g k).
Proof. intros Hp Hk. rewrite Hp by done. by rewrite decide_True. Qed.

(** The write that the loops make at index [i]. *)
Lemma progress_write_at i m arr :
  progress f g i m arr → (i < m)%nat →
  array_write arr (Z.of_nat i) (g i) = Ok (<[i := g i]> arr).
Proof.
  intros Hp Hi. pose proof (progress_length _ _ _ Hp).
  rewrite array_write_ok by lia. by rewrite Nat2Z.id.
Qed.
End Progress.

(** Any array is at the start of its progress. *)
Lemma progress_start {A} (g : nat → A) arr (d : A) :
  progress (λ k, default d (arr !! k)) g 0 (length arr) arr.
Proof.
  intros k Hk. rewrite decide_False by lia.
  destruct (lookup_lt_is_Some_2 arr k Hk) as [x ->]. done.
Qed.

Lemma progress_mono {A} (f g : nat → A) i m m' arr :
  progress f g i m arr → (m' ≤ m)%nat → progress f g i m' arr.
Proof. intros Hp Hm k Hk. apply Hp. lia. Qed.

(** Ending one pass and starting the next. *)
Lemma progress_next {A} (f g h : nat → A) m arr : progress f g m m arr → progress g h 0 m arr.
Proof. intros Hp k Hk. rewrite decide_False by lia. by apply (progress_done f g m). Qed.

(** ** Positions on a ring of size [n] *)
Section Ring.
Context (n : Z) (n_pos : 0 < n).

Lemma ring_add a b : (a mod n + b) mod n = (a + b) mod n.
Proof. apply Zplus_mod_idemp_l. Qed.

Lemma ring_bound a : 0 ≤ a mod n < n.
Proof. by apply Z.mod_pos_bound. Qed.

Lemma ring_inj h i j :
  0 ≤ i < n → 0 ≤ j < n → (h + i) mod n = (h + j) mod n → i = j.
Proof.
  intros Hi Hj H.
  assert (E : (i - j) mod n = 0).
  { replace (i - j) with ((h + i) - (h + j)) by lia.
    rewrite Zminus_mod, H, Z.sub_diag. apply Z.mod_0_l. lia. }
  apply Z.mod_divide in E as [k Hk]; [|lia].
  assert (k = 0) by nia. lia.
Qed.
End Ring.

(** ** Labelled executions

    [exec step s tr s'] : a finite sequence of steps from [s] to [s'] whose
    visible labels are, in order, [tr].  Silent steps carry [None]. *)
Section Exec.
Context {S E : Type} (step : S → option E → S → Prop).

Inductive exec : S → list E → S → Prop :=
  | exec_nil s : exec s [] s
  | exec_snoc s tr s' o s'' :
      exec s tr s' → step s' o s'' → exec s (tr ++ option_list o) s''.

Definition reachable (init s : S) : Prop := ∃ tr, exec init tr s.

Lemma exec_invariant (I : S → Prop) s tr s' :
  (∀ s o s', I s → step s o s' → I s') → I s → exec s tr s' → I s'.
Proof. intros Hs Hi. induction 1; eauto. Qed.

Lemma reachable_invariant (I : S → Prop) s s' :
  (∀ s o s', I s → step s o s' → I s') → I s → reachable s s' → I s'.
Proof. intros Hs Hi [tr Hr]. by eapply exec_invariant. Qed.

(** A trace invariant relates the labels so far to the state. *)
Lemma exec_trace_invariant (I : list E → S → Prop) s tr s' :
  (∀ tr s o s', I tr s → step s o s' → I (tr ++ option_list o) s') →
  I [] s → exec s tr s' → I tr s'.
Proof. intros Hs Hi. induction 1; eauto. Qed.

Lemma exec_trans s tr s' tr' s'' :
  exec s tr s' → exec s' tr' s'' → exec s (tr ++ tr') s''.
Proof.
  intros H1. induction 1; [by rewrite app_nil_r|].
  rewrite app_assoc. econstructor; eauto.
Qed.

Lemma exec_one s o s' : step s o s' → exec s (option_list o) s'.
Proof. intros H. apply (exec_snoc s [] s o s'); [constructor|done]. Qed.
End Exec.

(** ** Automation *)
Create HintDb blp.
Create Rewrite HintDb blp.
#[export] Hint Resolve u32_bounds u16_bounds : blp.
#[export] Hint Constructors exec : blp.


Lemma Ok_inj {A} (x y : A) : Ok x = Ok y → x = y.
Proof. by intros [= ->]. Qed.
Lemma Ok_pair {A B} (a a' : A) (b b' : B) : Ok (a, b) = Ok (a', b') ↔ a = a' ∧ b = b'.
Proof. split; [|by intros [-> ->]]. intros H. by injection H. Qed.

(** Run the binds whose computation is a value. *)
Tactic Notation "simpl_bind" := cbn [mbind outcome_bind].
Tactic Notation "simpl_bind" "in" hyp(H) := cbn [mbind outcome_bind] in H.

(** Open every bind of a computation that returned [Ok]. *)
Ltac inv_ok :=
  repeat match goal with
  | H : _ ≫= _ = Ok _ |- _ => apply bind_Ok in H as (? & ? & H)
  | H : int_of _ = Ok _ |- _ => apply int_of_Ok in H as [-> ?]
  | H : array_read _ _ = Ok _ |- _ => apply array_read_Ok in H as [? ?]
  | H : array_write _ _ _ = Ok _ |- _ => apply array_write_Ok in H as [? ->]
  | H : Ok (_, _) = Ok (_, _) |- _ => apply Ok_pair in H as [? ?]; subst
  | H : Ok _ = Ok _ |- _ => injection H as H; subst
  end.
