(* ===== verification/Bytes.v ===== *)
(** * Objects in memory

    Regions of bytes (a mapped file or object, the contents of a file), the
    parts of them a program writes and reads, and 32-bit words in them.  A
    byte is its code, 0 to 255. *)
From S2P Require Import Prelude.

(** ** Words: little-endian *)
Definition le32 (z : Z) : list Z :=
  [z mod 256; z / 256 mod 256; z / 65536 mod 256; z / 16777216 mod 256].

Definition of_le32 (bs : list Z) : Z :=
  match bs with
  | a :: b :: c :: d :: _ => a + 256 * b + 65536 * c + 16777216 * d
  | _ => 0
  end.

(** ** Parts of a region *)

(** [memcpy] of [bs] to, and of [n] bytes from, the offset [off]. *)
Definition write_bytes (m : list Z) (off : nat) (bs : list Z) : outcome (list Z) :=
  if (off + length bs <=? length m)%nat
  then Ok (take off m ++ bs ++ drop (off + length bs) m) else Fault OutOfBounds.

Definition read_bytes (m : list Z) (off n : nat) : outcome (list Z) :=
  if (off + n <=? length m)%nat then Ok (take n (drop off m)) else Fault OutOfBounds.

(** ** Proofs *)
Definition byte_ok (b : Z) : Prop := 0 ≤ b < 256.

Lemma le32_length z : length (le32 z) = 4%nat.
Proof. done. Qed.

Lemma le32_bytes z : Forall byte_ok (le32 z).
Proof. repeat constructor; apply Z.mod_pos_bound; lia. Qed.

(** A word read back; what follows it does not matter. *)
Lemma of_le32_le32 z rest : of_le32 (le32 z ++ rest) = u32 z.
Proof.
  unfold le32, of_le32, u32. cbn [app].
  pose proof (Z.div_mod z 256 ltac:(lia)). pose proof (Z.div_mod (z / 256) 256 ltac:(lia)) as H1.
  pose proof (Z.div_mod (z / 65536) 256 ltac:(lia)) as H2.
  pose proof (Z.div_mod (z / 16777216) 256 ltac:(lia)) as H3.
  rewrite Z.div_div in H1 by lia. rewrite Z.div_div in H2 by lia. rewrite Z.div_div in H3 by lia.
  change (256 * 256) with 65536 in H1. change (65536 * 256) with 16777216 in H2.
  change (16777216 * 256) with 4294967296 in H3.
  apply (Z.mod_unique z 4294967296 (z / 4294967296)); [left|lia].
  pose proof (Z.mod_pos_bound z 256). pose proof (Z.mod_pos_bound (z / 256) 256).
  pose proof (Z.mod_pos_bound (z / 65536) 256). pose proof (Z.mod_pos_bound (z / 16777216) 256). lia.
Qed.

Lemma of_le32_bound bs : Forall byte_ok bs → 0 ≤ of_le32 bs < 4294967296.
Proof.
  unfold of_le32, byte_ok. intros Hb. destruct bs as [|a [|b [|c [|d r]]]]; try lia.
  rewrite !Forall_cons in Hb. lia.
Qed.

Lemma write_bytes_ok m off bs :
  (off + length bs ≤ length m)%nat →
  write_bytes m off bs = Ok (take off m ++ bs ++ drop (off + length bs) m).
Proof. intros H. unfold write_bytes. by rewrite (proj2 (Nat.leb_le _ _)). Qed.

Lemma read_bytes_ok m off n : (off + n ≤ length m)%nat → read_bytes m off n = Ok (take n (drop off m)).
Proof. intros H. unfold read_bytes. by rewrite (proj2 (Nat.leb_le _ _)). Qed.

Lemma write_bytes_Ok m off bs m' :
  write_bytes m off bs = Ok m' ↔
  (off + length bs ≤ length m)%nat ∧ m' = take off m ++ bs ++ drop (off + length bs) m.
Proof.
  unfold write_bytes. destruct (Nat.leb_spec (off + length bs) (length m)); intuition (congruence || lia).
Qed.

Lemma write_bytes_length m off bs m' : write_bytes m off bs = Ok m' → length m' = length m.
Proof.
  intros [H ->]%write_bytes_Ok. rewrite !length_app, length_take, length_drop. lia.
Qed.

(** What was written is read back, and nothing else has changed. *)
Lemma read_written m off bs m' n :
  write_bytes m off bs = Ok m' → n = length bs → take n (drop off m') = bs.
Proof.
  intros [H ->]%write_bytes_Ok ->. rewrite drop_app_length' by (rewrite length_take; lia).
  by apply take_app_length'.
Qed.

Lemma read_other m off bs m' o n :
  write_bytes m off bs = Ok m' → (o + n ≤ off ∨ off + length bs ≤ o)%nat →
  take n (drop o m') = take n (drop o m).
Proof.
  intros [H ->]%write_bytes_Ok Ho. assert (Lo : length (take off m) = off) by (rewrite length_take; lia).
  destruct (decide (o + n ≤ off)%nat) as [Hlt|Hge].
  - rewrite drop_app_le by lia. rewrite take_app_le by (rewrite length_drop; lia).
    rewrite skipn_firstn_comm, take_take. f_equal. lia.
  - rewrite drop_app_ge by lia. rewrite Lo, drop_app_ge by lia. rewrite drop_drop. do 2 f_equal. lia.
Qed.

(** Writing inside one of the parts of a region. *)
Lemma write_part pre r post o bs r' :
  write_bytes r o bs = Ok r' →
  write_bytes (pre ++ r ++ post) (length pre + o) bs = Ok (pre ++ r' ++ post).
Proof.
  intros [H ->]%write_bytes_Ok. rewrite write_bytes_ok by (rewrite !length_app; lia). f_equal.
  rewrite <-!app_assoc. rewrite take_app_ge, drop_app_ge by lia.
  replace (length pre + o - length pre)%nat with o by lia.
  replace (length pre + o + length bs - length pre)%nat with (o + length bs)%nat by lia.
  rewrite take_app_le, drop_app_le by lia. by rewrite <-!app_assoc.
Qed.

Lemma read_part pre r post o n :
  (o + n ≤ length r)%nat → read_bytes (pre ++ r ++ post) (length pre + o) n = read_bytes r o n.
Proof.
  intros H. rewrite !read_bytes_ok by (rewrite ?length_app; lia). f_equal.
  rewrite drop_app_ge by lia. replace (length pre + o - length pre)%nat with o by lia.
  rewrite drop_app_le by lia. apply take_app_le. rewrite length_drop. lia.
Qed.
