(* ===== verification/Digits.v ===== *)
(** * Digits and C strings

    The digits of a number in a base, as [printf]'s [%d], [itoa] and [atoi]
    need them, and C strings in a character array. *)
From S2P Require Import Prelude.

(** The digits of [n], least significant first.  [fuel] bounds their number. *)
Fixpoint digits_rev (fuel : nat) (base n : Z) : list Z :=
  match fuel with
  | O => []
  | S f => if n =? 0 then [] else n mod base :: digits_rev f base (n / base)
  end.

(** The number a list of digits denotes, least significant first. *)
Fixpoint value_rev (base : Z) (ds : list Z) : Z :=
  match ds with [] => 0 | d :: r => d + base * value_rev base r end.

(** Thirty-two digits are enough for 32 bits in any base from 2 on. *)
Definition WORD_DIGITS : nat := 32.

(** The digits of [n] as printed: most significant first, "0" for zero. *)
Definition digits (base n : Z) : list Z :=
  if n =? 0 then [0] else rev (digits_rev WORD_DIGITS base n).

(** [printf]'s [%d]: ASCII digits, with a sign. *)
Definition print_d (z : Z) : list Z :=
  if z <? 0 then 45 :: ((λ d, d + 48) <$> digits 10 (- z))
  else (λ d, d + 48) <$> digits 10 z.

(** Storing a string and its NUL at the start of a character array: what
    [strcpy] and [sprintf] do, a fault when it does not fit. *)
Definition store_string (buf s : list Z) : outcome (list Z) :=
  if (length s <? length buf)%nat then Ok (s ++ 0 :: drop (S (length s)) buf)
  else Fault OutOfBounds.

(** Reading a string up to its NUL: a fault when the array holds none. *)
Fixpoint c_string (buf : list Z) : outcome (list Z) :=
  match buf with
  | [] => Fault OutOfBounds
  | c :: r => if c =? 0 then Ok [] else s ← c_string r; Ok (c :: s)
  end.

(** [strncpy(dst, s, n)] into an array of [n] characters: padded with NULs,
    without one when [s] is too long. *)
Definition strncpy (n : nat) (s : list Z) : list Z :=
  take n s ++ replicate (n - length s) 0.

(** ** Proofs *)
Section Base.
Context (base : Z) (base_ge : 2 ≤ base).

Lemma digits_rev_value fuel n :
  0 ≤ n < base ^ Z.of_nat fuel → value_rev base (digits_rev fuel base n) = n.
Proof.
  revert n. induction fuel as [|f IH]; intros n Hn; simpl.
  - simpl in Hn. lia.
  - destruct (Z.eqb_spec n 0); [done|]. simpl.
    rewrite Nat2Z.inj_succ, Z.pow_succ_r in Hn by lia.
    rewrite IH; [pose proof (Z.div_mod n base); lia|].
    split; [apply Z.div_pos; lia|]. apply Z.div_lt_upper_bound; lia.
Qed.

Lemma digits_rev_range fuel n : 0 ≤ n → Forall (λ d, 0 ≤ d < base) (digits_rev fuel base n).
Proof.
  revert n. induction fuel as [|f IH]; intros n Hn; simpl; [constructor|].
  destruct (Z.eqb_spec n 0); [constructor|]. constructor; [apply Z.mod_pos_bound; lia|].
  apply IH, Z.div_pos; lia.
Qed.

(** [n] has at most [k] digits exactly when it is below [base ^ k]. *)
Lemma digits_rev_length fuel n k :
  0 ≤ n < base ^ Z.of_nat fuel →
  (length (digits_rev fuel base n) ≤ k)%nat ↔ n < base ^ Z.of_nat k.
Proof.
  revert n k. induction fuel as [|f IH]; intros n k Hn; simpl.
  - simpl in Hn. pose proof (Z.pow_pos_nonneg base (Z.of_nat k)). lia.
  - rewrite Nat2Z.inj_succ, Z.pow_succ_r in Hn by lia.
    destruct (Z.eqb_spec n 0) as [->|Hne]; simpl.
    { pose proof (Z.pow_pos_nonneg base (Z.of_nat k)). lia. }
    destruct k as [|k]; [simpl; lia|].
    rewrite Nat2Z.inj_succ, Z.pow_succ_r by lia.
    rewrite <-Nat.succ_le_mono, IH.
    + split; intros Hlt.
      * pose proof (Z.div_mod n base ltac:(lia)). pose proof (Z.mod_pos_bound n base). nia.
      * apply Z.div_lt_upper_bound; lia.
    + split; [apply Z.div_pos; lia|]. apply Z.div_lt_upper_bound; lia.
Qed.

Lemma digits_rev_fuel f1 f2 n :
  0 ≤ n < base ^ Z.of_nat f1 → (f1 ≤ f2)%nat → digits_rev f2 base n = digits_rev f1 base n.
Proof.
  revert f2 n. induction f1 as [|f IH]; intros f2 n Hn Hf; simpl.
  - simpl in Hn. assert (n = 0) as -> by lia. by destruct f2.
  - destruct f2 as [|f2]; [lia|]. simpl. destruct (Z.eqb_spec n 0); [done|].
    rewrite Nat2Z.inj_succ, Z.pow_succ_r in Hn by lia. f_equal. apply IH; [|lia].
    split; [apply Z.div_pos; lia|]. apply Z.div_lt_upper_bound; lia.
Qed.

(** Reading the digits most significant first, as [atoi] does. *)
Lemma foldl_digits ds :
  foldl (λ a d, base * a + d) 0 (rev ds) = value_rev base ds.
Proof. induction ds as [|d ds IH]; [done|]. simpl. rewrite foldl_app, IH. simpl. lia. Qed.

Lemma foldl_digits_ge ds acc :
  0 ≤ acc → Forall (λ d, 0 ≤ d) ds → acc ≤ foldl (λ a d, base * a + d) acc ds.
Proof.
  intros Ha Hd. revert acc Ha. induction Hd as [|d ds Hd _ IH]; intros acc Ha; simpl; [lia|].
  specialize (IH (base * acc + d)). nia.
Qed.
End Base.

Definition is_word (n : Z) : Prop := 0 ≤ n < 4294967296.

Lemma word_fuel base n : 2 ≤ base → is_word n → 0 ≤ n < base ^ Z.of_nat WORD_DIGITS.
Proof.
  intros Hb [H0 H1]. split; [done|]. eapply Z.lt_le_trans; [exact H1|].
  change 4294967296 with (2 ^ Z.of_nat WORD_DIGITS). apply Z.pow_le_mono_l. lia.
Qed.

Lemma digits_value base n :
  2 ≤ base → is_word n → foldl (λ a d, base * a + d) 0 (digits base n) = n.
Proof.
  intros Hb Hn. unfold digits. destruct (Z.eqb_spec n 0) as [->|]; [simpl; lia|].
  rewrite foldl_digits. apply digits_rev_value; [done|]. by apply word_fuel.
Qed.

Lemma digits_range base n : 2 ≤ base → 0 ≤ n → Forall (λ d, 0 ≤ d < base) (digits base n).
Proof.
  intros Hb Hn. unfold digits. destruct (n =? 0); [repeat constructor; lia|].
  apply Forall_rev. by apply digits_rev_range.
Qed.

(** A positive word has at most [k] digits exactly below [base ^ k]. *)
Lemma digits_length base n k :
  2 ≤ base → is_word n → (0 < k)%nat →
  (length (digits base n) ≤ k)%nat ↔ n < base ^ Z.of_nat k.
Proof.
  intros Hb Hn Hk. unfold digits. destruct (Z.eqb_spec n 0) as [->|].
  - simpl. pose proof (Z.pow_pos_nonneg base (Z.of_nat k)). lia.
  - rewrite length_rev. apply digits_rev_length; [done|]. by apply word_fuel.
Qed.

Lemma store_string_ok buf s :
  (length s < length buf)%nat → store_string buf s = Ok (s ++ 0 :: drop (S (length s)) buf).
Proof. intros H. unfold store_string. by rewrite (proj2 (Nat.ltb_lt _ _) H). Qed.

Lemma store_string_length buf s :
  (length s < length buf)%nat → length (s ++ 0 :: drop (S (length s)) buf) = length buf.
Proof. intros H. rewrite length_app. simpl. rewrite length_drop. lia. Qed.

Lemma store_string_fault buf s :
  (length buf ≤ length s)%nat → store_string buf s = Fault OutOfBounds.
Proof. intros H. unfold store_string. by rewrite (proj2 (Nat.ltb_ge _ _) H). Qed.

(** A string of non-NUL characters followed by a NUL reads back as itself. *)
Lemma c_string_app s rest : Forall (λ c, c ≠ 0) s → c_string (s ++ 0 :: rest) = Ok s.
Proof.
  induction 1 as [|c s Hc _ IH]; simpl; [done|].
  rewrite (proj2 (Z.eqb_neq c 0) Hc), IH. done.
Qed.

Lemma c_string_no_nul s : Forall (λ c, c ≠ 0) s → c_string s = Fault OutOfBounds.
Proof.
  induction 1 as [|c s Hc _ IH]; simpl; [done|].
  by rewrite (proj2 (Z.eqb_neq c 0) Hc), IH.
Qed.

Lemma strncpy_length n s : length (strncpy n s) = n.
Proof. unfold strncpy. rewrite length_app, length_take, length_replicate. lia. Qed.

Lemma strncpy_c_string n s :
  Forall (λ c, c ≠ 0) s →
  c_string (strncpy n s) = if (length s <? n)%nat then Ok s else Fault OutOfBounds.
Proof.
  intros Hs. unfold strncpy. destruct (Nat.ltb_spec (length s) n).
  - rewrite take_ge by lia. replace (n - length s)%nat with (S (n - length s - 1)) by lia.
    simpl. by apply c_string_app.
  - replace (n - length s)%nat with 0%nat by lia. rewrite app_nil_r.
    apply c_string_no_nul. by apply Forall_take.
Qed.

Lemma print_d_nonnul z : Forall (λ c, c ≠ 0) (print_d z).
Proof.
  assert (D : ∀ n, 0 ≤ n → Forall (λ c, c ≠ 0) ((λ d, d + 48) <$> digits 10 n)).
  { intros n Hn. apply Forall_fmap. eapply Forall_impl; [by apply (digits_range 10)|].
    simpl. lia. }
  unfold print_d. destruct (Z.ltb_spec z 0); [constructor; [lia|]|]; apply D; lia.
Qed.

Lemma print_d_length z k :
  0 ≤ z < 4294967296 → (0 < k)%nat → (length (print_d z) ≤ k)%nat ↔ z < 10 ^ Z.of_nat k.
Proof.
  intros Hz Hk. unfold print_d. destruct (Z.ltb_spec z 0); [lia|].
  rewrite length_fmap. apply digits_length; [lia|done|done].
Qed.

Lemma digits_nonempty base n : (1 ≤ length (digits base n))%nat.
Proof.
  unfold digits. destruct (Z.eqb_spec n 0) as [|Hn]; [done|]. rewrite length_rev.
  change WORD_DIGITS with (S 31). generalize 31%nat as f. intros f. simpl.
  destruct (Z.eqb_spec n 0); [done|]. simpl. lia.
Qed.

Lemma print_d_nonempty z : (1 ≤ length (print_d z))%nat.
Proof.
  unfold print_d. destruct (z <? 0); simpl; [lia|].
  rewrite length_fmap. apply digits_nonempty.
Qed.

Lemma digits_rev_max fuel base n : (length (digits_rev fuel base n) ≤ fuel)%nat.
Proof.
  revert n. induction fuel as [|f IH]; intros n; simpl; [lia|].
  destruct (n =? 0); simpl; [lia|]. specialize (IH (n / base)). lia.
Qed.
