(* ===== verification/FileTests.v ===== *)
(** * Chapter 3: programs on files

    [main] of Chapter03/test.c, which writes three numbers to a file and reads
    them back, and of Chapter03/mmap_test.c, which writes records to a file,
    changes them in a mapping of the file and reads them back.  The bytes of
    the file are modelled; which calls fail is an argument. *)
From S2P Require Import Prelude Bytes Digits.

(** ** Streams of the C library *)

(** An open [FILE]: the contents of its file and the position in it. *)
Record FILE := MkFile { f_contents : list Z; f_pos : nat }.

(** [fopen] with mode "w+", which empties the file, and with mode "r". *)
Definition fopen_w : FILE := MkFile [] 0.
Definition fopen_r (contents : list Z) : FILE := MkFile contents 0.

(** [fwrite(p, length bs, 1, fd)]. *)
Definition fwrite (bs : list Z) (fd : FILE) : FILE :=
  MkFile (take (f_pos fd) (f_contents fd) ++ bs ++ drop (f_pos fd + length bs) (f_contents fd))
    (f_pos fd + length bs).

(** [fread(p, length target, 1, fd)] into the bytes [target], which keep their
    end when the file is too short. *)
Definition fread (target : list Z) (fd : FILE) : list Z * FILE :=
  let got := take (length target) (drop (f_pos fd) (f_contents fd)) in
  (got ++ drop (length got) target, MkFile (f_contents fd) (f_pos fd + length got)).

Definition fseek_set (offset : nat) (fd : FILE) : FILE := MkFile (f_contents fd) offset.

(** ** test.c *)

(** The bits of the [float] 4.5. *)
Definition float_4_5 : Z := 1083179008.

(** The part of [main] between the two [fopen]-dependent ends, for any values
    of [a], [b] (ints) and [c] (the bits of a float). *)
Definition write_and_read (a b c : Z) : Z * Z * Z * FILE :=
  let fd := fwrite (le32 c) (fwrite (le32 b) (fwrite (le32 a) fopen_w)) in
  let fd := fseek_set 0 fd in
  let '(a', fd) := fread (le32 0) fd in
  let '(b', fd) := fread (le32 0) fd in
  let '(c', fd) := fread (le32 0) fd in
  (s32 (of_le32 a'), s32 (of_le32 b'), of_le32 c', fd).

(** [main]: its status, and what it prints. *)
Definition test_main (fopen_ok : bool) : Z * option (Z * Z * Z) :=
  if fopen_ok
  then let '(a, b, c, _) := write_and_read 2 3 float_4_5 in (0, Some (a, b, c))
  else (1, None).

(** ** mmap_test.c *)
Definition MAX_NAME_LEN : nat := 36.
(** [sizeof(Record)]: the id, 37 characters and three bytes of padding. *)
Definition sizeof_Record : nat := 44.
Definition RECORD_COUNT : nat := 60.

(** "Record with id of %d" *)
Definition name_text (d : Z) : list Z :=
  [82;101;99;111;114;100;32;119;105;116;104;32;105;100;32;111;102;32] ++ print_d d.

(** [sprintf(r.name, "Record with id of %d", d)] for the record at [off]. *)
Definition sprintf_name (m : list Z) (off : nat) (d : Z) : outcome (list Z) :=
  if (length (name_text d) <? MAX_NAME_LEN + 1)%nat
  then write_bytes m (off + 4) (name_text d ++ [0]) else Fault OutOfBounds.

(** The first loop, from [i] on with [n] iterations left. *)
Fixpoint write_records (n : nat) (i : Z) (rec : list Z) (fd : FILE) : outcome (list Z * FILE) :=
  match n with
  | O => Ok (rec, fd)
  | S n' =>
      rec ← write_bytes rec 0 (le32 i);
      rec ← sprintf_name rec 0 i;
      write_records n' (i + 1) rec (fwrite rec fd)
  end.

(** [recArr[i].id]. *)
Definition record_id (m : list Z) (i : nat) : outcome Z :=
  bs ← read_bytes m (i * sizeof_Record) 4; Ok (of_le32 bs).

(** The second loop, on the mapping. *)
Fixpoint modify_records (n i : nat) (m : list Z) : outcome (list Z) :=
  match n with
  | O => Ok m
  | S n' =>
      v ← record_id m i;
      m ← write_bytes m (i * sizeof_Record) (le32 (u32 (v + 100)));
      v ← record_id m i;
      m ← sprintf_name m (i * sizeof_Record) (s32 v);
      modify_records n' (S i) m
  end.

(** The third loop. *)
Fixpoint verify_records (n : nat) (i : Z) (rec : list Z) (fd : FILE) : outcome (list Z * FILE) :=
  match n with
  | O => Ok (rec, fd)
  | S n' =>
      let '(rec, fd) := fread rec fd in
      if of_le32 rec =? u32 (i + 100) then verify_records n' (i + 1) rec fd else Fault AssertFailed
  end.

(** Which of the calls that give access to the file succeed. *)
Record file_answers := FileAnswers { a_fopen_w : bool; a_open : bool; a_mmap : bool; a_fopen_r : bool }.

(** [mmap] of the whole file, shared, and the file after [munmap]. *)
Definition mapping (contents : list Z) : list Z := take (RECORD_COUNT * sizeof_Record) contents.
Definition unmap (contents m : list Z) : list Z := m ++ drop (RECORD_COUNT * sizeof_Record) contents.

(** [main], with the indeterminate bytes [junk] of [rec]: its status and the
    contents of the file.  A stream or a mapping that could not be had is used
    all the same. *)
Definition mmap_test_main (a : file_answers) (junk : list Z) : outcome (Z * list Z) :=
  if negb (a_fopen_w a) then Fault NullPointer else
  '(rec, fd) ← write_records RECORD_COUNT 0 junk fopen_w;
  if negb (a_open a && a_mmap a) then Fault OutOfBounds else
  m ← modify_records RECORD_COUNT 0 (mapping (f_contents fd));
  let contents := unmap (f_contents fd) m in
  if negb (a_fopen_r a) then Fault NullPointer else
  '(_, fd) ← verify_records RECORD_COUNT 0 rec (fopen_r contents);
  Ok (0, f_contents fd).

(** ** Specification *)

(** The bytes of a record with this id and the name made from it. *)
Record is_record (d : Z) (bs : list Z) : Prop := {
  ir_length : length bs = sizeof_Record;
  ir_id : take 4 bs = le32 d;
  ir_name : c_string (drop 4 bs) = Ok (name_text d)
}.

(** ** Proofs: streams *)
Lemma fwrite_end bs contents :
  fwrite bs (MkFile contents (length contents)) = MkFile (contents ++ bs) (length (contents ++ bs)).
Proof.
  unfold fwrite. cbn [f_pos f_contents]. by rewrite take_ge, drop_ge, app_nil_r, length_app by lia.
Qed.

Lemma fread_part pre bs post target :
  length target = length bs →
  fread target (MkFile (pre ++ bs ++ post) (length pre)) =
    (bs, MkFile (pre ++ bs ++ post) (length (pre ++ bs))).
Proof.
  intros Hl. unfold fread. cbn [f_pos f_contents]. rewrite drop_app_length, Hl, take_app_length.
  by rewrite <-Hl, drop_all, app_nil_r, Hl, length_app.
Qed.

Lemma of_le32_word z : of_le32 (le32 z) = u32 z.
Proof. rewrite <-(app_nil_r (le32 z)). apply of_le32_le32. Qed.

Lemma write_and_read_ok a b c :
  INT_MIN ≤ a ≤ INT_MAX → INT_MIN ≤ b ≤ INT_MAX → 0 ≤ c < 4294967296 →
  write_and_read a b c = (a, b, c, MkFile (le32 a ++ le32 b ++ le32 c) 12).
Proof.
  intros Ha Hb Hc. unfold write_and_read, fopen_w, fseek_set.
  change (MkFile [] 0) with (MkFile [] (length (@nil Z))). rewrite !fwrite_end. cbn [f_contents app].
  rewrite <-!app_assoc. change (MkFile ?l 0) with (MkFile l (length (@nil Z))).
  pose proof (fread_part [] (le32 a) (le32 b ++ le32 c) (le32 0) eq_refl) as E1.
  pose proof (fread_part (le32 a) (le32 b) (le32 c) (le32 0) eq_refl) as E2.
  pose proof (fread_part (le32 a ++ le32 b) (le32 c) [] (le32 0) eq_refl) as E3.
  rewrite app_nil_r, <-app_assoc in E3. cbn [app] in E1. rewrite E1. cbn [app]. rewrite E2, E3.
  by rewrite !of_le32_word, !s32_u32, u32_small by done.
Qed.

(** ** Proofs: records *)
Lemma print_d_small d : 0 ≤ d < 4294967296 → (length (print_d d) ≤ 10)%nat.
Proof. intros Hd. apply print_d_length; [done|lia|]. change (10 ^ Z.of_nat 10) with 10000000000. lia. Qed.

Lemma name_text_length d : 0 ≤ d < 4294967296 → (length (name_text d) ≤ 28)%nat.
Proof. intros Hd. unfold name_text. rewrite length_app. pose proof (print_d_small d Hd). cbn [length]. lia. Qed.

Lemma name_text_nonnul d : Forall (λ c, c ≠ 0) (name_text d).
Proof. unfold name_text. apply Forall_app. split; [repeat constructor; lia|apply print_d_nonnul]. Qed.

(** The name of a record is replaced, its id stays. *)
Lemma sprintf_name_ok r d :
  length r = sizeof_Record → 0 ≤ d < 4294967296 →
  ∃ r', write_bytes r 4 (name_text d ++ [0]) = Ok r' ∧ sprintf_name r 0 d = Ok r' ∧
    length r' = sizeof_Record ∧ take 4 r' = take 4 r ∧ c_string (drop 4 r') = Ok (name_text d).
Proof.
  intros Hr Hd. pose proof (name_text_length d Hd) as Hl.
  assert (Hfit : (4 + length (name_text d ++ [0%Z]) ≤ length r)%nat)
    by (rewrite length_app, Hr; unfold sizeof_Record; cbn [length]; lia).
  eexists. split; [by apply write_bytes_ok|]. pose proof (write_bytes_ok _ _ _ Hfit) as E.
  unfold sprintf_name. rewrite (proj2 (Nat.ltb_lt _ _)) by (unfold MAX_NAME_LEN; lia).
  split; [exact E|]. split; [by rewrite (write_bytes_length _ _ _ _ E)|]. split.
  - pose proof (read_other _ _ _ _ 0 4 E ltac:(left; lia)) as Ht. by rewrite !drop_0 in Ht.
  - rewrite drop_app_length' by (rewrite length_take; lia). rewrite <-app_assoc.
    apply c_string_app, name_text_nonnul.
Qed.

(** Cooking the record [d] over any record. *)
Lemma set_record_ok r d :
  length r = sizeof_Record → 0 ≤ d < 4294967296 →
  ∃ r1 r', write_bytes r 0 (le32 d) = Ok r1 ∧ of_le32 r1 = d ∧ length r1 = sizeof_Record ∧
    write_bytes r1 4 (name_text d ++ [0]) = Ok r' ∧ sprintf_name r1 0 d = Ok r' ∧ is_record d r'.
Proof.
  intros Hr Hd. pose proof (write_bytes_ok r 0 (le32 d)) as E1. cbn [take app] in E1.
  rewrite le32_length in E1. rewrite Hr in E1. specialize (E1 ltac:(unfold sizeof_Record; lia)).
  eexists. pose proof (write_bytes_length _ _ _ _ E1) as L1. rewrite Hr in L1.
  destruct (sprintf_name_ok _ d L1 Hd) as (r' & E2 & E3 & L2 & T2 & N2).
  exists r'. split_and!; [exact E1| |exact L1|exact E2|exact E3|].
  - rewrite take_0, app_nil_l. by rewrite of_le32_le32, u32_small.
  - split; [done| |done]. rewrite T2, take_0, app_nil_l. by apply take_app_length'.
Qed.

Lemma write_records_ok n i rec contents :
  length rec = sizeof_Record → 0 ≤ i → i + Z.of_nat n ≤ INT_MAX →
  ∃ rec' rs, write_records n i rec (MkFile contents (length contents)) =
      Ok (rec', MkFile (contents ++ concat rs) (length (contents ++ concat rs))) ∧
    length rec' = sizeof_Record ∧ Forall2 is_record (seqZ i (Z.of_nat n)) rs.
Proof.
  revert i rec contents. induction n as [|n IH]; intros i rec contents Hr Hi Hn; cbn [write_records].
  - exists rec, []. rewrite app_nil_r. by split_and!.
  - destruct (set_record_ok rec i Hr) as (r1 & r' & E1 & _ & _ & _ & E2 & Hrec);
      [unfold INT_MAX in Hn; lia|].
    rewrite E1. simpl_bind. rewrite E2. simpl_bind. rewrite fwrite_end.
    destruct (IH (i + 1) r' (contents ++ r')) as (rec' & rs & E & L & F); [apply Hrec|lia|lia|].
    exists rec', (r' :: rs). cbn [concat]. rewrite app_assoc. split_and!; [exact E|exact L|].
    rewrite seqZ_cons by lia. constructor; [done|].
    by replace (Z.pred (Z.of_nat (S n))) with (Z.of_nat n) by lia.
Qed.

(** The second loop: the records [rs] from the [i]th on get [100] added. *)
Lemma modify_records_ok rs i ids pre :
  length pre = (i * sizeof_Record)%nat → Forall2 is_record ids rs →
  Forall (λ d, 0 ≤ d ∧ d + 100 ≤ INT_MAX) ids →
  ∃ rs', modify_records (length rs) i (pre ++ concat rs) = Ok (pre ++ concat rs') ∧
    Forall2 is_record ((λ d, d + 100) <$> ids) rs'.
Proof.
  intros Hp Hr. revert i pre Hp. induction Hr as [|d r ids rs Hd Hr IH]; intros i pre Hp Hf; cbn [length modify_records].
  - exists []. by split.
  - inversion Hf as [|? ? [Hd0 Hd1] Hf']; subst. destruct Hd as [Lr Ir Nr]. cbn [concat].
    assert (Hid : ∀ q rest, length q = sizeof_Record →
      record_id (pre ++ q ++ rest) i = Ok (of_le32 (take 4 q))).
    { intros q rest Lq. unfold record_id. rewrite <-Hp. rewrite <-(Nat.add_0_r (length pre)).
      rewrite read_part by (rewrite Lq; unfold sizeof_Record; lia).
      rewrite read_bytes_ok by (rewrite Lq; unfold sizeof_Record; lia). by rewrite drop_0. }
    rewrite Hid by done. simpl_bind. rewrite Ir, of_le32_word, (u32_small d), u32_small by (unfold INT_MAX in Hd1; lia).
    destruct (set_record_ok r (d + 100) Lr) as (r1 & r' & E1 & I1 & L1 & E2 & _ & Hrec); [unfold INT_MAX in Hd1; lia|].
    rewrite <-Hp. pose proof (write_part pre _ (concat rs) _ _ _ E1) as E1'. rewrite Nat.add_0_r in E1'.
    rewrite E1'. simpl_bind. rewrite Hp.
    rewrite Hid by done. simpl_bind.
    assert (E4 : of_le32 (take 4 r1) = d + 100).
    { apply write_bytes_Ok in E1 as [_ ->]. rewrite take_0, app_nil_l, take_app_length' by done.
      rewrite of_le32_word, u32_small; [done|unfold INT_MAX in Hd1; lia]. }
    rewrite E4. unfold sprintf_name. pose proof (name_text_length (d + 100) ltac:(unfold INT_MAX in Hd1; lia)) as Ln.
    rewrite s32_small by (unfold INT_MAX in Hd1; lia). rewrite (proj2 (Nat.ltb_lt _ _)) by (unfold MAX_NAME_LEN; lia).
    rewrite <-Hp, (write_part _ _ _ _ _ _ E2). simpl_bind.
    destruct (IH (S i) (pre ++ r')) as (rs' & E & F); [rewrite length_app, (ir_length _ _ Hrec); lia|done|].
    exists (r' :: rs'). rewrite <-!app_assoc in E. split; [exact E|]. by constructor.
Qed.

Lemma verify_records_ok rs i rec pre :
  length rec = sizeof_Record → Forall2 is_record ((λ d, d + 100) <$> seqZ i (Z.of_nat (length rs))) rs →
  0 ≤ i → i + Z.of_nat (length rs) + 100 ≤ INT_MAX →
  ∃ rec', verify_records (length rs) i rec (MkFile (pre ++ concat rs) (length pre)) =
    Ok (rec', MkFile (pre ++ concat rs) (length (pre ++ concat rs))).
Proof.
  revert i rec pre. induction rs as [|r rs IH]; intros i rec pre Hl Hf Hi Hn; cbn [length verify_records concat].
  - exists rec. by rewrite app_nil_r.
  - cbn [length] in Hf, Hn. rewrite seqZ_cons in Hf by lia. inversion Hf as [|? ? ? ? [Lr Ir _] Hf']; subst.
    rewrite (fread_part pre r (concat rs) rec) by congruence.
    assert (E : of_le32 r = i + 100).
    { rewrite <-(take_drop 4 r), Ir, of_le32_le32, u32_small; [done|unfold INT_MAX in Hn; lia]. }
    rewrite E, u32_small, Z.eqb_refl by (unfold INT_MAX in Hn; lia).
    rewrite app_assoc. apply IH; [done| |lia|lia].
    by replace (Z.of_nat (length rs)) with (Z.pred (Z.of_nat (S (length rs)))) by lia.
Qed.

Lemma concat_records_length ids rs :
  Forall2 is_record ids rs → length (concat rs) = (length rs * sizeof_Record)%nat.
Proof.
  induction 1 as [|d r ids rs Hd _ IH]; [done|]. cbn [concat length]. rewrite length_app, IH, (ir_length _ _ Hd). done.
Qed.

(** The three parts of [main] on the records they leave. *)
Lemma mmap_test_phases junk :
  length junk = sizeof_Record →
  ∃ rec rs m rec' fd, write_records RECORD_COUNT 0 junk fopen_w =
      Ok (rec, MkFile (concat rs) (length (concat rs))) ∧
    modify_records RECORD_COUNT 0 (mapping (concat rs)) = Ok m ∧
    verify_records RECORD_COUNT 0 rec (fopen_r (unmap (concat rs) m)) = Ok (rec', fd) ∧
    ∃ rs', f_contents fd = concat rs' ∧ Forall2 is_record (seqZ 100 (Z.of_nat RECORD_COUNT)) rs'.
Proof.
  intros Hj. destruct (write_records_ok RECORD_COUNT 0 junk [] Hj) as (rec & rs & E1 & Lr & F1);
    [lia|by apply Z.leb_le|]. cbn [app] in E1.
  pose proof (concat_records_length _ _ F1) as L1. pose proof (Forall2_length _ _ _ F1) as Ln.
  rewrite length_seqZ, Nat2Z.id in Ln. rewrite <-Ln in L1.
  destruct (modify_records_ok rs 0 _ [] eq_refl F1) as (rs' & E2 & F2).
  { apply Forall_forall. intros d Hd. apply elem_of_seqZ in Hd. unfold RECORD_COUNT, INT_MAX in *. lia. }
  cbn [app] in E2. rewrite <-Ln in E2.
  pose proof (concat_records_length _ _ F2) as L2. pose proof (Forall2_length _ _ _ F2) as Ln2.
  rewrite length_fmap, length_seqZ, Nat2Z.id in Ln2. rewrite <-Ln2 in L2.
  destruct (verify_records_ok rs' 0 rec [] Lr) as (rec' & E3); [by rewrite <-Ln2|lia|rewrite <-Ln2; by apply Z.leb_le|].
  cbn [app length] in E3. rewrite <-Ln2 in E3.
  exists rec, rs, (concat rs'), rec', (MkFile (concat rs') (length (concat rs'))).
  split; [exact E1|]. unfold mapping, unmap. rewrite take_ge, drop_ge, app_nil_r by lia.
  split; [exact E2|]. split; [exact E3|]. exists rs'. by split.
Qed.
