(* ===== verification/DirScan.v ===== *)
(** * Chapter 3: scanning a directory (Chapter03/dir.c)

    [printdir] on a file system that does not change meanwhile.  The process's
    current directory, which the function moves, and its limit of open
    directory streams are part of the model. *)
From stdpp Require Import gmap.
From S2P Require Import Prelude Digits.

(** ** The file system *)
Abbreviation inode := positive.
Definition name : Type := list Z.

Definition DOT : name := [46].
Definition DOTDOT : name := [46; 46].

(** A directory: what [readdir] returns, in order, each name with the file
    [stat] finds behind it (symbolic links followed; [None] for a dangling
    one), and the permissions of the process. *)
Record directory := MkDir {
  d_entries : list (name * option inode);
  d_readable : bool;
  d_searchable : bool
}.

Inductive file := Regular | Dir (d : directory).
Abbreviation filesystem := (gmap inode file).

(** The target of a name in a list of entries. *)
Fixpoint find_entry (n : name) (es : list (name * option inode)) : option inode :=
  match es with
  | [] => None
  | (m, i) :: es' => if decide (n = m) then i else find_entry n es'
  end.

(** One step of path resolution, from the directory [i]. *)
Definition lookup_name (fs : filesystem) (i : inode) (n : name) : option inode :=
  match fs !! i with
  | Some (Dir d) => if d_searchable d then find_entry n (d_entries d) else None
  | _ => None
  end.

(** The components of a path. *)
Fixpoint components (path cur : list Z) : list name :=
  match path with
  | [] => match cur with [] => [] | _ => [cur] end
  | c :: path' =>
      if c =? 47 then match cur with [] => components path' [] | _ => cur :: components path' [] end
      else components path' (cur ++ [c])
  end.

Fixpoint walk (fs : filesystem) (i : inode) (ns : list name) : option inode :=
  match ns with
  | [] => Some i
  | n :: ns' => match lookup_name fs i n with Some j => walk fs j ns' | None => None end
  end.

(** The file behind a path; the empty path has none. *)
Definition resolve (fs : filesystem) (root cwd : inode) (path : list Z) : option inode :=
  match path with
  | [] => None
  | c :: _ => walk fs (if c =? 47 then root else cwd) (components path [])
  end.

(** [chdir]: the new current directory, the old one when it fails. *)
Definition chdir (fs : filesystem) (root cwd : inode) (path : list Z) : inode :=
  match resolve fs root cwd path with
  | Some i => match fs !! i with
              | Some (Dir d) => if d_searchable d then i else cwd
              | _ => cwd
              end
  | None => cwd
  end.

(** ** Operations *)
Inductive output :=
  | Line (text : list Z)            (* to stdout *)
  | StatError (dirname : name)      (* to stderr *)
  | OpenError (dirname : name).

(** [printf("%*s%s\n", leadingSpaceNum, " ", dirname)]. *)
Definition print_line (leadingSpaceNum : Z) (dirname : name) : output :=
  Line (replicate (Nat.max 1 (Z.to_nat (Z.abs (s32 leadingSpaceNum)))) 32 ++ dirname ++ [10]).

(** The loop over [readdir], [pd] being the recursive call. *)
Fixpoint scan (pd : inode → name → option (list output * inode)) (cwd : inode) (names : list name)
    : option (list output * inode) :=
  match names with
  | [] => Some ([], cwd)
  | n :: names' =>
      '(o1, cwd1) ← pd cwd n;
      '(o2, cwd2) ← scan pd cwd1 names';
      Some (o1 ++ o2, cwd2)
  end.

Section Printdir.
Context (fs : filesystem) (root : inode).

(** [printdir(dirname, leadingSpaceNum)] with [streams] more directories that
    can be opened: what it prints and the current directory it leaves; [None]
    when the fuel is spent. *)
Fixpoint printdir (fuel : nat) (streams : nat) (cwd : inode) (dirname : name) (leadingSpaceNum : Z)
    : option (list output * inode) :=
  match fuel with
  | O => None
  | S fuel' =>
      if decide (dirname = DOT) then Some ([], cwd) else
      if decide (dirname = DOTDOT) then Some ([], cwd) else
      let line := print_line leadingSpaceNum dirname in
      match resolve fs root cwd dirname with
      | None => Some ([line; StatError dirname], cwd)
      | Some i =>
          match fs !! i with
          | Some (Dir d) =>
              match streams with
              | O => Some ([line; OpenError dirname], cwd)
              | S streams' =>
                  if d_readable d then
                    let cwd1 := chdir fs root cwd dirname in
                    '(out, cwd2) ← scan (λ cwd n, printdir fuel' streams' cwd n (u32 (leadingSpaceNum + 2)))
                                     cwd1 (fst <$> d_entries d);
                    Some (line :: out, chdir fs root cwd2 DOTDOT)
                  else Some ([line; OpenError dirname], cwd)
              end
          | Some Regular => Some ([line], cwd)
          | None => Some ([line; StatError dirname], cwd)
          end
      end
  end.

(** [dirname] and [basename] of a path, as POSIX has them. *)
Definition strip_slashes (path : list Z) : list Z :=
  rev ((fix strip (r : list Z) := match r with c :: r' => if c =? 47 then strip r' else r | [] => [] end) (rev path)).
Definition before_slash (path : list Z) : list Z :=
  rev ((fix cut (r : list Z) := match r with c :: r' => if c =? 47 then r else cut r' | [] => [] end) (rev path)).
Definition after_slash (path : list Z) : list Z :=
  rev ((fix keep (r : list Z) := match r with c :: r' => if c =? 47 then [] else c :: keep r' | [] => [] end) (rev path)).

Definition posix_basename (path : list Z) : list Z :=
  match path with
  | [] => DOT
  | _ => match strip_slashes path with [] => [47] | p => after_slash p end
  end.
Definition posix_dirname (path : list Z) : list Z :=
  match path with
  | [] => DOT
  | _ => match strip_slashes path with
         | [] => [47]
         | p => match before_slash p with
                | [] => DOT
                | q => match strip_slashes q with [] => [47] | q' => q' end
                end
         end
  end.

(** [main]: [getcwd] stores the path of the current directory unless it is too
    long for the 256 characters, which then hold nothing; the argument is
    copied into them. *)
Definition main (fuel streams : nat) (cwd : inode) (getcwd_path : list Z) (argv1 : option (list Z))
    : outcome (option (list output * inode)) :=
  dirstr ← match argv1 with
           | None => if (length getcwd_path <? 256)%nat then Ok getcwd_path else Fault Uninitialised
           | Some a => if (length a <? 256)%nat then Ok a else Fault OutOfBounds
           end;
  let cwd1 := chdir fs root cwd (posix_dirname dirstr) in
  Ok (printdir fuel streams cwd1 (posix_basename dirstr) 0).

(** ** Specification: the listing of a tree *)
#[warnings="-register-all"]
Inductive ftree :=
  | FFile
  | FMissing                              (* a name with no file behind it *)
  | FClosed                               (* a directory that cannot be read *)
  | FDir (children : list (name * ftree)).

Fixpoint listing (depth : Z) (n : name) (t : ftree) : list output :=
  print_line depth n ::
  match t with
  | FFile => []
  | FMissing => [StatError n]
  | FClosed => [OpenError n]
  | FDir children => concat (map (λ c, listing (depth + 2) (fst c) (snd c)) children)
  end.

Fixpoint levels (t : ftree) : nat :=
  match t with
  | FDir children => S (list_max (map (λ c, levels (snd c)) children))
  | _ => 0
  end.

Definition is_dot (e : name * option inode) : bool := bool_decide (e.1 = DOT) || bool_decide (e.1 = DOTDOT).

(** A name without a slash, other than the two dots. *)
Definition plain (n : name) : Prop := n ≠ [] ∧ Forall (λ c, c ≠ 47) n.

(** [target] is, in the directory [parent], the tree [t]: directories have
    their parent behind [..] (no link to a directory), can be entered when
    they can be read, and have no name twice. *)
Fixpoint holds_tree (parent : inode) (target : option inode) (t : ftree) : Prop :=
  match t with
  | FMissing => target = None
  | FFile => ∃ i, target = Some i ∧ fs !! i = Some Regular
  | FClosed => ∃ i d, target = Some i ∧ fs !! i = Some (Dir d) ∧ d_readable d = false
  | FDir children => ∃ i d, target = Some i ∧ fs !! i = Some (Dir d) ∧ d_readable d = true ∧
      d_searchable d = true ∧ NoDup (fst <$> d_entries d) ∧ find_entry DOTDOT (d_entries d) = Some parent ∧
      Forall (λ e, plain (fst e)) (d_entries d) ∧
      (fix all (cs : list (name * ftree)) (es : list (name * option inode)) : Prop :=
         match cs with
         | [] => es = []
         | (n, c) :: cs' =>
             match es with
             | e :: es' => fst e = n ∧ holds_tree i (snd e) c ∧ all cs' es'
             | [] => False
             end
         end) children (List.filter (λ e, negb (is_dot e)) (d_entries d))
  end.

(** ** Proofs *)

(** The children of a directory and its entries other than the dots. *)
Definition holds_trees (i : inode) : list (name * ftree) → list (name * option inode) → Prop :=
  fix all cs es :=
    match cs with
    | [] => es = []
    | (n, c) :: cs' =>
        match es with
        | e :: es' => fst e = n ∧ holds_tree i (snd e) c ∧ all cs' es'
        | [] => False
        end
    end.

Lemma components_plain n cur : Forall (λ c, c ≠ 47) n → n ≠ [] ∨ cur ≠ [] → components n cur = [cur ++ n].
Proof.
  revert cur. induction n as [|c n IH]; intros cur Hn Hne; cbn [components].
  - rewrite app_nil_r. destruct cur; [by destruct Hne|done].
  - inversion Hn; subst. rewrite (proj2 (Z.eqb_neq c 47)) by done.
    rewrite IH; [by rewrite <-app_assoc|done|right; by destruct cur].
Qed.

(** A plain name is looked up in the current directory. *)
Lemma resolve_plain cwd n : plain n → resolve fs root cwd n = lookup_name fs cwd n.
Proof.
  intros [Hne Hn]. unfold resolve. destruct n as [|c n]; [done|]. inversion Hn; subst.
  rewrite (proj2 (Z.eqb_neq c 47)) by done. rewrite components_plain by (done || by left). cbn [app walk].
  by destruct (lookup_name fs cwd (c :: n)).
Qed.

Lemma dotdot_plain : plain DOTDOT.
Proof. split; [done|]. repeat constructor; lia. Qed.

Lemma chdir_to cwd n i d :
  plain n → lookup_name fs cwd n = Some i → fs !! i = Some (Dir d) → d_searchable d = true →
  chdir fs root cwd n = i.
Proof. intros Hn Hl Hd Hs. unfold chdir. by rewrite resolve_plain, Hl, Hd, Hs. Qed.

(** Enough fuel for the streams that can be opened: [printdir] ends on every
    file system, whatever its links. *)
Lemma scan_ends pd cwd ns :
  (∀ cwd n, ∃ r, pd cwd n = Some r) → ∃ r, scan pd cwd ns = Some r.
Proof.
  intros Hpd. revert cwd. induction ns as [|n ns IH]; intros cwd; [by eexists|]. cbn [scan].
  destruct (Hpd cwd n) as [[o1 c1] ->]. cbn [mbind option_bind].
  destruct (IH c1) as [[o2 c2] ->]. by eexists.
Qed.

Lemma printdir_ends fuel streams cwd n depth :
  (streams < fuel)%nat → ∃ r, printdir fuel streams cwd n depth = Some r.
Proof.
  revert streams cwd n depth. induction fuel as [|fuel IH]; intros streams cwd n depth Hf; [lia|].
  cbn [printdir]. destruct (decide (n = DOT)); [by eexists|]. destruct (decide (n = DOTDOT)); [by eexists|].
  destruct (resolve fs root cwd n) as [i|]; [|by eexists]. destruct (fs !! i) as [[|d]|]; [by eexists| |by eexists].
  destruct streams as [|streams]; [by eexists|]. destruct (d_readable d); [|by eexists].
  edestruct (scan_ends (λ cwd n, printdir fuel streams cwd n (u32 (depth + 2)))) as [[o c] E].
  { intros c m. apply IH. lia. }
  rewrite E. by eexists.
Qed.

(** ... with the same result for every such fuel. *)
Lemma scan_ext pd pd' cwd ns : (∀ cwd n, pd cwd n = pd' cwd n) → scan pd cwd ns = scan pd' cwd ns.
Proof.
  intros E. revert cwd. induction ns as [|n ns IH]; intros cwd; [done|]. cbn [scan]. rewrite E.
  destruct (pd' cwd n) as [[o c]|]; [|done]. cbn [mbind option_bind]. by rewrite IH.
Qed.

Lemma printdir_fuel fuel fuel' streams cwd n depth :
  (streams < fuel)%nat → (streams < fuel')%nat →
  printdir fuel streams cwd n depth = printdir fuel' streams cwd n depth.
Proof.
  revert fuel' streams cwd n depth. induction fuel as [|fuel IH]; intros [|fuel'] streams cwd n depth H1 H2; [lia..|].
  cbn [printdir]. destruct (decide (n = DOT)); [done|]. destruct (decide (n = DOTDOT)); [done|].
  destruct (resolve fs root cwd n) as [i|]; [|done]. destruct (fs !! i) as [[|d]|]; [done| |done].
  destruct streams as [|streams]; [done|]. destruct (d_readable d); [|done].
  erewrite scan_ext; [done|]. intros c m. cbn beta. apply IH; lia.
Qed.

Lemma printdir_stable streams cwd n depth :
  ∃ r, ∀ fuel, (streams < fuel)%nat → printdir fuel streams cwd n depth = Some r.
Proof.
  destruct (printdir_ends (S streams) streams cwd n depth) as [r E]; [lia|]. exists r. intros fuel Hf.
  rewrite <-E. apply printdir_fuel; lia.
Qed.

Lemma find_entry_in n j es : NoDup (fst <$> es) → (n, j) ∈ es → find_entry n es = j.
Proof.
  induction es as [|[m k] es IH]; intros Hd Hin; [by apply not_elem_of_nil in Hin|]. cbn [find_entry].
  cbn in Hd. apply NoDup_cons in Hd as [Hm Hd]. apply elem_of_cons in Hin as [[= -> ->]|Hin]; [by rewrite decide_True|].
  rewrite decide_False; [by apply IH|]. intros ->. apply Hm. apply list_elem_of_fmap. by exists (m, j).
Qed.

Lemma levels_child (cs : list (name * ftree)) c : c ∈ cs → (levels (snd c) ≤ list_max (map (λ c, levels (snd c)) cs))%nat.
Proof.
  induction cs as [|c' cs IH]; intros Hin; [by apply not_elem_of_nil in Hin|]. cbn [map list_max foldr].
  apply elem_of_cons in Hin as [->|Hin]; [lia|]. specialize (IH Hin). unfold list_max in IH. lia.
Qed.

(** The loop over the entries [es] of the directory [i]. *)
Lemma scan_lists pd i depth cs es :
  holds_trees i cs (List.filter (λ e, negb (is_dot e)) es) →
  pd i DOT = Some ([], i) → pd i DOTDOT = Some ([], i) →
  (∀ e c, e ∈ es → (fst e, c) ∈ cs → is_dot e = false → holds_tree i (snd e) c →
     pd i (fst e) = Some (listing depth (fst e) c, i)) →
  scan pd i (fst <$> es) = Some (concat (map (λ c, listing depth (fst c) (snd c)) cs), i).
Proof.
  intros Hes Hd1 Hd2. revert cs Hes. induction es as [|e es IH]; intros cs Hes Hpd; cbn [List.filter] in Hes.
  - destruct cs as [|[n c] cs]; [done|]. by destruct Hes.
  - cbn [fmap list_fmap scan]. destruct (is_dot e) eqn:E; cbn [negb] in Hes.
    + assert (Hp : pd i (fst e) = Some ([], i)).
      { unfold is_dot in E. apply orb_true_iff in E as [E|E]; apply bool_decide_eq_true in E; by rewrite E. }
      rewrite Hp. cbn [mbind option_bind]. rewrite (IH cs Hes); [done|].
      intros e' c He'. apply Hpd. by apply list_elem_of_further.
    + destruct cs as [|[n c] cs]; [done|]. destruct Hes as (<- & Hc & Hes).
      rewrite (Hpd e c) by (done || apply list_elem_of_here). cbn [mbind option_bind].
      rewrite (IH cs Hes); [done|]. intros e' c' He' Hc'. apply Hpd; by apply list_elem_of_further.
Qed.

(** [printdir] prints the listing of the tree and comes back. *)
Lemma printdir_lists fuel streams parent pd target n t depth :
  (levels t ≤ streams < fuel)%nat → 0 ≤ depth → depth + 2 * Z.of_nat (levels t) < 4294967296 →
  plain n → n ≠ DOT → n ≠ DOTDOT →
  fs !! parent = Some (Dir pd) → d_searchable pd = true → lookup_name fs parent n = target →
  holds_tree parent target t →
  printdir fuel streams parent n depth = Some (listing depth n t, parent).
Proof.
  revert streams parent pd target n t depth.
  induction fuel as [|fuel IH]; intros streams parent pd target n t depth Hl Hd Hw Hn Hn1 Hn2 Hp Hs Ht Hh; [lia|].
  cbn [printdir]. rewrite !decide_False by done. rewrite resolve_plain, Ht by done.
  destruct t as [| | |cs]; cbn [holds_tree listing] in *.
  - destruct Hh as (i & -> & ->). done.
  - by rewrite Hh.
  - destruct Hh as (i & d & -> & -> & ->). by destruct streams.
  - destruct Hh as (i & d & -> & Hi & Hr & Hsi & Hnd & Hdd & Hpl & Hall). rewrite Hi, Hr.
    cbn [levels] in Hl, Hw. destruct streams as [|streams]; [lia|].
    rewrite (chdir_to parent n i d) by done. rewrite u32_small by lia.
    rewrite (scan_lists _ i (depth + 2) cs (d_entries d) Hall).
    + cbn [mbind option_bind]. f_equal. f_equal. apply (chdir_to i DOTDOT parent pd); [apply dotdot_plain| |done|done].
      unfold lookup_name. by rewrite Hi, Hsi.
    + destruct fuel; [lia|]. cbn [printdir]. by rewrite decide_True.
    + destruct fuel; [lia|]. cbn [printdir]. rewrite decide_False by done. by rewrite decide_True.
    + intros [m j] c He Hc Hdot Hhc. cbn [fst snd] in *. pose proof (levels_child _ _ Hc) as Hlc. cbn [snd] in Hlc.
      unfold is_dot in Hdot. apply orb_false_iff in Hdot as [H1%bool_decide_eq_false H2%bool_decide_eq_false].
      apply (IH streams i d j); try done; [lia|lia|lia| |].
      * rewrite Forall_forall in Hpl. exact (Hpl _ He).
      * unfold lookup_name. rewrite Hi, Hsi. by apply find_entry_in.
Qed.

End Printdir.
