(* ===== verification/Ch03Props.v ===== *)
(** * Properties of the programs of Chapter 3

    The directory scan of dir.c and the file programs mmap_test.c and test.c,
    with witnesses on concrete file systems and memories. *)
From stdpp Require Import gmap.
From S2P Require Import Prelude Bytes Digits FileTests DirScan.

(** ** File systems for the witnesses *)

(** A directory with its two dots, readable and searchable. *)
Definition plain_dir (self parent : inode) (es : list (name * option inode)) : file :=
  Dir (MkDir ((DOT, Some self) :: (DOTDOT, Some parent) :: es) true true).

Definition root1 : inode := 1%positive.
Definition letter (c : Z) : name := [c].

(** The root has the directory "a" with a file "f", an empty directory "d", a
    dangling link "l" and the directory "p" nobody may read. *)
Definition demo_fs : filesystem :=
  list_to_map [(1%positive, plain_dir 1 1 [(letter 97, Some 2%positive)]);
    (2%positive, plain_dir 2 1 [(letter 102, Some 3%positive); (letter 100, Some 4%positive); (letter 108, None);
                                (letter 112, Some 5%positive)]);
    (3%positive, Regular); (4%positive, plain_dir 4 2 []); (5%positive, Dir (MkDir [] false true))].

Definition demo_tree : ftree :=
  FDir [(letter 102, FFile); (letter 100, FDir []); (letter 108, FMissing); (letter 112, FClosed)].

Lemma letter_plain c : c ≠ 47 → plain (letter c).
Proof. intros Hc. split; [done|]. by repeat constructor. Qed.

Lemma demo_tree_held : holds_tree demo_fs 1%positive (Some 2%positive) demo_tree.
Proof.
  eexists 2%positive, _. split; [done|]. split; [reflexivity|]. split_and!; try reflexivity.
  - cbn. apply (bool_decide_unpack _). vm_compute. exact I.
  - cbn [d_entries]. repeat constructor; try apply letter_plain; try done; cbn; repeat constructor; lia.
  - replace (List.filter _ _) with [(letter 102, Some 3%positive); (letter 100, Some 4%positive);
      (letter 108, None); (letter 112, Some 5%positive)] by (vm_compute; reflexivity).
    split_and!; try done; [by exists 3%positive| |by eexists 5%positive, _].
    eexists 4%positive, _. split_and!; try reflexivity.
    + cbn. apply (bool_decide_unpack _). vm_compute. exact I.
    + cbn [d_entries]. repeat constructor; try done; cbn; lia.
Qed.

(** ** dir.c *)

(** C18. dir lists the tree its argument names: each name once, after its
    directory, two more spaces to the right than it, with an error message
    after a name without a file and after a directory that cannot be read;
    and the scan comes back to the directory it started from.  It needs that
    directories have their parent behind [..] and can be entered when they
    can be read, and a stream for each level. *)
Theorem dir_lists_the_tree fs root fuel streams cwd here path parent pd target t :
  (length path < 256)%nat → chdir fs root cwd (posix_dirname path) = parent →
  let n := posix_basename path in
  plain n → n ≠ DOT → n ≠ DOTDOT →
  fs !! parent = Some (Dir pd) → d_searchable pd = true → lookup_name fs parent n = target →
  holds_tree fs parent target t →
  (levels t ≤ streams < fuel)%nat → 2 * Z.of_nat (levels t) < 4294967296 →
  main fs root fuel streams cwd here (Some path) = Ok (Some (listing 0 n t, parent)).
Proof.
  intros Hl Hc n Hn H1 H2 Hp Hs Ht Hh Hf Hw. unfold main. rewrite (proj2 (Nat.ltb_lt _ _) Hl). simpl_bind.
  rewrite Hc. f_equal. by apply (printdir_lists fs root fuel streams parent pd target n t 0).
Qed.

(** "dir /a/" *)
Lemma dir_lists_the_tree_witness :
  main demo_fs root1 20 10 4%positive [] (Some [47; 97; 47]) =
    Ok (Some ([Line [32; 97; 10]; Line [32; 32; 102; 10]; Line [32; 32; 100; 10]; Line [32; 32; 108; 10];
               StatError [108]; Line [32; 32; 112; 10]; OpenError [112]], 1%positive)).
Proof.
  eapply (dir_lists_the_tree demo_fs root1 20 10 4%positive [] [47; 97; 47] 1%positive _ (Some 2%positive) demo_tree).
  - apply Nat.ltb_lt. reflexivity.
  - reflexivity.
  - by apply letter_plain.
  - discriminate.
  - discriminate.
  - reflexivity.
  - reflexivity.
  - reflexivity.
  - apply demo_tree_held.
  - split; [apply Nat.leb_le|apply Nat.ltb_lt]; reflexivity.
  - reflexivity.
Defined.

(** C33. dir ends on every file system, links that lead back up included: with
    [streams] directories that may be open at once, no more than that many
    calls are nested. *)
Theorem dir_terminates fs root streams cwd here argv1 :
  (length (default here argv1) < 256)%nat →
  ∃ out cwd', ∀ fuel, (streams < fuel)%nat →
    main fs root fuel streams cwd here argv1 = Ok (Some (out, cwd')).
Proof.
  intros Ha. destruct (printdir_stable fs root streams
    (chdir fs root cwd (posix_dirname (default here argv1))) (posix_basename (default here argv1)) 0)
    as ([out cwd'] & E).
  exists out, cwd'. intros fuel Hf. unfold main. specialize (E fuel Hf). apply Nat.ltb_lt in Ha.
  destruct argv1 as [a|]; cbn in Ha, E |- *; rewrite Ha; simpl_bind; f_equal; exact E.
Qed.

(** A link in the directory "a" to "a" itself: the scan goes down until no
    more directory can be opened. *)
Definition loop_fs : filesystem :=
  list_to_map [(1%positive, plain_dir 1 1 [(letter 97, Some 2%positive)]);
    (2%positive, plain_dir 2 1 [(letter 108, Some 2%positive)])].

Lemma dir_terminates_witness :
  main loop_fs root1 4 3 1%positive [] (Some [97]) = Ok (Some
    ([Line [32; 97; 10]; Line [32; 32; 108; 10]; Line [32; 32; 32; 32; 108; 10];
      Line [32; 32; 32; 32; 32; 32; 108; 10]; OpenError [108]], 1%positive)) ∧
  ∃ out cwd', ∀ fuel, (3 < fuel)%nat → main loop_fs root1 fuel 3 1%positive [] (Some [97]) = Ok (Some (out, cwd')).
Proof.
  split; [vm_compute; reflexivity|]. apply (dir_terminates loop_fs root1 3 1%positive [] (Some [97])).
  apply Nat.ltb_lt. reflexivity.
Defined.

(** The scan trusts that [chdir("..")] undoes [chdir(dirname)].  After a
    symbolic link to a directory it goes on in the parent of the link's
    target, and after a directory it may read but not enter one level too
    high: files that exist are reported as missing.  And dir prints nothing
    for the argument ".". *)
Lemma dir_loses_its_place :
  (∃ fs file, lookup_name fs 2%positive [122] = Some file ∧ fs !! file = Some Regular ∧
     ∃ out cwd', main fs root1 5 4 root1 [] (Some [97]) = Ok (Some (out, cwd')) ∧ StatError [122] ∈ out) ∧
  (∃ fs, chdir fs root1 root1 [98] = 3%positive ∧
     ∃ out, main fs root1 5 4 3%positive [] (Some [97]) = Ok (Some (out, root1)) ∧ StatError [122] ∈ out) ∧
  (∀ fs root fuel streams here, main fs root (S fuel) streams root here (Some DOT) =
     Ok (Some ([], chdir fs root root DOT))).
Proof.
  split; [|split].
  - exists (list_to_map [(1%positive, plain_dir 1 1 [(letter 97, Some 2%positive); (letter 101, Some 4%positive)]);
      (2%positive, plain_dir 2 1 [(letter 108, Some 5%positive); (letter 122, Some 6%positive)]);
      (4%positive, plain_dir 4 1 [(letter 115, Some 5%positive)]);
      (5%positive, plain_dir 5 4 []); (6%positive, Regular)]), 6%positive.
    split; [reflexivity|]. split; [reflexivity|]. eexists _, _. split; [vm_compute; reflexivity|].
    rewrite !elem_of_cons. tauto.
  - exists (list_to_map [(1%positive, plain_dir 1 1 [(letter 98, Some 3%positive)]);
      (3%positive, plain_dir 3 1 [(letter 97, Some 2%positive)]);
      (2%positive, Dir (MkDir [(DOT, Some 2%positive); (DOTDOT, Some 3%positive); (letter 122, Some 6%positive)] true false));
      (6%positive, Regular)]).
    split; [reflexivity|]. eexists. split; [vm_compute; reflexivity|].
    rewrite !elem_of_cons. tauto.
  - intros fs root fuel streams here. reflexivity.
Qed.

(** ** mmap_test.c and test.c *)

(** C31. mmap_test ends with status 0 and sixty records, the ids 100 to 159 and
    the names made from them, in the file, when it can open and map the file:
    its assertion holds and no name outgrows its 37 characters, whatever
    [rec] held.  A stream or a mapping it cannot have it uses all the same,
    which is undefined. *)
Theorem mmap_test_rewrites_the_records a junk :
  length junk = sizeof_Record →
  if a_fopen_w a && a_open a && a_mmap a && a_fopen_r a
  then ∃ rs, mmap_test_main a junk = Ok (0, concat rs) ∧
    Forall2 is_record (seqZ 100 (Z.of_nat RECORD_COUNT)) rs
  else mmap_test_main a junk = Fault NullPointer ∨ mmap_test_main a junk = Fault OutOfBounds.
Proof.
  intros Hj. destruct (mmap_test_phases junk Hj) as (rec & rs & m & rec' & fd & E1 & E2 & E3 & rs' & Hc & Hf).
  unfold mmap_test_main. destruct (a_fopen_w a); cbn [negb andb]; [|by left].
  rewrite E1. simpl_bind. cbn [f_contents]. destruct (a_open a && a_mmap a); cbn [negb andb]; [|by right].
  rewrite E2. simpl_bind. destruct (a_fopen_r a); cbn [negb]; [|by left].
  rewrite E3. simpl_bind. exists rs'. by rewrite Hc.
Qed.

Lemma mmap_test_rewrites_the_records_witness :
  ∃ rs, mmap_test_main (FileAnswers true true true true) (replicate 44 255) = Ok (0, concat rs) ∧
    Forall2 is_record (seqZ 100 (Z.of_nat RECORD_COUNT)) rs.
Proof. exact (mmap_test_rewrites_the_records (FileAnswers true true true true) (replicate 44 255) eq_refl). Defined.

(** test writes two ints and a float and reads the same values back, in
    the order it wrote them; so it prints 2, 3 and 4.5. *)
Lemma test_reads_what_it_wrote a b c :
  INT_MIN ≤ a ≤ INT_MAX → INT_MIN ≤ b ≤ INT_MAX → 0 ≤ c < 4294967296 →
  write_and_read a b c = (a, b, c, MkFile (le32 a ++ le32 b ++ le32 c) 12) ∧
  Forall byte_ok (le32 a ++ le32 b ++ le32 c) ∧
  test_main true = (0, Some (2, 3, float_4_5)) ∧ test_main false = (1, None).
Proof.
  intros Ha Hb Hc. split; [by apply write_and_read_ok|]. split; [|by split].
  apply Forall_app. split; [apply le32_bytes|]. apply Forall_app. split; apply le32_bytes.
Qed.

