(* ===== verification/SysInfo.v ===== *)
(** * Chapter 4: logging system information (Chapter04/sysinfo.c)

    What the program logs, given the answers of the system, and where it ends.
    A string is the list of its characters. *)
From S2P Require Import Prelude.

(** ** Data *)
Record utsname := Utsname {
  sysname : list Z; nodename : list Z; release : list Z; version : list Z; machine : list Z
}.
Record passwd := Passwd { pw_name : list Z; pw_gid : Z; pw_shell : list Z; pw_dir : list Z }.

(** [None]: the call fails, with [errno], or there is no such entry. *)
Record answers := Answers {
  an_uname : option utsname;
  an_time : list Z;                   (* ctime of the current time *)
  an_getuid : Z;
  an_getpwuid : Z → option passwd;
  an_getgrgid : Z → option (list Z);  (* gr_name *)
  an_getrusage : bool;
  an_errno : Z
}.

Inductive log_line :=
  | Starts
  | HostError (errno : Z)
  | Host (h : utsname)
  | Time (text : list Z)
  | User (name group shell home : list Z)
  | UsageError (errno : Z).

(** ** [main] *)
Definition main (a : answers) : outcome (Z * list log_line) :=
  match an_uname a with
  | None => Ok (1, [Starts; HostError (an_errno a)])
  | Some hostinfo =>
      let log := [Starts; Host hostinfo; Time (an_time a)] in
      match an_getpwuid a (an_getuid a) with
      | None => Fault NullPointer
      | Some puserinfo =>
          match an_getgrgid a (pw_gid puserinfo) with
          | None => Fault NullPointer
          | Some gr_name =>
              let log := log ++ [User (pw_name puserinfo) gr_name (pw_shell puserinfo) (pw_dir puserinfo)] in
              if an_getrusage a then Fault FormatMismatch   (* %lld for the int of getpid *)
              else Ok (1, log ++ [UsageError (an_errno a)])
          end
      end
  end.

(** ** What it comes to: it never ends with status 0.  It ends with 1 where a
    call fails whose failure it expects, and is undefined for a user or a
    group without an entry and in its last message. *)
Lemma sysinfo_never_succeeds a :
  (∀ log, main a ≠ Ok (0, log)) ∧
  (is_ok (main a) ↔ an_uname a = None ∨
     (an_getrusage a = false ∧ ∃ u, an_getpwuid a (an_getuid a) = Some u ∧ is_Some (an_getgrgid a (pw_gid u)))) ∧
  ((∃ h, an_uname a = Some h) → an_getpwuid a (an_getuid a) = None → main a = Fault NullPointer).
Proof.
  unfold main. destruct (an_uname a) as [h|]; [|split_and!; [done|split; [by left|done]|by intros [? ?]]].
  destruct (an_getpwuid a (an_getuid a)) as [u|]; [|split_and!; [done| |done]; split; [done|]; intros [?|(_ & ? & ? & _)]; done].
  destruct (an_getgrgid a (pw_gid u)) as [g|] eqn:Eg;
    [|split_and!; [done| |done]; split; [done|]; intros [?|(_ & u' & [= <-] & H)]; [done|]; rewrite Eg in H; by destruct H].
  destruct (an_getrusage a); (split_and!; [done| |done]); split; try done; [by intros [?|[? _]]|].
  intros _. right. split; [done|]. exists u. by rewrite Eg.
Qed.
