(* ===== verification/Semaphore.v ===== *)
(** * POSIX semaphores and deadlines, as the queue classes use them

    [semaphore.h] is part of the C library: a semaphore is its unsigned value
    (and the [pshared] flag it was initialised with).  Each operation below is
    one atomic action of the thread that calls it. *)
From S2P Require Import Prelude.

(** [struct timespec]. *)
Record timespec := Timespec { tv_sec : Z; tv_nsec : Z }.

Definition ts_le (a b : timespec) : bool :=
  (tv_sec a <? tv_sec b) || ((tv_sec a =? tv_sec b) && (tv_nsec a <=? tv_nsec b)).

(** When a [sleep] that starts now is over. *)
Definition later (now : timespec) (secs : Z) : timespec := Timespec (tv_sec now + secs) (tv_nsec now).

Record sem_t := Sem { sem_pshared : Z; sem_value : Z }.

Definition sem_init (pshared value : Z) : sem_t := Sem pshared value.

(** [sem_wait]: takes one unit, or blocks ([None]) at value 0. *)
Definition sem_wait (s : sem_t) : option sem_t :=
  if 0 <? sem_value s then Some (Sem (sem_pshared s) (sem_value s - 1)) else None.

Definition sem_post (s : sem_t) : sem_t := Sem (sem_pshared s) (sem_value s + 1).

(** [sem_timedwait]: like [sem_wait] when a unit is there, whatever the
    deadline; otherwise it returns non-zero once the clock [now] has reached
    the deadline and blocks before that. *)
Inductive timedwait := Taken (s : sem_t) | TimedOut | StillWaiting.

Definition sem_timedwait (now ts : timespec) (s : sem_t) : timedwait :=
  match sem_wait s with
  | Some s' => Taken s'
  | None => if ts_le ts now then TimedOut else StillWaiting
  end.

Lemma sem_wait_Some s s' :
  sem_wait s = Some s' → 0 < sem_value s ∧ sem_value s' = sem_value s - 1.
Proof.
  unfold sem_wait. destruct (Z.ltb_spec 0 (sem_value s)); [|done].
  intros [= <-]. done.
Qed.

Lemma sem_wait_None s : sem_wait s = None ↔ sem_value s ≤ 0.
Proof. unfold sem_wait. destruct (Z.ltb_spec 0 (sem_value s)); naive_solver lia. Qed.

Lemma sem_timedwait_Taken now ts s s' :
  sem_timedwait now ts s = Taken s' → 0 < sem_value s ∧ sem_value s' = sem_value s - 1.
Proof.
  unfold sem_timedwait. destruct (sem_wait s) eqn:E.
  - intros [= <-]. by apply sem_wait_Some.
  - by destruct (ts_le ts now).
Qed.

Lemma sem_timedwait_TimedOut now ts s :
  sem_timedwait now ts s = TimedOut ↔ sem_value s ≤ 0 ∧ ts_le ts now = true.
Proof.
  unfold sem_timedwait. rewrite <-sem_wait_None.
  destruct (sem_wait s) eqn:E; [naive_solver|].
  destruct (ts_le ts now); naive_solver.
Qed.

Lemma sem_timedwait_StillWaiting now ts s :
  sem_timedwait now ts s = StillWaiting → ts_le ts now = false.
Proof. unfold sem_timedwait. destruct (sem_wait s); [done|]. by destruct (ts_le ts now). Qed.

Lemma ts_le_refl a : ts_le a a = true.
Proof. unfold ts_le. rewrite Z.eqb_refl, (proj2 (Z.leb_le _ _) (Z.le_refl _)). apply orb_true_r. Qed.

Lemma ts_le_total a b : ts_le a b = true ∨ ts_le b a = true.
Proof.
  unfold ts_le. destruct (Z.ltb_spec (tv_sec a) (tv_sec b)),
    (Z.ltb_spec (tv_sec b) (tv_sec a)), (Z.eqb_spec (tv_sec a) (tv_sec b)),
    (Z.eqb_spec (tv_sec b) (tv_sec a)), (Z.leb_spec (tv_nsec a) (tv_nsec b)),
    (Z.leb_spec (tv_nsec b) (tv_nsec a)); simpl; auto; lia.
Qed.

Lemma ts_le_trans a b c : ts_le a b = true → ts_le b c = true → ts_le a c = true.
Proof. unfold ts_le. rewrite !orb_true_iff, !andb_true_iff, !Z.ltb_lt, !Z.eqb_eq, !Z.leb_le. lia. Qed.

#[export] Instance timespec_eq_dec : EqDecision timespec.
Proof. solve_decision. Defined.

(** The clock reaches every time, and passes those that are over. *)
Lemma clock_reaches now ts : ∃ t, ts_le now t = true ∧ ts_le ts t = true.
Proof.
  destruct (ts_le_total now ts) as [H|H]; [by exists ts; split; [|apply ts_le_refl]|by exists now; split; [apply ts_le_refl|]].
Qed.

Lemma clock_reaches_if now (d : option timespec) :
  ∃ t, ts_le now t = true ∧ ∀ ts, d = Some ts → ts_le ts t = true.
Proof.
  destruct (clock_reaches now (default now d)) as (t & H1 & H2). exists t. split; [done|]. by intros ts ->.
Qed.

Lemma sem_post_value s : sem_value (sem_post s) = sem_value s + 1.
Proof. done. Qed.
#[export] Hint Rewrite sem_post_value : blp.
