(* ===== verification/Queue.v ===== *)
(** * [Queue<T>] (Chapter12/Queue/Queue.h)

    The ring buffer that producers and consumers share: its fields, its
    constructor, and [push] and [pop] as sequences of atomic actions, one per
    access to shared memory, so that threads interleave between any two. *)
From S2P Require Import Prelude Semaphore.

(** ** Data *)
Definition WAIT_TIME : Z := 1.

Section Queue.
Context {T : Type}.

Record Queue := MkQueue {
  m_arr : list T;
  m_id : Z;
  m_front : Z;
  m_cur_count : Z;
  m_size : Z;
  m_pushed_count : Z;
  m_popped_count : Z;
  m_lock : sem_t;
  m_pop_sem : sem_t;
  m_push_sem : sem_t
}.

(** The constructor; [arr] is the indeterminate contents [new T[size]]
    returns. *)
Definition Queue_ctor (arr : list T) (size id : Z) : Queue :=
  {| m_arr := arr; m_id := id; m_front := 0; m_cur_count := 0; m_size := size;
     m_pushed_count := 0; m_popped_count := 0;
     m_lock := sem_init 0 1; m_push_sem := sem_init 0 size; m_pop_sem := sem_init 0 0 |}.

(** Assignments to one field. *)
Definition set_arr (q : Queue) v : Queue :=
  MkQueue v (m_id q) (m_front q) (m_cur_count q) (m_size q) (m_pushed_count q)
    (m_popped_count q) (m_lock q) (m_pop_sem q) (m_push_sem q).
Definition set_front (q : Queue) v : Queue :=
  MkQueue (m_arr q) (m_id q) v (m_cur_count q) (m_size q) (m_pushed_count q)
    (m_popped_count q) (m_lock q) (m_pop_sem q) (m_push_sem q).
Definition set_cur_count (q : Queue) v : Queue :=
  MkQueue (m_arr q) (m_id q) (m_front q) v (m_size q) (m_pushed_count q)
    (m_popped_count q) (m_lock q) (m_pop_sem q) (m_push_sem q).
Definition set_pushed (q : Queue) v : Queue :=
  MkQueue (m_arr q) (m_id q) (m_front q) (m_cur_count q) (m_size q) v
    (m_popped_count q) (m_lock q) (m_pop_sem q) (m_push_sem q).
Definition set_popped (q : Queue) v : Queue :=
  MkQueue (m_arr q) (m_id q) (m_front q) (m_cur_count q) (m_size q) (m_pushed_count q)
    v (m_lock q) (m_pop_sem q) (m_push_sem q).
Definition set_lock (q : Queue) v : Queue :=
  MkQueue (m_arr q) (m_id q) (m_front q) (m_cur_count q) (m_size q) (m_pushed_count q)
    (m_popped_count q) v (m_pop_sem q) (m_push_sem q).
Definition set_pop_sem (q : Queue) v : Queue :=
  MkQueue (m_arr q) (m_id q) (m_front q) (m_cur_count q) (m_size q) (m_pushed_count q)
    (m_popped_count q) (m_lock q) v (m_push_sem q).
Definition set_push_sem (q : Queue) v : Queue :=
  MkQueue (m_arr q) (m_id q) (m_front q) (m_cur_count q) (m_size q) (m_pushed_count q)
    (m_popped_count q) (m_lock q) (m_pop_sem q) v.

(** ** Operations *)

(** [get_expire_time]: one [WAIT_TIME] after the current time. *)
Definition get_expire_time (now : timespec) : timespec :=
  Timespec (tv_sec now + WAIT_TIME) (tv_nsec now).

(** Where a [push(t)] in progress stands: the next action it performs.  The
    parameter of the later points is the local variable [slot]. *)
Inductive push_pc :=
  | PushEnter                       (* ts = get_expire_time() *)
  | PushTimedWait (ts : timespec)   (* sem_timedwait(&m_push_sem, &ts) *)
  | PushLock                        (* sem_wait(&m_lock) *)
  | PushSlot                        (* slot = (m_front + m_cur_count) % m_size *)
  | PushIncCount (slot : Z)         (* ++m_cur_count *)
  | PushIncPushed (slot : Z)        (* ++m_pushed_count *)
  | PushUnlock (slot : Z)           (* sem_post(&m_lock) *)
  | PushStore (slot : Z)            (* m_arr[slot] = t *)
  | PushPostPop.                    (* sem_post(&m_pop_sem); return true *)

Inductive pop_pc :=
  | PopEnter                        (* ts = get_expire_time() *)
  | PopTimedWait (ts : timespec)    (* sem_timedwait(&m_pop_sem, &ts) *)
  | PopLock                         (* sem_wait(&m_lock) *)
  | PopSlot                         (* slot = m_front *)
  | PopAdvance (slot : Z)           (* m_front = (m_front + 1) % m_size *)
  | PopDecCount (slot : Z)          (* --m_cur_count *)
  | PopIncPopped (slot : Z)         (* ++m_popped_count *)
  | PopUnlock (slot : Z)            (* sem_post(&m_lock) *)
  | PopLoad (slot : Z)              (* target = m_arr[slot] *)
  | PopPostPush (target : T).       (* sem_post(&m_push_sem); return true *)

(** What the caller observes of an operation: the item that entered or left
    the array, or a [false] return. *)
Inductive event :=
  | EvPush (t : T)
  | EvPop (t : T)
  | EvPushTimeout
  | EvPopTimeout.

(** After one action the call either goes on at the next point or returns. *)
Inductive next (P R : Type) :=
  | Goto (pc : P)
  | Return (r : R).

(** The result of one action: [None] while the thread is blocked. *)
Local Abbreviation action P R := (outcome (option (Queue * option event * next P R))).

Definition go {P R} (q : Queue) (pc : P) : action P R :=
  Ok (Some (q, None, Goto P R pc)).

Definition push (now : timespec) (t : T) (pc : push_pc) (q : Queue)
    : action push_pc bool :=
  match pc with
  | PushEnter => go q (PushTimedWait (get_expire_time now))
  | PushTimedWait ts =>
      match sem_timedwait now ts (m_push_sem q) with
      | Taken s => go (set_push_sem q s) PushLock
      | TimedOut => Ok (Some (q, Some EvPushTimeout, Return _ _ false))
      | StillWaiting => Ok None
      end
  | PushLock =>
      match sem_wait (m_lock q) with
      | Some s => go (set_lock q s) PushSlot
      | None => Ok None
      end
  | PushSlot =>
      sum ← int_add (m_front q) (m_cur_count q);
      slot ← int_rem sum (m_size q);
      go q (PushIncCount slot)
  | PushIncCount slot =>
      c ← int_add (m_cur_count q) 1;
      go (set_cur_count q c) (PushIncPushed slot)
  | PushIncPushed slot =>
      c ← int_add (m_pushed_count q) 1;
      go (set_pushed q c) (PushUnlock slot)
  | PushUnlock slot => go (set_lock q (sem_post (m_lock q))) (PushStore slot)
  | PushStore slot =>
      arr ← array_write (m_arr q) slot t;
      Ok (Some (set_arr q arr, Some (EvPush t), Goto _ _ PushPostPop))
  | PushPostPop =>
      Ok (Some (set_pop_sem q (sem_post (m_pop_sem q)), None, Return _ _ true))
  end.

(** [pop(target)]: on success the returned value is the item copied to
    [target]; [None] is the [false] return, which leaves [target] alone. *)
Definition pop (now : timespec) (pc : pop_pc) (q : Queue)
    : action pop_pc (option T) :=
  match pc with
  | PopEnter => go q (PopTimedWait (get_expire_time now))
  | PopTimedWait ts =>
      match sem_timedwait now ts (m_pop_sem q) with
      | Taken s => go (set_pop_sem q s) PopLock
      | TimedOut => Ok (Some (q, Some EvPopTimeout, Return _ _ None))
      | StillWaiting => Ok None
      end
  | PopLock =>
      match sem_wait (m_lock q) with
      | Some s => go (set_lock q s) PopSlot
      | None => Ok None
      end
  | PopSlot => go q (PopAdvance (m_front q))
  | PopAdvance slot =>
      sum ← int_add (m_front q) 1;
      f ← int_rem sum (m_size q);
      go (set_front q f) (PopDecCount slot)
  | PopDecCount slot =>
      c ← int_sub (m_cur_count q) 1;
      go (set_cur_count q c) (PopIncPopped slot)
  | PopIncPopped slot =>
      c ← int_add (m_popped_count q) 1;
      go (set_popped q c) (PopUnlock slot)
  | PopUnlock slot => go (set_lock q (sem_post (m_lock q))) (PopLoad slot)
  | PopLoad slot =>
      v ← array_read (m_arr q) slot;
      Ok (Some (q, Some (EvPop v), Goto _ _ (PopPostPush v)))
  | PopPostPush v =>
      Ok (Some (set_push_sem q (sem_post (m_push_sem q)), None, Return _ _ (Some v)))
  end.
End Queue.
Arguments Queue T : clear implicits.
Arguments event T : clear implicits.
Arguments pop_pc T : clear implicits.
Arguments Goto {P R} pc.
Arguments Return {P R} r.
