(* ===== verification/QueueSystem.v ===== *)
(** * Threads sharing one queue

    The worker threads of [ScheduledObject::run]
    (Chapter12/Schedule/ScheduledObject.cpp), each looping over its [work()],
    and the interleaving of their actions on one [Queue].  What [work()] does
    with the queue is an interface, [Client]: the producers and consumers of
    the other files are its instances. *)
From S2P Require Import Prelude Semaphore Queue.

(** ** The interface between a queue and the [work()] of its users

    One call of [work()] makes one call on the queue: [start] is the part of
    [work()] before that call, [finish] the part after it, given the call's
    result. *)
Inductive request (T : Type) := ReqPush (t : T) | ReqPop.
Inductive response (T : Type) := RespPush (b : bool) | RespPop (r : option T).
Arguments ReqPush {T} t.
Arguments ReqPop {T}.
Arguments RespPush {T} b.
Arguments RespPop {T} r.

Class Client (S T : Type) := {
  start : S → outcome (S * request T);
  finish : S → response T → S
}.

(** What a client promises: from the states [P] of interest, [work()] has no
    undefined behaviour of its own and stays within [P]. *)
Class ClientOk (S T : Type) `{Client S T} (P : S → Prop) := {
  start_ok s : P s → ∃ s' r, start s = Ok (s', r) ∧ P s';
  finish_ok s r : P s → P (finish s r)
}.

Section System.
Context {S T : Type} `{Client S T}.

(** ** Data *)

(** A call on the queue in progress. *)
Inductive op :=
  | OpPush (t : T) (pc : push_pc)
  | OpPop (pc : pop_pc T).

(** A thread is about to test [m_run], inside [work()], or has exited. *)
Inductive phase := Checking | Working (o : op) | Exited.

Record thread := Thread { t_run : bool; t_local : S; t_phase : phase }.

Record system := System {
  s_now : timespec;
  s_queue : Queue T;
  s_threads : list thread
}.

Definition label : Type := nat * event T.

Definition tag (i : nat) (ev : option (event T)) : option label :=
  match ev with Some e => Some (i, e) | None => None end.

(** ** Steps *)
Definition enter (r : request T) : op :=
  match r with ReqPush t => OpPush t PushEnter | ReqPop => OpPop PopEnter end.

(** One action of the loop [while(obj->m_run) obj->work();]. *)
Definition run (now : timespec) (th : thread) (q : Queue T)
    : outcome (option (Queue T * option (event T) * thread)) :=
  let 'Thread m_run s ph := th in
  match ph with
  | Checking =>
      if m_run
      then '(s', r) ← start s;
           Ok (Some (q, None, Thread m_run s' (Working (enter r))))
      else Ok (Some (q, None, Thread m_run s Exited))
  | Working (OpPush t pc) =>
      r ← push now t pc q;
      match r with
      | None => Ok None
      | Some (q', ev, Goto pc') => Ok (Some (q', ev, Thread m_run s (Working (OpPush t pc'))))
      | Some (q', ev, Return b) => Ok (Some (q', ev, Thread m_run (finish s (RespPush b)) Checking))
      end
  | Working (OpPop pc) =>
      r ← pop now pc q;
      match r with
      | None => Ok None
      | Some (q', ev, Goto pc') => Ok (Some (q', ev, Thread m_run s (Working (OpPop pc'))))
      | Some (q', ev, Return v) => Ok (Some (q', ev, Thread m_run (finish s (RespPop v)) Checking))
      end
  | Exited => Ok None
  end.

(** The destructor's [m_run = false] (the join that follows is the caller
    waiting for [Exited]). *)
Definition stop (th : thread) : thread := Thread false (t_local th) (t_phase th).

(** What the environment does next: let thread [i] run, stop it, or let the
    clock advance. *)
Inductive choice := Run (i : nat) | Stop (i : nat) | Tick (ts : timespec).

Definition do_choice (c : choice) (s : system) : outcome (option (system * option label)) :=
  match c with
  | Run i =>
      match s_threads s !! i with
      | None => Ok None
      | Some th =>
          r ← run (s_now s) th (s_queue s);
          match r with
          | None => Ok None
          | Some (q', ev, th') =>
              Ok (Some (System (s_now s) q' (<[i := th']> (s_threads s)), tag i ev))
          end
      end
  | Stop i =>
      match s_threads s !! i with
      | None => Ok None
      | Some th => Ok (Some (System (s_now s) (s_queue s) (<[i := stop th]> (s_threads s)), None))
      end
  | Tick ts =>
      if ts_le (s_now s) ts
      then Ok (Some (System ts (s_queue s) (s_threads s), None)) else Ok None
  end.

(** A run of the program under a schedule; [Ok None] when a choice is not
    possible (a blocked or missing thread, a clock going back). *)
Fixpoint run_schedule (cs : list choice) (s : system) : outcome (option (system * list label)) :=
  match cs with
  | [] => Ok (Some (s, []))
  | c :: cs' =>
      r ← do_choice c s;
      match r with
      | None => Ok None
      | Some (s1, o) =>
          r' ← run_schedule cs' s1;
          match r' with
          | None => Ok None
          | Some (s2, tr) => Ok (Some (s2, option_list o ++ tr))
          end
      end
  end.

Inductive sys_step : system → option label → system → Prop :=
  | step_run now q ths i th q' ev th' :
      ths !! i = Some th →
      run now th q = Ok (Some (q', ev, th')) →
      sys_step (System now q ths) (tag i ev) (System now q' (<[i := th']> ths))
  | step_stop now q ths i th :
      ths !! i = Some th →
      sys_step (System now q ths) None (System now q (<[i := stop th]> ths))
  | step_tick now now' q ths :
      ts_le now now' = true →
      sys_step (System now q ths) None (System now' q ths).

(** A step with undefined behaviour. *)
Definition sys_fault (s : system) : Prop :=
  ∃ i th f, s_threads s !! i = Some th ∧ run (s_now s) th (s_queue s) = Fault f.

(** Threads that have just entered their loop on a fresh queue. *)
Definition initial (now : timespec) (q : Queue T) (ss : list S) : system :=
  System now q ((λ s, Thread true s Checking) <$> ss).

(** ** Schedules are executions *)
Lemma do_choice_step c s s' o :
  do_choice c s = Ok (Some (s', o)) → sys_step s o s'.
Proof.
  destruct s as [now q ths], c as [i|i|ts]; simpl.
  - destruct (ths !! i) as [th|] eqn:E; [|done]. intros Hc. inv_ok.
    destruct x as [[[q' ev] th']|]; simplify_eq. by eapply step_run.
  - destruct (ths !! i) as [th|] eqn:E; [|done]. intros Hc. inv_ok.
    by apply (step_stop _ _ _ i th).
  - destruct (ts_le now ts) eqn:E; [|done]. intros Hc. inv_ok. by constructor.
Qed.

Lemma run_schedule_exec cs s s' tr :
  run_schedule cs s = Ok (Some (s', tr)) → exec sys_step s tr s'.
Proof.
  revert s tr. induction cs as [|c cs IH]; intros s tr; simpl.
  - intros [= -> <-]. constructor.
  - intros Hc. apply bind_Ok in Hc as ([[s1 o]|] & H1 & H2); [|done].
    apply bind_Ok in H2 as ([[s2 tr']|] & H2 & H3); [|done].
    simplify_eq. eapply exec_trans; [|by apply IH].
    apply exec_one. by eapply do_choice_step.
Qed.

(** The clients' own states stay within what they promise. *)
Definition clients (P : S → Prop) (ths : list thread) : Prop :=
  Forall (λ th, P (t_local th)) ths.

Section Clients.
Context (P : S → Prop) `{!ClientOk S T P}.

Lemma run_local now th q q' ev th' :
  P (t_local th) → run now th q = Ok (Some (q', ev, th')) → P (t_local th').
Proof.
  destruct th as [r s [|[t pc|pc]|]]; simpl; intros Hs Hr.
  - destruct r; [|by simplify_eq].
    apply bind_Ok in Hr as ([s' x] & E & Hr). simplify_eq/=.
    destruct (start_ok s Hs) as (s2 & r2 & E2 & ?). congruence.
  - apply bind_Ok in Hr as ([[[? ?] [pc'|b]]|] & _ & Hr); simplify_eq/=; [done|].
    by apply finish_ok.
  - apply bind_Ok in Hr as ([[[? ?] [pc'|b]]|] & _ & Hr); simplify_eq/=; [done|].
    by apply finish_ok.
  - by simplify_eq.
Qed.

Lemma step_clients s o s' :
  clients P (s_threads s) → sys_step s o s' → clients P (s_threads s').
Proof.
  unfold clients. intros Hc Hs. destruct Hs; simpl in *; [..|done].
  all: match goal with E : _ !! _ = Some _ |- _ => pose proof (Forall_lookup_1 _ _ _ _ Hc E) end.
  - apply Forall_insert; [done|]. eapply run_local; [|eassumption]; done.
  - by apply Forall_insert.
Qed.

Lemma initial_clients now q ss : Forall P ss → clients P (s_threads (initial now q ss)).
Proof. intros Hs. unfold clients. simpl. by apply Forall_fmap. Qed.

Lemma reachable_clients now q ss s :
  Forall P ss → reachable sys_step (initial now q ss) s → clients P (s_threads s).
Proof.
  intros Hs [tr Htr]. eapply (exec_invariant sys_step (λ s, clients P (s_threads s)));
    [|by apply (initial_clients now q)|done].
  intros ???. apply step_clients.
Qed.
End Clients.
End System.
Arguments op T : clear implicits.
Arguments phase T : clear implicits.
Arguments thread S T : clear implicits.
Arguments system S T : clear implicits.
Arguments label T : clear implicits.
