(* ===== verification/QueueInv.v ===== *)
(** * The queue under any number of threads

    An invariant of every system of threads over one queue, whatever the
    clients do: where each unit of the two counting semaphores is, what
    [m_cur_count] counts, mutual exclusion, and that every index is inside the
    ring.  From it: no undefined behaviour and no deadlock. *)
From S2P Require Import Prelude Semaphore Queue QueueSystem.

(** ** Where the threads are *)
Section Positions.
Context {S T : Type}.
Implicit Types (th : thread S T) (o : op T).

Definition op_of th : option (op T) :=
  match t_phase th with Working o => Some o | _ => None end.

Definition count_op (f : op T → Z) th : Z :=
  match op_of th with Some o => f o | None => 0 end.

(** A unit of [m_push_sem] taken, [m_cur_count] not yet incremented. *)
Definition claiming o : Z :=
  match o with OpPush _ (PushLock | PushSlot | PushIncCount _) => 1 | _ => 0 end.
(** [m_cur_count] incremented, [m_pop_sem] not yet posted. *)
Definition filling o : Z :=
  match o with
  | OpPush _ (PushIncPushed _ | PushUnlock _ | PushStore _ | PushPostPop) => 1
  | _ => 0 end.
(** A unit of [m_pop_sem] taken, [m_cur_count] not yet decremented. *)
Definition fetching o : Z :=
  match o with
  | OpPop (PopLock | PopSlot | PopAdvance _ | PopDecCount _) => 1
  | _ => 0 end.
(** [m_cur_count] decremented, [m_push_sem] not yet posted. *)
Definition draining o : Z :=
  match o with
  | OpPop (PopIncPopped _ | PopUnlock _ | PopLoad _ | PopPostPush _) => 1
  | _ => 0 end.
(** Between [sem_wait(&m_lock)] and [sem_post(&m_lock)]. *)
Definition in_cs o : Z :=
  match o with
  | OpPush _ (PushSlot | PushIncCount _ | PushIncPushed _ | PushUnlock _) => 1
  | OpPop (PopSlot | PopAdvance _ | PopDecCount _ | PopIncPopped _ | PopUnlock _) => 1
  | _ => 0 end.
(** [m_cur_count] already changed, the statistics not yet. *)
Definition unreported o : Z :=
  match o with
  | OpPush _ (PushIncPushed _) => 1
  | OpPop (PopIncPopped _) => -1
  | _ => 0 end.

(** The local variable [slot], where it is live. *)
Definition slot_of o : option Z :=
  match o with
  | OpPush _ (PushIncCount s | PushIncPushed s | PushUnlock s | PushStore s) => Some s
  | OpPop (PopAdvance s | PopDecCount s | PopIncPopped s | PopUnlock s | PopLoad s) => Some s
  | _ => None end.

Definition slot_ok (size : Z) th : Prop :=
  match op_of th with
  | Some o => match slot_of o with Some s => 0 ≤ s < size | None => True end
  | None => True end.
End Positions.

(** The largest queue whose index arithmetic stays within [int]. *)
Definition MAX_QUEUE_SIZE : Z := 1073741824.

(** ** The invariant *)
Record queue_inv {S T} (q : Queue T) (ths : list (thread S T)) : Prop := {
  qi_size : 0 < m_size q ≤ MAX_QUEUE_SIZE;
  qi_arr : Z.of_nat (length (m_arr q)) = m_size q;
  qi_push_sem : 0 ≤ sem_value (m_push_sem q);
  qi_pop_sem : 0 ≤ sem_value (m_pop_sem q);
  qi_lock : 0 ≤ sem_value (m_lock q);
  qi_front : 0 ≤ m_front q < m_size q;
  qi_units : sem_value (m_push_sem q) + zsum (count_op claiming) ths
             + zsum (count_op filling) ths + sem_value (m_pop_sem q)
             + zsum (count_op fetching) ths + zsum (count_op draining) ths = m_size q;
  qi_count : m_cur_count q = zsum (count_op filling) ths + sem_value (m_pop_sem q)
                             + zsum (count_op fetching) ths;
  qi_mutex : sem_value (m_lock q) + zsum (count_op in_cs) ths = 1;
  qi_stats : m_pushed_count q - m_popped_count q
             + zsum (count_op unreported) ths = m_cur_count q;
  qi_pushed : 0 ≤ m_pushed_count q;
  qi_popped : 0 ≤ m_popped_count q;
  qi_slots : Forall (slot_ok (m_size q)) ths
}.

(** The statistics counters have room for one more operation. *)
Definition counters_fit {T} (q : Queue T) : Prop :=
  m_pushed_count q < INT_MAX ∧ m_popped_count q < INT_MAX.

(** Case analysis of one step of a thread: one goal per program point and
    outcome of the action performed there. *)
Ltac run_cases th Hrun :=
  destruct th as [? ? [|[? []|[]]|]]; simpl in Hrun; unfold go, int_add, int_sub in Hrun;
  repeat (simpl in Hrun; match type of Hrun with
  | context [if ?b then _ else _] => is_var b; destruct b
  | context [start ?s] => destruct (start s) as [[? []]|] eqn:?
  | context [match sem_timedwait ?n ?t ?s with _ => _ end] =>
      destruct (sem_timedwait n t s) eqn:?
  | context [match sem_wait ?s with _ => _ end] => destruct (sem_wait s) eqn:?
  end);
  inv_ok; simplify_eq/=; inv_ok; simplify_eq/=;
  repeat match goal with
  | E : sem_timedwait _ _ _ = Taken _ |- _ => apply sem_timedwait_Taken in E as [? E]
  | E : sem_wait _ = Some _ |- _ => apply sem_wait_Some in E as [? E]
  end.

(** The same for one action of a call. *)
Ltac run_pc pc Hrun :=
  destruct pc; simpl in Hrun; unfold go, int_add, int_sub in Hrun;
  repeat (simpl in Hrun; match type of Hrun with
  | context [match sem_timedwait ?n ?t ?s with _ => _ end] =>
      destruct (sem_timedwait n t s) eqn:?
  | context [match sem_wait ?s with _ => _ end] => destruct (sem_wait s) eqn:?
  end);
  inv_ok; simplify_eq/=; inv_ok; simplify_eq/=;
  repeat match goal with
  | E : sem_timedwait _ _ _ = TimedOut |- _ => apply sem_timedwait_TimedOut in E as [? E]
  end.

Section Invariant.
Context {S T : Type} `{Client S T}.
Implicit Types (q : Queue T) (th : thread S T) (ths : list (thread S T)).

Definition sys_inv (s : system S T) : Prop := queue_inv (s_queue s) (s_threads s).

Lemma claiming_nonneg th : 0 ≤ count_op claiming th.
Proof. by destruct th as [? ? [|[? []|[]]|]]. Qed.
Lemma filling_nonneg th : 0 ≤ count_op filling th.
Proof. by destruct th as [? ? [|[? []|[]]|]]. Qed.
Lemma fetching_nonneg th : 0 ≤ count_op fetching th.
Proof. by destruct th as [? ? [|[? []|[]]|]]. Qed.
Lemma draining_nonneg th : 0 ≤ count_op draining th.
Proof. by destruct th as [? ? [|[? []|[]]|]]. Qed.
Lemma in_cs_nonneg th : 0 ≤ count_op in_cs th.
Proof. by destruct th as [? ? [|[? []|[]]|]]. Qed.

(** The contributions of one thread are at most the totals. *)
Lemma inv_thread q ths i th :
  queue_inv q ths → ths !! i = Some th →
  0 ≤ count_op claiming th ≤ zsum (count_op claiming) ths ∧
  0 ≤ count_op filling th ≤ zsum (count_op filling) ths ∧
  0 ≤ count_op fetching th ≤ zsum (count_op fetching) ths ∧
  0 ≤ count_op draining th ≤ zsum (count_op draining) ths ∧
  0 ≤ count_op in_cs th ≤ zsum (count_op in_cs) ths ∧
  slot_ok (m_size q) th.
Proof.
  intros Hq Hth. split_and!;
    eauto using zsum_lookup_le, claiming_nonneg, filling_nonneg, fetching_nonneg,
      draining_nonneg, in_cs_nonneg.
  eapply Forall_lookup_1; [apply Hq|done].
Qed.

Lemma inv_count q ths :
  queue_inv q ths →
  0 ≤ m_cur_count q ≤ m_size q ∧
  zsum (count_op claiming) ths ≤ m_size q - m_cur_count q ∧
  zsum (count_op fetching) ths ≤ m_cur_count q.
Proof.
  intros [].
  pose proof (zsum_nonneg _ ths claiming_nonneg).
  pose proof (zsum_nonneg _ ths filling_nonneg).
  pose proof (zsum_nonneg _ ths fetching_nonneg).
  pose proof (zsum_nonneg _ ths draining_nonneg). lia.
Qed.

(** Replacing one thread: the totals move by the thread's own change. *)
Lemma inv_update q ths i th q' th' :
  queue_inv q ths → ths !! i = Some th →
  let d f := count_op f th' - count_op f th in
  m_size q' = m_size q →
  length (m_arr q') = length (m_arr q) →
  0 ≤ sem_value (m_push_sem q') → 0 ≤ sem_value (m_pop_sem q') →
  0 ≤ sem_value (m_lock q') → 0 ≤ m_front q' < m_size q →
  sem_value (m_push_sem q') - sem_value (m_push_sem q)
    + d claiming + d filling + (sem_value (m_pop_sem q') - sem_value (m_pop_sem q))
    + d fetching + d draining = 0 →
  m_cur_count q' - m_cur_count q = d filling
    + (sem_value (m_pop_sem q') - sem_value (m_pop_sem q)) + d fetching →
  sem_value (m_lock q') - sem_value (m_lock q) + d in_cs = 0 →
  m_pushed_count q' - m_popped_count q' - (m_pushed_count q - m_popped_count q)
    + d unreported = m_cur_count q' - m_cur_count q →
  0 ≤ m_pushed_count q' → 0 ≤ m_popped_count q' →
  slot_ok (m_size q) th' →
  queue_inv q' (<[i := th']> ths).
Proof.
  intros Hq Hth d. subst d. cbn beta. intros Hsz Hlen. intros.
  destruct Hq; constructor; rewrite ?(zsum_insert _ _ _ _ _ Hth); rewrite ?Hsz, ?Hlen; try lia.
  by apply Forall_insert.
Qed.

(** The thread's step preserves the invariant: one case per program point. *)
Lemma run_inv now q ths i th q' ev th' :
  queue_inv q ths → ths !! i = Some th →
  run now th q = Ok (Some (q', ev, th')) →
  queue_inv q' (<[i := th']> ths).
Proof.
  intros Hq Hth Hrun.
  pose proof (inv_thread _ _ _ _ Hq Hth) as Hme.
  pose proof (inv_update _ _ _ _ q' th' Hq Hth) as Hup. cbv beta zeta in Hup.
  pose proof (qi_size _ _ Hq). pose proof (qi_front _ _ Hq).
  pose proof (qi_push_sem _ _ Hq). pose proof (qi_pop_sem _ _ Hq).
  pose proof (qi_lock _ _ Hq). pose proof (qi_popped _ _ Hq). pose proof (qi_pushed _ _ Hq).
  pose proof (inv_count _ _ Hq).
  run_cases th Hrun; apply Hup; clear Hup; unfold count_op, slot_ok in *; simpl in *;
    rewrite ?length_insert; try (done || lia).
  all: match goal with R : int_rem _ _ = Ok _ |- _ => apply int_rem_Ok_pos in R; lia end.
Qed.

Lemma run_size now (q : Queue T) th q' ev th' :
  run now th q = Ok (Some (q', ev, th')) → m_size q' = m_size q.
Proof. intros Hrun. by run_cases th Hrun. Qed.

Lemma stop_inv q ths i th :
  queue_inv q ths → ths !! i = Some th → queue_inv q (<[i := stop th]> ths).
Proof.
  intros Hq Hth. pose proof (inv_thread _ _ _ _ Hq Hth) as (_&_&_&_&_&Hs).
  destruct th as [r s ph].
  apply (inv_update _ _ _ _ q (stop (Thread r s ph)) Hq Hth); try (apply Hq || lia || done).
  all: unfold count_op, op_of; simpl; lia.
Qed.

Lemma step_inv s o s' : sys_inv s → sys_step s o s' → sys_inv s'.
Proof.
  unfold sys_inv. intros Hi Hs. destruct Hs; simpl in *; [eapply run_inv|eapply stop_inv|]; eauto.
Qed.
#[local] Hint Resolve step_inv : blp.

Lemma initial_inv now arr size id ss :
  0 < size ≤ MAX_QUEUE_SIZE → Z.of_nat (length arr) = size →
  sys_inv (initial now (Queue_ctor arr size id) ss).
Proof.
  intros Hs Ha. unfold sys_inv, initial. simpl.
  assert (Z0 : ∀ f, zsum (count_op f) ((λ s, @Thread S T true s Checking) <$> ss) = 0).
  { intros f. apply zsum_zero, Forall_fmap, Forall_true. done. }
  constructor; simpl; rewrite ?Z0; try lia.
  apply Forall_fmap, Forall_true. done.
Qed.

Lemma reachable_inv now arr size id ss s :
  0 < size ≤ MAX_QUEUE_SIZE → Z.of_nat (length arr) = size →
  reachable sys_step (initial now (Queue_ctor arr size id) ss) s → sys_inv s.
Proof.
  intros Hs Ha [tr Htr]. eapply exec_invariant; [|by apply initial_inv|done].
  intros ? ? ?. apply step_inv.
Qed.

(** Why a thread may be unable to act. *)
Definition waiting_lock (th : thread S T) : bool :=
  match op_of th with
  | Some (OpPush _ PushLock) | Some (OpPop PopLock) => true
  | _ => false end.
Definition deadline (th : thread S T) : option timespec :=
  match op_of th with
  | Some (OpPush _ (PushTimedWait ts)) | Some (OpPop (PopTimedWait ts)) => Some ts
  | _ => None end.

Section Progress.
Context (P : S → Prop) `{!ClientOk S T P}.

(** Every action is defined while the statistics fit, and it is blocked only
    on the lock, on a deadline not yet reached, or because the thread exited. *)
Lemma run_defined now q ths i th :
  queue_inv q ths → clients P ths → counters_fit q → ths !! i = Some th →
  ∃ r, run now th q = Ok r ∧
    (r = None → t_phase th = Exited ∨
       (waiting_lock th = true ∧ sem_value (m_lock q) ≤ 0) ∨
       (∃ ts, deadline th = Some ts ∧ ts_le ts now = false)).
Proof.
  intros Hq HP [Hp Hc] Hth.
  pose proof (Forall_lookup_1 _ _ _ _ HP Hth) as Hloc. simpl in Hloc.
  pose proof (inv_thread _ _ _ _ Hq Hth) as Hme.
  pose proof (inv_count _ _ Hq) as Hcnt. destruct Hq as [Hsz Ha _ _ _ Hf _ _ _ _ Hpush Hpop Hsl].
  assert (A : ∀ x y, INT_MIN ≤ x + y ≤ INT_MAX → int_add x y = Ok (x + y))
    by (intros; by apply int_of_ok).
  assert (B : ∀ x y, INT_MIN ≤ x - y ≤ INT_MAX → int_sub x y = Ok (x - y))
    by (intros; by apply int_of_ok).
  assert (R : ∀ x, 0 ≤ x → int_rem x (m_size q) = Ok (x mod m_size q))
    by (intros; apply int_rem_pos; unfold INT_MAX, MAX_QUEUE_SIZE in *; lia).
  unfold count_op, slot_ok, MAX_QUEUE_SIZE, INT_MAX, INT_MIN in *.
  assert (Now : ∀ x (X : Prop), ∃ r : option (Queue T * option (event T) * thread S T),
    Ok (Some x) = Ok r ∧ (r = None → X)) by (intros x X; by exists (Some x)).
  destruct th as [r s [|[t pc|pc]|]]; [| destruct pc | destruct pc |];
    simpl in *; unfold go;
    rewrite ?A, ?B by lia; simpl; rewrite ?R by lia; simpl;
    rewrite ?array_write_ok by lia; simpl; try apply Now.
  all: try match goal with
    |- context [match sem_timedwait ?n ?ts ?s with _ => _ end] =>
         destruct (sem_timedwait n ts s) eqn:W; simpl; try apply Now
    end.
  all: try match goal with
    |- context [match sem_wait ?s with _ => _ end] =>
         destruct (sem_wait s) eqn:W; simpl; try apply Now
    end.
  - destruct r; [|apply Now].
    destruct (start_ok s Hloc) as (s' & x & -> & _). apply Now.
  - eexists; split; [done|]. right; right. by eexists; split; [|eapply sem_timedwait_StillWaiting].
  - eexists; split; [done|]. right; left. by apply sem_wait_None in W.
  - eexists; split; [done|]. right; right. by eexists; split; [|eapply sem_timedwait_StillWaiting].
  - eexists; split; [done|]. right; left. by apply sem_wait_None in W.
  - destruct (array_read_ok (m_arr q) slot) as (v & -> & _); [lia|]. apply Now.
  - eexists; split; [done|]. by left.
Qed.

Lemma inv_no_fault s :
  sys_inv s → clients P (s_threads s) → counters_fit (s_queue s) → ¬ sys_fault s.
Proof.
  intros Hq HP Hc (i & th & f & Hth & Hrun).
  destruct (run_defined (s_now s) _ _ _ _ Hq HP Hc Hth) as (r & Hr & _). congruence.
Qed.

(** Thread [i] can act now. *)
Definition enabled (s : system S T) (i : nat) : Prop :=
  ∃ s' o, do_choice (Run i) s = Ok (Some (s', o)).

Lemma run_enabled s i th :
  sys_inv s → clients P (s_threads s) → counters_fit (s_queue s) → s_threads s !! i = Some th →
  t_phase th ≠ Exited →
  (waiting_lock th = true → 0 < sem_value (m_lock (s_queue s))) →
  (∀ ts, deadline th = Some ts → ts_le ts (s_now s) = true) →
  enabled s i.
Proof.
  intros Hq HP Hc Hth He Hl Hd.
  destruct (run_defined (s_now s) _ _ _ _ Hq HP Hc Hth) as ([[[q' ev] th']|] & Hr & Hb).
  - unfold enabled. simpl. rewrite Hth, Hr. simpl. eauto.
  - destruct (Hb eq_refl) as [?|[[? ?]|(ts & E & ?)]]; [done| |].
    + specialize (Hl ltac:(done)). lia.
    + apply Hd in E. congruence.
Qed.

End Progress.

(** A thread inside the critical section can always act. *)
Lemma in_cs_enabled (P : S → Prop) `{!ClientOk S T P} s j th :
  sys_inv s → clients P (s_threads s) → counters_fit (s_queue s) →
  s_threads s !! j = Some th → 0 < count_op in_cs th → enabled s j.
Proof.
  intros Hi Hcl Hc Hj Hcs. apply (run_enabled P s j th); try done.
  all: destruct th as [? ? [|[? []|[]]|]]; unfold count_op in Hcs; simpl in *; done || lia.
Qed.

Lemma tick_state s ts :
  ts_le (s_now s) ts = true →
  do_choice (Tick ts) s = Ok (Some (System ts (s_queue s) (s_threads s), None)).
Proof. intros E. simpl. by rewrite E. Qed.

Lemma inv_progress (P : S → Prop) `{!ClientOk S T P} s i th :
  sys_inv s → clients P (s_threads s) → counters_fit (s_queue s) →
  s_threads s !! i = Some th → t_phase th ≠ Exited →
  ∃ ts s', do_choice (Tick ts) s = Ok (Some (s', None)) ∧ ∃ j, enabled s' j.
Proof.
  intros Hi Hcl Hc Hth He.
  destruct (clock_reaches_if (s_now s) (deadline th)) as (ts & Hts & Hd). exists ts, (System ts (s_queue s) (s_threads s)).
  split; [by apply tick_state|].
  set (s' := System ts _ _). assert (Hi' : sys_inv s') by exact Hi.
  destruct (decide (waiting_lock th = true ∧ sem_value (m_lock (s_queue s)) ≤ 0)) as [[Hw Hl]|Hn].
  - destruct (zsum_pos_lookup (count_op in_cs) (s_threads s)) as (j & thj & Hj & Hcs).
    { pose proof (qi_mutex _ _ Hi). lia. }
    exists j. by apply (in_cs_enabled P s' j thj).
  - exists i. apply (run_enabled P s' i th); try done. intros Hw.
    apply Z.nle_gt. intros Hl. by apply Hn.
Qed.
End Invariant.
