(* ===== verification/QueueFifo.v ===== *)
(** * One producer and one consumer: the queue is a bounded FIFO

    The abstract specification of [Queue] (a list of at most [m_size] items)
    and the refinement: every execution of one pushing and one popping thread
    is, event for event, a run of the specification. *)
From S2P Require Import Prelude Semaphore Queue QueueSystem QueueInv.

(** ** Specification *)
Section Spec.
Context {T : Type} (size : Z).

Definition len (l : list T) : Z := Z.of_nat (length l).

(** A timeout is honest up to the one item the other side is handling. *)
Inductive fifo_step : list T → event T → list T → Prop :=
  | fifo_push l t : len l < size → fifo_step l (EvPush t) (l ++ [t])
  | fifo_pop t l : fifo_step (t :: l) (EvPop t) l
  | fifo_push_timeout l : size ≤ len l + 1 → fifo_step l EvPushTimeout l
  | fifo_pop_timeout l : len l ≤ 1 → fifo_step l EvPopTimeout l.

Inductive fifo_run : list T → list (event T) → list T → Prop :=
  | fifo_nil l : fifo_run l [] l
  | fifo_snoc l tr l1 e l2 :
      fifo_run l tr l1 → fifo_step l1 e l2 → fifo_run l (tr ++ [e]) l2.

(** The items a trace pushes and pops, in order. *)
Definition pushed (tr : list (event T)) : list T :=
  omap (λ e, match e with EvPush t => Some t | _ => None end) tr.
Definition popped (tr : list (event T)) : list T :=
  omap (λ e, match e with EvPop t => Some t | _ => None end) tr.

Lemma fifo_run_content l tr l' :
  fifo_run l tr l' → popped tr ++ l' = l ++ pushed tr.
Proof.
  unfold pushed, popped. induction 1 as [|l tr l1 e l2 _ IH Hs].
  - by rewrite app_nil_r.
  - rewrite !omap_app. destruct Hs; simpl in *; rewrite ?app_nil_r.
    + by rewrite app_assoc, IH, <-app_assoc.
    + by rewrite <-app_assoc.
    + done.
    + done.
Qed.

Lemma fifo_run_bound l tr l' : 0 ≤ size → fifo_run l tr l' → len l ≤ size → len l' ≤ size.
Proof.
  intros Hz. induction 1 as [|l tr l1 e l2 _ IH Hs]; [done|]. intros Hl. specialize (IH Hl).
  unfold len in *. destruct Hs; simpl in *; rewrite ?length_app; simpl; unfold len in *; lia.
Qed.
End Spec.

(** ** Roles *)
Section Roles.
Context {S T : Type} `{Client S T}.

Class Pusher (P : S → Prop) := {
  pusher_start s s' r : P s → start s = Ok (s', r) → P s' ∧ ∃ t, r = ReqPush t;
  pusher_finish s r : P s → P (finish s r)
}.
Class Popper (P : S → Prop) := {
  popper_start s s' r : P s → start s = Ok (s', r) → P s' ∧ r = ReqPop;
  popper_finish s r : P s → P (finish s r)
}.
End Roles.

(** ** The abstraction relation *)
Section Rep.
Context {S T : Type}.
Implicit Types (q : Queue T) (p c : thread S T) (l : list T).

Definition pushing p : Prop :=
  match op_of p with Some (OpPop _) => False | _ => True end.
Definition popping c : Prop :=
  match op_of c with Some (OpPush _ _) => False | _ => True end.

(** The index of the oldest item not yet copied out. *)
Definition head q c : Z :=
  match op_of c with
  | Some (OpPop (PopDecCount s | PopIncPopped s | PopUnlock s | PopLoad s)) => s
  | _ => m_front q end.

(** The item being popped, from the unit of [m_pop_sem] to its copy. *)
Definition unread (o : op T) : Z :=
  match o with
  | OpPop (PopLock | PopSlot | PopAdvance _ | PopDecCount _ | PopIncPopped _
           | PopUnlock _ | PopLoad _) => 1
  | _ => 0 end.
(** The item stored but not yet posted. *)
Definition stored (o : op T) : Z :=
  match o with OpPush _ PushPostPop => 1 | _ => 0 end.

Record spsc_rep q p c l : Prop := {
  sr_len : len l = sem_value (m_pop_sem q) + count_op unread c + count_op stored p;
  sr_cells : ∀ i v, l !! i = Some v →
    m_arr q !! Z.to_nat ((head q c + Z.of_nat i) mod m_size q) = Some v;
  sr_pslot : ∀ o s, op_of p = Some o → slot_of o = Some s →
    s = (head q c + len l) mod m_size q;
  sr_cslot : match op_of c with
    | Some (OpPop (PopAdvance s)) => s = m_front q
    | Some (OpPop (PopDecCount s | PopIncPopped s | PopUnlock s | PopLoad s)) =>
        m_front q = (s + 1) mod m_size q
    | _ => True end;
  sr_push : pushing p;
  sr_pop : popping c
}.

Lemma pushing_counts p : pushing p → count_op fetching p = 0 ∧ count_op draining p = 0.
Proof. by destruct p as [? ? [|[? []|[]]|]]. Qed.
Lemma popping_counts c :
  popping c → count_op claiming c = 0 ∧ count_op filling c = 0 ∧ count_op stored c = 0.
Proof. by destruct c as [? ? [|[? []|[]]|]]. Qed.
End Rep.

(** ** The simulation *)
Section Simulation.
Context {S T : Type} `{Client S T}.
Context (Pp Pc : S → Prop) `{!Pusher Pp, !Popper Pc}.
Implicit Types (q : Queue T) (p c : thread S T) (l : list T).

Definition fifo_match size l ev l' : Prop :=
  match ev with None => l' = l | Some e => fifo_step size l e l' end.

(** A step of the producer that leaves the contents alone. *)
Lemma rep_producer_move q p c l q' p' :
  spsc_rep q p c l →
  m_arr q' = m_arr q → m_front q' = m_front q → m_size q' = m_size q →
  sem_value (m_pop_sem q') + count_op stored p' =
    sem_value (m_pop_sem q) + count_op stored p →
  pushing p' →
  (∀ o s, op_of p' = Some o → slot_of o = Some s → s = (head q c + len l) mod m_size q) →
  spsc_rep q' p' c l.
Proof.
  intros [] Ea Ef Es Esem Hp Hs.
  assert (Eh : head q' c = head q c) by (unfold head; by rewrite Ef).
  constructor; rewrite ?Eh, ?Ea, ?Ef, ?Es; eauto. lia.
Qed.

(** The claimed slot is the one after the last item. *)
Lemma producer_slot q p c l s :
  queue_inv q [p; c] → spsc_rep q p c l →
  count_op in_cs p = 1 → count_op filling p = 0 → count_op stored p = 0 →
  int_rem (m_front q + m_cur_count q) (m_size q) = Ok s →
  s = (head q c + len l) mod m_size q.
Proof.
  intros Hq [Hlen _ _ Hcs Hpush Hpop] Hin Hfill Hst Hs.
  apply pushing_counts in Hpush.
  pose proof (inv_count _ _ Hq). pose proof (inv_thread _ _ 1 c Hq eq_refl) as Hme.
  destruct Hq as [Hsz _ _ _ Hl Hf _ Hc Hm _ _ _ _]. simpl in *.
  apply int_rem_Ok_pos in Hs as [-> _]; [|lia..].
  destruct c as [? ? [|[? []|[]]|]]; unfold count_op, head, popping in *; simpl in *;
    try lia; try contradiction; try (f_equal; lia).
  rewrite Hcs, ring_add by lia. f_equal. lia.
Qed.

(** Storing an item in the claimed slot appends it. *)
Lemma rep_producer_store q p c l t s p' :
  queue_inv q [p; c] → spsc_rep q p c l →
  count_op filling p = 1 → count_op stored p = 0 → count_op stored p' = 1 →
  s = (head q c + len l) mod m_size q → pushing p' →
  (∀ o, op_of p' = Some o → slot_of o = None) →
  len l < m_size q ∧
  spsc_rep (set_arr q (<[Z.to_nat s := t]> (m_arr q))) p' c (l ++ [t]).
Proof.
  intros Hq [Hlen Hcells _ Hcs _ Hpop] Hfill Hst Hst' Hs Hp' Hno.
  assert (Hl : len l < m_size q).
  { destruct Hq as [_ _ ? ? _ _ Hu _ _ _ _ _ _]. simpl in Hu.
    pose proof (claiming_nonneg p). pose proof (fetching_nonneg p).
    pose proof (draining_nonneg p). pose proof (claiming_nonneg c). pose proof (filling_nonneg c).
    assert (count_op unread c ≤ count_op fetching c + count_op draining c)
      by (destruct c as [? ? [|[? []|[]]|]]; unfold count_op; simpl; lia).
    lia. }
  split; [done|].
  pose proof (qi_arr _ _ Hq) as Ha. pose proof (qi_size _ _ Hq) as Hsz.
  pose proof (ring_bound (m_size q) ltac:(lia)) as Hb.
  constructor; simpl; try done.
  - unfold len in *. rewrite length_app. simpl. lia.
  - intros i v Hi. unfold head in *. simpl.
    set (h := match op_of c with Some _ => _ | None => _ end) in *.
    destruct (decide (i = length l)) as [->|Hne].
    + rewrite lookup_app_r, Nat.sub_diag in Hi by lia. injection Hi as <-. rewrite Hs.
      apply list_lookup_insert_eq. specialize (Hb (h + len l)). lia.
    + assert (Hil : (i < length l)%nat)
        by (apply lookup_lt_Some in Hi; rewrite length_app in Hi; simpl in Hi; lia).
      rewrite lookup_app_l in Hi by done. rewrite list_lookup_insert_ne; [by apply Hcells|].
      intros E. apply Z2Nat.inj in E; [|rewrite ?Hs; apply Hb..]. rewrite Hs in E.
      unfold len in *. apply ring_inj in E; lia.
  - intros o s' Ho Hs'. rewrite (Hno o Ho) in Hs'. done.
Qed.

(** The role of a thread is kept by its steps. *)
Lemma pusher_run now p q q' ev p' :
  pushing p → Pp (t_local p) → run now p q = Ok (Some (q', ev, p')) →
  pushing p' ∧ Pp (t_local p').
Proof.
  intros Hp Hl Hrun. run_cases p Hrun; try done.
  - eapply pusher_start in Heqo as [? _]; done.
  - eapply pusher_start in Heqo as [? [? ?]]; done.
  - by split; [|apply pusher_finish].
  - by split; [|apply pusher_finish].
Qed.

Lemma popper_run now c q q' ev c' :
  popping c → Pc (t_local c) → run now c q = Ok (Some (q', ev, c')) →
  popping c' ∧ Pc (t_local c').
Proof.
  intros Hp Hl Hrun. run_cases c Hrun; try done.
  - eapply popper_start in Heqo as [? ?]; done.
  - eapply popper_start in Heqo as [? ?]; done.
  - by split; [|apply popper_finish].
  - by split; [|apply popper_finish].
Qed.

(** What a timed-out push saw: all slots but at most one are full. *)
Lemma producer_timeout q p c l :
  queue_inv q [p; c] → spsc_rep q p c l →
  count_op claiming p = 0 → count_op filling p = 0 → sem_value (m_push_sem q) ≤ 0 →
  m_size q ≤ len l + 1.
Proof.
  intros Hq [Hlen _ _ _ Hpush Hpop] Hc Hf Hs.
  destruct (pushing_counts _ Hpush). destruct (popping_counts _ Hpop) as (?&?&?).
  destruct Hq as [_ _ _ _ _ _ Hu _ _ _ _ _ _]. simpl in Hu.
  assert (count_op fetching c + count_op draining c ≤ count_op unread c + 1)
    by (destruct c as [? ? [|[? []|[]]|]]; unfold count_op; simpl; lia).
  assert (0 ≤ count_op stored p)
    by (destruct p as [? ? [|[? []|[]]|]]; unfold count_op; simpl; lia).
  lia.
Qed.

Lemma producer_step now q p c l q' ev p' :
  queue_inv q [p; c] → spsc_rep q p c l → Pp (t_local p) →
  run now p q = Ok (Some (q', ev, p')) →
  ∃ l', fifo_match (m_size q) l ev l' ∧ spsc_rep q' p' c l'.
Proof.
  intros Hq Hr Hloc Hrun.
  pose proof (λ s, producer_slot q p c l s Hq Hr) as Hslot.
  pose proof (rep_producer_move _ _ _ _ q' p' Hr) as Hmove.
  pose proof (λ t s, rep_producer_store q p c l t s p' Hq Hr) as Hstore.
  pose proof (producer_timeout _ _ _ _ Hq Hr) as Htime.
  pose proof (sr_pslot _ _ _ _ Hr) as Hps.
  destruct (pusher_run _ _ _ _ _ _ (sr_push _ _ _ _ Hr) Hloc Hrun) as [Hp' _].
  pose proof (sr_push _ _ _ _ Hr) as Hp.
  run_cases p Hrun; try contradiction;
    try solve [exists l; split; [done|]; apply Hmove; try done;
               intros o s' [= <-] [= <-]; by eapply Hps].
  - match goal with W : _ = TimedOut |- _ => apply sem_timedwait_TimedOut in W as [? _] end.
    exists l. split; [by constructor; apply Htime|]. by apply Hmove.
  - exists l. split; [done|]. apply Hmove; try done. intros o s' [= <-] [= <-]. by apply Hslot.
  - destruct (Hstore t slot) as [Hl Hrep]; try done; [by eapply Hps|by intros ? [= <-]|].
    exists (l ++ [t]). split; [by constructor|done].
  - exists l. split; [done|]. apply Hmove; try done. unfold count_op. simpl. lia.
Qed.

(** A step of the consumer that leaves the contents alone. *)
Lemma rep_consumer_move q p c l q' c' :
  spsc_rep q p c l →
  m_arr q' = m_arr q → m_size q' = m_size q → head q' c' = head q c →
  sem_value (m_pop_sem q') + count_op unread c' =
    sem_value (m_pop_sem q) + count_op unread c →
  popping c' →
  match op_of c' with
  | Some (OpPop (PopAdvance s)) => s = m_front q'
  | Some (OpPop (PopDecCount s | PopIncPopped s | PopUnlock s | PopLoad s)) =>
      m_front q' = (s + 1) mod m_size q'
  | _ => True end →
  spsc_rep q' p c' l.
Proof.
  intros [] Ea Es Eh Esem Hp Hs.
  constructor; rewrite ?Eh, ?Ea; rewrite ?Es in *; eauto. lia.
Qed.

(** The item a consumer copies is the oldest one. *)
Lemma rep_consumer_load q p c l c' s v :
  queue_inv q [p; c] → spsc_rep q p c l →
  op_of c = Some (OpPop (PopLoad s)) → op_of c' = Some (OpPop (PopPostPush v)) →
  m_arr q !! Z.to_nat s = Some v → 0 ≤ s < m_size q →
  ∃ l', l = v :: l' ∧ spsc_rep q p c' l'.
Proof.
  intros Hq [Hlen Hcells Hps Hcs Hpush Hpop] Hc Hc' Hv Hs.
  pose proof (qi_size _ _ Hq). pose proof (qi_pop_sem _ _ Hq).
  assert (0 ≤ count_op stored p)
    by (destruct p as [? ? [|[? []|[]]|]]; unfold count_op; simpl; lia).
  unfold count_op in Hlen at 1. rewrite Hc in Hlen, Hcs. simpl in *.
  assert (Eh : head q c = s) by (unfold head; by rewrite Hc).
  assert (Eh' : head q c' = (s + 1) mod m_size q) by (unfold head; by rewrite Hc').
  rewrite Eh in *. unfold len in *.
  destruct l as [|w l']; [simpl in *; lia|]. exists l'. simpl in *.
  pose proof (Hcells 0%nat w eq_refl) as Hw. rewrite Z.add_0_r, Z.mod_small in Hw by lia.
  split; [congruence|].
  constructor; rewrite ?Eh'; try done.
  - unfold count_op at 1. rewrite Hc'. unfold len in *. simpl. lia.
  - intros i u Hi. rewrite ring_add by lia.
    replace (s + 1 + Z.of_nat i) with (s + Z.of_nat (Datatypes.S i)) by lia.
    by apply (Hcells (Datatypes.S i)).
  - intros o s' Ho Hs'. rewrite (Hps o s' Ho Hs'), ring_add by lia. f_equal. unfold len. lia.
  - by rewrite Hc'.
  - unfold popping. by rewrite Hc'.
Qed.

Lemma consumer_timeout q p c l :
  queue_inv q [p; c] → spsc_rep q p c l →
  count_op unread c = 0 → sem_value (m_pop_sem q) ≤ 0 → len l ≤ 1.
Proof.
  intros _ [Hlen _ _ _ _ _] Hu Hs.
  assert (count_op stored p ≤ 1)
    by (destruct p as [? ? [|[? []|[]]|]]; unfold count_op; simpl; lia).
  lia.
Qed.

Lemma consumer_step now q p c l q' ev c' :
  queue_inv q [p; c] → spsc_rep q p c l → Pc (t_local c) →
  run now c q = Ok (Some (q', ev, c')) →
  ∃ l', fifo_match (m_size q) l ev l' ∧ spsc_rep q' p c' l'.
Proof.
  intros Hq Hr Hloc Hrun.
  pose proof (rep_consumer_move _ _ _ _ q' c' Hr) as Hmove.
  pose proof (λ s v, rep_consumer_load q p c l c' s v Hq Hr) as Hload.
  pose proof (consumer_timeout _ _ _ _ Hq Hr) as Htime.
  pose proof (sr_cslot _ _ _ _ Hr) as Hcs.
  pose proof (inv_thread _ _ 1 c Hq eq_refl) as (_&_&_&_&_&Hslot).
  pose proof (qi_size _ _ Hq). pose proof (qi_front _ _ Hq).
  destruct (popper_run _ _ _ _ _ _ (sr_pop _ _ _ _ Hr) Hloc Hrun) as [Hp' _].
  pose proof (sr_pop _ _ _ _ Hr) as Hp.
  run_cases c Hrun; try contradiction;
    try solve [exists l; split; [done|]; apply Hmove; unfold count_op; simpl; done || lia].
  - match goal with W : _ = TimedOut |- _ => apply sem_timedwait_TimedOut in W as [? _] end.
    exists l. split; [by constructor; apply Htime|]. by apply Hmove.
  - match goal with R : int_rem _ _ = Ok _ |- _ => apply int_rem_Ok_pos in R as [-> _]; [|lia..] end.
    exists l. split; [done|]. by apply Hmove.
  - match goal with R : _ !! Z.to_nat ?s = Some ?v |- _ =>
      destruct (Hload s v) as (l' & -> & Hrep); try done end.
    exists l'. split; [constructor|done].
Qed.
End Simulation.

(** ** The refinement at the level of the system *)
Section Refinement.
Context {S T : Type} `{Client S T}.
Context (Pp Pc : S → Prop) `{!Pusher Pp, !Popper Pc}.
Implicit Types (s : system S T) (l : list T).

Definition spsc_state (size : Z) s l : Prop :=
  ∃ p c, s_threads s = [p; c] ∧ queue_inv (s_queue s) [p; c] ∧
    m_size (s_queue s) = size ∧ spsc_rep (s_queue s) p c l ∧
    Pp (t_local p) ∧ Pc (t_local c).

Definition events (tr : list (label T)) : list (event T) := tr.*2.

Lemma spsc_rep_stop q (p c p' c' : thread S T) l :
  spsc_rep q p c l → op_of p' = op_of p → op_of c' = op_of c → spsc_rep q p' c' l.
Proof.
  intros [] Ep Ec.
  assert (Eh : head q c' = head q c) by (unfold head; by rewrite Ec).
  constructor; rewrite ?Eh; unfold count_op, pushing, popping in *; rewrite ?Ep, ?Ec; auto.
Qed.

Lemma spsc_step size s l o s' :
  spsc_state size s l → sys_step s o s' →
  ∃ l', fifo_match size l (snd <$> o) l' ∧ spsc_state size s' l'.
Proof.
  intros (p & c & Eth & Hq & Hsz & Hr & Hp & Hc) Hs.
  assert (Hq' : queue_inv (s_queue s') (s_threads s')).
  { apply (step_inv s o s'); [|done]. unfold sys_inv. by rewrite Eth. }
  unfold spsc_state. destruct Hs as [now q ths i th q' ev th' Hi Hrun|now q ths i th Hi|];
    simpl in *; subst ths.
  - destruct i as [|[|]]; simplify_eq/=.
    + destruct (producer_step Pp _ _ _ _ _ _ _ _ Hq Hr Hp Hrun) as (l' & Hm & Hr').
      destruct (pusher_run Pp _ _ _ _ _ _ (sr_push _ _ _ _ Hr) Hp Hrun) as [_ ?].
      exists l'. split; [by destruct ev|].
      exists th', c. split_and!; try done. by eapply run_size.
    + destruct (consumer_step Pc _ _ _ _ _ _ _ _ Hq Hr Hc Hrun) as (l' & Hm & Hr').
      destruct (popper_run Pc _ _ _ _ _ _ (sr_pop _ _ _ _ Hr) Hc Hrun) as [_ ?].
      exists l'. split; [by destruct ev|].
      exists p, th'. split_and!; try done. by eapply run_size.
  - destruct i as [|[|]]; simplify_eq/=.
    + exists l. split; [done|]. exists (stop th), c. split_and!; try done.
      by eapply spsc_rep_stop.
    + exists l. split; [done|]. exists p, (stop th). split_and!; try done.
      by eapply spsc_rep_stop.
  - exists l. split; [done|]. by exists p, c.
Qed.

Lemma spsc_initial now arr size id sp sc :
  0 < size ≤ MAX_QUEUE_SIZE → Z.of_nat (length arr) = size → Pp sp → Pc sc →
  spsc_state size (initial now (Queue_ctor arr size id) [sp; sc]) [].
Proof.
  intros Hs Ha Hp Hc. exists (Thread true sp Checking), (Thread true sc Checking).
  split; [done|]. split; [by apply (initial_inv now arr size id [sp; sc])|].
  split_and!; done || by constructor.
Qed.

Lemma spsc_exec now arr size id sp sc tr s :
  0 < size ≤ MAX_QUEUE_SIZE → Z.of_nat (length arr) = size → Pp sp → Pc sc →
  exec sys_step (initial now (Queue_ctor arr size id) [sp; sc]) tr s →
  ∃ l, fifo_run size [] (events tr) l ∧ spsc_state size s l.
Proof.
  intros Hs Ha Hp Hc.
  apply (exec_trace_invariant sys_step
    (λ tr s, ∃ l, fifo_run size [] (events tr) l ∧ spsc_state size s l)).
  - intros tr' s1 o s2 (l & Hf & Hst) Hstep.
    destruct (spsc_step _ _ _ _ _ Hst Hstep) as (l' & Hm & Hst').
    exists l'. split; [|done]. unfold events. rewrite fmap_app.
    destruct o as [[i e]|]; simpl in *; [by econstructor|].
    subst. by rewrite app_nil_r.
  - exists []. split; [constructor|by apply spsc_initial].
Qed.

(** Only a push in progress stores an item. *)
Lemma run_pushes now (q : Queue T) th q' t th' :
  run now th q = Ok (Some (q', Some (EvPush t), th')) → ∃ u pc, op_of th = Some (OpPush u pc).
Proof. intros Hrun. run_cases th Hrun; unfold op_of; simpl; eauto. Qed.

(** The pushes of a trace are all the producer's. *)
Lemma spsc_push_label size s l i t s' :
  spsc_state size s l → sys_step s (Some (i, EvPush t)) s' → i = 0%nat.
Proof.
  intros (p & c & Eth & _ & _ & Hr & _) Hs. inversion Hs as [now q ths j th q' ev th' Hi Hrun E1 E2| |]; subst.
  destruct ev; simplify_eq/=. destruct i as [|[|]]; simplify_eq/=; [done|].
  destruct (run_pushes _ _ _ _ _ _ Hrun) as (u & pc & E).
  pose proof (sr_pop _ _ _ _ Hr) as Hp. unfold popping in Hp. by rewrite E in Hp.
Qed.

(** While the producer writes a slot and the consumer reads one, they differ. *)
Lemma spsc_state_race size s l t p c sp sc :
  spsc_state size s l → s_threads s = [p; c] →
  op_of p = Some (OpPush t (PushStore sp)) → op_of c = Some (OpPop (PopLoad sc)) →
  sp ≠ sc.
Proof.
  intros (p' & c' & Eth & Hq & _ & Hr & _) Eth' Ep Ec. rewrite Eth in Eth'. simplify_eq.
  destruct Hr as [Hlen _ Hps _ _ _]. rewrite (Hps _ _ Ep eq_refl).
  assert (Eh : head (s_queue s) c = sc) by (unfold head; by rewrite Ec). rewrite Eh.
  pose proof (inv_thread _ _ 1 c Hq eq_refl) as (_&_&_&_&_&Hsl).
  unfold slot_ok in Hsl. rewrite Ec in Hsl. simpl in Hsl.
  destruct Hq as [Hsz _ ? ? _ _ Hu _ _ _ _ _ _]. simpl in Hu.
  unfold count_op in *. rewrite Ep, Ec in *. simpl in *.
  intros E. assert (len l = 0); [|lia].
  apply (ring_inj (m_size (s_queue s)) ltac:(lia) sc); [lia|lia|].
  rewrite E, Z.add_0_r. symmetry. apply Z.mod_small. lia.
Qed.
End Refinement.
