(* ===== verification/QueueLife.v ===== *)
(** * Statistics, termination of calls, and stopping a thread

    What the counters printed by [~Queue] and [report] count; that every call
    on the queue returns after a bounded number of its own actions; and what a
    thread still does after its [m_run] was cleared. *)
From S2P Require Import Prelude Semaphore Queue QueueSystem QueueInv QueueFifo.

(** ** Where a call stands *)
Section Positions.
Context {S T : Type}.
Implicit Types (o : op T).

(** [m_pushed_count] incremented, the item not yet stored. *)
Definition announced o : Z :=
  match o with OpPush _ (PushUnlock _ | PushStore _) => 1 | _ => 0 end.
(** [m_popped_count] incremented, the item not yet copied. *)
Definition withdrawn o : Z :=
  match o with OpPop (PopUnlock _ | PopLoad _) => 1 | _ => 0 end.

(** How many actions the call still needs at most. *)
Definition rank o : nat :=
  match o with
  | OpPush _ pc =>
      match pc with
      | PushEnter => 9 | PushTimedWait _ => 8 | PushLock => 7 | PushSlot => 6
      | PushIncCount _ => 5 | PushIncPushed _ => 4 | PushUnlock _ => 3
      | PushStore _ => 2 | PushPostPop => 1
      end
  | OpPop pc =>
      match pc with
      | PopEnter => 10 | PopTimedWait _ => 9 | PopLock => 8 | PopSlot => 7
      | PopAdvance _ => 6 | PopDecCount _ => 5 | PopIncPopped _ => 4
      | PopUnlock _ => 3 | PopLoad _ => 2 | PopPostPush _ => 1
      end
  end%nat.

Definition thread_rank (th : thread S T) : nat :=
  match op_of th with Some o => rank o | None => 0 end.

(** The queue events a thread can still cause once it has been stopped. *)
Definition events_left (th : thread S T) : nat :=
  match op_of th with
  | Some (OpPush _ PushPostPop) | Some (OpPop (PopPostPush _)) => 0
  | Some _ => 1
  | None => 0 end%nat.
End Positions.

Section Life.
Context {S T : Type} `{Client S T}.
Implicit Types (q : Queue T) (th : thread S T) (s : system S T).

(** ** Statistics *)
Definition stats_inv (tr : list (label T)) s : Prop :=
  m_pushed_count (s_queue s) =
    len (pushed (events tr)) + zsum (count_op announced) (s_threads s) ∧
  m_popped_count (s_queue s) =
    len (popped (events tr)) + zsum (count_op withdrawn) (s_threads s).

Lemma events_snoc (tr : list (label T)) o :
  len (pushed (events (tr ++ option_list o))) = len (pushed (events tr)) +
    match o with Some (_, EvPush _) => 1 | _ => 0 end ∧
  len (popped (events (tr ++ option_list o))) = len (popped (events tr)) +
    match o with Some (_, EvPop _) => 1 | _ => 0 end.
Proof.
  unfold events, pushed, popped, len. rewrite !fmap_app, !omap_app, !length_app.
  destruct o as [[? []]|]; simpl; lia.
Qed.

Lemma stats_step tr s o s' : stats_inv tr s → sys_step s o s' → stats_inv (tr ++ option_list o) s'.
Proof.
  unfold stats_inv. intros [Hp Hc] Hs. destruct (events_snoc tr o) as [-> ->].
  destruct Hs as [now q ths i th q' ev th' Hi Hrun|now q ths i th Hi|]; simpl in *; [| |lia].
  - rewrite !(zsum_insert _ _ _ _ _ Hi).
    run_cases th Hrun; unfold count_op in *; simpl in *; lia.
  - assert (E : ∀ f, count_op f (stop th) = count_op f th) by (by destruct th).
    rewrite !(zsum_insert _ _ _ _ _ Hi), !E. lia.
Qed.

Lemma stats_exec now arr size id ss tr s :
  exec sys_step (initial now (Queue_ctor arr size id) ss) tr s → stats_inv tr s.
Proof.
  apply (exec_trace_invariant sys_step stats_inv); [intros ????; apply stats_step|].
  split; simpl; rewrite zsum_zero; try done; apply Forall_fmap, Forall_true; done.
Qed.

Lemma exec_size now arr size id ss tr s :
  exec sys_step (initial now (Queue_ctor arr size id) ss) tr s → m_size (s_queue s) = size.
Proof.
  apply (exec_invariant sys_step (λ s, m_size (s_queue s) = size)); [|done].
  intros ? ? ? E Hs. destruct Hs as [? ? ? ? ? ? ? ? ? Hrun| |]; simpl in *; [|done..].
  by rewrite (run_size _ _ _ _ _ _ Hrun).
Qed.

(** No thread is inside [work()]. *)
Definition quiescent s : Prop := Forall (λ th, op_of th = None) (s_threads s).

Lemma quiescent_zero f s : quiescent s → zsum (count_op f) (s_threads s) = 0.
Proof.
  intros Hq. apply zsum_zero. eapply Forall_impl; [exact Hq|].
  intros th E. unfold count_op. by rewrite E.
Qed.

(** ** Termination of a call *)
Lemma run_rank now th q q' ev th' :
  run now th q = Ok (Some (q', ev, th')) → op_of th ≠ None →
  (thread_rank th' < thread_rank th)%nat.
Proof.
  intros Hrun Hop. run_cases th Hrun; try done; unfold thread_rank; simpl; lia.
Qed.

(** ** Stopping *)
Lemma run_stopped now th q q' ev th' :
  t_run th = false → run now th q = Ok (Some (q', ev, th')) →
  t_run th' = false ∧
  (events_left th' + length (option_list ev) ≤ events_left th)%nat.
Proof.
  intros Ht Hrun. run_cases th Hrun; try done; split; try done; unfold events_left; simpl; lia.
Qed.

(** The events of thread [i]. *)
Definition events_of (i : nat) (tr : list (label T)) : list (label T) :=
  filter (λ x, x.1 = i) tr.

Lemma events_of_snoc i (tr : list (label T)) o :
  length (events_of i (tr ++ option_list o)) =
  (length (events_of i tr) +
   match o with Some (j, _) => if decide (j = i) then 1 else 0 | None => 0 end)%nat.
Proof.
  unfold events_of. rewrite filter_app, length_app. f_equal.
  destruct o as [[j e]|]; [|done]. simpl.
  unfold filter, list_filter. simpl. by destruct (decide (j = i)).
Qed.

Lemma stopped_exec i th s tr s' :
  s_threads s !! i = Some th → t_run th = false → exec sys_step s tr s' →
  ∃ th', s_threads s' !! i = Some th' ∧ t_run th' = false ∧
    (events_left th' + length (events_of i tr) ≤ events_left th)%nat.
Proof.
  intros Hi Ht Hex. induction Hex as [s|s tr s1 o s2 Hex IH Hs].
  - exists th. split_and!; try done. simpl. lia.
  - destruct (IH Hi) as (th1 & H1 & Hr1 & Hl1). clear IH.
    rewrite events_of_snoc.
    destruct Hs as [now q ths j thj q' ev th' Hj Hrun|now q ths j thj Hj|]; simpl in *.
    + destruct (decide (j = i)) as [->|Hne].
      * simplify_eq. destruct (run_stopped _ _ _ _ _ _ Hr1 Hrun) as [Hr' Hl'].
        exists th'. split_and!; try done.
        { by apply list_lookup_insert_eq, lookup_lt_is_Some_1. }
        destruct ev; simpl in *; rewrite ?decide_True by done; lia.
      * exists th1. rewrite list_lookup_insert_ne by done. split_and!; try done.
        destruct ev; simpl; rewrite ?decide_False by done; lia.
    + destruct (decide (j = i)) as [->|Hne].
      * simplify_eq. exists (stop thj). split_and!; try done.
        { by apply list_lookup_insert_eq, lookup_lt_is_Some_1. }
        destruct thj; unfold events_left, op_of in *; simpl in *. lia.
      * exists th1. rewrite list_lookup_insert_ne by done. split_and!; try done. simpl. lia.
    + exists th1. split_and!; try done. simpl. lia.
Qed.
End Life.
