(* ===== verification/QueueFinish.v ===== *)
(** * Calls on the queue can be finished

    From every state of threads on a queue, with room in its counters for the
    calls under way, a thread inside [work()] can get out of it by actions
    inside such calls and by time: its own, and those of whoever holds the
    lock. *)
From S2P Require Import Prelude Semaphore Queue QueueSystem QueueInv QueueLife.

Section Finish.
Context {S T : Type} `{Client S T}.

(** ** The counters have room for the calls under way *)
Definition to_push (o : op T) : Z :=
  match o with
  | OpPush _ (PushEnter | PushTimedWait _ | PushLock | PushSlot | PushIncCount _ | PushIncPushed _) => 1
  | _ => 0
  end.
Definition to_pop (o : op T) : Z :=
  match o with
  | OpPop (PopEnter | PopTimedWait _ | PopLock | PopSlot | PopAdvance _ | PopDecCount _ | PopIncPopped _) => 1
  | _ => 0
  end.

Definition room (s : system S T) : Prop :=
  m_pushed_count (s_queue s) + zsum (count_op to_push) (s_threads s) < INT_MAX ∧
  m_popped_count (s_queue s) + zsum (count_op to_pop) (s_threads s) < INT_MAX.

Lemma to_push_nonneg (th : thread S T) : 0 ≤ count_op to_push th.
Proof. by destruct th as [? ? [|[? []|[]]|]]. Qed.
Lemma to_pop_nonneg (th : thread S T) : 0 ≤ count_op to_pop th.
Proof. by destruct th as [? ? [|[? []|[]]|]]. Qed.

Lemma room_fits (s : system S T) : room s → counters_fit (s_queue s).
Proof.
  intros [H1 H2]. pose proof (zsum_nonneg _ (s_threads s) to_push_nonneg).
  pose proof (zsum_nonneg _ (s_threads s) to_pop_nonneg). split; lia.
Qed.

Lemma run_room now (q : Queue T) ths i (th : thread S T) q' ev th' :
  ths !! i = Some th → op_of th ≠ None ∨ t_run th = false → run now th q = Ok (Some (q', ev, th')) →
  room (System now q ths) → room (System now q' (<[i := th']> ths)).
Proof.
  unfold room. cbn [s_queue s_threads]. intros Hi Hop Hrun [H1 H2]. rewrite !(zsum_insert _ _ _ _ _ Hi).
  run_cases th Hrun; try (by destruct Hop); unfold count_op in *; simpl in *; lia.
Qed.

(** Replacing a thread outside [work()] by another keeps it. *)
Lemma room_quiet now (q : Queue T) ths i (th th' : thread S T) :
  ths !! i = Some th → op_of th = None → op_of th' = None →
  room (System now q ths) → room (System now q (<[i := th']> ths)).
Proof.
  intros Hi E E' [H1 H2]. unfold room in *. cbn [s_queue s_threads] in *.
  rewrite !(zsum_insert _ _ _ _ _ Hi). unfold count_op in *. rewrite E, E'. lia.
Qed.

(** ** Steps inside calls *)
Inductive call_step : system S T → option (label T) → system S T → Prop :=
  | call_acts now q ths i th q' ev th' :
      ths !! i = Some th → op_of th ≠ None → run now th q = Ok (Some (q', ev, th')) →
      call_step (System now q ths) (tag i ev) (System now q' (<[i := th']> ths))
  | call_waits now now' q ths : ts_le now now' = true → call_step (System now q ths) None (System now' q ths).

Lemma call_step_sys s o s' : call_step s o s' → sys_step s o s'.
Proof. intros [now q ths i th q' ev th' Hi _ Hr|now now' q ths Ht]; [by eapply step_run|by apply step_tick]. Qed.

Context (P : S → Prop) `{!ClientOk S T P}.

Record healthy (s : system S T) : Prop := {
  he_inv : sys_inv s;
  he_clients : clients P (s_threads s);
  he_room : room s
}.

Lemma call_step_healthy s o s' : healthy s → call_step s o s' → healthy s'.
Proof.
  intros [Hi Hc Hr] Hs. pose proof (call_step_sys _ _ _ Hs) as Hs'.
  split; [by eapply step_inv|by eapply step_clients|].
  destruct Hs as [now q ths i th q' ev th' Hth Hop Hrun|]; [|done]. eapply run_room; [done|by left|done..].
Qed.

(** What a thread's next action inside a call needs. *)
Lemma call_defined s i th :
  healthy s → s_threads s !! i = Some th → op_of th ≠ None →
  (waiting_lock th = true → 0 < sem_value (m_lock (s_queue s))) →
  (∀ ts, deadline th = Some ts → ts_le ts (s_now s) = true) →
  ∃ q' ev th', run (s_now s) th (s_queue s) = Ok (Some (q', ev, th')) ∧ (thread_rank th' < thread_rank th)%nat ∧
    call_step s (tag i ev) (System (s_now s) q' (<[i := th']> (s_threads s))).
Proof.
  intros [Hinv Hcl Hr] Hi Hop Hlock Hdl. apply room_fits in Hr. destruct s as [now q ths]. cbn [s_now s_queue s_threads] in *.
  destruct (run_defined P now _ _ _ _ Hinv Hcl Hr Hi) as ([[[q' ev] th']|] & E & Hb).
  - exists q', ev, th'. split; [exact E|]. split; [by eapply run_rank|by eapply call_acts].
  - exfalso. destruct (Hb eq_refl) as [Hx|[[Hw Hz]|(ts & Hd & Ht)]].
    + unfold op_of in Hop. by rewrite Hx in Hop.
    + specialize (Hlock Hw). cbn [s_queue] in Hz. lia.
    + specialize (Hdl _ Hd). congruence.
Qed.

Lemma in_cs_works (th : thread S T) : 0 < count_op in_cs th →
  op_of th ≠ None ∧ waiting_lock th = false ∧ deadline th = None.
Proof. destruct th as [? ? [|[? []|[]]|]]; unfold count_op; simpl; intros H'; by (lia || split_and!). Qed.

(** The holder of the lock goes on until it releases it. *)
Lemma release_lock n s i th :
  (thread_rank th ≤ n)%nat → healthy s → s_threads s !! i = Some th → 0 < count_op in_cs th →
  ∃ tr s', exec call_step s tr s' ∧ healthy s' ∧ s_now s' = s_now s ∧
    (∀ j, j ≠ i → s_threads s' !! j = s_threads s !! j) ∧ 0 < sem_value (m_lock (s_queue s')).
Proof.
  revert s th. induction n as [|n IH]; intros s th Hn Hs Hi Hcs.
  all: destruct (in_cs_works _ Hcs) as (Hop & Hw & Hd).
  all: destruct (call_defined s i th Hs Hi Hop) as (q' & ev & th' & Hrun & Hlt & Hst); [by rewrite Hw|by rewrite Hd|].
  { lia. }
  pose proof (call_step_healthy _ _ _ Hs Hst) as Hs'. revert Hst Hs'. set (s1 := System _ _ _). intros Hst Hs'.
  assert (Hi1 : s_threads s1 !! i = Some th') by (apply list_lookup_insert_eq; by eapply lookup_lt_Some).
  assert (Hsame : ∀ j, j ≠ i → s_threads s1 !! j = s_threads s !! j)
    by (intros j Hne; by apply list_lookup_insert_ne).
  destruct (decide (0 < count_op in_cs th')) as [Hin|Hout].
  - destruct (IH s1 th') as (tr & s2 & Hx & Hs2 & En & Hj & Hl); [lia|done..|].
    exists (option_list (tag i ev) ++ tr), s2. split; [eapply exec_trans; [by apply exec_one|exact Hx]|].
    split_and!; [done..| |done]. intros j Hne. rewrite Hj by done. by apply Hsame.
  - exists (option_list (tag i ev)), s1. split_and!; [by apply exec_one|done..|].
    pose proof (qi_mutex _ _ (he_inv _ Hs)) as M. pose proof (qi_mutex _ _ (he_inv _ Hs')) as M'.
    pose proof (qi_lock _ _ (he_inv _ Hs)). pose proof (qi_lock _ _ (he_inv _ Hs')).
    subst s1. cbn [s_queue s_threads] in *. rewrite (zsum_insert _ _ _ _ _ Hi) in M'.
    pose proof (zsum_lookup_le _ _ _ _ in_cs_nonneg Hi). pose proof (in_cs_nonneg th'). lia.
Qed.

(** A thread inside [work()] can finish its call. *)
Lemma finish_call n s i th :
  (thread_rank th ≤ n)%nat → healthy s → s_threads s !! i = Some th → op_of th ≠ None →
  ∃ tr s' th', exec call_step s tr s' ∧ s_threads s' !! i = Some th' ∧ op_of th' = None.
Proof.
  revert s th. induction n as [|n IH]; intros s th Hn Hs Hi Hop.
  { exfalso. revert Hn Hop. destruct th as [? ? [|[? []|[]]|]]; unfold thread_rank; simpl; lia || done. }
  destruct (clock_reaches_if (s_now s) (deadline th)) as (ts & Hts & Hd).
  destruct s as [now q ths]. cbn [s_now s_threads] in *. set (s1 := System ts q ths).
  assert (Hst1 : call_step (System now q ths) None s1) by by constructor.
  pose proof (call_step_healthy _ _ _ Hs Hst1) as Hs1.
  assert (∃ tr2 s2, exec call_step s1 tr2 s2 ∧ healthy s2 ∧ s_threads s2 !! i = Some th ∧ s_now s2 = ts ∧
    (waiting_lock th = true → 0 < sem_value (m_lock (s_queue s2)))) as (tr2 & s2 & Hx2 & Hs2 & Hi2 & En2 & Hw2).
  { destruct (decide (waiting_lock th = true ∧ sem_value (m_lock q) ≤ 0)) as [[Hw Hz]|Hn'].
    - pose proof (qi_mutex _ _ (he_inv _ Hs1)) as M. cbn [s1 s_queue s_threads] in M.
      destruct (zsum_pos_lookup (count_op in_cs) ths) as (j & thj & Hj & Hcs); [lia|].
      destruct (release_lock _ s1 j thj (le_n _) Hs1 Hj Hcs) as (tr2 & s2 & Hx2 & Hs2 & En & Hsame & Hl2).
      exists tr2, s2. split_and!; [done..| |by rewrite En|done].
      rewrite Hsame; [done|]. intros ->. rewrite Hi in Hj. injection Hj as <-.
      revert Hw Hcs. destruct th as [? ? [|[? []|[]]|]]; unfold count_op; simpl; intros; lia || done.
    - exists [], s1. split_and!; [constructor|done..|]. intros Hw. apply Z.nle_gt. intros Hz. by apply Hn'. }
  destruct (call_defined s2 i th Hs2 Hi2 Hop Hw2) as (q' & ev & th' & Hrun & Hlt & Hst3); [by rewrite En2|].
  pose proof (call_step_healthy _ _ _ Hs2 Hst3) as Hs3. revert Hst3 Hs3. set (s3 := System _ q' _). intros Hst3 Hs3.
  assert (Hi3 : s_threads s3 !! i = Some th') by (apply list_lookup_insert_eq; by eapply lookup_lt_Some).
  assert (Hx3 : exec call_step (System now q ths) (option_list None ++ tr2 ++ option_list (tag i ev)) s3).
  { eapply exec_trans; [by apply exec_one|]. eapply exec_trans; [exact Hx2|by apply exec_one]. }
  destruct (op_of th') as [op'|] eqn:Eop; [|by exists (option_list None ++ tr2 ++ option_list (tag i ev)), s3, th'].
  destruct (IH s3 th') as (tr4 & s4 & th4 & Hx4 & Hi4 & E4); [lia|done|done|by rewrite Eop|].
  eexists _, s4, th4. split; [by eapply exec_trans|done].
Qed.
End Finish.
