(* ===== verification/Items.v ===== *)
(** * Work items of the producer/consumer simulations

    [WorkItem] (Chapter12/Items/WorkItem.h; Chapter14 keeps two copies of the
    same text) and [Producer::cook_item], which fills one.  [rand()] is the C
    library's generator: the values a thread draws are an arbitrary stream in
    [0, RAND_MAX]. *)
From S2P Require Import Prelude.

(** ** The random stream *)
Definition RAND_MAX : Z := 2147483647.
Definition rands : Type := nat → Z.
Definition rand (r : rands) : Z * rands := (r 0%nat, λ k, r (S k)).
Definition rand_ok (r : rands) : Prop := ∀ k, 0 ≤ r k ≤ RAND_MAX.

(** ** Data *)
Definition MAX_WORK_ITEM_LEN : Z := 512.
Definition ITEM_STARTING_ID_EACH_PRODUCER : Z := 300000.

(** [id] is an [unsigned int]; [data] holds [MAX_WORK_ITEM_LEN] chars. *)
Record WorkItem := MkWorkItem { id : Z; data : list Z }.

(** [operator=]: the id and a [memcpy] of all the data. *)
Definition assign (this another : WorkItem) : WorkItem :=
  MkWorkItem (id another)
    (take (Z.to_nat MAX_WORK_ITEM_LEN) (data another)
     ++ drop (Z.to_nat MAX_WORK_ITEM_LEN) (data this)).

(** ** [cook_item] *)

(** The loop [for(int i = 0; i < datalen; ++i) data[i] = letter(rand());] with
    [n] iterations left. *)
Fixpoint fill (letter : Z → outcome Z) (n : nat) (i : Z) (d : list Z) (r : rands)
    : outcome (list Z * rands) :=
  match n with
  | O => Ok (d, r)
  | S n' =>
      let '(v, r') := rand r in
      c ← letter v;
      d' ← array_write d i c;
      fill letter n' (i + 1) d' r'
  end.

(** ['a' + rand() % 26]. *)
Definition cook_letter (v : Z) : outcome Z := m ← int_rem v 26; int_add 97 m.
Definition cook_data := fill cook_letter.

(** [cook_item(item)]: the item, the next [m_next_item_id] and the stream. *)
Definition cook_item (m_next_item_id : Z) (item : WorkItem) (r : rands)
    : outcome (WorkItem * Z * rands) :=
  let '(v, r1) := rand r in
  datalen ← int_rem v (MAX_WORK_ITEM_LEN - 1);
  '(d, r2) ← cook_data (Z.to_nat datalen) 0 (data item) r1;
  d' ← array_write d datalen 0;
  Ok (MkWorkItem m_next_item_id d', u32 (m_next_item_id + 1), r2).

(** ** Specification: a C string of lower-case letters *)
Definition lower (c : Z) : Prop := 97 ≤ c ≤ 122.

Definition item_wf (it : WorkItem) : Prop := length (data it) = 512%nat.

Record cooked (it : WorkItem) (n : nat) : Prop := {
  ck_len : (n ≤ 510)%nat;
  ck_letters : Forall lower (take n (data it));
  ck_nul : data it !! n = Some 0
}.

(** The ids of the first [n] items of the producer that starts at [base]. *)
Definition item_ids (base : Z) (n : nat) : list Z :=
  (λ k, u32 (base + Z.of_nat k)) <$> seq 0 n.

(** ** Proofs *)
Lemma item_ids_S base n : item_ids base (S n) = item_ids base n ++ [u32 (base + Z.of_nat n)].
Proof. unfold item_ids. by rewrite seq_S, fmap_app. Qed.

Lemma rand_ok_next r : rand_ok r → rand_ok (rand r).2.
Proof. intros H k. apply H. Qed.
#[export] Hint Resolve rand_ok_next : blp.

Lemma rand_rem r m : rand_ok r → 0 < m ≤ INT_MAX →
  ∃ v, int_rem (rand r).1 m = Ok v ∧ 0 ≤ v < m.
Proof.
  intros H Hm. specialize (H 0%nat). simpl.
  exists (r 0%nat mod m). split; [apply int_rem_pos; lia|].
  apply Z.mod_pos_bound. lia.
Qed.

(** The loop writes [n] letters from position [i] on and nothing else. *)
Lemma fill_ok letter (Q : Z → Prop) n i d r :
  (∀ v, 0 ≤ v ≤ RAND_MAX → ∃ c, letter v = Ok c ∧ Q c) →
  rand_ok r → (i + n ≤ length d)%nat →
  ∃ d' r', fill letter n (Z.of_nat i) d r = Ok (d', r') ∧ rand_ok r' ∧
    length d' = length d ∧ take i d' = take i d ∧
    Forall Q (take n (drop i d')) ∧ drop (i + n) d' = drop (i + n) d.
Proof.
  intros HQ. revert i d r. induction n as [|n IH]; intros i d r Hr Hn.
  - exists d, r. rewrite Nat.add_0_r. by split_and!.
  - destruct (HQ (r 0%nat) (Hr 0%nat)) as (c & Ec & Hc).
    set (d1 := <[i := c]> d).
    destruct (IH (S i) d1 (rand r).2) as (d' & r' & Hcd & Hr' & Hl & Ht & Hf & Hd).
    { by apply rand_ok_next. }
    { unfold d1. rewrite length_insert. lia. }
    exists d', r'. unfold d1 in *. rewrite length_insert in Hl.
    split_and!; try done.
    + simpl. rewrite Ec. simpl. rewrite array_write_ok by lia. simpl. rewrite Nat2Z.id.
      replace (Z.of_nat i + 1) with (Z.of_nat (S i)) by lia. apply Hcd.
    + apply (f_equal (take i)) in Ht. rewrite !take_take, !Nat.min_l in Ht by lia.
      by rewrite Ht, take_insert_ge.
    + assert (Hi : d' !! i = Some c).
      { rewrite <-(lookup_take_lt d' (S i)) by lia. rewrite Ht, lookup_take_lt by lia.
        apply list_lookup_insert_eq. lia. }
      rewrite (drop_S d' _ i Hi). simpl. by constructor.
    + replace (i + S n)%nat with (S i + n)%nat by lia. rewrite Hd.
      apply drop_insert_lt. lia.
Qed.

Lemma cook_letter_ok v : 0 ≤ v ≤ RAND_MAX → ∃ c, cook_letter v = Ok c ∧ lower c.
Proof.
  intros Hv. unfold cook_letter. rewrite int_rem_pos by (unfold INT_MAX; lia). simpl.
  pose proof (Z.mod_pos_bound v 26 ltac:(lia)).
  exists (97 + v mod 26). split; [|unfold lower; lia].
  apply int_of_ok. unfold INT_MIN, INT_MAX. lia.
Qed.

Lemma cook_item_ok next it r :
  rand_ok r → item_wf it →
  ∃ it' r' n, cook_item next it r = Ok (it', u32 (next + 1), r') ∧
    rand_ok r' ∧ item_wf it' ∧ id it' = next ∧ cooked it' n ∧
    drop (S n) (data it') = drop (S n) (data it).
Proof.
  intros Hr Hw. unfold cook_item, item_wf in *.
  destruct (rand_rem r 511 Hr) as (n & En & Hn); [unfold INT_MAX; lia|].
  destruct (fill_ok cook_letter lower (Z.to_nat n) 0 (data it) (rand r).2) as (d & r' & Hc & Hr' & Hl & _ & Hf & Hd).
  { apply cook_letter_ok. }
  { by apply rand_ok_next. }
  { lia. }
  exists (MkWorkItem next (<[Z.to_nat n := 0]> d)), r', (Z.to_nat n). simpl in *.
  split_and!; try done.
  - change (MAX_WORK_ITEM_LEN - 1) with 511. rewrite En. simpl. unfold cook_data. change (Z.of_nat 0) with 0 in Hc. rewrite Hc. simpl.
    by rewrite array_write_ok by lia.
  - by rewrite length_insert, Hl.
  - constructor; simpl; [lia| |apply list_lookup_insert_eq; lia].
    rewrite take_insert_ge by lia. by rewrite drop_0 in Hf.
  - rewrite drop_insert_lt by lia. apply (f_equal (drop 1)) in Hd.
    rewrite !drop_drop in Hd. by replace (Z.to_nat n + 1)%nat with (S (Z.to_nat n)) in Hd by lia.
Qed.

Lemma assign_wf this another : item_wf this → item_wf another → assign this another = another.
Proof.
  unfold item_wf, assign, MAX_WORK_ITEM_LEN. intros Ht Ha. destruct this, another; simpl in *.
  rewrite take_ge, drop_ge by lia. by rewrite app_nil_r.
Qed.
