(* ===== verification/Workers.v ===== *)
(** * [Producer] and [Consumer] on a [Queue<WorkItem>]

    Chapter12/Producer and Chapter12/Consumer (Chapter14/SharedMemory keeps
    the same text): their states and [work()], as clients of the queue, and
    what a producer's stream of items looks like under any scheduling. *)
From S2P Require Import Prelude Semaphore Queue QueueSystem QueueInv QueueFifo Items.

(** ** Data *)
Record Producer := MkProducer {
  p_id : Z;
  p_next_item_id : Z;
  p_saved_work_item : WorkItem;
  p_valid_saved_work_item : bool;
  p_rands : rands
}.

Record Consumer := MkConsumer { c_id : Z }.

Inductive worker := WProducer (p : Producer) | WConsumer (c : Consumer).

(** ** Operations *)

(** The constructors; [junk] is the uninitialised saved item. *)
Definition Producer_ctor (pid : Z) (junk : WorkItem) (r : rands) : Producer :=
  MkProducer (u32 pid) (u32 (ITEM_STARTING_ID_EACH_PRODUCER * u32 pid)) junk false r.

Definition Consumer_ctor (cid : Z) : Consumer := MkConsumer (u32 cid).

(** [Producer::work()] up to its [push]: the item to push. *)
Definition Producer_work (p : Producer) : outcome (Producer * WorkItem) :=
  if p_valid_saved_work_item p then Ok (p, p_saved_work_item p)
  else
    '(it, next, r) ← cook_item (p_next_item_id p) (p_saved_work_item p) (p_rands p);
    Ok (MkProducer (p_id p) next it true r, it).

(** ... and after it. *)
Definition Producer_pushed (p : Producer) (ok : bool) : Producer :=
  if ok
  then MkProducer (p_id p) (p_next_item_id p) (p_saved_work_item p) false (p_rands p)
  else p.

(** [consume_item]: its body is compiled out ([#if 0]). *)
Definition consume_item (c : Consumer) (item : WorkItem) : Consumer := c.

(** [Consumer::work()] after its [pop]. *)
Definition Consumer_popped (c : Consumer) (r : option WorkItem) : Consumer :=
  match r with Some item => consume_item c item | None => c end.

#[export] Instance worker_client : Client worker WorkItem := {
  start w :=
    match w with
    | WProducer p => '(p', it) ← Producer_work p; Ok (WProducer p', ReqPush it)
    | WConsumer c => Ok (WConsumer c, ReqPop)
    end;
  finish w r :=
    match w, r with
    | WProducer p, RespPush b => WProducer (Producer_pushed p b)
    | WConsumer c, RespPop v => WConsumer (Consumer_popped c v)
    | _, _ => w
    end
}.

(** ** Specification *)

(** A producer whose stream is random and whose buffer has its size. *)
Definition producer_ok (p : Producer) : Prop :=
  rand_ok (p_rands p) ∧ item_wf (p_saved_work_item p).
Definition worker_ok (w : worker) : Prop :=
  match w with WProducer p => producer_ok p | WConsumer _ => True end.
Definition is_producer (w : worker) : Prop :=
  match w with WProducer p => producer_ok p | WConsumer _ => False end.
Definition is_consumer (w : worker) : Prop :=
  match w with WProducer _ => False | WConsumer _ => True end.

(** What thread [i] pushed. *)
Definition pushed_by (i : nat) (tr : list (label WorkItem)) : list WorkItem :=
  pushed (events (filter (λ x, x.1 = i) tr)).

(** Where a producer stands after [k] items entered the queue. *)
Definition producer_at (base : Z) (k : nat) (th : thread worker WorkItem) : Prop :=
  match t_local th with
  | WConsumer _ => False
  | WProducer p =>
      let fresh j := p_next_item_id p = u32 (base + Z.of_nat j) in
      let saved j := id (p_saved_work_item p) = u32 (base + Z.of_nat j) ∧
        (∃ n, cooked (p_saved_work_item p) n) ∧ fresh (S j) in
      match op_of th with
      | None => if p_valid_saved_work_item p then saved k else fresh k
      | Some (OpPush t PushPostPop) => fresh k
      | Some (OpPush t _) => t = p_saved_work_item p ∧ p_valid_saved_work_item p = true ∧ saved k
      | Some (OpPop _) => False
      end
  end.

(** ** Proofs *)
Lemma producer_ok_pushed p b : producer_ok p → producer_ok (Producer_pushed p b).
Proof. by destruct b. Qed.
#[local] Hint Resolve producer_ok_pushed : core.

#[export] Instance worker_client_ok : ClientOk worker WorkItem worker_ok.
Proof.
  split.
  - intros [p|c] Hw; simpl in *; [|by eauto].
    unfold Producer_work. destruct Hw as [Hr Hi].
    destruct (p_valid_saved_work_item p); simpl; [eexists _, _; split; [done|]; by split|].
    destruct (cook_item_ok (p_next_item_id p) _ _ Hr Hi) as (it & r' & n & -> & ? & ? & _).
    simpl. eexists _, _. split; [done|]. by split.
  - intros [p|c] [b|v] Hw; simpl in *; auto.
Qed.

#[export] Instance producer_pusher : Pusher is_producer.
Proof.
  split.
  - intros [p|c] s' r Hw Hs; [|done]. simpl in *.
    destruct (start_ok (P := worker_ok) (WProducer p) Hw) as (s2 & r2 & E & Hs2).
    simpl in E. rewrite E in Hs. simplify_eq.
    apply bind_Ok in E as ([p' it] & _ & E). simplify_eq/=. by eauto.
  - intros [p|c] [b|v] Hw; simpl in *; auto.
Qed.

#[export] Instance consumer_popper : Popper is_consumer.
Proof.
  split.
  - intros [p|c] s' r Hw Hs; [done|]. by simplify_eq/=.
  - by intros [p|c] [b|v] Hw.
Qed.

Lemma item_ids_prefix base n m l : item_ids base (n + m) = l ++ drop n (item_ids base (n + m)) →
  length l = n → l = item_ids base n.
Proof.
  intros E Hl. unfold item_ids in *. rewrite seq_app, fmap_app in E.
  rewrite drop_app_length' in E by (by rewrite length_fmap, length_seq).
  by apply app_inv_tail in E.
Qed.

(** Entering [work()]: the saved item is the next one of the stream. *)
Lemma Producer_work_at base k b p p' it :
  producer_at base k (Thread b (WProducer p) Checking) → producer_ok p →
  Producer_work p = Ok (p', it) →
  it = p_saved_work_item p' ∧ p_valid_saved_work_item p' = true ∧
  id (p_saved_work_item p') = u32 (base + Z.of_nat k) ∧
  (∃ n, cooked (p_saved_work_item p') n) ∧
  p_next_item_id p' = u32 (base + Z.of_nat (S k)).
Proof.
  unfold producer_at, Producer_work. simpl. intros Hat [Hr Hi] Hw.
  destruct (p_valid_saved_work_item p) eqn:Ev; [by simplify_eq|].
  destruct (cook_item_ok (p_next_item_id p) _ _ Hr Hi) as (it' & r' & n & E & _ & _ & Hid & Hck & _).
  rewrite E in Hw. simplify_eq/=. rewrite Hid, Hat, u32_add_l. split_and!; eauto.
  f_equal. lia.
Qed.

(** One step of a producer thread: it pushes its item [k] or nothing. *)
Lemma producer_at_run base k now th q q' ev th' :
  producer_at base k th → worker_ok (t_local th) →
  run now th q = Ok (Some (q', ev, th')) →
  match ev with
  | Some (EvPush t) => id t = u32 (base + Z.of_nat k) ∧ (∃ n, cooked t n) ∧
                       producer_at base (S k) th'
  | Some (EvPop _) => False
  | _ => producer_at base k th'
  end.
Proof.
  intros Hat Hok Hrun. destruct (t_phase th) eqn:Eph.
  - destruct th as [[] [p|c] ph]; simpl in *; subst ph; try done; [|by simplify_eq/=].
    apply bind_Ok in Hrun as ([w r] & Ew & E). apply bind_Ok in Ew as ([p' it] & Ew & E').
    simplify_eq/=. by apply (Producer_work_at _ _ _ _ _ _ Hat Hok Ew).
  - run_cases th Hrun; unfold producer_at in *; simpl in *; try done;
      try match goal with w : worker |- _ => destruct w as [p|c] end; simpl in *; try done.
    all: destruct Hat as (-> & Ev & ? & ? & ?); rewrite ?Ev; by split_and!.
  - destruct th as [? ? []]; simplify_eq/=.
Qed.

Lemma producer_at_stop base k th : producer_at base k th → producer_at base k (stop th).
Proof. by destruct th. Qed.

Lemma producer_at_initial pid junk r :
  producer_at (ITEM_STARTING_ID_EACH_PRODUCER * u32 pid) 0
    (Thread true (WProducer (Producer_ctor pid junk r)) Checking).
Proof. unfold producer_at. simpl. by rewrite Z.add_0_r. Qed.

Lemma pushed_by_snoc i tr o :
  pushed_by i (tr ++ option_list o) =
  pushed_by i tr ++ match o with
    | Some (j, EvPush t) => if decide (j = i) then [t] else []
    | _ => [] end.
Proof.
  unfold pushed_by, pushed, events. rewrite filter_app, fmap_app, omap_app. f_equal.
  destruct o as [[j e]|]; simpl; [|done].
  unfold filter, list_filter. simpl. destruct (decide (j = i)); by destruct e.
Qed.

(** Every producer's items enter the queue in order, none lost or repeated. *)
Definition stream_inv (base : Z) (i : nat) (tr : list (label WorkItem))
    (s : system worker WorkItem) : Prop :=
  let its := pushed_by i tr in
  id <$> its = item_ids base (length its) ∧
  Forall (λ it, ∃ n, cooked it n) its ∧
  clients worker_ok (s_threads s) ∧
  ∃ th, s_threads s !! i = Some th ∧ producer_at base (length its) th.

Lemma stream_inv_step base i tr s o s' :
  stream_inv base i tr s → sys_step s o s' → stream_inv base i (tr ++ option_list o) s'.
Proof.
  intros (Hid & Hck & Hcl & th & Hth & Hat) Hstep.
  pose proof (step_clients worker_ok _ _ _ Hcl Hstep) as Hcl'.
  unfold stream_inv. rewrite pushed_by_snoc.
  destruct Hstep as [now q ths j thj q' ev th' Hj Hrun|now q ths j thj Hj|]; simpl in *.
  - destruct (decide (j = i)) as [->|Hne].
    + simplify_eq.
      pose proof (Forall_lookup_1 _ _ _ _ Hcl Hth) as Hok.
      pose proof (producer_at_run _ _ _ _ _ _ _ _ Hat Hok Hrun) as Hev.
      assert (El : <[i := th']> ths !! i = Some th')
        by (by apply list_lookup_insert_eq, lookup_lt_is_Some_1).
      destruct ev as [[t|t| |]|]; simpl in *; try done; rewrite ?decide_True by done;
        rewrite ?app_nil_r; [|split_and!; eauto..].
      destruct Hev as (Et & Hn & Hat'). rewrite length_app, fmap_app, Nat.add_1_r, item_ids_S.
      simpl. rewrite Hid, Et. split_and!; try done; [|by eauto].
      apply Forall_app; split; [done|]. by constructor.
    + assert (El : <[j := th']> ths !! i = Some th) by (by rewrite list_lookup_insert_ne).
      destruct ev as [[t|t| |]|]; simpl; rewrite ?decide_False by done; rewrite app_nil_r;
        split_and!; eauto.
  - rewrite app_nil_r. split_and!; try done.
    destruct (decide (j = i)) as [->|Hne].
    + simplify_eq. exists (stop th). split; [|by apply producer_at_stop].
      by apply list_lookup_insert_eq, lookup_lt_is_Some_1.
    + exists th. by rewrite list_lookup_insert_ne.
  - rewrite app_nil_r. split_and!; eauto.
Qed.

Lemma producer_stream now q ss i pid junk r tr s :
  Forall worker_ok ss → ss !! i = Some (WProducer (Producer_ctor pid junk r)) →
  exec sys_step (initial now q ss) tr s →
  stream_inv (ITEM_STARTING_ID_EACH_PRODUCER * u32 pid) i tr s.
Proof.
  intros Hss Hi.
  apply (exec_trace_invariant sys_step (stream_inv _ i)).
  - intros ????. apply stream_inv_step.
  - split; [done|]. split; [constructor|]. split; [by apply (initial_clients _ now q)|].
    exists (Thread true (WProducer (Producer_ctor pid junk r)) Checking).
    split; [|apply producer_at_initial]. simpl. by rewrite list_lookup_fmap, Hi.
Qed.

(** With one producer and one consumer, the pushes are the producer's stream. *)
Lemma spsc_pushed_by now arr size qid p c tr s :
  0 < size ≤ MAX_QUEUE_SIZE → Z.of_nat (length arr) = size → is_producer p → is_consumer c →
  exec sys_step (initial now (Queue_ctor arr size qid) [p; c]) tr s →
  pushed (events tr) = pushed_by 0 tr.
Proof.
  intros Hs Ha Hp Hc Hex.
  enough (pushed (events tr) = pushed_by 0 tr ∧ ∃ l, spsc_state is_producer is_consumer size s l)
    by naive_solver.
  refine (exec_trace_invariant sys_step (λ tr s, pushed (events tr) = pushed_by 0 tr
    ∧ ∃ l, spsc_state is_producer is_consumer size s l) _ tr s _ _ Hex).
  - clear tr s Hex. intros tr s o s' (E & l & Hst) Hstep. rewrite pushed_by_snoc.
    destruct (spsc_step _ _ _ _ _ _ _ Hst Hstep) as (l' & _ & Hst'). split; [|by exists l'].
    unfold pushed, events. rewrite fmap_app, omap_app. fold (events tr). fold (pushed (events tr)).
    rewrite E. f_equal. destruct o as [[i [t|t| |]]|]; try done.
    by rewrite (spsc_push_label _ _ _ _ _ _ _ _ Hst Hstep).
  - split; [done|]. exists []. by apply spsc_initial.
Qed.
