(* ===== verification/QueueProps.v ===== *)
(** * The properties of the queue and of its producers and consumers

    The theorems about Chapter12 (and the shared-memory half of Chapter14):
    each is applied in its witness to a concrete run of real producers and
    consumers under an explicit schedule. *)
From S2P Require Import Prelude Semaphore Queue QueueSystem QueueInv QueueFifo QueueLife Items Workers.

(** ** Concrete systems for the witnesses *)
Definition zero_item : WorkItem := MkWorkItem 0 (replicate 512 0).
(** The indeterminate contents of a slot never written. *)
Definition junk_item : WorkItem := MkWorkItem 4294967295 (replicate 512 255).
Definition threes : rands := λ _, 3.
Definition epoch : timespec := Timespec 0 0.

Definition demo_producer (pid : Z) : worker := WProducer (Producer_ctor pid zero_item threes).
Definition demo_consumer (cid : Z) : worker := WConsumer (Consumer_ctor cid).

Definition demo_system (size : nat) (ws : list worker) : system worker WorkItem :=
  initial epoch (Queue_ctor (replicate size junk_item) (Z.of_nat size) 0) ws.

Definition run_from (cs : list choice) (s : system worker WorkItem)
    : system worker WorkItem * list (label WorkItem) :=
  match run_schedule cs s with Ok (Some x) => x | _ => (s, []) end.
Definition demo_run cs size ws := run_from cs (demo_system size ws).

Lemma threes_ok : rand_ok threes.
Proof. intros k. unfold threes, RAND_MAX. lia. Qed.
Lemma demo_producer_ok pid : is_producer (demo_producer pid).
Proof. by split; [apply threes_ok|]. Qed.
Lemma demo_consumer_ok cid : is_consumer (demo_consumer cid).
Proof. done. Qed.

Lemma run_from_exec cs s : exec sys_step s (run_from cs s).2 (run_from cs s).1.
Proof.
  unfold run_from. destruct (run_schedule cs s) as [[[s' tr]|]|] eqn:E; [|constructor..].
  by eapply run_schedule_exec.
Qed.

Lemma demo_exec cs size ws :
  exec sys_step (demo_system size ws) (demo_run cs size ws).2 (demo_run cs size ws).1.
Proof. apply run_from_exec. Qed.
(** One producer and one consumer: two items through a queue of two. *)
Definition spsc_workers : list worker := [demo_producer 7; demo_consumer 0].
Definition spsc_schedule : list choice :=
  repeat (Run 0) 20 ++ repeat (Run 1) 11 ++ repeat (Run 0) 9 ++ repeat (Run 1) 9.

(** ** Correctness of the queue *)

(** C1. With one pushing and one popping thread, and any interleaving of
    their actions, the queue is a bounded FIFO: the items that go in and come
    out, and the time-outs, are a run of the abstract queue of [size] items,
    and the final state represents the abstract contents. *)
Theorem queue_refines_fifo {S T} `{Client S T} (Pp Pc : S → Prop)
    `{!Pusher Pp, !Popper Pc} now arr size qid sp sc tr s :
  0 < size ≤ MAX_QUEUE_SIZE → Z.of_nat (length arr) = size → Pp sp → Pc sc →
  exec sys_step (initial now (Queue_ctor arr size qid) [sp; sc]) tr s →
  ∃ l, fifo_run size [] (events tr) l ∧ len l ≤ size ∧ spsc_state Pp Pc size s l.
Proof.
  intros Hs Ha Hp Hc Hex.
  destruct (spsc_exec Pp Pc _ _ _ _ _ _ _ _ Hs Ha Hp Hc Hex) as (l & Hf & Hst).
  exists l. split_and!; try done. eapply fifo_run_bound; [|exact Hf|]; unfold len; simpl; lia.
Qed.

Lemma queue_refines_fifo_witness :
  let r := demo_run spsc_schedule 2 spsc_workers in
  id <$> popped (events r.2) = [2100000] ∧ id <$> pushed (events r.2) = [2100000; 2100001; 2100002]
  ∧ ∃ l, fifo_run 2 [] (events r.2) l ∧ len l ≤ 2 ∧ spsc_state is_producer is_consumer 2 r.1 l.
Proof.
  split; [vm_compute; reflexivity|]. split; [vm_compute; reflexivity|].
  apply (queue_refines_fifo is_producer is_consumer epoch (replicate 2 junk_item) 2 0
    (demo_producer 7) (demo_consumer 0)).
  - unfold MAX_QUEUE_SIZE. lia.
  - reflexivity.
  - apply demo_producer_ok.
  - apply demo_consumer_ok.
  - apply demo_exec.
Defined.

(** One producer, one consumer: what the consumer has received is exactly
    the first items the producer made, ids [300000 * id, 300000 * id + 1, ...]
    in order, each a NUL-terminated lower-case string; and at most [size]
    items are under way. *)
Lemma consumer_gets_producer_stream now arr size qid pid cid junk r tr s :
  0 < size ≤ MAX_QUEUE_SIZE → Z.of_nat (length arr) = size → rand_ok r → item_wf junk →
  exec sys_step (initial now (Queue_ctor arr size qid)
    [WProducer (Producer_ctor pid junk r); WConsumer (Consumer_ctor cid)]) tr s →
  let got := popped (events tr) in
  id <$> got = item_ids (ITEM_STARTING_ID_EACH_PRODUCER * u32 pid) (length got) ∧
  Forall (λ it, ∃ n, cooked it n) got ∧
  len got ≤ len (pushed_by 0 tr) ≤ len got + size.
Proof.
  intros Hs Ha Hr Hj Hex. cbv zeta.
  assert (Hp : is_producer (WProducer (Producer_ctor pid junk r))) by done.
  assert (Hk : is_consumer (WConsumer (Consumer_ctor cid))) by done.
  destruct (spsc_exec is_producer is_consumer _ _ _ _ _ _ _ _ Hs Ha Hp Hk Hex) as (l & Hf & _).
  pose proof (fifo_run_bound size _ _ _ ltac:(lia) Hf) as Hb.
  pose proof (fifo_run_content _ _ _ _ Hf) as Hc. simpl in Hc.
  rewrite (spsc_pushed_by _ _ _ _ _ _ _ _ Hs Ha Hp Hk Hex) in Hc.
  assert (Hss : Forall worker_ok [WProducer (Producer_ctor pid junk r);
    WConsumer (Consumer_ctor cid)]).
  { constructor; [done|]. constructor; [done|constructor]. }
  destruct (producer_stream _ _ _ 0 pid junk r _ _ Hss eq_refl Hex) as (Hid & Hck & _).
  rewrite <-Hc in Hid, Hck. rewrite <-Hc. unfold len in *. rewrite length_app in *. simpl in Hb.
  split_and!; [|by apply Forall_app in Hck as [? _]|lia..].
  rewrite fmap_app in Hid. symmetry in Hid.
  apply (item_ids_prefix _ _ (length l)); [|by rewrite length_fmap].
  rewrite Hid. f_equal. by rewrite drop_app_length' by (by rewrite length_fmap).
Qed.

Lemma consumer_gets_producer_stream_witness :
  let r := demo_run spsc_schedule 2 spsc_workers in
  id <$> popped (events r.2) = item_ids (ITEM_STARTING_ID_EACH_PRODUCER * u32 7) 1 ∧
  len (pushed_by 0 r.2) = 3 ∧ 3 ≤ 1 + 2.
Proof.
  assert (Hex := demo_exec spsc_schedule 2 spsc_workers).
  destruct (consumer_gets_producer_stream epoch (replicate 2 junk_item) 2 0 7 0 zero_item threes
    _ _ ltac:(unfold MAX_QUEUE_SIZE; lia) eq_refl threes_ok eq_refl Hex) as (Hid & _ & _).
  split; [exact Hid|]. split; [vm_compute; reflexivity|lia].
Defined.

(** In any system of any number of threads, producer [i]'s items enter
    the queue in order, none lost (a push that timed out is retried with the
    same item) and none repeated. *)
Lemma producer_pushes_its_stream now q ss i pid junk r tr s :
  Forall worker_ok ss → ss !! i = Some (WProducer (Producer_ctor pid junk r)) →
  exec sys_step (initial now q ss) tr s →
  let its := pushed_by i tr in
  id <$> its = item_ids (ITEM_STARTING_ID_EACH_PRODUCER * u32 pid) (length its) ∧
  Forall (λ it, ∃ n, cooked it n) its.
Proof.
  intros Hss Hi Hex. by destruct (producer_stream _ _ _ _ _ _ _ _ _ Hss Hi Hex) as (? & ? & _).
Qed.

(** A queue of one item, full: the second push times out and is retried. *)
Definition retry_schedule : list choice :=
  repeat (Run 0) 10 ++ [Run 0; Run 0; Tick (Timespec 1 0); Run 0; Run 0]
  ++ repeat (Run 1) 11 ++ repeat (Run 0) 8.

Lemma producer_pushes_its_stream_witness :
  let tr := (demo_run retry_schedule 1 spsc_workers).2 in
  snd <$> tr = EvPush (MkWorkItem 2100000 ([100;100;100;0] ++ replicate 508 0)) ::
               EvPushTimeout :: EvPop (MkWorkItem 2100000 ([100;100;100;0] ++ replicate 508 0)) ::
               [EvPush (MkWorkItem 2100001 ([100;100;100;0] ++ replicate 508 0))] ∧
  id <$> pushed_by 0 tr = item_ids (ITEM_STARTING_ID_EACH_PRODUCER * u32 7) 2.
Proof.
  split; [vm_compute; reflexivity|].
  assert (Hex := demo_exec retry_schedule 1 spsc_workers).
  destruct (producer_pushes_its_stream epoch _ spsc_workers 0 7 zero_item threes _ _
    ltac:(by repeat constructor) eq_refl Hex) as [Hid _].
  exact Hid.
Defined.

(** ** Safety under any number of threads *)

(** C8. No action of any number of threads is undefined behaviour (an index
    outside the ring, an [int] overflow, a division by zero), as long as the
    two statistics counters have not reached [INT_MAX]. *)
Theorem queue_no_undefined_behaviour {S T} `{Client S T} (P : S → Prop) `{!ClientOk S T P}
    now arr size qid ss s :
  0 < size ≤ MAX_QUEUE_SIZE → Z.of_nat (length arr) = size → Forall P ss →
  reachable sys_step (initial now (Queue_ctor arr size qid) ss) s →
  counters_fit (s_queue s) → ¬ sys_fault s.
Proof.
  intros Hs Ha Hss Hr Hc. apply (inv_no_fault P); [| |done].
  - by eapply reachable_inv.
  - by eapply reachable_clients.
Qed.

(** Two producers and two consumers. *)
Definition mpmc_workers : list worker :=
  [demo_producer 0; demo_producer 1; demo_consumer 0; demo_consumer 1].
Definition mpmc_schedule : list choice :=
  repeat (Run 0) 10 ++ repeat (Run 1) 9 ++ repeat (Run 2) 6 ++ repeat (Run 3) 2.

Lemma mpmc_workers_ok : Forall worker_ok mpmc_workers.
Proof. by repeat constructor. Qed.

Lemma mpmc_reachable cs size : reachable sys_step (demo_system size mpmc_workers)
  (demo_run cs size mpmc_workers).1.
Proof. eexists. apply demo_exec. Qed.

Lemma queue_no_undefined_behaviour_witness :
  let s := (demo_run mpmc_schedule 2 mpmc_workers).1 in
  m_pushed_count (s_queue s) = 2 ∧ ¬ sys_fault s.
Proof.
  split; [vm_compute; reflexivity|].
  apply (queue_no_undefined_behaviour worker_ok epoch (replicate 2 junk_item) 2 0 mpmc_workers).
  - unfold MAX_QUEUE_SIZE. lia.
  - reflexivity.
  - apply mpmc_workers_ok.
  - apply mpmc_reachable.
  - split; vm_compute; reflexivity.
Defined.

(** C12. The system never deadlocks while the counters fit: as long as some
    thread has not exited, some thread can act once the clock has advanced far
    enough (to a deadline). *)
Theorem queue_no_deadlock {S T} `{Client S T} (P : S → Prop) `{!ClientOk S T P}
    now arr size qid ss s i th :
  0 < size ≤ MAX_QUEUE_SIZE → Z.of_nat (length arr) = size → Forall P ss →
  reachable sys_step (initial now (Queue_ctor arr size qid) ss) s →
  counters_fit (s_queue s) → s_threads s !! i = Some th → t_phase th ≠ Exited →
  ∃ ts s', do_choice (Tick ts) s = Ok (Some (s', None)) ∧ ∃ j, enabled s' j.
Proof.
  intros Hs Ha Hss Hr Hc Hth He.
  pose proof (reachable_inv _ _ _ _ _ _ Hs Ha Hr) as Hi.
  pose proof (reachable_clients P _ _ _ _ Hss Hr) as Hcl.
  by apply (inv_progress P s i th).
Qed.

Lemma queue_no_deadlock_witness :
  let s := (demo_run mpmc_schedule 2 mpmc_workers).1 in
  sem_value (m_lock (s_queue s)) = 0 ∧
  ∃ ts s', do_choice (Tick ts) s = Ok (Some (s', None)) ∧ ∃ j, enabled s' j.
Proof.
  split; [reflexivity|].
  eapply (queue_no_deadlock worker_ok epoch (replicate 2 junk_item) 2 0 mpmc_workers _ 3).
  - unfold MAX_QUEUE_SIZE. lia.
  - reflexivity.
  - apply mpmc_workers_ok.
  - apply mpmc_reachable.
  - split; vm_compute; reflexivity.
  - vm_compute. reflexivity.
  - vm_compute. discriminate.
Defined.

(** C13. With one producer and one consumer there is no data race on the
    array, although both touch it outside the lock: a slot being written is
    never the slot being read. *)
Theorem spsc_no_data_race {S T} `{Client S T} (Pp Pc : S → Prop)
    `{!Pusher Pp, !Popper Pc} now arr size qid sp sc s p c t wslot rslot :
  0 < size ≤ MAX_QUEUE_SIZE → Z.of_nat (length arr) = size → Pp sp → Pc sc →
  reachable sys_step (initial now (Queue_ctor arr size qid) [sp; sc]) s →
  s_threads s = [p; c] →
  op_of p = Some (OpPush t (PushStore wslot)) → op_of c = Some (OpPop (PopLoad rslot)) →
  wslot ≠ rslot.
Proof.
  intros Hs Ha Hp Hc [tr Hex].
  destruct (spsc_exec Pp Pc _ _ _ _ _ _ _ _ Hs Ha Hp Hc Hex) as (l & _ & Hst).
  by apply (spsc_state_race Pp Pc size s l).
Qed.

(** Both inside the array at once: the producer writes slot 1, the consumer
    reads slot 0. *)
Definition race_schedule : list choice :=
  repeat (Run 0) 10 ++ repeat (Run 1) 9 ++ repeat (Run 0) 8.

Lemma spsc_no_data_race_witness :
  let s := (demo_run race_schedule 2 spsc_workers).1 in
  (op_of <$> s_threads s !! 1%nat) = Some (Some (OpPop (PopLoad 0))) ∧ (1 : Z) ≠ 0.
Proof.
  split; [vm_compute; reflexivity|].
  eapply (spsc_no_data_race is_producer is_consumer epoch (replicate 2 junk_item) 2 0
    (demo_producer 7) (demo_consumer 0)
    (demo_run race_schedule 2 spsc_workers).1).
  - unfold MAX_QUEUE_SIZE. lia.
  - reflexivity.
  - apply demo_producer_ok.
  - apply demo_consumer_ok.
  - eexists. apply demo_exec.
  - vm_compute. reflexivity.
  - vm_compute. reflexivity.
  - vm_compute. reflexivity.
Defined.

(** The counters the program reports count the items: whatever the number
    of threads, once none of them is inside [work()], [m_pushed_count] and
    [m_popped_count] are the numbers of items stored and copied out, and
    their difference is [m_cur_count] and the value of [m_pop_sem]. *)
Lemma queue_report_counts {S T} `{Client S T} now arr size qid ss tr s :
  0 < size ≤ MAX_QUEUE_SIZE → Z.of_nat (length arr) = size →
  exec sys_step (initial now (Queue_ctor arr size qid) ss) tr s → quiescent s →
  let q := s_queue s in
  m_pushed_count q = len (pushed (events tr)) ∧
  m_popped_count q = len (popped (events tr)) ∧
  m_cur_count q = m_pushed_count q - m_popped_count q ∧
  sem_value (m_pop_sem q) = m_cur_count q ∧
  sem_value (m_push_sem q) = size - m_cur_count q ∧ sem_value (m_lock q) = 1.
Proof.
  intros Hs Ha Hex Hq. cbv zeta.
  assert (Hr : reachable sys_step (initial now (Queue_ctor arr size qid) ss) s) by by exists tr.
  destruct (reachable_inv _ _ _ _ _ _ Hs Ha Hr) as [_ _ _ _ _ _ Hu Hc Hm Hst _ _ _].
  destruct (stats_exec _ _ _ _ _ _ _ Hex) as [Hp Hpp].
  pose proof (exec_size _ _ _ _ _ _ _ Hex) as Hsz.
  rewrite !quiescent_zero in * by done. lia.
Qed.

Definition report_schedule : list choice :=
  repeat (Run 0) 20 ++ repeat (Run 1) 10 ++ repeat (Run 2) 11.

(** ** Termination and stopping *)

(** Every call on the queue terminates: each action of a thread inside
    [work()] brings its call strictly closer to returning, and a call needs
    at most ten actions. *)
Lemma queue_calls_terminate {S T} `{Client S T} now (th : thread S T) q q' ev th' :
  run now th q = Ok (Some (q', ev, th')) → op_of th ≠ None →
  (thread_rank th' < thread_rank th ≤ 10)%nat.
Proof.
  intros Hrun Hop. split; [by eapply run_rank|].
  destruct th as [? ? [|[? []|[]]|]]; unfold thread_rank; simpl; lia.
Qed.

(** Stopping: once its [m_run] is false, a thread causes at most one more
    queue event (the end of the [work()] it is in), whatever happens. *)
Lemma stopped_thread_finishes_its_work {S T} `{Client S T} i th (s : system S T) tr s' :
  s_threads s !! i = Some th → t_run th = false → exec sys_step s tr s' →
  (length (events_of i tr) ≤ 1)%nat ∧
  (op_of th = None → events_of i tr = []).
Proof.
  intros Hi Ht Hex. destruct (stopped_exec _ _ _ _ _ Hi Ht Hex) as (th' & _ & _ & Hl).
  assert (events_left th ≤ 1)%nat
    by (destruct th as [? ? [|[? []|[]]|]]; unfold events_left; simpl; lia).
  split; [lia|]. intros E. apply length_zero_iff_nil.
  unfold events_left at 2 in Hl. rewrite E in Hl. lia.
Qed.

(** The producer is stopped in the middle of its second push. *)
Definition stop_schedule : list choice := repeat (Run 0) 15 ++ [Stop 0].

Lemma stopped_thread_finishes_its_work_witness :
  let s := (demo_run stop_schedule 2 spsc_workers).1 in
  let r := run_from (repeat (Run 0) 6) s in
  id <$> pushed (events r.2) = [2100001] ∧
  (t_phase <$> s_threads r.1 !! 0%nat) = Some Exited ∧ (length (events_of 0 r.2) ≤ 1)%nat.
Proof.
  split; [vm_compute; reflexivity|]. split; [vm_compute; reflexivity|].
  assert (Hex := run_from_exec (repeat (Run 0) 6) (demo_run stop_schedule 2 spsc_workers).1).
  eassert (Hi : s_threads (demo_run stop_schedule 2 spsc_workers).1 !! 0%nat = Some _)
    by (vm_compute; reflexivity).
  exact (proj1 (stopped_thread_finishes_its_work 0 _ _ _ _ Hi eq_refl Hex)).
Defined.

(** A push or pop returns [false] only from its timed wait, at least
    [WAIT_TIME] (one second) after the call began, while its semaphore is
    down, and leaves the queue as it is. *)
Lemma queue_false_is_a_timeout {T} (t : T) now q q' ev :
  (∀ pc, push now t pc q = Ok (Some (q', ev, Return false)) →
     ∃ ts, pc = PushTimedWait ts ∧ ts_le ts now = true ∧ q' = q ∧
       sem_value (m_push_sem q) ≤ 0) ∧
  (∀ pc, pop now pc q = Ok (Some (q', ev, Return None)) →
     ∃ ts, pc = PopTimedWait ts ∧ ts_le ts now = true ∧ q' = q ∧
       sem_value (m_pop_sem q) ≤ 0) ∧
  (∀ now0 (q0 : Queue T), push now0 t PushEnter q0 = Ok (Some (q0, None, Goto (PushTimedWait (get_expire_time now0)))) ∧
     pop now0 PopEnter q0 = Ok (Some (q0, None, Goto (PopTimedWait (get_expire_time now0))))) ∧
  (∀ now0, ts_le (get_expire_time now0) now = true → tv_sec now0 + WAIT_TIME ≤ tv_sec now).
Proof.
  split_and!.
  - intros pc Hp. run_pc pc Hp. eexists. by split_and!.
  - intros pc Hp. run_pc pc Hp. eexists. by split_and!.
  - done.
  - intros now0. unfold ts_le, get_expire_time. simpl.
    destruct (Z.ltb_spec (tv_sec now0 + WAIT_TIME) (tv_sec now)); [lia|].
    simpl. rewrite andb_true_iff, Z.eqb_eq. lia.
Qed.

(** ** Where the queue breaks: several producers, several consumers *)

(** Thread 0 claims slot 0 and is interrupted before it stores its item;
    thread 1 stores in slot 1 and posts [m_pop_sem]; thread 2 pops. *)
Definition garbage_schedule : list choice :=
  repeat (Run 0) 8 ++ repeat (Run 1) 10 ++ repeat (Run 2) 10.

(** With two producers the slot is claimed under the lock but written after its
    release, and the semaphore posted by another producer lets a consumer pop a
    slot nobody has written. *)
Lemma two_producers_deliver_garbage :
  ∃ tr s, exec sys_step (demo_system 100 [demo_producer 0; demo_producer 1; demo_consumer 0]) tr s ∧
    popped (events tr) = [junk_item] ∧ id <$> pushed (events tr) = [300000].
Proof.
  set (ws := [demo_producer 0; demo_producer 1; demo_consumer 0]).
  exists (demo_run garbage_schedule 100 ws).2, (demo_run garbage_schedule 100 ws).1.
  split; [apply demo_exec|]. split; vm_compute; reflexivity.
Qed.

(** Thread 1 claims slot 0 to read it and is interrupted; thread 2 pops slot 1
    and posts [m_push_sem]; thread 0 stores its third item in slot 0. *)
Definition overwrite_schedule : list choice :=
  repeat (Run 0) 20 ++ repeat (Run 1) 9 ++ repeat (Run 2) 11 ++ repeat (Run 0) 10
  ++ repeat (Run 1) 2 ++ repeat (Run 2) 11.

(** With two consumers three items go in, three come out, and the first is
    never seen. *)
Lemma two_consumers_lose_an_item :
  ∃ tr s, exec sys_step (demo_system 2 [demo_producer 0; demo_consumer 0; demo_consumer 1]) tr s ∧
    id <$> pushed (events tr) = [0; 1; 2] ∧ id <$> popped (events tr) = [1; 2; 2].
Proof.
  set (ws := [demo_producer 0; demo_consumer 0; demo_consumer 1]).
  exists (demo_run overwrite_schedule 2 ws).2, (demo_run overwrite_schedule 2 ws).1.
  split; [apply demo_exec|]. split; vm_compute; reflexivity.
Qed.

(** C34. The FIFO promise holds for one producer and one consumer only: some
    execution with two producers on the simulation's default queue delivers the
    uninitialised contents of a slot, and some execution with two consumers
    loses an item and delivers another twice. *)
Theorem queue_needs_one_of_each :
  (∃ tr s, exec sys_step (demo_system 100 [demo_producer 0; demo_producer 1; demo_consumer 0]) tr s ∧
     popped (events tr) = [junk_item] ∧ id <$> pushed (events tr) = [300000]) ∧
  (∃ tr s, exec sys_step (demo_system 2 [demo_producer 0; demo_consumer 0; demo_consumer 1]) tr s ∧
     id <$> pushed (events tr) = [0; 1; 2] ∧ id <$> popped (events tr) = [1; 2; 2]).
Proof. split; [apply two_producers_deliver_garbage|apply two_consumers_lose_an_item]. Qed.

(** ** Items *)

(** [cook_item] never writes outside [data]: the item gets the next id,
    at most 510 lower-case letters and a NUL, the bytes after it stay, and the
    id counter advances modulo 2^32. *)
Lemma cook_item_makes_a_string next it r :
  rand_ok r → item_wf it →
  ∃ it' r' n, cook_item next it r = Ok (it', u32 (next + 1), r') ∧
    id it' = next ∧ cooked it' n ∧ item_wf it' ∧
    drop (S n) (data it') = drop (S n) (data it).
Proof.
  intros Hr Hw. destruct (cook_item_ok next it r Hr Hw) as (it' & r' & n & ? & ? & ? & ? & ? & ?).
  by exists it', r', n.
Qed.

