(* ===== verification/ShmQueue.v ===== *)
(** * The queue in shared memory (Chapter14/SharedMemory/Queue)

    The class of Chapter12 with its array replaced by the bytes that follow
    the object in the mapped region, and with semaphores shared between
    processes.  [abs] reads the bytes as the array of Chapter12's queue, which
    this one refines action by action. *)
From S2P Require Import Prelude Bytes Semaphore Items Queue.

(** ** Data *)
Definition SHARED_MEM_SIZE : Z := 32768.
Definition QUEUE_SIZE : Z := 5.
(** [sizeof(Queue<WorkItem>)]: six [int]s and three semaphores of 32 bytes. *)
Definition sizeof_Queue : nat := 120.
(** [sizeof(WorkItem)]: an [unsigned int] and 512 chars. *)
Definition ITEM_SIZE : nat := 516.

Record ShmQueue := MkShm {
  sm_id : Z;
  sm_front : Z;
  sm_cur_count : Z;
  sm_size : Z;
  sm_pushed_count : Z;
  sm_popped_count : Z;
  sm_lock : sem_t;
  sm_pop_sem : sem_t;
  sm_push_sem : sem_t;
  sm_data : list Z            (* the bytes behind the object *)
}.

(** The memory of an item, and the item a piece of memory holds. *)
Definition item_bytes (it : WorkItem) : list Z := le32 (id it) ++ data it.

Definition item_of_bytes (bs : list Z) : WorkItem := MkWorkItem (of_le32 bs) (drop 4 bs).

(** [data_arr[slot] = t] and [target = data_arr[slot]]. *)
Definition store_item (m : list Z) (slot : Z) (t : WorkItem) : outcome (list Z) :=
  if 0 <=? slot then write_bytes m (Z.to_nat slot * ITEM_SIZE) (item_bytes t) else Fault OutOfBounds.

Definition load_item (m : list Z) (slot : Z) : outcome WorkItem :=
  if 0 <=? slot
  then bs ← read_bytes m (Z.to_nat slot * ITEM_SIZE) ITEM_SIZE; Ok (item_of_bytes bs)
  else Fault OutOfBounds.

(** The constructor, placed at the start of a region with the contents
    [region]. *)
Definition ShmQueue_ctor (region : list Z) (size qid : Z) : ShmQueue :=
  {| sm_id := qid; sm_front := 0; sm_cur_count := 0; sm_size := size;
     sm_pushed_count := 0; sm_popped_count := 0;
     sm_lock := sem_init 1 1; sm_push_sem := sem_init 1 size; sm_pop_sem := sem_init 1 0;
     sm_data := drop sizeof_Queue region |}.

(** Assignments to one field. *)
Definition put_front (q : ShmQueue) v : ShmQueue :=
  MkShm (sm_id q) v (sm_cur_count q) (sm_size q) (sm_pushed_count q) (sm_popped_count q) (sm_lock q)
    (sm_pop_sem q) (sm_push_sem q) (sm_data q).
Definition put_cur_count (q : ShmQueue) v : ShmQueue :=
  MkShm (sm_id q) (sm_front q) v (sm_size q) (sm_pushed_count q) (sm_popped_count q) (sm_lock q)
    (sm_pop_sem q) (sm_push_sem q) (sm_data q).
Definition put_pushed (q : ShmQueue) v : ShmQueue :=
  MkShm (sm_id q) (sm_front q) (sm_cur_count q) (sm_size q) v (sm_popped_count q) (sm_lock q)
    (sm_pop_sem q) (sm_push_sem q) (sm_data q).
Definition put_popped (q : ShmQueue) v : ShmQueue :=
  MkShm (sm_id q) (sm_front q) (sm_cur_count q) (sm_size q) (sm_pushed_count q) v (sm_lock q)
    (sm_pop_sem q) (sm_push_sem q) (sm_data q).
Definition put_lock (q : ShmQueue) v : ShmQueue :=
  MkShm (sm_id q) (sm_front q) (sm_cur_count q) (sm_size q) (sm_pushed_count q) (sm_popped_count q) v
    (sm_pop_sem q) (sm_push_sem q) (sm_data q).
Definition put_pop_sem (q : ShmQueue) v : ShmQueue :=
  MkShm (sm_id q) (sm_front q) (sm_cur_count q) (sm_size q) (sm_pushed_count q) (sm_popped_count q)
    (sm_lock q) v (sm_push_sem q) (sm_data q).
Definition put_push_sem (q : ShmQueue) v : ShmQueue :=
  MkShm (sm_id q) (sm_front q) (sm_cur_count q) (sm_size q) (sm_pushed_count q) (sm_popped_count q)
    (sm_lock q) (sm_pop_sem q) v (sm_data q).
Definition put_data (q : ShmQueue) v : ShmQueue :=
  MkShm (sm_id q) (sm_front q) (sm_cur_count q) (sm_size q) (sm_pushed_count q) (sm_popped_count q)
    (sm_lock q) (sm_pop_sem q) (sm_push_sem q) v.

(** What [report] prints. *)
Definition shm_report (q : ShmQueue) : Z * Z * Z := (sm_id q, sm_pushed_count q, sm_popped_count q).

(** ** Operations, with the program points of [Queue] *)
Local Abbreviation action P R := (outcome (option (ShmQueue * option (event WorkItem) * next P R))).

Definition shm_go {P R} (q : ShmQueue) (pc : P) : action P R := Ok (Some (q, None, Goto pc)).

(** [get_expire_time], with [WAIT_TIME] one second. *)
Definition shm_expire_time (now : timespec) : timespec := Timespec (tv_sec now + 1) (tv_nsec now).

Definition shm_push (now : timespec) (t : WorkItem) (pc : push_pc) (q : ShmQueue) : action push_pc bool :=
  match pc with
  | PushEnter => shm_go q (PushTimedWait (shm_expire_time now))
  | PushTimedWait ts =>
      match sem_timedwait now ts (sm_push_sem q) with
      | Taken s => shm_go (put_push_sem q s) PushLock
      | TimedOut => Ok (Some (q, Some EvPushTimeout, Return false))
      | StillWaiting => Ok None
      end
  | PushLock =>
      match sem_wait (sm_lock q) with
      | Some s => shm_go (put_lock q s) PushSlot
      | None => Ok None
      end
  | PushSlot =>
      sum ← int_add (sm_front q) (sm_cur_count q);
      slot ← int_rem sum (sm_size q);
      shm_go q (PushIncCount slot)
  | PushIncCount slot =>
      c ← int_add (sm_cur_count q) 1;
      shm_go (put_cur_count q c) (PushIncPushed slot)
  | PushIncPushed slot =>
      c ← int_add (sm_pushed_count q) 1;
      shm_go (put_pushed q c) (PushUnlock slot)
  | PushUnlock slot => shm_go (put_lock q (sem_post (sm_lock q))) (PushStore slot)
  | PushStore slot =>
      m ← store_item (sm_data q) slot t;
      Ok (Some (put_data q m, Some (EvPush t), Goto PushPostPop))
  | PushPostPop => Ok (Some (put_pop_sem q (sem_post (sm_pop_sem q)), None, Return true))
  end.

Definition shm_pop (now : timespec) (pc : pop_pc WorkItem) (q : ShmQueue)
    : action (pop_pc WorkItem) (option WorkItem) :=
  match pc with
  | PopEnter => shm_go q (PopTimedWait (shm_expire_time now))
  | PopTimedWait ts =>
      match sem_timedwait now ts (sm_pop_sem q) with
      | Taken s => shm_go (put_pop_sem q s) PopLock
      | TimedOut => Ok (Some (q, Some EvPopTimeout, Return None))
      | StillWaiting => Ok None
      end
  | PopLock =>
      match sem_wait (sm_lock q) with
      | Some s => shm_go (put_lock q s) PopSlot
      | None => Ok None
      end
  | PopSlot => shm_go q (PopAdvance (sm_front q))
  | PopAdvance slot =>
      sum ← int_add (sm_front q) 1;
      f ← int_rem sum (sm_size q);
      shm_go (put_front q f) (PopDecCount slot)
  | PopDecCount slot =>
      c ← int_sub (sm_cur_count q) 1;
      shm_go (put_cur_count q c) (PopIncPopped slot)
  | PopIncPopped slot =>
      c ← int_add (sm_popped_count q) 1;
      shm_go (put_popped q c) (PopUnlock slot)
  | PopUnlock slot => shm_go (put_lock q (sem_post (sm_lock q))) (PopLoad slot)
  | PopLoad slot =>
      v ← load_item (sm_data q) slot;
      Ok (Some (q, Some (EvPop v), Goto (PopPostPush v)))
  | PopPostPush v => Ok (Some (put_push_sem q (sem_post (sm_push_sem q)), None, Return (Some v)))
  end.

(** ** Specification: the array the bytes stand for *)
Definition slot_item (m : list Z) (k : nat) : WorkItem :=
  item_of_bytes (take ITEM_SIZE (drop (k * ITEM_SIZE) m)).

Definition unshare (s : sem_t) : sem_t := Sem 0 (sem_value s).

(** Chapter12's queue, as the shared memory represents it. *)
Definition abs (q : ShmQueue) : Queue WorkItem :=
  MkQueue (slot_item (sm_data q) <$> seq 0 (Z.to_nat (sm_size q))) (sm_id q) (sm_front q)
    (sm_cur_count q) (sm_size q) (sm_pushed_count q) (sm_popped_count q)
    (unshare (sm_lock q)) (unshare (sm_pop_sem q)) (unshare (sm_push_sem q)).

Definition abs_result {P R} (r : outcome (option (ShmQueue * option (event WorkItem) * next P R)))
    : outcome (option (Queue WorkItem * option (event WorkItem) * next P R)) :=
  match r with
  | Ok (Some (q, ev, n)) => Ok (Some (abs q, ev, n))
  | Ok None => Ok None
  | Fault f => Fault f
  end.

(** The region has room for the slots: what the constructor's caller owes. *)
Definition shm_wf (q : ShmQueue) : Prop :=
  0 ≤ sm_size q ∧ (Z.to_nat (sm_size q) * ITEM_SIZE ≤ length (sm_data q))%nat.

(** An item as it is in memory. *)
Definition item_fits (it : WorkItem) : Prop := 0 ≤ id it < 4294967296 ∧ length (data it) = 512%nat.

(** ** Proofs *)
Lemma item_bytes_length it : item_fits it → length (item_bytes it) = ITEM_SIZE.
Proof. intros [_ Hd]. unfold item_bytes. rewrite length_app, Hd. done. Qed.

Lemma item_of_item_bytes it : item_fits it → item_of_bytes (item_bytes it) = it.
Proof.
  intros [Hid _]. unfold item_bytes, item_of_bytes. rewrite of_le32_le32, u32_small by lia.
  rewrite drop_app_length' by done. by destruct it.
Qed.

Lemma load_slot m slot :
  0 ≤ slot → ((Z.to_nat slot + 1) * ITEM_SIZE ≤ length m)%nat →
  load_item m slot = Ok (slot_item m (Z.to_nat slot)).
Proof.
  intros H0 Hr. unfold load_item, slot_item. rewrite (proj2 (Z.leb_le _ _)) by done.
  by rewrite read_bytes_ok by lia.
Qed.

(** Storing an item changes its own slot only, and keeps the region. *)
Lemma store_slot m slot t :
  item_fits t → 0 ≤ slot → ((Z.to_nat slot + 1) * ITEM_SIZE ≤ length m)%nat →
  ∃ m', store_item m slot t = Ok m' ∧ length m' = length m ∧
    ∀ k, ((k + 1) * ITEM_SIZE ≤ length m)%nat →
      slot_item m' k = if decide (k = Z.to_nat slot) then t else slot_item m k.
Proof.
  intros Ht H0 Hr. pose proof (item_bytes_length t Ht) as Lb.
  unfold store_item. rewrite (proj2 (Z.leb_le _ _)) by done.
  destruct (write_bytes m (Z.to_nat slot * ITEM_SIZE) (item_bytes t)) as [m'|f] eqn:E.
  2: { rewrite write_bytes_ok in E by (rewrite Lb; lia). done. }
  exists m'. split; [done|]. split; [by eapply write_bytes_length|].
  intros k Hk. unfold slot_item. case_decide as Hd.
  - subst k. rewrite (read_written _ _ _ _ _ E) by done. by apply item_of_item_bytes.
  - f_equal. apply (read_other _ _ _ _ _ _ E). rewrite Lb.
    destruct (decide (k < Z.to_nat slot)%nat); [left|right]; nia.
Qed.

Lemma slots_read m n slot v :
  array_read (slot_item m <$> seq 0 n) slot = Ok v → (n * ITEM_SIZE ≤ length m)%nat →
  load_item m slot = Ok v.
Proof.
  intros Hr Hm. apply array_read_Ok in Hr as [H0 Hr]. rewrite list_lookup_fmap in Hr.
  apply fmap_Some in Hr as (k & Hk & ->). apply lookup_seq in Hk as [-> Hlt].
  apply load_slot; [done|]. apply (Nat.le_trans _ (n * ITEM_SIZE)); [|done].
  apply Nat.mul_le_mono_r. lia.
Qed.

Lemma slots_write m n slot t arr :
  array_write (slot_item m <$> seq 0 n) slot t = Ok arr → item_fits t → (n * ITEM_SIZE ≤ length m)%nat →
  ∃ m', store_item m slot t = Ok m' ∧ length m' = length m ∧ arr = slot_item m' <$> seq 0 n.
Proof.
  intros Hw Ht Hm. apply array_write_Ok in Hw as [Hr ->]. rewrite length_fmap, length_seq in Hr.
  assert (R : ∀ k, (k < n)%nat → ((k + 1) * ITEM_SIZE ≤ length m)%nat).
  { intros k Hk. apply (Nat.le_trans _ (n * ITEM_SIZE)); [|done]. apply Nat.mul_le_mono_r. lia. }
  destruct (store_slot m slot t Ht) as (m' & E & Hl & Hs); [lia|apply R; lia|].
  exists m'. split_and!; [done|done|]. apply list_eq. intros k.
  destruct (decide (k < n)%nat) as [Hk|Hk].
  - rewrite (list_lookup_fmap (slot_item m')), lookup_seq_lt by done. cbn [fmap option_fmap option_map Nat.add].
    rewrite Hs by (by apply R). case_decide as Hd.
    + subst k. apply list_lookup_insert_eq. rewrite length_fmap, length_seq. lia.
    + rewrite list_lookup_insert_ne by done. by rewrite list_lookup_fmap, lookup_seq_lt by done.
  - rewrite !lookup_ge_None_2; [done|rewrite length_fmap, length_seq; lia|].
    rewrite length_insert, length_fmap, length_seq. lia.
Qed.

Lemma timedwait_unshare now ts s :
  sem_timedwait now ts (unshare s) =
  match sem_timedwait now ts s with
  | Taken s' => Taken (unshare s') | TimedOut => TimedOut | StillWaiting => StillWaiting
  end.
Proof.
  unfold sem_timedwait, sem_wait, unshare. cbn [sem_value].
  destruct (0 <? sem_value s); [done|]. by destruct (ts_le ts now).
Qed.

Lemma wait_unshare s : sem_wait (unshare s) = unshare <$> sem_wait s.
Proof. unfold sem_wait, unshare. cbn [sem_value]. by destruct (0 <? sem_value s). Qed.

(** An action of the shared-memory queue is the action of Chapter12's queue on
    the array its bytes stand for, faults included, as long as the slot it
    stores to or loads from is one of the queue's. *)
Definition simulates {P R} (concrete : outcome (option (ShmQueue * option (event WorkItem) * next P R)))
    (abstract : outcome (option (Queue WorkItem * option (event WorkItem) * next P R))) : Prop :=
  abstract = abs_result concrete ∧
  match concrete with Ok (Some (q', _, _)) => shm_wf q' | _ => True end.

Lemma slot_write_ok {A} (f : nat → A) n slot t :
  0 ≤ slot < Z.of_nat n → ∃ arr, array_write (f <$> seq 0 n) slot t = Ok arr.
Proof. intros Hs. eexists. apply array_write_ok. by rewrite length_fmap, length_seq. Qed.

Lemma slot_read_ok {A} (f : nat → A) n slot :
  0 ≤ slot < Z.of_nat n → ∃ v, array_read (f <$> seq 0 n) slot = Ok v.
Proof.
  intros Hs. destruct (array_read_ok (f <$> seq 0 n) slot) as (v & E & _); [|by exists v].
  by rewrite length_fmap, length_seq.
Qed.

Lemma shm_push_simulates now t pc q :
  shm_wf q → item_fits t → (∀ slot, pc = PushStore slot → 0 ≤ slot < sm_size q) →
  simulates (shm_push now t pc q) (push now t pc (abs q)).
Proof.
  intros Hw Ht Hslot.
  destruct pc; cbn [shm_push push abs m_push_sem m_lock m_front m_cur_count m_size m_pushed_count m_arr];
    rewrite ?timedwait_unshare, ?wait_unshare; try done.
  - by destruct (sem_timedwait now ts (sm_push_sem q)).
  - by destruct (sem_wait (sm_lock q)).
  - destruct (int_add _ _) as [sum|]; [|done]. simpl_bind. by destruct (int_rem _ _).
  - by destruct (int_add _ _).
  - by destruct (int_add _ _).
  - specialize (Hslot slot eq_refl). destruct Hw as [H0 Hw].
    destruct (slot_write_ok (slot_item (sm_data q)) (Z.to_nat (sm_size q)) slot t) as [arr E]; [lia|].
    destruct (slots_write _ _ _ _ _ E Ht Hw) as (m' & E' & Hl & Ha).
    rewrite E, E'. cbn [mbind outcome_bind abs_result]. split; [by rewrite Ha|].
    unfold shm_wf, put_data. cbn [sm_size sm_data]. by rewrite Hl.
Qed.

Lemma shm_pop_simulates now pc q :
  shm_wf q → (∀ slot, pc = PopLoad slot → 0 ≤ slot < sm_size q) →
  simulates (shm_pop now pc q) (pop now pc (abs q)).
Proof.
  intros Hw Hslot.
  destruct pc; cbn [shm_pop pop abs m_pop_sem m_lock m_front m_cur_count m_size m_popped_count m_arr];
    rewrite ?timedwait_unshare, ?wait_unshare; try done.
  - by destruct (sem_timedwait now ts (sm_pop_sem q)).
  - by destruct (sem_wait (sm_lock q)).
  - destruct (int_add _ _) as [sum|]; [|done]. simpl_bind. by destruct (int_rem _ _).
  - by destruct (int_sub _ _).
  - by destruct (int_add _ _).
  - specialize (Hslot slot eq_refl). destruct Hw as [H0 Hw].
    destruct (slot_read_ok (slot_item (sm_data q)) (Z.to_nat (sm_size q)) slot) as [v E]; [lia|].
    rewrite E. by rewrite (slots_read _ _ _ _ E Hw).
Qed.
