(* ===== verification/ShmSystem.v ===== *)
(** * Processes sharing the queue (Chapter14/SharedMemory)

    The worker threads of the producer and consumer processes on the queue in
    shared memory: the threads and clients of [QueueSystem], every action of
    the queue being that of [ShmQueue].  Their executions are executions of
    Chapter12's system on the array the bytes stand for. *)
From S2P Require Import Prelude Semaphore Items Queue QueueSystem QueueInv Workers ShmQueue.

Section System.
Context {S : Type} `{Client S WorkItem}.
Implicit Types th : thread S WorkItem.

(** ** Data and steps *)
Record shm_system := ShmSys {
  h_now : timespec;
  h_queue : ShmQueue;
  h_threads : list (thread S WorkItem)
}.

(** One action of the loop [while(obj->m_run) obj->work();]. *)
Definition shm_run (now : timespec) th (q : ShmQueue)
    : outcome (option (ShmQueue * option (event WorkItem) * thread S WorkItem)) :=
  let 'Thread m_run s ph := th in
  match ph with
  | Checking =>
      if m_run
      then '(s', r) ← start s;
           Ok (Some (q, None, Thread m_run s' (Working (enter r))))
      else Ok (Some (q, None, Thread m_run s Exited))
  | Working (OpPush t pc) =>
      r ← shm_push now t pc q;
      match r with
      | None => Ok None
      | Some (q', ev, Goto pc') => Ok (Some (q', ev, Thread m_run s (Working (OpPush t pc'))))
      | Some (q', ev, Return b) => Ok (Some (q', ev, Thread m_run (finish s (RespPush b)) Checking))
      end
  | Working (OpPop pc) =>
      r ← shm_pop now pc q;
      match r with
      | None => Ok None
      | Some (q', ev, Goto pc') => Ok (Some (q', ev, Thread m_run s (Working (OpPop pc'))))
      | Some (q', ev, Return v) => Ok (Some (q', ev, Thread m_run (finish s (RespPop v)) Checking))
      end
  | Exited => Ok None
  end.

Inductive shm_step : shm_system → option (label WorkItem) → shm_system → Prop :=
  | shm_step_run now q ths i th q' ev th' :
      ths !! i = Some th → shm_run now th q = Ok (Some (q', ev, th')) →
      shm_step (ShmSys now q ths) (tag i ev) (ShmSys now q' (<[i := th']> ths))
  | shm_step_stop now q ths i th :
      ths !! i = Some th → shm_step (ShmSys now q ths) None (ShmSys now q (<[i := stop th]> ths))
  | shm_step_tick now now' q ths :
      ts_le now now' = true → shm_step (ShmSys now q ths) None (ShmSys now' q ths).

(** A step with undefined behaviour. *)
Definition shm_fault (s : shm_system) : Prop :=
  ∃ i th f, h_threads s !! i = Some th ∧ shm_run (h_now s) th (h_queue s) = Fault f.

(** The workers of the processes, on a queue made in [region]. *)
Definition shm_initial (now : timespec) (region : list Z) (size qid : Z) (ss : list S) : shm_system :=
  ShmSys now (ShmQueue_ctor region size qid) ((λ s, Thread true s Checking) <$> ss).

(** A run of the given threads, one action each. *)
Fixpoint shm_run_threads (order : list nat) (s : shm_system) : list (label WorkItem) * shm_system :=
  match order with
  | [] => ([], s)
  | i :: order' =>
      match h_threads s !! i with
      | None => ([], s)
      | Some th =>
          match shm_run (h_now s) th (h_queue s) with
          | Ok (Some (q', ev, th')) =>
              let '(tr, s') := shm_run_threads order' (ShmSys (h_now s) q' (<[i := th']> (h_threads s))) in
              (option_list (tag i ev) ++ tr, s')
          | _ => ([], s)
          end
      end
  end.

(** ** Specification *)
Definition abs_sys (s : shm_system) : system S WorkItem :=
  System (h_now s) (abs (h_queue s)) (h_threads s).

Definition abs_step (r : outcome (option (ShmQueue * option (event WorkItem) * thread S WorkItem)))
    : outcome (option (Queue WorkItem * option (event WorkItem) * thread S WorkItem)) :=
  match r with
  | Ok (Some (q, ev, th)) => Ok (Some (abs q, ev, th))
  | Ok None => Ok None
  | Fault f => Fault f
  end.

(** The item a thread is pushing fits its slot. *)
Definition pushes_fit th : Prop :=
  match op_of th with Some (OpPush t _) => item_fits t | _ => True end.

(** Clients whose items fit, in the states [P]. *)
Class FitClient (P : S → Prop) := {
  fit_start s s' t : P s → start s = Ok (s', ReqPush t) → item_fits t
}.

(** ** Proofs *)
Lemma shm_run_threads_exec order s :
  exec shm_step s (shm_run_threads order s).1 (shm_run_threads order s).2.
Proof.
  revert s. induction order as [|i order IH]; intros s; [constructor|]. cbn [shm_run_threads].
  destruct (h_threads s !! i) as [th|] eqn:Hth; [|constructor].
  destruct (shm_run (h_now s) th (h_queue s)) as [[[[q' ev] th']|]|] eqn:Hr; [|constructor..].
  specialize (IH (ShmSys (h_now s) q' (<[i := th']> (h_threads s)))).
  destruct (shm_run_threads order _) as [tr s'] eqn:E. destruct s as [now q ths].
  apply (exec_trans _ _ _ (ShmSys now q' (<[i := th']> ths))); [|exact IH].
  apply exec_one. by eapply shm_step_run.
Qed.

Context (P : S → Prop) `{!ClientOk S WorkItem P, !FitClient P}.

Record shm_inv (s : shm_system) : Prop := {
  si_wf : shm_wf (h_queue s);
  si_queue : sys_inv (abs_sys s);
  si_clients : clients P (h_threads s);
  si_fit : Forall pushes_fit (h_threads s)
}.

(** A thread's action, in the bytes and in the array. *)
Lemma shm_run_abs now th q :
  shm_wf q → P (t_local th) → pushes_fit th → slot_ok (sm_size q) th →
  run now th (abs q) = abs_step (shm_run now th q) ∧
  match shm_run now th q with
  | Ok (Some (q', _, th')) => shm_wf q' ∧ pushes_fit th'
  | _ => True
  end.
Proof.
  intros Hw HP Hfit Hslot. destruct th as [r s [|[t pc|pc]|]]; cbn [run shm_run].
  - destruct r; [|done]. destruct (start s) as [[s' req]|] eqn:E; [|done].
    simpl_bind. split; [done|]. split; [done|].
    destruct req as [t|]; [|done]. by eapply fit_start.
  - destruct (shm_push_simulates now t pc q Hw Hfit) as [E Hw'];
      [intros slot ->; exact Hslot|]. rewrite E.
    by destruct (shm_push now t pc q) as [[[[q' ev] [pc'|b]]|]|].
  - destruct (shm_pop_simulates now pc q Hw) as [E Hw']; [intros slot ->; exact Hslot|]. rewrite E.
    by destruct (shm_pop now pc q) as [[[[q' ev] [pc'|v]]|]|].
  - done.
Qed.

Lemma shm_inv_thread s i th :
  shm_inv s → h_threads s !! i = Some th →
  run (h_now s) th (abs (h_queue s)) = abs_step (shm_run (h_now s) th (h_queue s)) ∧
  match shm_run (h_now s) th (h_queue s) with
  | Ok (Some (q', _, th')) => shm_wf q' ∧ pushes_fit th'
  | _ => True
  end.
Proof.
  intros [Hw Hq Hc Hf] Hth. apply shm_run_abs; [done| | |].
  - exact (Forall_lookup_1 _ _ _ _ Hc Hth).
  - exact (Forall_lookup_1 _ _ _ _ Hf Hth).
  - exact (Forall_lookup_1 _ _ _ _ (qi_slots _ _ Hq) Hth).
Qed.

(** Every step is a step of Chapter12's system. *)
Lemma shm_step_abs s o s' :
  shm_inv s → shm_step s o s' → sys_step (abs_sys s) o (abs_sys s') ∧ shm_inv s'.
Proof.
  intros Hi Hs.
  assert (Hstep : sys_step (abs_sys s) o (abs_sys s') ∧ shm_wf (h_queue s') ∧ Forall pushes_fit (h_threads s')).
  { pose proof (si_wf _ Hi) as Hw. pose proof (si_fit _ Hi) as Hf.
    destruct Hs as [now q ths i th q' ev th' Hth Hr|now q ths i th Hth|now now' q ths Hts].
    - destruct (shm_inv_thread _ i th Hi Hth) as [E Hok]. cbn [h_now h_queue] in *.
      rewrite Hr in E, Hok. destruct Hok as [Hw' Hf'].
      split; [by eapply step_run|]. split; [done|]. by apply Forall_insert.
    - split; [by eapply step_stop|]. split; [done|]. apply Forall_insert; [done|].
      exact (Forall_lookup_1 _ _ _ _ Hf Hth).
    - split; [by apply step_tick|]. done. }
  destruct Hstep as (Hstep & Hw' & Hf'). split; [done|]. destruct Hi as [_ Hq Hc _].
  split; [done|by eapply step_inv| |done].
  exact (step_clients P _ _ _ (Hc : clients P (s_threads (abs_sys s))) Hstep).
Qed.

Lemma shm_initial_inv now region size qid ss :
  0 < size ≤ MAX_QUEUE_SIZE → (sizeof_Queue + Z.to_nat size * ITEM_SIZE ≤ length region)%nat →
  Forall P ss → shm_inv (shm_initial now region size qid ss).
Proof.
  intros Hs Hr Hss. split.
  - split; cbn [shm_initial h_queue ShmQueue_ctor sm_size sm_data]; [lia|]. rewrite length_drop. lia.
  - apply (initial_inv now (slot_item (drop sizeof_Queue region) <$> seq 0 (Z.to_nat size)) size qid ss);
      [done|]. rewrite length_fmap, length_seq. lia.
  - exact (initial_clients P now (abs (ShmQueue_ctor region size qid)) ss Hss).
  - apply Forall_fmap, Forall_true. done.
Qed.

Lemma shm_exec_abs s tr s' :
  shm_inv s → exec shm_step s tr s' → exec sys_step (abs_sys s) tr (abs_sys s') ∧ shm_inv s'.
Proof.
  intros Hi Hex. induction Hex as [s|s tr s1 o s2 Hex IH Hstep]; [by split; [constructor|]|].
  destruct (IH Hi) as [IHe IHi]. destruct (shm_step_abs _ _ _ IHi Hstep) as [Ha Hi2].
  split; [|done]. by eapply exec_snoc.
Qed.

(** Undefined behaviour in the bytes is undefined behaviour in the array. *)
Lemma shm_fault_abs s : shm_inv s → shm_fault s → sys_fault (abs_sys s).
Proof.
  intros Hi (i & th & f & Hth & Hf). destruct (shm_inv_thread _ i th Hi Hth) as [E _].
  exists i, th, f. split; [done|]. cbn [abs_sys s_now s_queue]. by rewrite E, Hf.
Qed.
End System.
Arguments shm_system S : clear implicits.

(** ** The workers of Chapter12 are such clients *)
Definition shm_worker_ok (w : worker) : Prop :=
  match w with
  | WProducer p => producer_ok p ∧ 0 ≤ p_next_item_id p < 4294967296 ∧
      (p_valid_saved_work_item p = true → item_fits (p_saved_work_item p))
  | WConsumer _ => True
  end.

Lemma shm_producer_start p :
  shm_worker_ok (WProducer p) →
  ∃ p' it, Producer_work p = Ok (p', it) ∧ shm_worker_ok (WProducer p') ∧ item_fits it.
Proof.
  intros ([Hr Hi] & Hn & Hs). unfold Producer_work.
  destruct (p_valid_saved_work_item p) eqn:V.
  { exists p, (p_saved_work_item p). specialize (Hs eq_refl).
    split; [done|]. split; [|done]. split; [done|]. by split.  }
  destruct (cook_item_ok (p_next_item_id p) _ _ Hr Hi) as (it & r' & n & -> & Hr' & Hi' & Hid & _).
  assert (Hf : item_fits it) by (split; [by rewrite Hid|exact Hi']).
  eexists _, it. split; [done|]. split; [|done].
  split; [by split|]. split; [apply u32_bounds|done].
Qed.

#[export] Instance shm_worker_client_ok : ClientOk worker WorkItem shm_worker_ok.
Proof.
  split.
  - intros [p|c] Hw; [|by eexists _, _].
    destruct (shm_producer_start p Hw) as (p' & it & E & Hp' & _).
    exists (WProducer p'), (ReqPush it). split; [|done]. cbn [start worker_client]. by rewrite E.
  - intros [p|c] [[]|v] Hw; try done. destruct Hw as (Hw & Hn & _). by split.
Qed.

#[export] Instance shm_worker_fit : FitClient shm_worker_ok.
Proof.
  split. intros [p|c] s' t Hw E; [|done].
  destruct (shm_producer_start p Hw) as (p' & it & E' & _ & Hf).
  cbn [start worker_client] in E. rewrite E' in E. by injection E as _ <-.
Qed.

Lemma shm_ctor_ok pid junk r : rand_ok r → item_wf junk → shm_worker_ok (WProducer (Producer_ctor pid junk r)).
Proof. intros Hr Hj. split; [by split|]. split; [apply u32_bounds|done]. Qed.
