(* ===== verification/ShmProps.v ===== *)
(** * Properties of the queue in shared memory (Chapter14/SharedMemory)

    The processes on the mapped region run as Chapter12's threads do on its
    array; with the region main maps the slots fit. *)
From S2P Require Import Prelude Semaphore Queue QueueSystem QueueInv QueueLife QueueFifo Items Workers ShmQueue ShmSystem.

(** ** A concrete system for the witness *)
Definition blank_item : WorkItem := MkWorkItem 0 (replicate 512 0).
Definition sim_rands : rands := λ _, 4.

Lemma sim_rands_ok : rand_ok sim_rands.
Proof. intros k. unfold sim_rands, RAND_MAX. lia. Qed.

(** The producer and the consumer on the region as ftruncate leaves it. *)
Definition sim_workers (id : Z) : list worker :=
  [WProducer (Producer_ctor id blank_item sim_rands); WConsumer (Consumer_ctor id)].

Definition sim_region : list Z := replicate (Z.to_nat SHARED_MEM_SIZE) 0.

Definition sim_system : shm_system worker :=
  shm_initial (Timespec 0 0) sim_region QUEUE_SIZE 7 (sim_workers 7).

Lemma sim_workers_ok id : Forall shm_worker_ok (sim_workers id).
Proof.
  constructor; [|by repeat constructor]. apply shm_ctor_ok; [apply sim_rands_ok|done].
Qed.

(** ** Refinement *)

(** C25. The queue in shared memory is Chapter12's queue: when the mapped
    region has room for the object and [size] items, every execution of any
    number of producer and consumer threads on its bytes is, with the same
    events, an execution of Chapter12's system on an array of [size] items;
    every thread's next action has the same outcome in both (it returns,
    blocks or faults alike); and no action is undefined behaviour while the
    two statistics counters are below [INT_MAX]. *)
Theorem shm_system_refines_queue_system {S} `{Client S WorkItem} (P : S → Prop)
    `{!ClientOk S WorkItem P, !FitClient P} now region size qid ss tr s :
  0 < size ≤ MAX_QUEUE_SIZE → (sizeof_Queue + Z.to_nat size * ITEM_SIZE ≤ length region)%nat →
  Forall P ss → exec shm_step (shm_initial now region size qid ss) tr s →
  ∃ arr, Z.of_nat (length arr) = size ∧
    exec sys_step (initial now (Queue_ctor arr size qid) ss) tr (abs_sys s) ∧
    (∀ i th, h_threads s !! i = Some th →
       run (h_now s) th (abs (h_queue s)) = abs_step (shm_run (h_now s) th (h_queue s))) ∧
    (counters_fit (abs (h_queue s)) → ¬ shm_fault s).
Proof.
  intros Hs Hr Hss Hex. pose proof (shm_initial_inv P now region size qid ss Hs Hr Hss) as Hi.
  destruct (shm_exec_abs P _ _ _ Hi Hex) as [Ha Hi'].
  exists (m_arr (abs (ShmQueue_ctor region size qid))). split_and!.
  - cbn [abs m_arr ShmQueue_ctor sm_size]. rewrite length_fmap, length_seq. lia.
  - exact Ha.
  - intros i th Hth. apply (shm_inv_thread P s i th Hi' Hth).
  - intros Hc Hf. apply (inv_no_fault P (abs_sys s)); [apply Hi'..|exact Hc|].
    by apply (shm_fault_abs P).
Qed.

(** An item goes through the region of main: fifty actions. *)
Definition sim_order : list nat := replicate 20 0%nat ++ replicate 12 1%nat.

Lemma shm_system_refines_queue_system_witness :
  let r := shm_run_threads sim_order sim_system in
  id <$> pushed (events r.1) = [2100000; 2100001] ∧ popped (events r.1) = take 1 (pushed (events r.1)) ∧
  ∃ arr, Z.of_nat (length arr) = QUEUE_SIZE ∧
    exec sys_step (initial (Timespec 0 0) (Queue_ctor arr QUEUE_SIZE 7) (sim_workers 7)) r.1 (abs_sys r.2) ∧
    (∀ i th, h_threads r.2 !! i = Some th →
       run (h_now r.2) th (abs (h_queue r.2)) = abs_step (shm_run (h_now r.2) th (h_queue r.2))) ∧
    (counters_fit (abs (h_queue r.2)) → ¬ shm_fault r.2).
Proof.
  split; [vm_compute; reflexivity|]. split; [vm_compute; reflexivity|].
  apply (shm_system_refines_queue_system shm_worker_ok (Timespec 0 0) sim_region QUEUE_SIZE 7 (sim_workers 7)).
  - unfold QUEUE_SIZE, MAX_QUEUE_SIZE. lia.
  - apply Nat.leb_le. vm_compute. reflexivity.
  - apply sim_workers_ok.
  - apply shm_run_threads_exec.
Defined.
