(* ===== verification/NetItem.v ===== *)
(** * The network work item (Chapter15/Common/WorkItem.h)

    A record of 544 bytes with a checksum over its data: construction,
    validation, and its image on the wire (client and server send and receive
    the object's memory as it is, on a little-endian machine). *)
From S2P Require Import Prelude Digits.

Module NetItem.

(** ** Data *)
Definition DATA_LEN : nat := 512.
(** [DATA_LEN / sizeof(int)]. *)
Definition DATA_SEG_COUNT : nat := 128.
Definition CHECKSUM_PATTERN : Z := 0xAF76.
Definition NAME_LEN : nat := 30.

(** Characters are bytes, as the unsigned values 0 to 255. *)
Record WorkItem := MkWorkItem {
  m_data : list Z;
  m_checksum : Z;
  m_name : list Z
}.

(** ** Operations *)

(** The [unsigned int] at the front of the bytes. *)
Definition load32 (p : list Z) : Z :=
  match p with
  | a :: b :: c :: d :: _ => a + 256 * b + 65536 * c + 16777216 * d
  | _ => 0
  end.

#[global] Arguments load32 : simpl never.

(** The loop [for(i = 0; i < DATA_SEG_COUNT; ++i) { result ^= *dataptr; dataptr++; }]
    with [n] iterations left. *)
Fixpoint xor_words (n : nat) (dataptr : list Z) (result : Z) : Z :=
  match n with
  | O => result
  | S n' => xor_words n' (drop 4 dataptr) (Z.lxor result (load32 dataptr))
  end.

(** The [if(result & 0x80000000u)] that follows: [result <<= 1], and
    [result |= 1] when the top bit was set. *)
Definition rotl32 (result : Z) : Z :=
  if negb (Z.land result 0x80000000 =? 0)
  then Z.lor (u32 (Z.shiftl result 1)) 1
  else u32 (Z.shiftl result 1).

Definition generateChecksum (d : list Z) : Z :=
  let result := xor_words DATA_SEG_COUNT d 0 in
  let result := rotl32 (Z.lxor result CHECKSUM_PATTERN) in
  u16 (Z.land 0xFFFF (Z.lxor (Z.shiftr result 16) result)).

(** The constructor: [data] is [None] for a null pointer; copying more than
    the array (or the source) holds is a fault. *)
Definition WorkItem_ctor (name : list Z) (d : option (list Z)) (dataLen : Z) : outcome WorkItem :=
  let zeroed := replicate DATA_LEN 0 in
  body ← match d with
         | None => Ok zeroed
         | Some src =>
             if (0 <=? dataLen) && (dataLen <=? Z.of_nat DATA_LEN)
                && (dataLen <=? Z.of_nat (length src))
             then Ok (take (Z.to_nat dataLen) src ++ drop (Z.to_nat dataLen) zeroed)
             else Fault OutOfBounds
         end;
  Ok (MkWorkItem body (generateChecksum body) (strncpy NAME_LEN name)).

Definition validate (it : WorkItem) : bool := generateChecksum (m_data it) =? m_checksum it.

(** [getName()] as [<<] prints it: the characters up to the NUL. *)
Definition getName (it : WorkItem) : outcome (list Z) := c_string (m_name it).

(** [sizeof(WorkItem)]: 512 data bytes, a 2-byte checksum, 30 name bytes. *)
Definition sizeof_WorkItem : nat := 544.

(** The object's memory, written by [write(m_socket, &item, sizeof(item))]. *)
Definition to_bytes (it : WorkItem) : list Z :=
  m_data it ++ [m_checksum it mod 256; m_checksum it / 256] ++ m_name it.

(** The object whose memory [recv(fd, &witem, sizeof(witem), ...)] filled. *)
Definition of_bytes (bs : list Z) : option WorkItem :=
  if (length bs =? sizeof_WorkItem)%nat
  then match drop DATA_LEN bs with
       | lo :: hi :: name => Some (MkWorkItem (take DATA_LEN bs) (lo + 256 * hi) name)
       | _ => None
       end
  else None.

(** ** Specification *)
Definition is_byte (b : Z) : Prop := 0 ≤ b < 256.

Record item_wf (it : WorkItem) : Prop := {
  wf_data : length (m_data it) = DATA_LEN;
  wf_bytes : Forall is_byte (m_data it);
  wf_checksum : 0 ≤ m_checksum it < 65536;
  wf_name : length (m_name it) = NAME_LEN
}.

(** The exclusive or of the data's 16-bit words. *)
Fixpoint xor16 (l : list Z) : Z :=
  match l with
  | a :: b :: r => Z.lxor (a + 256 * b) (xor16 r)
  | _ => 0
  end.

Definition rotl16 (v : Z) : Z := Z.lor (Z.land (Z.shiftl v 1) 0xFFFF) (Z.shiftr v 15).

(** What [generateChecksum] computes, said with 16-bit words. *)
Definition checksum_spec (d : list Z) : Z := rotl16 (Z.lxor (xor16 d) CHECKSUM_PATTERN).

(** Data with the errors [e] made on the way. *)
Definition corrupt (e d : list Z) : list Z := zip_with Z.lxor d e.

(** ** Proofs: bits *)

Lemma bits_small v n i : 0 ≤ v < 2 ^ n → n ≤ i → Z.testbit v i = false.
Proof.
  intros Hv Hi. destruct (Z.eq_dec v 0) as [->|Hne]; [apply Z.bits_0|].
  apply Z.bits_above_log2; [lia|]. eapply Z.lt_le_trans; [|exact Hi].
  apply Z.log2_lt_pow2; lia.
Qed.

(** Two [n]-bit values are equal when their low [n] bits are. *)
Lemma bits_eq n u v :
  0 ≤ n → 0 ≤ u < 2 ^ n → 0 ≤ v < 2 ^ n →
  (∀ i, 0 ≤ i < n → Z.testbit u i = Z.testbit v i) → u = v.
Proof.
  intros Hn Hu Hv H. apply Z.bits_inj'. intros i Hi.
  destruct (Z.lt_ge_cases i n); [by apply H|].
  by rewrite (bits_small u n), (bits_small v n).
Qed.

Lemma lxor_bound u v n : 0 ≤ n → 0 ≤ u < 2 ^ n → 0 ≤ v < 2 ^ n → 0 ≤ Z.lxor u v < 2 ^ n.
Proof.
  intros Hn Hu Hv. split; [apply Z.lxor_nonneg; lia|].
  destruct (Z.eq_dec (Z.lxor u v) 0) as [->|Hne]; [lia|].
  assert (H0 : 0 ≤ Z.lxor u v) by (apply Z.lxor_nonneg; lia).
  apply Z.log2_lt_pow2; [lia|].
  eapply Z.le_lt_trans; [apply Z.log2_lxor; lia|].
  assert (L : ∀ w, 0 ≤ w < 2 ^ n → 0 < n → Z.log2 w < n).
  { intros w Hw Hpos. destruct (Z.eq_dec w 0) as [->|]; [simpl; lia|].
    apply Z.log2_lt_pow2; lia. }
  assert (0 < n). { destruct (Z.eq_dec n 0) as [->|]; [|lia]. simpl in *.
    assert (u = 0) as -> by lia. assert (v = 0) as -> by lia. done. }
  apply Z.max_lub_lt; by apply L.
Qed.

Lemma lxor_rearrange a b c d : Z.lxor (Z.lxor a b) (Z.lxor c d) = Z.lxor (Z.lxor a c) (Z.lxor b d).
Proof.
  apply Z.bits_inj'. intros i _. rewrite !Z.lxor_spec.
  by destruct (Z.testbit a i), (Z.testbit b i), (Z.testbit c i), (Z.testbit d i).
Qed.

Lemma land_ones16 v : Z.land v 0xFFFF = v mod 65536.
Proof. change 0xFFFF with (Z.ones 16). by rewrite Z.land_ones by lia. Qed.

(** ** Proofs: folding a 32-bit word to 16 bits *)
Definition fold16 (x : Z) : Z := Z.lxor (Z.shiftr x 16) (Z.land x 0xFFFF).

Lemma fold16_lxor x y : fold16 (Z.lxor x y) = Z.lxor (fold16 x) (fold16 y).
Proof.
  unfold fold16. rewrite Z.shiftr_lxor, lxor_rearrange. f_equal.
  rewrite !(Z.land_comm _ 0xFFFF). apply Z.bits_inj'. intros i _.
  rewrite !Z.lxor_spec, !Z.land_spec, Z.lxor_spec.
  by destruct (Z.testbit 0xFFFF i), (Z.testbit x i), (Z.testbit y i).
Qed.

Lemma fold16_bound x : 0 ≤ x < 2 ^ 32 → 0 ≤ fold16 x < 2 ^ 16.
Proof.
  intros Hx. unfold fold16. apply lxor_bound; [lia| |].
  - rewrite Z.shiftr_div_pow2 by lia. split; [apply Z.div_pos; lia|].
    apply Z.div_lt_upper_bound; lia.
  - rewrite land_ones16. by apply Z.mod_pos_bound.
Qed.

(** The rotation of the code, bit by bit. *)
Lemma top_bit x : negb (Z.land x 0x80000000 =? 0) = Z.testbit x 31.
Proof.
  assert (E : Z.land x 0x80000000 = if Z.testbit x 31 then 0x80000000 else 0).
  { apply Z.bits_inj'. intros i Hi. change 0x80000000 with (2 ^ 31).
    rewrite Z.land_spec, Z.pow2_bits_eqb by lia.
    destruct (Z.eqb_spec 31 i) as [<-|Hne].
    - destruct (Z.testbit x 31); [by rewrite Z.pow2_bits_true|done].
    - rewrite andb_false_r. destruct (Z.testbit x 31); [|by rewrite Z.bits_0].
      by rewrite Z.pow2_bits_false. }
  rewrite E. by destruct (Z.testbit x 31).
Qed.

Lemma rotl32_bit x i : 0 ≤ i < 32 →
  Z.testbit (rotl32 x) i = if i =? 0 then Z.testbit x 31 else Z.testbit x (i - 1).
Proof.
  intros Hi. unfold rotl32. rewrite top_bit.
  assert (B : Z.testbit (u32 (Z.shiftl x 1)) i = if i =? 0 then false else Z.testbit x (i - 1)).
  { unfold u32. change 4294967296 with (2 ^ 32).
    rewrite Z.mod_pow2_bits_low, Z.shiftl_spec by lia.
    destruct (Z.eqb_spec i 0) as [->|]; [by apply Z.testbit_neg_r|done]. }
  destruct (Z.testbit x 31) eqn:T.
  - rewrite Z.lor_spec, B. change 1 with (2 ^ 0). rewrite Z.pow2_bits_eqb by lia.
    rewrite (Z.eqb_sym 0 i). destruct (i =? 0); [done|by rewrite orb_false_r].
  - by rewrite B.
Qed.

Lemma rotl16_bit v i : 0 ≤ v < 2 ^ 16 → 0 ≤ i < 16 →
  Z.testbit (rotl16 v) i = if i =? 0 then Z.testbit v 15 else Z.testbit v (i - 1).
Proof.
  intros Hv Hi. unfold rotl16. rewrite Z.lor_spec, Z.land_spec, Z.shiftl_spec by lia.
  change 0xFFFF with (Z.ones 16). rewrite Z.ones_spec_low, Z.shiftr_spec by lia.
  rewrite andb_true_r. destruct (Z.eqb_spec i 0) as [->|].
  - by rewrite Z.testbit_neg_r by lia.
  - by rewrite (bits_small v 16 (i + 15)), orb_false_r by lia.
Qed.

Lemma rotl16_bound v : 0 ≤ v < 2 ^ 16 → 0 ≤ rotl16 v < 2 ^ 16.
Proof.
  intros Hv. unfold rotl16. rewrite land_ones16, Z.shiftr_div_pow2 by lia.
  assert (v / 2 ^ 15 = 0 ∨ v / 2 ^ 15 = 1) as [-> | ->].
  { pose proof (Z.div_pos v (2 ^ 15)). pose proof (Z.div_lt_upper_bound v (2 ^ 15) 2). lia. }
  - rewrite Z.lor_0_r. by apply Z.mod_pos_bound.
  - pose proof (Z.mod_pos_bound (Z.shiftl v 1) 65536 ltac:(lia)) as Hb.
    assert (Hn : 0 ≤ Z.lor (Z.shiftl v 1 mod 65536) 1) by (apply Z.lor_nonneg; lia).
    split; [done|]. apply Z.log2_lt_pow2; [|].
    + assert (Z.testbit (Z.lor (Z.shiftl v 1 mod 65536) 1) 0 = true)
        by (rewrite Z.lor_spec; simpl; apply orb_true_r).
      destruct (Z.eq_dec (Z.lor (Z.shiftl v 1 mod 65536) 1) 0) as [E|]; [|lia].
      by rewrite E in *.
    + rewrite Z.log2_lor by lia. apply Z.max_lub_lt; [|done].
      destruct (Z.eq_dec (Z.shiftl v 1 mod 65536) 0) as [->|]; [done|].
      apply Z.log2_lt_pow2; lia.
Qed.

Lemma rotl16_inj u v : 0 ≤ u < 2 ^ 16 → 0 ≤ v < 2 ^ 16 → rotl16 u = rotl16 v → u = v.
Proof.
  intros Hu Hv E. apply (bits_eq 16); [lia|done|done|]. intros i Hi.
  assert (B : ∀ w, 0 ≤ w < 2 ^ 16 → Z.testbit w i = Z.testbit (rotl16 w) ((i + 1) mod 16)).
  { intros w Hw. destruct (Z.eq_dec i 15) as [->|].
    - change ((15 + 1) mod 16) with 0. by rewrite rotl16_bit.
    - rewrite Z.mod_small, rotl16_bit by lia. rewrite (proj2 (Z.eqb_neq (i + 1) 0)) by lia.
      f_equal. lia. }
  by rewrite (B u), (B v), E.
Qed.

(** Rotating then folding is folding then rotating. *)
Lemma fold_rotl x : 0 ≤ x < 2 ^ 32 →
  u16 (Z.land 0xFFFF (Z.lxor (Z.shiftr (rotl32 x) 16) (rotl32 x))) = rotl16 (fold16 x).
Proof.
  intros Hx. pose proof (fold16_bound x Hx) as Hf.
  rewrite Z.land_comm, land_ones16. unfold u16. rewrite Z.mod_mod by lia.
  apply (bits_eq 16); [lia|by apply Z.mod_pos_bound|by apply rotl16_bound|]. intros i Hi.
  change 65536 with (2 ^ 16).
  rewrite Z.mod_pow2_bits_low, Z.lxor_spec, Z.shiftr_spec, !rotl32_bit, rotl16_bit by lia.
  rewrite (proj2 (Z.eqb_neq (i + 16) 0)) by lia.
  unfold fold16. change 0xFFFF with (Z.ones 16).
  destruct (Z.eqb_spec i 0) as [->|];
    rewrite !Z.lxor_spec, !Z.land_spec, !Z.shiftr_spec, Z.ones_spec_low, andb_true_r by lia;
    [apply xorb_comm|].
  f_equal. f_equal. lia.
Qed.

(** ** Proofs: the loop *)
Lemma load32_fold a b c d r :
  is_byte a → is_byte b → is_byte c → is_byte d →
  fold16 (load32 (a :: b :: c :: d :: r)) = Z.lxor (a + 256 * b) (c + 256 * d) ∧
  0 ≤ load32 (a :: b :: c :: d :: r) < 2 ^ 32.
Proof.
  unfold is_byte. intros. unfold load32. split; [|lia].
  unfold fold16. rewrite land_ones16, Z.shiftr_div_pow2 by lia.
  replace (a + 256 * b + 65536 * c + 16777216 * d) with ((a + 256 * b) + (c + 256 * d) * 65536) by lia.
  change (2 ^ 16) with 65536.
  rewrite Z.div_add, Z.mod_add, Z.div_small, Z.mod_small by lia. apply Z.lxor_comm.
Qed.

Lemma xor_words_fold n p acc :
  (4 * n ≤ length p)%nat → Forall is_byte p → 0 ≤ acc < 2 ^ 32 →
  fold16 (xor_words n p acc) = Z.lxor (fold16 acc) (xor16 (take (4 * n) p)) ∧
  0 ≤ xor_words n p acc < 2 ^ 32.
Proof.
  revert p acc. induction n as [|n IH]; intros p acc Hl Hb Hacc.
  - simpl. by rewrite Z.lxor_0_r.
  - destruct p as [|a [|b [|c [|d p]]]]; try (simpl in Hl; lia).
    rewrite !Forall_cons in Hb. destruct Hb as (Ha & Hb & Hc & Hd & Hp).
    destruct (load32_fold a b c d p Ha Hb Hc Hd) as [Ef Hw].
    replace (4 * S n)%nat with (S (S (S (S (4 * n))))) by lia. simpl in Hl |- *. rewrite drop_0.
    destruct (IH p (Z.lxor acc (load32 (a :: b :: c :: d :: p)))) as [-> ?];
      [lia|done|by apply lxor_bound|]. split; [|done].
    rewrite fold16_lxor, Ef. by rewrite !Z.lxor_assoc.
Qed.

(** The checksum of the code is the 16-bit specification. *)
Lemma generateChecksum_spec d :
  length d = DATA_LEN → Forall is_byte d → generateChecksum d = checksum_spec d.
Proof.
  intros Hl Hb. assert (Hn : (4 * DATA_SEG_COUNT)%nat = length d) by by rewrite Hl.
  destruct (xor_words_fold DATA_SEG_COUNT d 0) as [E Hw]; [by rewrite Hn|done|lia|].
  unfold generateChecksum. cbv zeta.
  rewrite fold_rotl by (apply lxor_bound; unfold CHECKSUM_PATTERN; lia).
  rewrite fold16_lxor, E, Hn, firstn_all, Z.lxor_0_l. done.
Qed.

Lemma pair_lxor a b : is_byte a → a + 256 * b = Z.lxor a (Z.shiftl b 8).
Proof.
  intros Ha. rewrite <-Z.add_nocarry_lxor; [rewrite Z.shiftl_mul_pow2 by lia; lia|].
  apply Z.bits_inj'. intros i Hi. rewrite Z.land_spec, Z.shiftl_spec, Z.bits_0 by lia.
  destruct (Z.lt_ge_cases i 8).
  - by rewrite (Z.testbit_neg_r b), andb_false_r by lia.
  - by rewrite (bits_small a 8).
Qed.

Lemma lxor_byte a b : is_byte a → is_byte b → is_byte (Z.lxor a b).
Proof. intros. apply (lxor_bound a b 8); [lia|done|done]. Qed.

Lemma xor16_bound l : Forall is_byte l → 0 ≤ xor16 l < 2 ^ 16.
Proof.
  remember (length l) as n eqn:E. revert l E.
  induction n as [n IH] using lt_wf_ind. intros [|a [|b l]] E Hl; simpl; [lia|lia|].
  rewrite !Forall_cons in Hl. destruct Hl as (Ha & Hb & Hl). unfold is_byte in *.
  apply lxor_bound; [lia|lia|]. eapply IH; [|reflexivity|done]. simpl in E. lia.
Qed.

Lemma xor16_corrupt e d :
  length e = length d → Forall is_byte e → Forall is_byte d →
  xor16 (corrupt e d) = Z.lxor (xor16 d) (xor16 e).
Proof.
  remember (length e) as n eqn:E. revert e d E.
  induction n as [n IH] using lt_wf_ind.
  intros [|x [|y e]] [|a [|b d]] E Hl He Hd; simpl in *; subst; try lia; try done.
  rewrite !Forall_cons in He, Hd. destruct He as (Hx & Hy & He), Hd as (Ha & Hb & Hd).
  fold (corrupt e d). rewrite (IH (length e)) by (done || lia).
  rewrite !pair_lxor by (done || by apply lxor_byte). rewrite Z.shiftl_lxor.
  rewrite (lxor_rearrange a x), lxor_rearrange. done.
Qed.

Lemma corrupt_wf e d :
  length e = length d → Forall is_byte e → Forall is_byte d →
  length (corrupt e d) = length d ∧ Forall is_byte (corrupt e d).
Proof.
  intros Hl He Hd. unfold corrupt. split; [rewrite length_zip_with; lia|].
  eapply Forall_zip_with_fst; [exact Hd|].
  eapply Forall_impl; [exact He|]. intros ????. by apply lxor_byte.
Qed.

#[local] Opaque generateChecksum.

Lemma checksum_spec_bound d : Forall is_byte d → 0 ≤ checksum_spec d < 2 ^ 16.
Proof.
  intros Hd. apply rotl16_bound, lxor_bound; [lia|by apply xor16_bound|].
  unfold CHECKSUM_PATTERN. lia.
Qed.

(** Two data blocks have the same checksum when their 16-bit sums agree. *)
Lemma checksum_eq_iff d1 d2 :
  length d1 = DATA_LEN → length d2 = DATA_LEN → Forall is_byte d1 → Forall is_byte d2 →
  generateChecksum d1 = generateChecksum d2 ↔ xor16 d1 = xor16 d2.
Proof.
  intros L1 L2 B1 B2. rewrite !generateChecksum_spec by done. unfold checksum_spec.
  split; [|by intros ->]. intros E.
  pose proof (xor16_bound d1 B1). pose proof (xor16_bound d2 B2).
  apply rotl16_inj in E; try (apply lxor_bound; unfold CHECKSUM_PATTERN; lia).
  apply (f_equal (λ v, Z.lxor v CHECKSUM_PATTERN)) in E.
  by rewrite !Z.lxor_assoc, Z.lxor_nilpotent, !Z.lxor_0_r in E.
Qed.

Lemma xor16_zeros n : xor16 (replicate n 0) = 0.
Proof.
  induction n as [n IH] using lt_wf_ind. destruct n as [|[|n]]; [done..|].
  simpl. rewrite IH by lia. done.
Qed.

Lemma xor16_app p q : Nat.Even (length p) → xor16 (p ++ q) = Z.lxor (xor16 p) (xor16 q).
Proof.
  remember (length p) as n eqn:E. revert p E.
  induction n as [n IH] using lt_wf_ind. intros [|a [|b p]] E He; simpl in *; subst.
  - done.
  - destruct He as [k Hk]. lia.
  - rewrite (IH (length p)), Z.lxor_assoc; [done|lia|done|].
    destruct He as [k Hk]. exists (k - 1)%nat. lia.
Qed.

(** The constructor's body, when the data fits. *)
Lemma WorkItem_ctor_ok name src dataLen :
  0 ≤ dataLen ≤ 512 → dataLen ≤ Z.of_nat (length src) → Forall is_byte src →
  ∃ it, WorkItem_ctor name (Some src) dataLen = Ok it ∧ item_wf it ∧ validate it = true ∧
    m_data it = take (Z.to_nat dataLen) src ++ replicate (512 - Z.to_nat dataLen) 0 ∧
    m_name it = strncpy NAME_LEN name.
Proof.
  intros Hd Hl Hb. set (body := take (Z.to_nat dataLen) src ++ replicate (512 - Z.to_nat dataLen) 0).
  exists (MkWorkItem body (generateChecksum body) (strncpy NAME_LEN name)).
  assert (Lb : length body = DATA_LEN).
  { unfold body. rewrite length_app, length_take, length_replicate. unfold DATA_LEN. lia. }
  assert (Bb : Forall is_byte body).
  { apply Forall_app; split; [by apply Forall_take|]. apply Forall_replicate. unfold is_byte. lia. }
  split_and!; [| | |done|done].
  - unfold WorkItem_ctor. rewrite !(proj2 (Z.leb_le _ _)) by (unfold DATA_LEN; lia).
    cbn [andb mbind outcome_bind]. rewrite drop_replicate. done.
  - constructor; cbn [m_data m_checksum m_name]; [done|done| |apply strncpy_length].
    rewrite generateChecksum_spec by done. by apply checksum_spec_bound.
  - unfold validate. cbn [m_data m_checksum]. apply Z.eqb_refl.
Qed.

Lemma validate_iff it : validate it = true ↔ generateChecksum (m_data it) = m_checksum it.
Proof. apply Z.eqb_eq. Qed.

(** The item of a null pointer is a valid item of zeros. *)
Lemma WorkItem_ctor_ok_null name :
  ∃ it, WorkItem_ctor name None 0 = Ok it ∧ item_wf it.
Proof.
  assert (L : length (replicate DATA_LEN 0) = DATA_LEN) by apply length_replicate.
  assert (B : Forall is_byte (replicate DATA_LEN 0)) by (apply Forall_replicate; unfold is_byte; lia).
  eexists. split; [reflexivity|]. split; cbn [m_data m_checksum m_name]; [exact L|exact B| |].
  - rewrite generateChecksum_spec by done. by apply checksum_spec_bound.
  - apply strncpy_length.
Qed.

Lemma xor16_pair a b r : xor16 (a :: b :: r) = Z.lxor (a + 256 * b) (xor16 r).
Proof. done. Qed.

Lemma lxor_cancel_l x y z : Z.lxor x y = Z.lxor x z → y = z.
Proof.
  intros E. apply (f_equal (Z.lxor x)) in E. by rewrite <-!Z.lxor_assoc, !Z.lxor_nilpotent, !Z.lxor_0_l in E.
Qed.

Lemma lxor_cancel_r x y z : Z.lxor y x = Z.lxor z x → y = z.
Proof. rewrite !(Z.lxor_comm _ x). apply lxor_cancel_l. Qed.

(** A word that an error leaves as it was suffered no error. *)
Lemma pair_error a b e1 e2 :
  is_byte a → is_byte b → is_byte e1 → is_byte e2 →
  Z.lxor a e1 + 256 * Z.lxor b e2 = a + 256 * b → (e1, e2) = (0, 0).
Proof.
  intros Ba Bb B1 B2 E. pose proof (lxor_byte a e1 Ba B1). pose proof (lxor_byte b e2 Bb B2).
  unfold is_byte in *.
  assert (E1 : Z.lxor a e1 = Z.lxor a 0) by (rewrite Z.lxor_0_r; lia).
  assert (E2 : Z.lxor b e2 = Z.lxor b 0) by (rewrite Z.lxor_0_r; lia).
  apply lxor_cancel_l in E1, E2. by subst.
Qed.

(** ** Proofs: the wire *)
Lemma to_bytes_length it : item_wf it → length (to_bytes it) = sizeof_WorkItem.
Proof.
  intros []. unfold to_bytes. rewrite !length_app. simpl. rewrite wf_data0, wf_name0. done.
Qed.

Lemma of_to_bytes it : item_wf it → of_bytes (to_bytes it) = Some it.
Proof.
  intros Hw. unfold of_bytes. rewrite to_bytes_length by done. destruct Hw as [Hd _ Hc _].
  rewrite Nat.eqb_refl. unfold to_bytes.
  rewrite drop_app_length' by done. cbn [app]. rewrite take_app_length' by done.
  destruct it as [d c n]. cbn [m_data m_checksum m_name] in *. do 2 f_equal.
  pose proof (Z.div_mod c 256). lia.
Qed.

Lemma to_of_bytes bs it : Forall is_byte bs → of_bytes bs = Some it → to_bytes it = bs.
Proof.
  intros Hb. unfold of_bytes. destruct (Nat.eqb_spec (length bs) sizeof_WorkItem) as [Hl|]; [|done].
  destruct (drop DATA_LEN bs) as [|lo [|hi name]] eqn:E; [done..|]. intros [= <-].
  unfold to_bytes. cbn [m_data m_checksum m_name].
  pose proof (Forall_drop is_byte DATA_LEN _ Hb) as Hb'. rewrite E in Hb'.
  rewrite !Forall_cons in Hb'. destruct Hb' as (Hlo & Hhi & _). unfold is_byte in *.
  replace ((lo + 256 * hi) mod 256) with lo.
  2: { rewrite (Z.mul_comm 256), Z.mod_add by lia. by rewrite Z.mod_small. }
  replace ((lo + 256 * hi) / 256) with hi.
  2: { rewrite (Z.mul_comm 256), Z.div_add by lia. rewrite Z.div_small by lia. lia. }
  simpl. rewrite <-E. apply take_drop.
Qed.
End NetItem.
