(* ===== verification/NetClient.v ===== *)
(** * The network client (Chapter15/Client)

    [Client]: cooking items, connecting, and the timed sending loop; and the
    program's own [atoi].  The kernel's answers (clock, name service, socket
    calls) are arguments. *)
From S2P Require Import Prelude Digits Items NetItem.

(** ** Data *)
Definition WORK_TIMES_TO_CHECK_TIME : nat := 10.
Definition CLIENT_START_PORT : Z := 6666.
Definition SECONDS_TO_RUN_CLIENT_DEFAULT : Z := 10.

Record Client := MkClient {
  m_id : Z;                     (* unsigned int *)
  m_server_name : list Z;       (* char[256] *)
  m_server_port : Z;
  m_workitem_name : list Z;     (* char[30] *)
  m_workitem_data : list Z;     (* char[DATA_LEN] *)
  m_workitem_data_len : Z;
  m_cooked_count : Z;           (* unsigned int *)
  m_rands : rands
}.

(** ** [atoi] (Client.cpp) *)
Fixpoint atoi_loop (s : list Z) (result : Z) : outcome Z :=
  match s with
  | [] => Ok result
  | c :: s' =>
      if (c <? 48) || (57 <? c) then Ok SECONDS_TO_RUN_CLIENT_DEFAULT
      else
        t ← int_mul 10 result;
        result' ← int_add t (c - 48);
        atoi_loop s' result'
  end.
Definition atoi (s : list Z) : outcome Z := atoi_loop s 0.

(** ** Construction *)
Definition localhost : list Z := [108;111;99;97;108;104;111;115;116].

(** [memory] is the uninitialised object. *)
Definition Client_ctor (memory : Client) (id : Z) (server_name : option (list Z)) (port : Z)
    : outcome Client :=
  let name := match server_name with None => localhost | Some n => n end in
  stored ← store_string (m_server_name memory) name;
  Ok (MkClient (u32 id) stored port (m_workitem_name memory) (m_workitem_data memory)
       (m_workitem_data_len memory) 0 (m_rands memory)).

(** ** [cook_data] *)

(** "WorkItem_From_Client_" *)
Definition name_prefix : list Z :=
  [87;111;114;107;73;116;101;109;95;70;114;111;109;95;67;108;105;101;110;116;95].

(** The text [sprintf] produces from ["WorkItem_From_Client_%d_%d"]; [%d]
    reads the unsigned arguments as [int]s. *)
Definition item_name (id count : Z) : list Z :=
  name_prefix ++ print_d (s32 id) ++ 95 :: print_d (s32 count).

#[global] Arguments item_name : simpl never.

(** [rand() % 26 + base], the letters of the loop over [m_workitem_data]. *)
Definition cook_letter (base v : Z) : outcome Z := m ← int_rem v 26; int_add m base.

Definition cook_data (c : Client) : outcome Client :=
  let '(v1, r1) := rand (m_rands c) in
  third ← int_rem v1 3;
  let base := if third =? 0 then 65 else 97 in
  let '(v2, r2) := rand r1 in
  l ← int_rem v2 (Z.of_nat NetItem.DATA_LEN);
  datalen ← int_add 1 l;
  '(d, r3) ← fill (cook_letter base) (Z.to_nat datalen) 0 (m_workitem_data c) r2;
  name ← store_string (m_workitem_name c) (item_name (m_id c) (m_cooked_count c));
  Ok (MkClient (m_id c) (m_server_name c) (m_server_port c) name d datalen
       (u32 (m_cooked_count c + 1)) r3).

(** ** [Work] *)

(** One item: cooked, wrapped in a [WorkItem] and written to the socket. *)
Definition send_item (c : Client) : outcome (Client * list Z) :=
  c' ← cook_data c;
  name ← c_string (m_workitem_name c');
  item ← NetItem.WorkItem_ctor name (Some (m_workitem_data c')) (m_workitem_data_len c');
  Ok (c', NetItem.to_bytes item).

Fixpoint send_items (n : nat) (c : Client) : outcome (Client * list (list Z)) :=
  match n with
  | O => Ok (c, [])
  | S n' =>
      '(c1, bs) ← send_item c;
      '(c2, rest) ← send_items n' c1;
      Ok (c2, bs :: rest)
  end.

(** The loop of [Work]: [times] are the successive readings of the clock;
    [None] when they run out before the loop ends. *)
Fixpoint work_loop (target_time : Z) (times : list Z) (c : Client)
    : outcome (option (Client * list (list Z))) :=
  match times with
  | [] => Ok None
  | cur_time :: times' =>
      if target_time <? cur_time then Ok (Some (c, []))
      else
        '(c1, sent) ← send_items WORK_TIMES_TO_CHECK_TIME c;
        r ← work_loop target_time times' c1;
        match r with
        | None => Ok None
        | Some (c2, rest) => Ok (Some (c2, sent ++ rest))
        end
  end.

Definition Work (seconds_to_run now : Z) (times : list Z) (c : Client) :=
  work_loop (u32 seconds_to_run + now) times c.

(** ** [Connect] *)

(** The calls on the socket, in order. *)
Inductive net_call :=
  | CallSocket
  | CallBind (addr port : Z)
  | CallConnect (addr port : Z)
  | CallWrite (fd : Z) (bytes : list Z)
  | CallClose (fd : Z).

(** What the system answers: the address of the local host and of the server
    ([None] when the lookup fails), the new descriptor, and the results of
    [bind] and [connect]. *)
Record answers := Answers {
  an_localhost : option Z;
  an_server : option Z;
  an_socket : Z;
  an_bind : Z;
  an_connect : Z
}.

Definition Connect (a : answers) (c : Client) : bool * list net_call :=
  match an_localhost a with
  | None => (false, [])
  | Some addr =>
      let port := u16 (CLIENT_START_PORT + m_id c) in
      let calls := [CallSocket; CallBind addr port] in
      if an_bind a <? 0 then (false, calls ++ [CallClose (an_socket a)])
      else match an_server a with
      | None => (false, calls ++ [CallClose (an_socket a)])
      | Some saddr =>
          let calls := calls ++ [CallConnect saddr (u16 (m_server_port c))] in
          if an_connect a =? -1 then (false, calls) else (true, calls)
      end
  end.

(** [Disconnect]: it closes the socket, and comes to its closing brace without
    the [bool] it is declared to return. *)
Definition Disconnect (m_socket : Z) : list net_call * outcome bool := ([CallClose m_socket], Fault MissingReturn).

(** ** [main] (Client.cpp) *)

(** How far it gets: to a status, or to the end of [Work], after the calls of
    [Connect]. *)
Inductive client_result :=
  | ExitStatus (calls : list net_call) (status : Z)
  | Worked (c : Client) (calls : list net_call) (sent : list (list Z)).

(** [main] up to [Disconnect]; [None] when the readings of the clock run out.
    [junk] is the last character of [server]. *)
Definition client_run (argv : list (list Z)) (a : answers) (memory : Client) (junk now : Z) (times : list Z)
    : outcome (option client_result) :=
  match argv with
  | [_; arg] =>
      client_id ← atoi arg;
      server ← c_string (strncpy 30 localhost ++ [junk]);
      client ← Client_ctor memory client_id (Some server) 6323;
      let '(ok, calls) := Connect a client in
      if ok : bool then
        r ← Work SECONDS_TO_RUN_CLIENT_DEFAULT now times client;
        Ok ('(c, sent) ← r; Some (Worked c calls sent))
      else Ok (Some (ExitStatus calls 2))
  | _ => Ok (Some (ExitStatus [] 1))
  end.

(** How [main] ends, after which calls: with a status, or in undefined
    behaviour ([Disconnect]'s; that of the statements before it is the
    [outcome]'s). *)
Inductive client_end :=
  | Returns (calls : list net_call) (status : Z)
  | Undefined (calls : list net_call) (f : fault).

Definition client_main (argv : list (list Z)) (a : answers) (memory : Client) (junk now : Z) (times : list Z)
    : outcome (option client_end) :=
  r ← client_run argv a memory junk now times;
  match r with
  | None => Ok None
  | Some (ExitStatus calls status) => Ok (Some (Returns calls status))
  | Some (Worked _ calls sent) =>
      let '(closed, result) := Disconnect (an_socket a) in
      let calls := calls ++ (CallWrite (an_socket a) <$> sent) ++ closed in
      Ok (Some match result with Ok _ => Returns calls 0 | Fault f => Undefined calls f end)
  end.

(** ** Specification *)

(** The item's name and its NUL fit in [char[30]]. *)
Definition name_fits (id count : Z) : Prop :=
  (length (print_d (s32 id)) + length (print_d (s32 count)) ≤ 7)%nat.

Record client_wf (c : Client) : Prop := {
  cw_rands : rand_ok (m_rands c);
  cw_name : length (m_workitem_name c) = 30%nat;
  cw_data : length (m_workitem_data c) = 512%nat;
  cw_bytes : Forall NetItem.is_byte (m_workitem_data c);
  cw_count : 0 ≤ m_cooked_count c < 4294967296
}.

(** ** Proofs *)
Lemma client_letter_ok base v :
  base = 65 ∨ base = 97 → 0 ≤ v ≤ RAND_MAX →
  ∃ c, cook_letter base v = Ok c ∧ NetItem.is_byte c.
Proof.
  intros Hb Hv. unfold cook_letter. rewrite int_rem_pos by (unfold INT_MAX; lia). simpl.
  pose proof (Z.mod_pos_bound v 26 ltac:(lia)).
  exists (v mod 26 + base). split; [|unfold NetItem.is_byte; lia].
  apply int_of_ok. unfold INT_MIN, INT_MAX. lia.
Qed.

Lemma item_name_length id count :
  length (item_name id count) = (22 + length (print_d (s32 id)) + length (print_d (s32 count)))%nat.
Proof. unfold item_name. rewrite length_app. simpl. rewrite length_app. simpl. lia. Qed.

Lemma item_name_nonnul id count : Forall (λ c, c ≠ 0) (item_name id count).
Proof.
  unfold item_name. apply Forall_app; split; [repeat constructor; lia|].
  apply Forall_app; split; [apply print_d_nonnul|].
  constructor; [lia|apply print_d_nonnul].
Qed.

(** [cook_data] up to the name: what the random draws give. *)
Lemma cook_data_cases c :
  client_wf c →
  ∃ d n r, length d = 512%nat ∧ Forall NetItem.is_byte d ∧ 1 ≤ n ≤ 512 ∧ rand_ok r ∧
    cook_data c =
      (name ← store_string (m_workitem_name c) (item_name (m_id c) (m_cooked_count c));
       Ok (MkClient (m_id c) (m_server_name c) (m_server_port c) name d n
             (u32 (m_cooked_count c + 1)) r)).
Proof.
  intros [Hr _ Hd Hb _].
  destruct (rand_rem (m_rands c) 3 Hr) as (third & E3 & _); [unfold INT_MAX; lia|].
  pose proof (rand_ok_next _ Hr) as Hr1.
  destruct (rand_rem _ 512 Hr1) as (l & El & Hl); [unfold INT_MAX; lia|].
  set (base := if third =? 0 then 65 else 97).
  destruct (fill_ok (cook_letter base) NetItem.is_byte (Z.to_nat (1 + l)) 0 (m_workitem_data c)
    (rand (rand (m_rands c)).2).2) as (d & r & Hf & Hr' & Hl' & _ & Hq & Hrest).
  { intros v Hv. apply client_letter_ok; [|done]. unfold base. destruct (third =? 0); lia. }
  { by apply rand_ok_next. }
  { lia. }
  exists d, (1 + l), r. split_and!; try done; try lia.
  - rewrite <-(take_drop (Z.to_nat (1 + l)) d). apply Forall_app; split; [by rewrite drop_0 in Hq|].
    simpl in Hrest. rewrite Hrest. by apply Forall_drop.
  - unfold cook_data. simpl in *. rewrite E3. simpl.
    change (Z.of_nat NetItem.DATA_LEN) with 512. rewrite El. simpl.
    unfold int_add. rewrite int_of_ok by (unfold INT_MIN, INT_MAX; lia). simpl.
    change (Z.of_nat 0) with 0 in Hf. fold base. by rewrite Hf.
Qed.

(** It is defined exactly while the name fits its buffer. *)
Lemma cook_data_ok c :
  client_wf c → name_fits (m_id c) (m_cooked_count c) →
  ∃ c', cook_data c = Ok c' ∧ client_wf c' ∧
    c_string (m_workitem_name c') = Ok (item_name (m_id c) (m_cooked_count c)) ∧
    m_id c' = m_id c ∧ m_cooked_count c' = u32 (m_cooked_count c + 1) ∧
    1 ≤ m_workitem_data_len c' ≤ 512.
Proof.
  intros Hw Hn. destruct (cook_data_cases c Hw) as (d & n & r & Hd & Hb & Hlen & Hr & ->).
  pose proof (cw_name _ Hw) as Hl. unfold name_fits in Hn.
  assert (Hs : (length (item_name (m_id c) (m_cooked_count c)) < length (m_workitem_name c))%nat)
    by (rewrite item_name_length, Hl; lia).
  rewrite store_string_ok by done. simpl_bind. eexists. split; [done|]. split_and!; try done; try apply Hlen.
  - constructor; [done| |done|done|apply u32_bounds].
    exact (eq_trans (store_string_length _ _ Hs) Hl).
  - apply c_string_app, item_name_nonnul.
Qed.

Lemma cook_data_overflow c :
  client_wf c → ¬ name_fits (m_id c) (m_cooked_count c) → cook_data c = Fault OutOfBounds.
Proof.
  intros Hw Hn. destruct (cook_data_cases c Hw) as (d & n & r & _ & _ & _ & _ & ->).
  pose proof (cw_name _ Hw) as Hl. unfold name_fits in Hn.
  rewrite store_string_fault by (rewrite item_name_length, Hl; lia). done.
Qed.

(** One item sent: its 544 bytes are a valid item with the expected name. *)
Record sent_item (id count : Z) (bs : list Z) : Prop := {
  si_length : length bs = NetItem.sizeof_WorkItem;
  si_item : ∃ it, NetItem.of_bytes bs = Some it ∧ NetItem.item_wf it ∧
    NetItem.validate it = true ∧ NetItem.getName it = Ok (item_name id count)
}.

Lemma send_item_ok c :
  client_wf c → name_fits (m_id c) (m_cooked_count c) →
  ∃ c' bs, send_item c = Ok (c', bs) ∧ client_wf c' ∧ sent_item (m_id c) (m_cooked_count c) bs ∧
    m_id c' = m_id c ∧ m_cooked_count c' = u32 (m_cooked_count c + 1).
Proof.
  intros Hw Hn. destruct (cook_data_ok c Hw Hn) as (c' & Ec & Hw' & Hname & Hid & Hcnt & Hlen).
  destruct (NetItem.WorkItem_ctor_ok (item_name (m_id c) (m_cooked_count c)) (m_workitem_data c')
    (m_workitem_data_len c')) as (it & Eit & Hit & Hv & _ & Hnm); [lia| |apply Hw'|].
  { rewrite (cw_data _ Hw'). lia. }
  unfold send_item. rewrite Ec. simpl. rewrite Hname. simpl. rewrite Eit. simpl.
  eexists _, _. split; [done|]. split_and!; try done.
  split; [by apply NetItem.to_bytes_length|].
  exists it. split_and!; try done; [by apply NetItem.of_to_bytes|].
  unfold NetItem.getName. rewrite Hnm, strncpy_c_string by apply item_name_nonnul.
  unfold name_fits in Hn. rewrite (proj2 (Nat.ltb_lt _ _)); [done|].
  rewrite item_name_length. unfold NetItem.NAME_LEN. lia.
Qed.

(** The names fit below powers of ten whose exponents add up to seven. *)
Lemma name_fits_pow id count a b :
  0 ≤ id < 10 ^ Z.of_nat a → 0 ≤ count < 10 ^ Z.of_nat b → (0 < a)%nat → (0 < b)%nat →
  (a + b ≤ 7)%nat → name_fits id count.
Proof.
  intros Hi Hc Ha Hb Hab.
  assert (P : ∀ k, (k ≤ 7)%nat → 10 ^ Z.of_nat k ≤ 10 ^ 7).
  { intros k Hk. apply Z.pow_le_mono_r; [done|]. clear -Hk. lia. }
  assert (Pa : 10 ^ Z.of_nat a ≤ 10 ^ 7) by (apply P; clear -Hab; lia).
  assert (Pb : 10 ^ Z.of_nat b ≤ 10 ^ 7) by (apply P; clear -Hab; lia).
  assert (E : 10 ^ 7 < 2147483648) by (vm_compute; reflexivity).
  assert (Hi' : 0 ≤ id < 2147483648) by (clear -Hi Pa E; destruct Hi; split; [done|]; eapply Z.lt_trans, E; by eapply Z.lt_le_trans).
  assert (Hc' : 0 ≤ count < 2147483648) by (clear -Hc Pb E; destruct Hc; split; [done|]; eapply Z.lt_trans, E; by eapply Z.lt_le_trans).
  unfold name_fits. rewrite (s32_small id Hi'), (s32_small count Hc').
  assert (length (print_d id) ≤ a)%nat by (apply print_d_length; [clear -Hi'; lia|done|apply Hi]).
  assert (length (print_d count) ≤ b)%nat by (apply print_d_length; clear -Hi' Hc' Hi Hc Ha Hb; (apply Hi || apply Hc || lia)). clear -Hab H H0. lia.
Qed.

(** A one-digit client runs out of name at its millionth item. *)
Lemma name_fits_one_digit id n :
  0 ≤ id < 10 → 0 ≤ n < 2147483648 → name_fits id n ↔ n < 1000000.
Proof.
  intros Hid Hn. unfold name_fits. rewrite !s32_small by lia.
  assert (length (print_d id) ≤ 1)%nat
    by (apply print_d_length; [clear -Hid; lia|lia|exact (proj2 Hid)]).
  pose proof (print_d_nonempty id). change 1000000 with (10 ^ Z.of_nat 6).
  rewrite <-(print_d_length n 6); [|clear -Hn; lia|lia]. clear Hid Hn. lia.
Qed.

(** [n] items in a row, numbered from the current count. *)
Lemma send_items_ok n c :
  client_wf c → m_cooked_count c + Z.of_nat n < 4294967296 →
  (∀ k, 0 ≤ k < Z.of_nat n → name_fits (m_id c) (m_cooked_count c + k)) →
  ∃ c' sent, send_items n c = Ok (c', sent) ∧ client_wf c' ∧ m_id c' = m_id c ∧
    m_cooked_count c' = m_cooked_count c + Z.of_nat n ∧ length sent = n ∧
    ∀ k bs, sent !! k = Some bs → sent_item (m_id c) (m_cooked_count c + Z.of_nat k) bs.
Proof.
  revert c. induction n as [|n IH]; intros c Hw Hlt Hn.
  - exists c, []. split_and!; try done. simpl. lia.
  - destruct (send_item_ok c Hw) as (c1 & bs & E1 & Hw1 & Hs1 & Hid1 & Hc1).
    { specialize (Hn 0). rewrite Z.add_0_r in Hn. apply Hn. lia. }
    pose proof (cw_count _ Hw). rewrite u32_small in Hc1 by lia.
    destruct (IH c1) as (c2 & sent & E2 & Hw2 & Hid2 & Hc2 & Hl2 & Hs2); [done|lia| |].
    { intros k Hk. rewrite Hid1, Hc1, <-Z.add_assoc. apply Hn. lia. }
    exists c2, (bs :: sent). simpl. rewrite E1. simpl. rewrite E2. simpl.
    split_and!; try done; [congruence|lia|lia|].
    intros [|k] bs' Hk; simplify_eq/=; [by rewrite Z.add_0_r|].
    specialize (Hs2 _ _ Hk). rewrite Hid1, Hc1 in Hs2.
    by replace (m_cooked_count c + Z.of_nat (S k)) with (m_cooked_count c + 1 + Z.of_nat k) by lia.
Qed.

(** The timed loop: ten items for every reading up to the deadline. *)
Lemma work_loop_ok target pre t post c :
  Forall (λ x, x ≤ target) pre → target < t →
  client_wf c → m_cooked_count c + 10 * Z.of_nat (length pre) < 4294967296 →
  (∀ k, 0 ≤ k < 10 * Z.of_nat (length pre) → name_fits (m_id c) (m_cooked_count c + k)) →
  ∃ c' sent, work_loop target (pre ++ t :: post) c = Ok (Some (c', sent)) ∧
    m_cooked_count c' = m_cooked_count c + 10 * Z.of_nat (length pre) ∧
    length sent = (10 * length pre)%nat ∧
    ∀ k bs, sent !! k = Some bs → sent_item (m_id c) (m_cooked_count c + Z.of_nat k) bs.
Proof.
  intros Hpre Ht. revert c. induction Hpre as [|x pre Hx _ IH]; intros c Hw Hlt Hn; cbn [work_loop app].
  - rewrite (proj2 (Z.ltb_lt _ _) Ht). exists c, []. split_and!; try done. simpl. lia.
  - rewrite (proj2 (Z.ltb_ge _ _) Hx). simpl length in *.
    destruct (send_items_ok WORK_TIMES_TO_CHECK_TIME c) as (c1 & s1 & E1 & Hw1 & Hid1 & Hc1 & Hl1 & Hs1);
      [done|unfold WORK_TIMES_TO_CHECK_TIME; lia| |].
    { intros k Hk. apply Hn. unfold WORK_TIMES_TO_CHECK_TIME in Hk. lia. }
    unfold WORK_TIMES_TO_CHECK_TIME in Hc1, Hl1.
    destruct (IH c1) as (c2 & s2 & E2 & Hc2 & Hl2 & Hs2); [done|lia| |].
    { intros k Hk. rewrite Hid1, Hc1, <-Z.add_assoc. apply Hn. lia. }
    exists c2, (s1 ++ s2). rewrite E1. simpl_bind. rewrite E2.
    simpl_bind. split_and!; [done|lia|rewrite length_app; lia|].
    intros k bs Hk. apply lookup_app_Some in Hk as [Hk|[Hge Hk]]; [by apply Hs1|].
    specialize (Hs2 _ _ Hk). rewrite Hid1, Hc1 in Hs2.
    replace (m_cooked_count c + Z.of_nat k) with
      (m_cooked_count c + Z.of_nat 10 + Z.of_nat (k - length s1)) by lia. done.
Qed.

(** ** [atoi] *)
Lemma atoi_loop_digits ds acc rest :
  Forall (λ d, 0 ≤ d < 10) ds → 0 ≤ acc →
  foldl (λ a d, 10 * a + d) acc ds ≤ INT_MAX →
  atoi_loop (((λ d, d + 48) <$> ds) ++ rest) acc =
  atoi_loop rest (foldl (λ a d, 10 * a + d) acc ds).
Proof.
  intros Hd. revert acc. induction Hd as [|d ds Hd Hds IH]; intros acc Ha Hmax; simpl; [done|].
  simpl in Hmax.
  assert (Hle : 10 * acc + d ≤ INT_MAX).
  { etransitivity; [|exact Hmax]. apply foldl_digits_ge; [lia|lia|].
    eapply Forall_impl; [exact Hds|]. simpl. lia. }
  rewrite (proj2 (Z.ltb_ge _ _)), (proj2 (Z.ltb_ge _ _)) by lia. simpl.
  unfold int_mul, int_add. unfold INT_MAX in *.
  rewrite int_of_ok by (unfold INT_MIN, INT_MAX; lia). simpl.
  replace (10 * acc + (d + 48 - 48)) with (10 * acc + d) by lia.
  rewrite int_of_ok by (unfold INT_MIN, INT_MAX; lia). simpl. apply IH; lia.
Qed.
