(* ===== verification/NetServer.v ===== *)
(** * The network server (Chapter15/Server)

    [Server::start]: the set-up and the event loop.  One iteration of the
    [while] handles the batch of events [epoll_wait] reported; what the kernel
    answers to the calls of a handler travels with its event.  The interest
    set of the epoll descriptor is the state of the loop, with the memory of
    [witem], the one buffer all connections share. *)
From stdpp Require Import gmap fin_sets.
From S2P Require Import Prelude Digits Items NetItem NetClient.

(** ** Data *)
Definition MAX_EVENTS_RECEIVED : nat := 512.
Definition EVENT_SIZE : Z := 544.     (* [sizeof(witem)] *)

Record Server := MkServer { m_id : Z; m_port : Z }.

Definition Server_ctor (id port : Z) : Server := MkServer (u32 id) (u32 port).

(** System calls and output, as the loop performs them. *)
Inductive action :=
  | Socket (fd : Z)
  | Bind (addr port : Z)
  | Listen (fd backlog : Z)
  | Accept (fd : Z)             (* the result of [accept] *)
  | Nonblock (fd : Z)
  | Watch (fd : Z)              (* [epoll_ctl(ev, EPOLL_CTL_ADD, ...)] *)
  | Recv (fd : Z)
  | Close (fd : Z)
  | SayConnected
  | SayShort (n : Z)
  | SayCorrupt (name : list Z)
  | SayValid (name : list Z).

(** One entry of [event_result], with the kernel's answers to the calls its
    handler may make. *)
Record event := MkEvent {
  ev_fd : Z;
  ev_in : bool;             (* EPOLLIN is set *)
  ev_accept : Z;            (* result of [accept] *)
  ev_n : Z;                 (* result of [recv] *)
  ev_bytes : list Z         (* the bytes it stored *)
}.

Record loop := MkLoop {
  lp_epoll : gset Z;
  lp_witem : list Z
}.

(** ** Set-up *)
Record start_answers := StartAnswers {
  sa_socket : Z;
  sa_localhost : option Z;
  sa_bind : Z;
  sa_listen : Z
}.

(** "default" *)
Definition default_name : list Z := [100;101;102;97;117;108;116].

(** [None]: [start] returned false; otherwise the loop's first state. *)
Definition start (a : start_answers) (srv : Server) : outcome (option loop * list action) :=
  let fd := sa_socket a in
  match sa_localhost a with
  | None => Fault NullPointer
  | Some addr =>
      let acts := [Socket fd; Nonblock fd; Bind addr (u16 (m_port srv))] in
      if sa_bind a <? 0 then Ok (None, acts ++ [Close fd])
      else
        let acts := acts ++ [Listen fd 32] in
        if sa_listen a <? 0 then Ok (None, acts ++ [Close fd])
        else
          witem ← NetItem.WorkItem_ctor default_name None 0;
          Ok (Some (MkLoop (if fd <? 0 then ∅ else {[fd]}) (NetItem.to_bytes witem)),
              acts ++ [Watch fd])
  end.

(** ** One event *)

(** The memory of [witem] after [recv] stored [bytes] at its start. *)
Definition received (memory bytes : list Z) : list Z := bytes ++ drop (length bytes) memory.

Definition load_witem (memory : list Z) : outcome NetItem.WorkItem :=
  match NetItem.of_bytes memory with Some it => Ok it | None => Fault OutOfBounds end.

(** A whole item: validated, its name printed either way. *)
Definition report (memory : list Z) : outcome action :=
  witem ← load_witem memory;
  name ← NetItem.getName witem;
  Ok (if NetItem.validate witem then SayValid name else SayCorrupt name).

Definition handle (m_socket : Z) (l : loop) (e : event) : outcome (loop * list action) :=
  let fd := ev_fd e in
  if fd =? m_socket then
    let new_fd := ev_accept e in
    Ok (MkLoop (if new_fd <? 0 then lp_epoll l else {[new_fd]} ∪ lp_epoll l) (lp_witem l),
        [Accept new_fd; Nonblock new_fd; Watch new_fd; SayConnected])
  else if ev_in e then
    let n := ev_n e in
    let memory := received (lp_witem l) (ev_bytes e) in
    let closed := MkLoop (lp_epoll l ∖ {[fd]}) memory in
    if n =? 0 then Ok (closed, [Recv fd; Close fd])
    else if negb (u64 n =? EVENT_SIZE) then Ok (closed, [Recv fd; SayShort n; Close fd])
    else
      say ← report memory;
      Ok (MkLoop (lp_epoll l) memory, [Recv fd; say])
  else Ok (l, []).

#[global] Arguments report : simpl never.
#[global] Arguments received : simpl never.

(** ** The loop *)

(** The [for] over one batch. *)
Fixpoint serve_batch (m_socket : Z) (l : loop) (es : list event) : outcome (loop * list action) :=
  match es with
  | [] => Ok (l, [])
  | e :: es' =>
      '(l1, a1) ← handle m_socket l e;
      '(l2, a2) ← serve_batch m_socket l1 es';
      Ok (l2, a1 ++ a2)
  end.

(** The [while], for the batches of so many calls of [epoll_wait]. *)
Fixpoint serve (m_socket : Z) (l : loop) (batches : list (list event)) : outcome (loop * list action) :=
  match batches with
  | [] => Ok (l, [])
  | es :: rest =>
      '(l1, a1) ← serve_batch m_socket l es;
      '(l2, a2) ← serve m_socket l1 rest;
      Ok (l2, a1 ++ a2)
  end.

(** [main] (Server.cpp): its status when [start] returns, and what was done. *)
Definition server_main (a : start_answers) (batches : list (list event)) : outcome (option Z * list action) :=
  '(r, acts) ← start a (Server_ctor 10 6323);
  match r with
  | None => Ok (Some 0, acts)
  | Some l => '(_, acts') ← serve (sa_socket a) l batches; Ok (None, acts ++ acts')
  end.

(** ** Specification *)

(** What the kernel promises about an event when it is handled: [accept]
    yields -1 or a descriptor that is not open, [recv] between -1 and the size
    it was given. *)
Record event_ok (l : loop) (e : event) : Prop := {
  eo_accept : -1 ≤ ev_accept e ∧ ev_accept e ∉ lp_epoll l;
  eo_n : -1 ≤ ev_n e ≤ EVENT_SIZE;
  eo_bytes : length (ev_bytes e) = Z.to_nat (ev_n e);
  eo_range : Forall NetItem.is_byte (ev_bytes e)
}.

(** ... each event of a batch, in the state its handler starts from. *)
Fixpoint events_ok (m_socket : Z) (l : loop) (es : list event) : Prop :=
  match es with
  | [] => True
  | e :: es' => event_ok l e ∧
      ∀ l' acts, handle m_socket l e = Ok (l', acts) → events_ok m_socket l' es'
  end.

(** ... and about the batch: one entry per descriptor, all of them watched
    when [epoll_wait] returned, at most [MAX_EVENTS_RECEIVED]. *)
Record batch_ok (m_socket : Z) (l : loop) (es : list event) : Prop := {
  bo_size : (length es ≤ MAX_EVENTS_RECEIVED)%nat;
  bo_nodup : NoDup (ev_fd <$> es);
  bo_watched : Forall (λ e, ev_fd e ∈ lp_epoll l) es;
  bo_events : events_ok m_socket l es
}.

Inductive loop_step (m_socket : Z) : loop → option (list action) → loop → Prop :=
  | batch_step l es l' acts :
      batch_ok m_socket l es → serve_batch m_socket l es = Ok (l', acts) →
      loop_step m_socket l (Some acts) l'.

(** The process's descriptor table, as a POSIX kernel keeps it: receiving on
    or closing a descriptor that is not open is an error, as is being handed
    one that is open. *)
Definition fd_act (open : gset Z) (a : action) : option (gset Z) :=
  match a with
  | Accept fd => if fd <? 0 then Some open
                 else if decide (fd ∈ open) then None else Some ({[fd]} ∪ open)
  | Recv fd => if decide (fd ∈ open) then Some open else None
  | Close fd => if decide (fd ∈ open) then Some (open ∖ {[fd]}) else None
  | _ => Some open
  end.

Fixpoint fd_run (open : gset Z) (acts : list action) : option (gset Z) :=
  match acts with
  | [] => Some open
  | a :: acts' => open' ← fd_act open a; fd_run open' acts'
  end.

(** A whole item arriving on a connection. *)
Definition item_event (fd : Z) (bs : list Z) : event :=
  MkEvent fd true (-1) EVENT_SIZE bs.

(** ** Proofs *)

(** It makes no difference to the loop how events come in batches. *)
Lemma serve_batch_app sk l es1 es2 :
  serve_batch sk l (es1 ++ es2) =
  ('(l1, a1) ← serve_batch sk l es1; '(l2, a2) ← serve_batch sk l1 es2; Ok (l2, a1 ++ a2)).
Proof.
  revert l. induction es1 as [|e es1 IH]; intros l; cbn [serve_batch app].
  - simpl_bind. by destruct (serve_batch sk l es2) as [[]|].
  - destruct (handle sk l e) as [[l1 a1]|]; [|done]. simpl_bind. rewrite IH.
    destruct (serve_batch sk l1 es1) as [[l2 a2]|]; [|done]. simpl_bind.
    destruct (serve_batch sk l2 es2) as [[l3 a3]|]; [|done]. simpl_bind. by rewrite app_assoc.
Qed.

Lemma serve_concat sk l batches : serve sk l batches = serve_batch sk l (concat batches).
Proof.
  revert l. induction batches as [|es rest IH]; intros l; cbn [serve concat]; [done|].
  rewrite serve_batch_app. destruct (serve_batch sk l es) as [[l1 a1]|]; [|done]. simpl_bind. by rewrite IH.
Qed.

Lemma fd_run_app o a1 a2 : fd_run o (a1 ++ a2) = o' ← fd_run o a1; fd_run o' a2.
Proof.
  revert o. induction a1 as [|a a1 IH]; intros o; simpl; [done|].
  destruct (fd_act o a); simpl; [apply IH|done].
Qed.

Lemma received_length memory bytes :
  (length bytes ≤ length memory)%nat → length (received memory bytes) = length memory.
Proof. intros H. unfold received. rewrite length_app, length_drop. lia. Qed.

Lemma received_whole memory bytes :
  length memory = length bytes → received memory bytes = bytes.
Proof. intros H. unfold received. rewrite drop_ge by lia. apply app_nil_r. Qed.

Lemma report_cases memory say :
  report memory = Ok say → ∃ name, say = SayValid name ∨ say = SayCorrupt name.
Proof.
  unfold report. intros H. apply bind_Ok in H as (it & _ & H). apply bind_Ok in H as (name & _ & H).
  exists name. destruct (NetItem.validate it); [left|right]; congruence.
Qed.

(** A report leaves the descriptors alone. *)
Lemma report_says memory say o : report memory = Ok say → fd_act o say = Some o.
Proof. intros H. by destruct (report_cases _ _ H) as (name & [-> | ->]). Qed.

#[local] Opaque report received.

(** The loop's invariant: the listening socket is watched. *)
Record loop_inv (m_socket : Z) (l : loop) : Prop := {
  li_listening : m_socket ∈ lp_epoll l;
  li_witem : length (lp_witem l) = NetItem.sizeof_WorkItem
}.

(** [n] is an [int]: -1 is not [sizeof(witem)] as a [size_t] either. *)
Lemma size_test n : -1 ≤ n ≤ EVENT_SIZE → (u64 n =? EVENT_SIZE) = (n =? EVENT_SIZE).
Proof.
  intros Hn. unfold EVENT_SIZE in *. destruct (Z.eq_dec n (-1)) as [->|]; [done|].
  unfold u64. by rewrite Z.mod_small by lia.
Qed.

(** What one handler does to the set of watched descriptors. *)
Lemma handle_watched sk l e l' acts :
  event_ok l e → handle sk l e = Ok (l', acts) →
  lp_epoll l' =
    if ev_fd e =? sk then (if ev_accept e <? 0 then lp_epoll l else {[ev_accept e]} ∪ lp_epoll l)
    else if ev_in e && negb (ev_n e =? EVENT_SIZE) then lp_epoll l ∖ {[ev_fd e]}
    else lp_epoll l.
Proof.
  intros He Hh. unfold handle in Hh. destruct (ev_fd e =? sk); [by inv_ok|].
  destruct (ev_in e); simpl; [|by inv_ok].
  rewrite size_test in Hh by apply He.
  destruct (Z.eqb_spec (ev_n e) 0) as [E0|]; [rewrite E0; by inv_ok|].
  destruct (ev_n e =? EVENT_SIZE); cbn [negb andb] in *; by inv_ok.
Qed.

Lemma handle_ok sk l e l' acts :
  loop_inv sk l → event_ok l e → ev_fd e ∈ lp_epoll l → handle sk l e = Ok (l', acts) →
  loop_inv sk l' ∧ fd_run (lp_epoll l) acts = Some (lp_epoll l').
Proof.
  intros [Hsk Hlen] He Hfd Hh. pose proof (handle_watched _ _ _ _ _ He Hh) as Hw.
  assert (Hlen' : length (received (lp_witem l) (ev_bytes e)) = NetItem.sizeof_WorkItem).
  { rewrite received_length; [done|]. rewrite (eo_bytes _ _ He), Hlen.
    pose proof (eo_n _ _ He). unfold EVENT_SIZE, NetItem.sizeof_WorkItem in *. lia. }
  unfold handle in Hh. destruct (Z.eqb_spec (ev_fd e) sk) as [|Hne].
  - inv_ok. simpl in *. destruct (eo_accept _ _ He) as [_ Hn].
    destruct (ev_accept e <? 0); simpl; [by split|].
    rewrite decide_False by done. simpl. split; [split; simpl; [set_solver|done]|done].
  - destruct (ev_in e); [|by inv_ok]. rewrite size_test in Hh by apply He.
    clear Hw He. revert Hlen' Hh. generalize (received (lp_witem l) (ev_bytes e)). intros mem Hm Hh.
    assert (Hclose : loop_inv sk (MkLoop (lp_epoll l ∖ {[ev_fd e]}) mem)).
    { split; cbn [lp_epoll lp_witem]; [|exact Hm]. apply elem_of_difference. split; [exact Hsk|].
      intros ->%elem_of_singleton. by apply Hne. }
    assert (Hkeep : loop_inv sk (MkLoop (lp_epoll l) mem)) by (split; [exact Hsk|exact Hm]).
    assert (Hr : fd_act (lp_epoll l) (Recv (ev_fd e)) = Some (lp_epoll l))
      by (cbn [fd_act]; by rewrite decide_True by exact Hfd).
    assert (Hc : fd_act (lp_epoll l) (Close (ev_fd e)) = Some (lp_epoll l ∖ {[ev_fd e]}))
      by (cbn [fd_act]; by rewrite decide_True by exact Hfd).
    destruct (ev_n e =? 0); [|destruct (ev_n e =? EVENT_SIZE)]; cbn [negb] in Hh.
    + inv_ok. split; [exact Hclose|]. cbn [fd_run]. rewrite Hr. cbn [mbind option_bind]. by rewrite Hc.
    + inv_ok. split; [exact Hkeep|]. cbn [fd_run]. rewrite Hr. cbn [mbind option_bind].
      by erewrite report_says by eassumption.
    + inv_ok. split; [exact Hclose|]. cbn [fd_run]. rewrite Hr. cbn [mbind option_bind fd_act].
      cbn [fd_act] in Hc. by rewrite Hc.
Qed.

(** When a handler closes a connection. *)
Lemma handle_actions sk l e l' acts :
  event_ok l e → ev_fd e ≠ sk → handle sk l e = Ok (l', acts) →
  (Close (ev_fd e) ∈ acts ↔ ev_in e = true ∧ ev_n e ≠ EVENT_SIZE) ∧
  (ev_in e = false → acts = [] ∧ l' = l).
Proof.
  intros He Hne Hh. unfold handle in Hh. rewrite (proj2 (Z.eqb_neq _ _) Hne) in Hh.
  destruct (ev_in e).
  2: { inv_ok. split; [|done]. rewrite list_elem_of_In. simpl. naive_solver. }
  split; [|done]. rewrite size_test in Hh by apply He. rewrite list_elem_of_In.
  destruct (Z.eqb_spec (ev_n e) 0) as [E0|].
  { inv_ok. rewrite E0. simpl. unfold EVENT_SIZE. intuition (congruence || lia). }
  destruct (Z.eqb_spec (ev_n e) EVENT_SIZE) as [E|E]; cbn [negb] in Hh.
  - apply bind_Ok in Hh as (say & Hr & Hh). apply Ok_pair in Hh as [_ <-].
    split; [|naive_solver]. intros [H|[H|[]]]; [done|]. subst say.
    by destruct (report_cases _ _ Hr) as (name & [Hs|Hs]).
  - inv_ok. simpl. intuition congruence.
Qed.

(** One batch: no handler touches the descriptor of another entry. *)
Lemma serve_batch_ok sk l es l' acts :
  loop_inv sk l → NoDup (ev_fd <$> es) → Forall (λ e, ev_fd e ∈ lp_epoll l) es →
  events_ok sk l es → serve_batch sk l es = Ok (l', acts) →
  loop_inv sk l' ∧ fd_run (lp_epoll l) acts = Some (lp_epoll l').
Proof.
  revert l l' acts. induction es as [|e es IH]; intros l l' acts Hi Hnd Hw Hok Hs.
  - cbn [serve_batch] in Hs. by apply Ok_pair in Hs as [<- <-].
  - cbn [serve_batch events_ok fmap list_fmap] in *. destruct Hok as [He Hes].
    apply bind_Ok in Hs as ([l1 a1] & H1 & Hs). apply bind_Ok in Hs as ([l2 a2] & H2 & Hs).
    apply Ok_pair in Hs as [<- <-].
    apply NoDup_cons in Hnd as [Hfresh Hnd]. apply Forall_cons in Hw as [Hfd Hw].
    destruct (handle_ok sk l e l1 a1 Hi He Hfd H1) as [Hi1 Hr1].
    destruct (IH l1 l2 a2 Hi1 Hnd) as [Hi2 Hr2]; [|by apply Hes with a1|done|].
    2: { split; [done|]. rewrite fd_run_app, Hr1. exact Hr2. }
    apply Forall_forall. intros e' He'. rewrite Forall_forall in Hw. specialize (Hw _ He').
    assert (ev_fd e' ≠ ev_fd e)
      by (intros E; apply Hfresh; rewrite <-E; by apply list_elem_of_fmap_2).
    rewrite (handle_watched _ _ _ _ _ He H1).
    destruct (ev_fd e =? sk); [destruct (ev_accept e <? 0); set_solver|].
    destruct (ev_in e && negb _); [|done].
    apply elem_of_difference. split; [done|]. by intros ?%elem_of_singleton.
Qed.

Lemma fd_run_concat o acts1 acts2 o' o'' :
  fd_run o acts1 = Some o' → fd_run o' acts2 = Some o'' → fd_run o (acts1 ++ acts2) = Some o''.
Proof. intros H1 H2. by rewrite fd_run_app, H1. Qed.

(** Every execution of the loop keeps the invariant and the descriptors. *)
Lemma loop_exec_ok sk l tr l' :
  loop_inv sk l → exec (loop_step sk) l tr l' →
  loop_inv sk l' ∧ fd_run (lp_epoll l) (concat tr) = Some (lp_epoll l').
Proof.
  intros Hi Hex.
  refine (exec_trace_invariant (loop_step sk)
    (λ tr s, loop_inv sk s ∧ fd_run (lp_epoll l) (concat tr) = Some (lp_epoll s)) l tr l' _ _ Hex);
    [|by split].
  intros tr' s o s' [Hs Hr] Hstep. destruct Hstep as [s es s' acts Hb Hserve].
  destruct (serve_batch_ok sk s es s' acts Hs (bo_nodup _ _ _ Hb) (bo_watched _ _ _ Hb)
    (bo_events _ _ _ Hb) Hserve) as [Hs' Hr'].
  split; [done|]. rewrite concat_app. simpl. rewrite app_nil_r. by eapply fd_run_concat.
Qed.

(** The first state of the loop. *)
Lemma start_inv a srv l acts :
  0 ≤ sa_socket a → start a srv = Ok (Some l, acts) →
  loop_inv (sa_socket a) l ∧ lp_epoll l = {[sa_socket a]}.
Proof.
  intros Hfd Hs. unfold start in Hs. destruct (sa_localhost a); [|done].
  destruct (sa_bind a <? 0); [by inv_ok|]. destruct (sa_listen a <? 0); [by inv_ok|].
  apply bind_Ok in Hs as (it & Hit & Hs). apply Ok_pair in Hs as [Hs _]. injection Hs as <-.
  rewrite (proj2 (Z.ltb_ge _ _)) by done.
  split; [|done]. split; cbn [lp_epoll lp_witem]; [set_solver|].
  destruct (NetItem.WorkItem_ctor_ok_null default_name) as (it' & E' & Hwf).
  rewrite E' in Hit. injection Hit as <-. by apply NetItem.to_bytes_length.
Qed.

(** ** Proofs: reports *)
Lemma c_string_is_ok buf : is_ok (c_string buf) ↔ ¬ Forall (λ c, c ≠ 0) buf.
Proof.
  induction buf as [|c buf IH]; simpl; [split; [done|]; intros H; by apply H|].
  rewrite Forall_cons. destruct (Z.eqb_spec c 0) as [->|Hc]; [simpl; naive_solver|].
  destruct (c_string buf); simpl in *; naive_solver.
Qed.

Lemma load_witem_whole bs :
  length bs = NetItem.sizeof_WorkItem →
  ∃ it, load_witem bs = Ok it ∧ NetItem.of_bytes bs = Some it ∧ NetItem.m_name it = drop 514 bs.
Proof.
  intros Hl. unfold load_witem, NetItem.of_bytes. rewrite (proj2 (Nat.eqb_eq _ _) Hl).
  destruct (drop NetItem.DATA_LEN bs) as [|lo [|hi name]] eqn:E.
  - apply (f_equal length) in E. rewrite length_drop, Hl in E. done.
  - apply (f_equal length) in E. rewrite length_drop, Hl in E. done.
  - eexists. split_and!; [done|done|]. cbn [NetItem.m_name].
    change 514%nat with (NetItem.DATA_LEN + 2)%nat. by rewrite <-drop_drop, E.
Qed.

#[local] Transparent report.

(** A report is made unless the name field holds no NUL. *)
Lemma report_defined bs :
  length bs = NetItem.sizeof_WorkItem →
  is_ok (report bs) ↔ ¬ Forall (λ c, c ≠ 0) (drop 514 bs).
Proof.
  intros Hl. destruct (load_witem_whole bs Hl) as (it & E & _ & Hn).
  rewrite <-c_string_is_ok, <-Hn. unfold report. rewrite E. simpl_bind.
  unfold NetItem.getName. by destruct (c_string (NetItem.m_name it)).
Qed.

Lemma report_item bs it name :
  NetItem.of_bytes bs = Some it → NetItem.getName it = Ok name →
  report bs = Ok (if NetItem.validate it then SayValid name else SayCorrupt name).
Proof. intros E Hn. unfold report, load_witem. rewrite E. simpl_bind. by rewrite Hn. Qed.

#[local] Opaque report.

(** A whole item on a connection is reported, and the connection kept. *)
Lemma handle_item sk l fd bs :
  fd ≠ sk → length (lp_witem l) = NetItem.sizeof_WorkItem → length bs = NetItem.sizeof_WorkItem →
  handle sk l (item_event fd bs) =
    say ← report bs; Ok (MkLoop (lp_epoll l) bs, [Recv fd; say]).
Proof.
  intros Hne Hm Hb. unfold handle, item_event. cbn [ev_fd ev_in ev_n ev_bytes].
  rewrite (proj2 (Z.eqb_neq _ _) Hne). change (EVENT_SIZE =? 0) with false.
  change (negb (u64 EVENT_SIZE =? EVENT_SIZE)) with false. cbn match.
  by rewrite received_whole by congruence.
Qed.

Lemma handle_whole sk l e :
  ev_fd e ≠ sk → ev_in e = true → ev_n e = EVENT_SIZE →
  length (lp_witem l) = NetItem.sizeof_WorkItem → length (ev_bytes e) = Z.to_nat (ev_n e) →
  handle sk l e = say ← report (ev_bytes e); Ok (MkLoop (lp_epoll l) (ev_bytes e), [Recv (ev_fd e); say]).
Proof.
  intros Hne Hin Hn Hm Hl. rewrite Hn in Hl. change (Z.to_nat EVENT_SIZE) with NetItem.sizeof_WorkItem in Hl.
  pose proof (handle_item sk l (ev_fd e) (ev_bytes e) Hne Hm Hl) as H.
  unfold handle, item_event in *. cbn [ev_fd ev_in ev_n ev_bytes] in H.
  rewrite (proj2 (Z.eqb_neq _ _) Hne) in *. rewrite Hin, Hn. exact H.
Qed.

(** The reports on a run of items a client sent. *)
Lemma serve_items sk l fd id count sent :
  fd ≠ sk → length (lp_witem l) = NetItem.sizeof_WorkItem →
  (∀ k bs, sent !! k = Some bs → sent_item id (count + Z.of_nat k) bs) →
  ∃ l', serve_batch sk l (item_event fd <$> sent) =
      Ok (l', concat (imap (λ k _, [Recv fd; SayValid (item_name id (count + Z.of_nat k))]) sent)) ∧
    lp_epoll l' = lp_epoll l.
Proof.
  intros Hne. revert l count. induction sent as [|bs sent IH]; intros l count Hm Hs.
  - by exists l.
  - destruct (Hs 0%nat bs eq_refl) as [Hl (it & Eit & _ & Hv & Hn)].
    destruct (IH (MkLoop (lp_epoll l) bs) (count + 1)) as (l' & E & He); [done| |].
    { intros k b Hk. specialize (Hs (S k) b Hk). by replace (count + 1 + Z.of_nat k)
        with (count + Z.of_nat (S k)) by lia. }
    exists l'. split; [|done]. cbn [fmap list_fmap serve_batch].
    rewrite handle_item by done. rewrite (report_item _ _ _ Eit Hn), Hv. simpl_bind.
    cbn [fmap list_fmap] in E. rewrite E. cbn [mbind outcome_bind imap concat].
    do 3 f_equal. f_equal. apply imap_ext. intros k b _. unfold compose.
    by replace (count + 1 + Z.of_nat k) with (count + Z.of_nat (S k)) by lia.
Qed.
