(* ===== verification/NetProps.v ===== *)
(** * Properties of the network programs (Chapter15)

    Work items on the wire, the client that sends them and the server that
    checks them.  Each theorem is followed by a witness: the theorem applied
    to a concrete client, item or kernel answer. *)
From stdpp Require Import gmap fin_sets.
From S2P Require Import Prelude Digits Items NetItem NetClient NetServer.

#[local] Opaque NetItem.generateChecksum NetItem.xor16.

(** ** A small client, and items of zeros and ones *)
Definition fours : rands := λ _, 4.

Lemma fours_ok : rand_ok fours.
Proof. intros k. unfold fours, RAND_MAX. lia. Qed.

Definition demo_client (id count : Z) : Client :=
  MkClient id (replicate 256 0) 6323 (replicate 30 0) (replicate 512 97) 0 count fours.

Lemma demo_client_wf id count : 0 ≤ count < 4294967296 → client_wf (demo_client id count).
Proof.
  intros Hc. split; [apply fours_ok|done|done| |done].
  apply Forall_replicate. unfold NetItem.is_byte. lia.
Qed.

Definition data_of (b : Z) : list Z := replicate 512 b.

Lemma data_of_ok b : NetItem.is_byte b → length (data_of b) = NetItem.DATA_LEN ∧ Forall NetItem.is_byte (data_of b).
Proof. intros Hb. split; [apply length_replicate|by apply Forall_replicate]. Qed.

(** A single error byte [b] at position 0. *)
Definition one_error (b : Z) : list Z := b :: replicate 511 0.

Lemma one_error_ok b : NetItem.is_byte b →
  length (one_error b) = NetItem.DATA_LEN ∧ Forall NetItem.is_byte (one_error b).
Proof.
  intros Hb. split; [done|]. constructor; [done|]. apply Forall_replicate. unfold NetItem.is_byte. lia.
Qed.

(** ** Items and their checksum *)

(** C32. [generateChecksum] is the exclusive or of the data's 256 sixteen-bit
    words and 0xAF76, rotated left by one bit. *)
Theorem checksum_is_rotated_xor d :
  length d = NetItem.DATA_LEN → Forall NetItem.is_byte d →
  NetItem.generateChecksum d = NetItem.checksum_spec d.
Proof. apply NetItem.generateChecksum_spec. Qed.

Lemma checksum_is_rotated_xor_witness :
  NetItem.generateChecksum (data_of 7) = NetItem.checksum_spec (data_of 7).
Proof. apply (checksum_is_rotated_xor (data_of 7)); apply data_of_ok; unfold NetItem.is_byte; lia. Defined.

(** An item built from at most 512 bytes survives being written as its
    memory and read back: the same item, which validates, holds the data
    padded with zeros, and bears its name when that has at most 29 characters
    (otherwise the name field has no terminator to find). *)
Lemma item_survives_the_wire name d dataLen :
  Forall (λ c, c ≠ 0) name → 0 ≤ dataLen ≤ 512 → dataLen ≤ Z.of_nat (length d) →
  Forall NetItem.is_byte d →
  ∃ it, NetItem.WorkItem_ctor name (Some d) dataLen = Ok it ∧
    NetItem.of_bytes (NetItem.to_bytes it) = Some it ∧
    length (NetItem.to_bytes it) = NetItem.sizeof_WorkItem ∧
    NetItem.validate it = true ∧
    NetItem.m_data it = take (Z.to_nat dataLen) d ++ replicate (512 - Z.to_nat dataLen) 0 ∧
    NetItem.getName it = if (length name <? 30)%nat then Ok name else Fault OutOfBounds.
Proof.
  intros Hn Hl Hd Hb.
  destruct (NetItem.WorkItem_ctor_ok name d dataLen Hl Hd Hb) as (it & E & Hw & Hv & Hda & Hna).
  exists it. split_and!; [done|by apply NetItem.of_to_bytes|by apply NetItem.to_bytes_length|done|done|].
  unfold NetItem.getName. rewrite Hna. by apply strncpy_c_string.
Qed.

Lemma item_survives_the_wire_witness :
  ∃ it, NetItem.WorkItem_ctor [72;105] (Some [1;2;3]) 3 = Ok it ∧
    NetItem.of_bytes (NetItem.to_bytes it) = Some it ∧
    length (NetItem.to_bytes it) = NetItem.sizeof_WorkItem ∧
    NetItem.validate it = true ∧
    NetItem.m_data it = [1;2;3] ++ replicate 509 0 ∧ NetItem.getName it = Ok [72;105].
Proof.
  apply (item_survives_the_wire [72;105] [1;2;3] 3);
    [repeat constructor; lia|lia|simpl; lia|repeat constructor; unfold NetItem.is_byte; lia].
Defined.

(** What the checksum detects: a valid item whose data suffered the errors
    [e] still validates exactly when the sixteen-bit words of [e] cancel out. *)
Lemma validate_accepts_iff_errors_cancel it e :
  NetItem.item_wf it → NetItem.validate it = true →
  length e = NetItem.DATA_LEN → Forall NetItem.is_byte e →
  NetItem.validate (NetItem.MkWorkItem (NetItem.corrupt e (NetItem.m_data it))
    (NetItem.m_checksum it) (NetItem.m_name it)) = true ↔ NetItem.xor16 e = 0.
Proof.
  intros Hw Hv Le Be. rewrite NetItem.validate_iff. apply NetItem.validate_iff in Hv. cbn [NetItem.m_data NetItem.m_checksum].
  rewrite <-Hv.
  pose proof (NetItem.wf_data _ Hw) as Ld. pose proof (NetItem.wf_bytes _ Hw) as Bd.
  destruct (NetItem.corrupt_wf e (NetItem.m_data it)) as [Lc Bc]; [congruence|done|done|].
  rewrite NetItem.checksum_eq_iff; [|congruence|done|done|done].
  rewrite NetItem.xor16_corrupt; [|congruence|done|done].
  split; [|intros ->; apply Z.lxor_0_r].
  intros E. apply (f_equal (Z.lxor (NetItem.xor16 (NetItem.m_data it)))) in E.
  by rewrite <-Z.lxor_assoc, !Z.lxor_nilpotent, Z.lxor_0_l in E.
Qed.

(** The item of 512 zeros. *)
Definition zeros_item : NetItem.WorkItem :=
  NetItem.MkWorkItem (data_of 0) (NetItem.generateChecksum (data_of 0)) (replicate 30 0).

Lemma zeros_item_wf : NetItem.item_wf zeros_item.
Proof.
  destruct (data_of_ok 0) as [L B]; [unfold NetItem.is_byte; lia|].
  split; [exact L|exact B| |done].
  change (NetItem.m_checksum zeros_item) with (NetItem.generateChecksum (data_of 0)).
  rewrite NetItem.generateChecksum_spec by done. by apply NetItem.checksum_spec_bound.
Qed.

(** Any error inside one aligned sixteen-bit word is caught; exchanging two
    of the words, or changing the name, is not. *)
Lemma checksum_strength it d e1 e2 pre mid post a b a' b' name :
  NetItem.item_wf it → NetItem.validate it = true →
  NetItem.m_data it = d → Nat.Even (length pre) → Nat.Even (length mid) →
  d = pre ++ a :: b :: mid ++ a' :: b' :: post →
  NetItem.is_byte e1 → NetItem.is_byte e2 → (e1, e2) ≠ (0, 0) →
  let chk := NetItem.m_checksum it in
  NetItem.validate (NetItem.MkWorkItem
    (pre ++ Z.lxor a e1 :: Z.lxor b e2 :: mid ++ a' :: b' :: post) chk name) = false ∧
  NetItem.validate (NetItem.MkWorkItem
    (pre ++ a' :: b' :: mid ++ a :: b :: post) chk name) = true.
Proof.
  intros Hw Hv <- Epre Emid Ed B1 B2 Hne chk. unfold chk. clear chk.
  pose proof (NetItem.wf_data _ Hw) as Ld. pose proof (NetItem.wf_bytes _ Hw) as Bd.
  apply NetItem.validate_iff in Hv. rewrite Ed in Ld, Bd. rewrite <-Hv, Ed. clear Hv Ed Hw.
  assert (Bx : NetItem.is_byte a ∧ NetItem.is_byte b ∧ NetItem.is_byte a' ∧ NetItem.is_byte b' ∧
    Forall NetItem.is_byte pre ∧ Forall NetItem.is_byte mid ∧ Forall NetItem.is_byte post).
  { rewrite Forall_app, !Forall_cons, Forall_app, !Forall_cons in Bd. tauto. }
  destruct Bx as (Ba & Bb & Ba' & Bb' & Bpre & Bmid & Bpost).
  assert (X : ∀ u v u' v', NetItem.xor16 (pre ++ u :: v :: mid ++ u' :: v' :: post) =
    Z.lxor (Z.lxor (NetItem.xor16 pre) (Z.lxor (NetItem.xor16 mid) (NetItem.xor16 post)))
      (Z.lxor (u + 256 * v) (u' + 256 * v'))).
  { intros u v u' v'. rewrite NetItem.xor16_app, NetItem.xor16_pair, NetItem.xor16_app, NetItem.xor16_pair
      by done.
    apply Z.bits_inj'. intros i _. rewrite !Z.lxor_spec.
    by destruct (Z.testbit (u + 256 * v) i), (Z.testbit (u' + 256 * v') i),
      (Z.testbit (NetItem.xor16 pre) i), (Z.testbit (NetItem.xor16 mid) i),
      (Z.testbit (NetItem.xor16 post) i). }
  assert (L : ∀ u v u' v', length (pre ++ u :: v :: mid ++ u' :: v' :: post) = NetItem.DATA_LEN)
    by (intros; rewrite <-Ld; by rewrite !length_app; cbn; rewrite !length_app).
  assert (B : ∀ u v u' v', NetItem.is_byte u → NetItem.is_byte v → NetItem.is_byte u' →
    NetItem.is_byte v' → Forall NetItem.is_byte (pre ++ u :: v :: mid ++ u' :: v' :: post))
    by (intros; rewrite Forall_app, !Forall_cons, Forall_app, !Forall_cons; tauto).
  pose proof (NetItem.lxor_byte a e1 Ba B1) as Bae. pose proof (NetItem.lxor_byte b e2 Bb B2) as Bbe.
  split.
  - apply not_true_is_false. rewrite NetItem.validate_iff. cbn [NetItem.m_data NetItem.m_checksum].
    rewrite NetItem.checksum_eq_iff, !X by auto. intros E.
    apply NetItem.lxor_cancel_l, NetItem.lxor_cancel_r in E.
    apply NetItem.pair_error in E; [|done..]. by apply Hne.
  - rewrite NetItem.validate_iff. cbn [NetItem.m_data NetItem.m_checksum].
    rewrite NetItem.checksum_eq_iff, !X by auto. f_equal. apply Z.lxor_comm.
Qed.

Lemma checksum_strength_witness :
  let chk := NetItem.m_checksum zeros_item in
  NetItem.validate (NetItem.MkWorkItem ([] ++ Z.lxor 0 3 :: Z.lxor 0 0 :: [] ++ 0 :: 0 :: replicate 508 0)
    chk [65]) = false ∧
  NetItem.validate (NetItem.MkWorkItem ([] ++ 0 :: 0 :: [] ++ 0 :: 0 :: replicate 508 0) chk [65]) = true.
Proof.
  apply (checksum_strength zeros_item (data_of 0) 3 0 [] [] (replicate 508 0) 0 0 0 0 [65]);
    [apply zeros_item_wf|apply Z.eqb_refl|done|by exists 0%nat|by exists 0%nat|done
    |unfold NetItem.is_byte; lia|unfold NetItem.is_byte; lia|done].
Defined.

(** ** The client *)

(** [Work] ends at the first clock reading past its deadline; for every
    reading before it sends ten items, each a whole valid item, named with
    consecutive numbers, as long as the names fit. *)
Lemma work_sends_numbered_items seconds now pre t post c :
  Forall (λ x, x ≤ u32 seconds + now) pre → u32 seconds + now < t →
  client_wf c → m_cooked_count c + 10 * Z.of_nat (length pre) < 4294967296 →
  (∀ k, 0 ≤ k < 10 * Z.of_nat (length pre) → name_fits (NetClient.m_id c) (m_cooked_count c + k)) →
  ∃ c' sent, Work seconds now (pre ++ t :: post) c = Ok (Some (c', sent)) ∧
    m_cooked_count c' = m_cooked_count c + 10 * Z.of_nat (length pre) ∧
    length sent = (10 * length pre)%nat ∧
    ∀ k bs, sent !! k = Some bs →
      sent_item (NetClient.m_id c) (m_cooked_count c + Z.of_nat k) bs.
Proof. apply work_loop_ok. Qed.

(** C36. [cook_data] stays inside its buffers exactly while the name fits; for a
    client with a one-digit id, exactly for its first million items.  The next
    [sprintf] writes past [m_workitem_name]. *)
Theorem cook_data_overflows_at_a_million c :
  client_wf c → 0 ≤ NetClient.m_id c < 10 → m_cooked_count c < 2147483648 →
  if m_cooked_count c <? 1000000
  then ∃ c', cook_data c = Ok c' ∧ client_wf c' ∧
    c_string (m_workitem_name c') = Ok (item_name (NetClient.m_id c) (m_cooked_count c)) ∧
    m_cooked_count c' = m_cooked_count c + 1 ∧ 1 ≤ m_workitem_data_len c' ≤ 512
  else cook_data c = Fault OutOfBounds.
Proof.
  intros Hw Hid Hc. pose proof (cw_count _ Hw) as Hb.
  pose proof (name_fits_one_digit (NetClient.m_id c) (m_cooked_count c) Hid ltac:(lia)) as Hn.
  destruct (Z.ltb_spec (m_cooked_count c) 1000000).
  - destruct (cook_data_ok c Hw) as (c' & E & Hw' & Hs & _ & Hcnt & Hl); [by apply Hn|].
    exists c'. rewrite u32_small in Hcnt by lia. destruct Hl. by split_and!.
  - apply cook_data_overflow; [done|]. rewrite Hn. lia.
Qed.

Lemma cook_data_overflows_at_a_million_witness :
  cook_data (demo_client 1 1000000) = Fault OutOfBounds.
Proof.
  apply (cook_data_overflows_at_a_million (demo_client 1 1000000));
    [apply demo_client_wf; lia|simpl; lia|simpl; lia].
Defined.

(** The program's [atoi] reads back what [%d] prints of a non-negative
    [int]; at the first character that is no digit it gives up and answers
    ten, whatever came before. *)
Lemma atoi_reads_printed_numbers z c rest :
  0 ≤ z ≤ INT_MAX → (c < 48 ∨ 57 < c) →
  atoi (print_d z) = Ok z ∧ atoi (print_d z ++ c :: rest) = Ok SECONDS_TO_RUN_CLIENT_DEFAULT.
Proof.
  intros Hz Hc. unfold atoi, print_d. rewrite (proj2 (Z.ltb_ge z 0)) by lia.
  assert (Hw : 0 ≤ z < 4294967296) by (unfold INT_MAX in Hz; lia).
  assert (V : foldl (λ a d, 10 * a + d) 0 (digits 10 z) = z) by (by apply digits_value).
  assert (A : ∀ tail, atoi_loop (((λ d, d + 48) <$> digits 10 z) ++ tail) 0 = atoi_loop tail z).
  { intros tail. rewrite atoi_loop_digits, V; [done| |done|rewrite V; apply Hz].
    apply digits_range; lia. }
  split; [by rewrite <-(app_nil_r (_ <$> _)), A|].
  rewrite A. cbn [atoi_loop].
  assert (E : (c <? 48) || (57 <? c) = true) by (rewrite orb_true_iff, !Z.ltb_lt; lia).
  by rewrite E.
Qed.


(** [Connect] succeeds exactly when every call does; it binds the port
    6666 + id modulo 2^16, and closes the socket it opened on every failure
    but that of [connect], where the descriptor leaks. *)
Lemma connect_outcomes a c :
  let '(ok, calls) := Connect a c in
  (ok = true ↔ is_Some (an_localhost a) ∧ 0 ≤ an_bind a ∧ is_Some (an_server a) ∧ an_connect a ≠ -1) ∧
  (∀ addr port, CallBind addr port ∈ calls → port = (6666 + NetClient.m_id c) mod 65536) ∧
  (ok = false → CallSocket ∈ calls →
    CallClose (an_socket a) ∈ calls ↔ ¬ ∃ addr port, CallConnect addr port ∈ calls).
Proof.
  unfold Connect. destruct (an_localhost a) as [addr|]; [|split_and!; [|set_solver..]].
  2: { split; [done|]. intros [[] _]; done. }
  destruct (Z.ltb_spec (an_bind a) 0); [|destruct (an_server a) as [saddr|];
    [destruct (Z.eqb_spec (an_connect a) (-1))|]]; cbn [app].
  - split_and!; [split; [done|lia]|set_solver|set_solver].
  - split_and!; [naive_solver|set_solver|set_solver].
  - split_and!; [naive_solver|set_solver|done].
  - split_and!; [|set_solver|set_solver]. split; [done|]. intros (_ & _ & [] & _); done.
Qed.

(** ** The server *)

(** The set-up: [start] returns false, having closed its socket, exactly
    when [bind] or [listen] fails, and otherwise enters the loop watching the
    listening socket only; an unknown local host dereferences null. *)
Lemma start_outcomes a srv :
  0 ≤ sa_socket a →
  match start a srv with
  | Fault f => f = NullPointer ∧ sa_localhost a = None
  | Ok (None, acts) => (sa_bind a < 0 ∨ sa_listen a < 0) ∧ last acts = Some (Close (sa_socket a))
  | Ok (Some l, acts) => 0 ≤ sa_bind a ∧ 0 ≤ sa_listen a ∧ lp_epoll l = {[sa_socket a]} ∧
      Close (sa_socket a) ∉ acts
  end.
Proof.
  intros Hfd. destruct (start a srv) as [[[l|] acts]|f] eqn:E.
  - destruct (start_inv a srv l acts Hfd E) as [_ ->]. unfold start in E.
    destruct (sa_localhost a); [|done]. destruct (Z.ltb_spec (sa_bind a) 0); [by inv_ok|].
    destruct (Z.ltb_spec (sa_listen a) 0); [by inv_ok|].
    apply bind_Ok in E as (it & _ & E). apply Ok_pair in E as [_ <-].
    split_and!; [done|done|done|]. set_solver.
  - unfold start in E. destruct (sa_localhost a); [|done].
    destruct (Z.ltb_spec (sa_bind a) 0); [inv_ok; split; [by left|done]|].
    destruct (Z.ltb_spec (sa_listen a) 0); [inv_ok; split; [by right|done]|].
    by apply bind_Ok in E as (it & _ & E).
  - unfold start in E. destruct (sa_localhost a); [|by injection E as <-].
    destruct (sa_bind a <? 0); [done|]. destruct (sa_listen a <? 0); [done|].
    destruct (NetItem.WorkItem_ctor_ok_null default_name) as (it & Hit & _).
    by rewrite Hit in E.
Qed.

(** A kernel script: a client connects; then its connection ends, and a new
    one gets the same descriptor within the batch. *)
Definition ok_start : outcome (option loop * list action) :=
  start (StartAnswers 3 (Some 1) 0 0) (Server_ctor 10 6323).
Definition batch1 : list event := [MkEvent 3 true 4 0 []].
Definition batch2 : list event := [MkEvent 4 true (-1) 0 []; MkEvent 3 true 4 0 []].

Definition loop_of {A} (r : outcome (loop * A)) : loop :=
  match r with Ok (l, _) => l | Fault _ => MkLoop ∅ [] end.

Definition demo0 : loop := match ok_start with Ok (Some l, _) => l | _ => MkLoop ∅ [] end.
Definition demo1 : loop := loop_of (serve_batch 3 demo0 batch1).
Definition demo2 : loop := loop_of (serve_batch 3 demo1 batch2).

Lemma demo_event_ok l fd n new :
  bool_decide (-1 ≤ new ∧ new ∉ lp_epoll l) = true → n = 0 → event_ok l (MkEvent fd true new n []).
Proof.
  intros H%bool_decide_eq_true ->. split; [exact H|unfold EVENT_SIZE; simpl; lia|done|constructor].
Qed.

Lemma demo_server_exec :
  exec (loop_step 3) demo0 [[Accept 4; Nonblock 4; Watch 4; SayConnected];
    [Recv 4; Close 4; Accept 4; Nonblock 4; Watch 4; SayConnected]] demo2.
Proof.
  eapply (exec_snoc _ demo0 [_] demo1 (Some _)), (batch_step 3 demo1 batch2);
    [eapply (exec_snoc _ demo0 [] demo0 (Some _)), (batch_step 3 demo0 batch1); [constructor| |]| |].
  - split; [simpl; unfold MAX_EVENTS_RECEIVED; lia| | |].
    + apply (bool_decide_unpack _). by vm_compute.
    + apply (bool_decide_unpack _). by vm_compute.
    + split; [by apply demo_event_ok|done].
  - vm_compute. reflexivity.
  - split; [simpl; unfold MAX_EVENTS_RECEIVED; lia| | |].
    + apply (bool_decide_unpack _). by vm_compute.
    + apply (bool_decide_unpack _). by vm_compute.
    + split; [by apply demo_event_ok|]. intros l' acts Hh.
      assert (E : l' = loop_of (handle 3 demo1 (MkEvent 4 true (-1) 0 []))) by by rewrite Hh.
      rewrite E. split; [by apply demo_event_ok|done].
  - vm_compute. reflexivity.
Qed.

(** C17. The server's descriptors: whatever the kernel answers, every execution
    of the loop is a legal run of the descriptor table (nothing is received
    from or closed when it is not open, nothing closed twice, within a batch
    too), the open descriptors are exactly the watched ones, so none leaks,
    and the listening socket stays among them. *)
Theorem server_descriptor_discipline a srv l acts tr l' :
  0 ≤ sa_socket a → start a srv = Ok (Some l, acts) →
  exec (loop_step (sa_socket a)) l tr l' →
  fd_run {[sa_socket a]} (concat tr) = Some (lp_epoll l') ∧ sa_socket a ∈ lp_epoll l'.
Proof.
  intros Hfd Hs Hex. destruct (start_inv a srv l acts Hfd Hs) as [Hi He].
  destruct (loop_exec_ok _ _ _ _ Hi Hex) as [Hi' Hr]. rewrite <-He. split; [done|apply Hi'].
Qed.

Lemma server_descriptor_discipline_witness :
  fd_run {[3]} ([Accept 4; Nonblock 4; Watch 4; SayConnected] ++
    [Recv 4; Close 4; Accept 4; Nonblock 4; Watch 4; SayConnected] ++ []) = Some (lp_epoll demo2) ∧
  3 ∈ lp_epoll demo2.
Proof.
  apply (server_descriptor_discipline (StartAnswers 3 (Some 1) 0 0) (Server_ctor 10 6323) demo0
    [Socket 3; Nonblock 3; Bind 1 6323; Listen 3 32; Watch 3]
    [[Accept 4; Nonblock 4; Watch 4; SayConnected];
     [Recv 4; Close 4; Accept 4; Nonblock 4; Watch 4; SayConnected]] demo2);
    [simpl; lia|vm_compute; reflexivity|exact demo_server_exec].
Defined.

(** A connection's event keeps the connection exactly when a whole item
    arrived: an end of file, an error and a short read, which a non-blocking
    [recv] may make of an honest client's item, close it; an event without
    EPOLLIN changes nothing. *)
Lemma connection_kept_iff_whole_item sk l e l' acts :
  event_ok l e → ev_fd e ≠ sk → ev_fd e ∈ lp_epoll l → handle sk l e = Ok (l', acts) →
  (ev_fd e ∈ lp_epoll l' ↔ ev_in e = false ∨ ev_n e = EVENT_SIZE) ∧
  (Close (ev_fd e) ∈ acts ↔ ev_fd e ∉ lp_epoll l').
Proof.
  intros He Hne Hfd Hh. pose proof (handle_watched _ _ _ _ _ He Hh) as Hw.
  rewrite (proj2 (Z.eqb_neq _ _) Hne) in Hw.
  destruct (handle_actions sk l e l' acts He Hne Hh) as (Hcl & _).
  rewrite Hcl, Hw. destruct (ev_in e); cbn [andb]; [|naive_solver].
  destruct (Z.eqb_spec (ev_n e) EVENT_SIZE); cbn [negb]; [naive_solver|].
  rewrite elem_of_difference, elem_of_singleton. naive_solver.
Qed.

Definition quiet_loop : loop := MkLoop {[3; 4]} (replicate 544 0).
Definition short_read : event := MkEvent 4 true (-1) 2 [1;2].

Lemma short_read_ok : event_ok quiet_loop short_read.
Proof.
  split; [|unfold EVENT_SIZE; simpl; lia|done|repeat constructor; simpl; lia].
  split; [simpl; lia|]. simpl. set_solver.
Qed.

(** C37. The only undefined behaviour in the loop: a whole item whose name
    field holds no NUL makes the server read past [witem]. *)
Theorem server_faults_iff_unterminated_name sk l e :
  loop_inv sk l → event_ok l e →
  ¬ is_ok (handle sk l e) ↔
  ev_fd e ≠ sk ∧ ev_in e = true ∧ ev_n e = EVENT_SIZE ∧ Forall (λ c, c ≠ 0) (drop 514 (ev_bytes e)).
Proof.
  intros Hi He. destruct (Z.eq_dec (ev_fd e) sk) as [Heq|Hne].
  { unfold handle. rewrite (proj2 (Z.eqb_eq _ _) Heq). cbn [is_ok]. tauto. }
  destruct (Z.eq_dec (ev_n e) EVENT_SIZE) as [Hn|Hn]; [destruct (ev_in e) eqn:Ein|].
  - rewrite (handle_whole sk l e) by (done || apply Hi || exact (eo_bytes _ _ He)).
    assert (Hl : length (ev_bytes e) = NetItem.sizeof_WorkItem)
      by (rewrite (eo_bytes _ _ He), Hn; done).
    pose proof (report_defined _ Hl) as Hd. destruct (report (ev_bytes e)) as [say|f].
    + cbn [mbind outcome_bind is_ok] in *. tauto.
    + cbn [mbind outcome_bind is_ok] in *. destruct (decide (Forall (λ c, c ≠ 0) (drop 514 (ev_bytes e)))); tauto.
  - assert (is_ok (handle sk l e)); [|naive_solver].
    unfold handle. rewrite (proj2 (Z.eqb_neq _ _) Hne), Ein. exact I.
  - assert (is_ok (handle sk l e)); [|naive_solver].
    unfold handle. rewrite (proj2 (Z.eqb_neq _ _) Hne). destruct (ev_in e); [|exact I].
    destruct (ev_n e =? 0); [exact I|]. rewrite size_test by apply He.
    rewrite (proj2 (Z.eqb_neq _ _) Hn). exact I.
Qed.

Lemma server_faults_iff_unterminated_name_witness :
  ¬ is_ok (handle 3 quiet_loop (item_event 4 (replicate 544 65))) ↔
  4 ≠ 3 ∧ true = true ∧ 544 = EVENT_SIZE ∧ Forall (λ c, c ≠ 0) (drop 514 (replicate 544 65)).
Proof.
  apply (server_faults_iff_unterminated_name 3 quiet_loop (item_event 4 (replicate 544 65))).
  - split; [simpl; set_solver|reflexivity].
  - split; [|simpl; unfold EVENT_SIZE; lia|reflexivity|apply Forall_replicate; unfold NetItem.is_byte; lia].
    split; [simpl; lia|]. simpl. set_solver.
Defined.

(** The items of a client's run, delivered whole on one
    connection, are all reported valid, under their names and in their order;
    the connection stays, and the server stays within its memory. *)
Lemma server_reports_client_items n sk fd l c :
  loop_inv sk l → fd ≠ sk → client_wf c → m_cooked_count c + Z.of_nat n < 4294967296 →
  (∀ k, 0 ≤ k < Z.of_nat n → name_fits (NetClient.m_id c) (m_cooked_count c + k)) →
  ∃ c' sent l' acts, send_items n c = Ok (c', sent) ∧ length sent = n ∧
    serve_batch sk l (item_event fd <$> sent) = Ok (l', acts) ∧ lp_epoll l' = lp_epoll l ∧
    acts = concat ((λ k, [Recv fd; SayValid (item_name (NetClient.m_id c) (m_cooked_count c + Z.of_nat k))])
                    <$> seq 0 n).
Proof.
  intros Hi Hne Hw Hlt Hn.
  destruct (send_items_ok n c Hw Hlt Hn) as (c' & sent & E & _ & _ & _ & Hl & Hs).
  destruct (serve_items sk l fd _ _ sent Hne (li_witem _ _ Hi) Hs) as (l' & Es & He).
  eexists c', sent, l', _. split_and!; [done|done|exact Es|done|].
  rewrite <-Hl. f_equal. apply imap_seq_0.
Qed.

(** The parts of an uninitialised client that its constructor leaves alone. *)
Definition client_memory_wf (c : Client) : Prop :=
  rand_ok (m_rands c) ∧ length (m_workitem_name c) = 30%nat ∧ length (m_workitem_data c) = 512%nat ∧
  Forall NetItem.is_byte (m_workitem_data c) ∧ length (m_server_name c) = 256%nat.

Lemma Client_ctor_ok memory id port :
  client_memory_wf memory → 0 ≤ id ≤ INT_MAX →
  ∃ c, Client_ctor memory id (Some localhost) port = Ok c ∧ client_wf c ∧ NetClient.m_id c = id ∧ m_cooked_count c = 0 ∧
    m_server_port c = port.
Proof.
  intros (Hr & Hn & Hd & Hb & Hs) Hid. unfold Client_ctor.
  rewrite store_string_ok by (rewrite Hs; apply Nat.ltb_lt; reflexivity). simpl_bind. eexists. split; [done|].
  split; [by split|]. split; [|by split]. apply u32_small. unfold INT_MAX in Hid. lia.
Qed.

(** The clock of a client that works for so many rounds: [pre] are readings
    up to the deadline, [t] is past it. *)
Definition clock_ok (now : Z) (pre : list Z) (t : Z) : Prop :=
  Forall (λ x, x ≤ u32 SECONDS_TO_RUN_CLIENT_DEFAULT + now) pre ∧ u32 SECONDS_TO_RUN_CLIENT_DEFAULT + now < t.

Definition connects (a : answers) : Prop :=
  is_Some (an_localhost a) ∧ 0 ≤ an_bind a ∧ is_Some (an_server a) ∧ an_connect a ≠ -1.

(** The calls of a client that connects. *)
Definition connect_calls (a : answers) (id : Z) : list net_call :=
  [CallSocket; CallBind (default 0 (an_localhost a)) ((6666 + id) mod 65536); CallConnect (default 0 (an_server a)) 6323].

Lemma connects_calls a c :
  connects a → m_server_port c = 6323 → Connect a c = (true, connect_calls a (NetClient.m_id c)).
Proof.
  intros ([addr E1] & Hb & [saddr E2] & Hc) Ep. unfold Connect, connect_calls. rewrite E1, E2, Ep.
  rewrite (proj2 (Z.ltb_ge _ _) Hb), (proj2 (Z.eqb_neq _ _) Hc). done.
Qed.

Lemma client_run_ok cmd id a memory junk now pre t post :
  client_memory_wf memory → 0 ≤ id ≤ INT_MAX → connects a → clock_ok now pre t →
  10 * Z.of_nat (length pre) < 4294967296 → (∀ k, 0 ≤ k < 10 * Z.of_nat (length pre) → name_fits id k) →
  ∃ c sent, client_run [cmd; print_d id] a memory junk now (pre ++ t :: post) =
      Ok (Some (Worked c (connect_calls a id) sent)) ∧
    length sent = (10 * length pre)%nat ∧ ∀ k bs, sent !! k = Some bs → sent_item id (Z.of_nat k) bs.
Proof.
  intros Hm Hid Hc [Hpre Ht] Hlt Hn. unfold client_run.
  destruct (atoi_reads_printed_numbers id 0 []) as [-> _]; [done|lia|]. simpl_bind.
  replace (c_string (strncpy 30 localhost ++ [junk])) with (Ok localhost) by reflexivity. simpl_bind.
  destruct (Client_ctor_ok memory id 6323 Hm Hid) as (c & -> & Hw & Ei & Ecount & Ep). simpl_bind.
  rewrite (connects_calls a c Hc Ep), Ei.
  destruct (work_loop_ok (u32 SECONDS_TO_RUN_CLIENT_DEFAULT + now) pre t post c Hpre Ht Hw)
    as (c' & sent & E & _ & Hl & Hs); [by rewrite Ecount, Z.add_0_l|by rewrite Ei, Ecount|].
  unfold Work. rewrite E. simpl_bind. exists c', sent. split_and!; [done|done|].
  intros k bs Hk. specialize (Hs k bs Hk). by rewrite Ei, Ecount in Hs.
Qed.

(** C7. The client program and the server program together, as long as the names
    of the items fit their buffer and the client makes fewer than 2^32: a client
    started with an id binds port 6666 + id, connects to 6323, writes ten items
    for every reading of its clock up to its deadline and closes its socket; the
    server, delivered the connection and then these items whole, in whatever
    batches, reports every one as valid, under its name and in their order.
    The client ends in undefined behaviour: [Disconnect], having closed the
    socket, comes to its end without the result it is declared to have. *)
Theorem client_program_is_reported cmd id a memory junk now pre t post sa fd :
  client_memory_wf memory → 0 ≤ id ≤ INT_MAX → connects a → clock_ok now pre t →
  10 * Z.of_nat (length pre) < 4294967296 → (∀ k, 0 ≤ k < 10 * Z.of_nat (length pre) → name_fits id k) →
  is_Some (sa_localhost sa) → 0 ≤ sa_bind sa → 0 ≤ sa_listen sa → 0 ≤ sa_socket sa → 0 ≤ fd → fd ≠ sa_socket sa →
  ∃ sent, client_main [cmd; print_d id] a memory junk now (pre ++ t :: post) =
      Ok (Some (Undefined
        ([CallSocket; CallBind (default 0 (an_localhost a)) ((6666 + id) mod 65536); CallConnect (default 0 (an_server a)) 6323] ++
         (CallWrite (an_socket a) <$> sent) ++ [CallClose (an_socket a)]) MissingReturn)) ∧
    length sent = (10 * length pre)%nat ∧
    ∃ acts, ∀ batches, concat batches = MkEvent (sa_socket sa) true fd 0 [] :: (item_event fd <$> sent) →
      server_main sa batches = Ok (None, acts ++ [Accept fd; Nonblock fd; Watch fd; SayConnected] ++
        concat ((λ k, [Recv fd; SayValid (item_name id (Z.of_nat k))]) <$> seq 0 (10 * length pre))).
Proof.
  intros Hm Hid Hc Hclock Hlt Hn [addr Hla] Hb Hli Hsk Hfd Hne.
  destruct (client_run_ok cmd id a memory junk now pre t post) as (c & sent & E & Hl & Hs); [done..|].
  exists sent. split_and!; [unfold client_main; by rewrite E|done|].
  pose proof (start_outcomes sa (Server_ctor 10 6323) Hsk) as Hst.
  destruct (start sa (Server_ctor 10 6323)) as [[[l|] acts]|f] eqn:Es;
    [|destruct Hst as [[?|?] _]; lia|destruct Hst as [_ ?]; congruence].
  exists acts. intros batches Eb. unfold server_main. rewrite Es. simpl_bind. rewrite serve_concat, Eb.
  cbn [serve_batch]. unfold handle at 1. cbn [ev_fd ev_accept]. rewrite Z.eqb_refl.
  rewrite (proj2 (Z.ltb_ge fd 0)) by lia. simpl_bind.
  destruct (start_inv sa (Server_ctor 10 6323) l acts Hsk Es) as [[_ Hw] _].
  destruct (serve_items (sa_socket sa) (MkLoop ({[fd]} ∪ lp_epoll l) (lp_witem l)) fd id 0 sent Hne Hw)
    as (l' & E' & _).
  { intros k bs Hk. rewrite Z.add_0_l. by apply Hs. }
  rewrite E'. simpl_bind. do 4 f_equal. rewrite <-Hl, <-imap_seq_0. done.
Qed.

(** A client with id 7 whose clock reads 0 and 10 before it passes 10. *)
Lemma client_program_is_reported_witness :
  ∃ sent, client_main [[]; print_d 7] (Answers (Some 1) (Some 2) 3 0 0) (demo_client 0 0) 1 0 ([0; 10] ++ 11 :: []) =
      Ok (Some (Undefined ([CallSocket; CallBind 1 6673; CallConnect 2 6323] ++ (CallWrite 3 <$> sent) ++ [CallClose 3]) MissingReturn)) ∧
    length sent = 20%nat ∧
    ∃ acts, ∀ batches, concat batches = MkEvent 3 true 4 0 [] :: (item_event 4 <$> sent) →
      server_main (StartAnswers 3 (Some 1) 0 0) batches = Ok (None, acts ++ [Accept 4; Nonblock 4; Watch 4; SayConnected] ++
        concat ((λ k, [Recv 4; SayValid (item_name 7 (Z.of_nat k))]) <$> seq 0 20)).
Proof.
  apply (client_program_is_reported [] 7 (Answers (Some 1) (Some 2) 3 0 0) (demo_client 0 0) 1 0 [0; 10] 11 []
    (StartAnswers 3 (Some 1) 0 0) 4); cbn; try lia.
  - destruct (demo_client_wf 0 0 ltac:(lia)). by split_and!.
  - unfold INT_MAX. lia.
  - split_and!; try done; by eexists.
  - split; [repeat constructor; cbv; discriminate|reflexivity].
  - intros k Hk. apply name_fits_one_digit; lia.
  - by eexists.
Defined.
