(* ===== verification/NetSystem.v ===== *)
(** * Clients and server together (Chapter15)

    Any number of the programs of Client.cpp and the server's loop, joined by
    TCP connections: an action of a client, the answer of [epoll_wait], or the
    handling of one event at a time.  A connection is a stream of bytes, of
    which [recv] gets as many as have arrived; clients may die at any time;
    the kernel hands out the descriptors of closed connections again. *)
From stdpp Require Import gmap fin_sets.
From S2P Require Import Prelude Digits Items NetItem NetClient NetServer.

(** ** Data *)

(** The server's end of a connection: none yet, in the queue of [listen], a
    descriptor, closed. *)
Inductive server_end := Unconnected | Pending | At (fd : Z) | Gone.
#[export] Instance server_end_eq_dec : EqDecision server_end.
Proof. solve_decision. Defined.

(** The bytes written and not yet received; whether the client's end is open. *)
Record conn := Conn { cn_stream : list Z; cn_open : bool; cn_end : server_end }.

(** Where a client is: about to call [Connect]; about to read the clock for
    [target_time]; about to test it; in the loop over ten items, with so many
    left; its socket closed. *)
Inductive client_pc :=
  | Connecting
  | Starting
  | CheckTime (target_time : Z)
  | Sending (target_time : Z) (n : nat)
  | Ended.

Record client_proc := ClientProc { cp_client : Client; cp_pc : client_pc }.

(** Client [i] has connection [i]; [ns_backlog] are those in the queue of
    [listen], [ns_batch] the descriptors of [event_result] still to be handled. *)
Record net_system := NetSys {
  ns_clock : Z;
  ns_clients : list client_proc;
  ns_conns : list conn;
  ns_backlog : list nat;
  ns_loop : loop;
  ns_batch : list Z
}.

Definition set_client (i : nat) (p : client_proc) (cn : conn) (s : net_system) : net_system :=
  NetSys (ns_clock s) (<[i := p]> (ns_clients s)) (<[i := cn]> (ns_conns s)) (ns_backlog s) (ns_loop s) (ns_batch s).

(** ** The clients *)

(** The next action of client [i]; [a] is what the system answers to
    [Connect]. *)
Definition client_act (a : answers) (i : nat) (s : net_system) : outcome (option net_system) :=
  match ns_clients s !! i, ns_conns s !! i with
  | Some (ClientProc c pc), Some cn =>
      match pc with
      | Connecting =>
          if (Connect a c).1 then
            let s' := set_client i (ClientProc c Starting) (Conn [] true Pending) s in
            Ok (Some (NetSys (ns_clock s') (ns_clients s') (ns_conns s') (ns_backlog s ++ [i]) (ns_loop s') (ns_batch s')))
          else Ok (Some (set_client i (ClientProc c Ended) cn s))
      | Starting =>
          Ok (Some (set_client i (ClientProc c (CheckTime (u32 SECONDS_TO_RUN_CLIENT_DEFAULT + ns_clock s))) cn s))
      | CheckTime target_time =>
          if target_time <? ns_clock s
          then Ok (Some (set_client i (ClientProc c Ended) (Conn (cn_stream cn) false (cn_end cn)) s))
          else Ok (Some (set_client i (ClientProc c (Sending target_time WORK_TIMES_TO_CHECK_TIME)) cn s))
      | Sending target_time O => Ok (Some (set_client i (ClientProc c (CheckTime target_time)) cn s))
      | Sending target_time (S n) =>
          '(c', bs) ← send_item c;
          Ok (Some (set_client i (ClientProc c' (Sending target_time n))
            (Conn (cn_stream cn ++ bs) (cn_open cn) (cn_end cn)) s))
      | Ended => Ok None
      end
  | _, _ => Ok None
  end.

(** Client [i] dies, in the middle of writing an item after [k] of its bytes. *)
Definition client_dies (i : nat) (k : nat) (s : net_system) : option net_system :=
  match ns_clients s !! i, ns_conns s !! i with
  | Some (ClientProc c pc), Some cn =>
      let closed bs := Some (set_client i (ClientProc c Ended) (Conn (cn_stream cn ++ bs) false (cn_end cn)) s) in
      match pc with
      | Connecting => Some (set_client i (ClientProc c Ended) cn s)
      | Starting | CheckTime _ | Sending _ O => closed []
      | Sending _ (S _) =>
          match send_item c with
          | Ok (_, bs) => if (k <? length bs)%nat then closed (take k bs) else None
          | Fault _ => closed []
          end
      | Ended => None
      end
  | _, _ => None
  end.

(** ** The server *)
Definition conn_at (fd : Z) (s : net_system) : option (nat * conn) := list_find (λ cn, cn_end cn = At fd) (ns_conns s).

(** There is something to do about a descriptor: a connection to accept, or
    bytes or the end of the stream to receive. *)
Definition ready (m_socket fd : Z) (s : net_system) : bool :=
  if fd =? m_socket then bool_decide (ns_backlog s ≠ [])
  else match conn_at fd s with
       | Some (_, cn) => bool_decide (cn_stream cn ≠ []) || negb (cn_open cn)
       | None => false
       end.

(** [epoll_wait] returns these descriptors. *)
Definition server_wait (m_socket : Z) (fds : list Z) (s : net_system) : option net_system :=
  match ns_batch s with
  | [] =>
      if bool_decide (fds ≠ [] ∧ NoDup fds ∧ (length fds ≤ MAX_EVENTS_RECEIVED)%nat ∧
           Forall (λ fd, fd ∈ lp_epoll (ns_loop s) ∧ ready m_socket fd s = true) fds)
      then Some (NetSys (ns_clock s) (ns_clients s) (ns_conns s) (ns_backlog s) (ns_loop s) fds)
      else None
  | _ => None
  end.

(** How the kernel answers the calls of the next handler: the descriptor from
    [accept] (or -1), and how many bytes [recv] gets when there are some. *)
Record kernel_answer := KernelAnswer { ka_accept : Z; ka_received : nat }.

(** [recv] of up to [sizeof(witem)] bytes: its result, the bytes, and what is
    left of the stream; [None] for an answer the kernel does not give. *)
Definition do_recv (k : nat) (cn : conn) : option (Z * list Z * list Z) :=
  match cn_stream cn with
  | [] => Some (if cn_open cn then -1 else 0, [], [])
  | stream =>
      if (0 <? k)%nat && (k <=? NetItem.sizeof_WorkItem)%nat && (k <=? length stream)%nat
      then Some (Z.of_nat k, take k stream, drop k stream) else None
  end.

(** What the server is seen to do for a connection. *)
Definition label : Type := nat * list action.

(** The server handles the next event of its batch. *)
Definition server_handle (m_socket : Z) (ans : kernel_answer) (s : net_system)
    : outcome (option (option label * net_system)) :=
  match ns_batch s with
  | [] => Ok None
  | fd :: rest =>
      if fd =? m_socket then
        let fails :=
          '(l', _) ← handle m_socket (ns_loop s) (MkEvent fd true (-1) 0 []);
          Ok (Some (None, NetSys (ns_clock s) (ns_clients s) (ns_conns s) (ns_backlog s) l' rest)) in
        match ns_backlog s with
        | [] => fails
        | j :: backlog =>
            let new_fd := ka_accept ans in
            if new_fd <? 0 then fails
            else if bool_decide (new_fd ∈ lp_epoll (ns_loop s)) then Ok None
            else
              '(l', acts) ← handle m_socket (ns_loop s) (MkEvent fd true new_fd 0 []);
              match ns_conns s !! j with
              | Some cn =>
                  Ok (Some (Some (j, acts), NetSys (ns_clock s) (ns_clients s)
                    (<[j := Conn (cn_stream cn) (cn_open cn) (At new_fd)]> (ns_conns s)) backlog l' rest))
              | None => Ok None
              end
        end
      else
        match conn_at fd s with
        | Some (j, cn) =>
            match do_recv (ka_received ans) cn with
            | Some (n, bs, stream) =>
                '(l', acts) ← handle m_socket (ns_loop s) (MkEvent fd true (-1) n bs);
                let end' := if bool_decide (fd ∈ lp_epoll l') then At fd else Gone in
                Ok (Some (Some (j, acts), NetSys (ns_clock s) (ns_clients s)
                  (<[j := Conn stream (cn_open cn) end']> (ns_conns s)) (ns_backlog s) l' rest))
            | None => Ok None
            end
        | None => Ok None
        end
  end.

(** ** Steps *)
Inductive net_step (m_socket : Z) : net_system → option label → net_system → Prop :=
  | step_client a i s s' : client_act a i s = Ok (Some s') → net_step m_socket s None s'
  | step_dies i k s s' : client_dies i k s = Some s' → net_step m_socket s None s'
  | step_wait fds s s' : server_wait m_socket fds s = Some s' → net_step m_socket s None s'
  | step_handle ans s o s' : server_handle m_socket ans s = Ok (Some (o, s')) → net_step m_socket s o s'
  | step_clock now s :
      ns_clock s ≤ now →
      net_step m_socket s None (NetSys now (ns_clients s) (ns_conns s) (ns_backlog s) (ns_loop s) (ns_batch s)).

(** The server at the start of its loop, and clients about to connect. *)
Definition net_start (now : Z) (l : loop) (clients : list Client) : net_system :=
  NetSys now ((λ c, ClientProc c Connecting) <$> clients) (replicate (length clients) (Conn [] true Unconnected)) [] l [].

(** What the server has reported of a connection. *)
Definition reports_of (j : nat) (tr : list label) : list action :=
  concat ((λ x, if decide (x.1 = j) then x.2 else []) <$> tr).
Definition is_report (a : action) : bool :=
  match a with SayValid _ | SayCorrupt _ => true | _ => false end.
Definition reported (j : nat) (tr : list label) : list action := filter (λ a, is_report a = true) (reports_of j tr).

(** ** Runs *)
Inductive net_choice := ClientTurn (a : answers) (i : nat) | Dies (i k : nat) | Wait (fds : list Z) | Handle (ans : kernel_answer)
  | ClockAt (now : Z).
Definition net_choose (m_socket : Z) (c : net_choice) (s : net_system) : option (option label * net_system) :=
  match c with
  | ClientTurn a i => match client_act a i s with Ok (Some s') => Some (None, s') | _ => None end
  | Dies i k => match client_dies i k s with Some s' => Some (None, s') | None => None end
  | Wait fds => match server_wait m_socket fds s with Some s' => Some (None, s') | None => None end
  | Handle ans => match server_handle m_socket ans s with Ok (Some x) => Some x | _ => None end
  | ClockAt now =>
      if ns_clock s <=? now
      then Some (None, NetSys now (ns_clients s) (ns_conns s) (ns_backlog s) (ns_loop s) (ns_batch s)) else None
  end.
Fixpoint net_run (m_socket : Z) (cs : list net_choice) (s : net_system) : list label * net_system :=
  match cs with
  | [] => ([], s)
  | c :: cs' =>
      match net_choose m_socket c s with
      | Some (o, s1) => let '(tr, s') := net_run m_socket cs' s1 in (option_list o ++ tr, s')
      | None => ([], s)
      end
  end.

Lemma net_run_exec sk cs s : exec (net_step sk) s (net_run sk cs s).1 (net_run sk cs s).2.
Proof.
  revert s. induction cs as [|c cs IH]; intros s; [constructor|]. cbn [net_run].
  destruct (net_choose sk c s) as [[o s1]|] eqn:Hc; [|constructor]. specialize (IH s1).
  destruct (net_run sk cs s1) as [tr s']. eapply exec_trans; [|exact IH]. apply exec_one.
  destruct c as [a i|i k|fds|ans|now]; cbn [net_choose] in Hc.
  - destruct (client_act a i s) as [[]|] eqn:E; simplify_eq. by eapply step_client.
  - destruct (client_dies i k s) eqn:E; simplify_eq. by eapply step_dies.
  - destruct (server_wait sk fds s) eqn:E; simplify_eq. by eapply step_wait.
  - destruct (server_handle sk ans s) as [[[]|]|] eqn:E; simplify_eq. by eapply step_handle.
  - destruct (Z.leb_spec (ns_clock s) now); simplify_eq. by apply step_clock.
Qed.
