(* ===== verification/NetSysInv.v ===== *)
(** * Clients and server together: the invariant

    Descriptors and connections match; and of every connection, what its
    client has written, what the server has reported of it, and what is still
    under way. *)
From stdpp Require Import gmap fin_sets.
From S2P Require Import Prelude Digits Items NetItem NetClient NetServer NetSystem.

(** ** Traces *)
Definition said (j : nat) (o : option label) : list action :=
  match o with Some (j', acts) => if decide (j' = j) then acts else [] | None => [] end.

Lemma reports_of_snoc j tr o : reports_of j (tr ++ option_list o) = reports_of j tr ++ said j o.
Proof.
  unfold reports_of. destruct o as [[j' acts]|]; [|by rewrite !app_nil_r].
  cbn [option_list said]. rewrite fmap_app, concat_app. cbn. by rewrite app_nil_r.
Qed.

Lemma reported_snoc j tr o :
  reported j (tr ++ option_list o) = reported j tr ++ filter (λ a, is_report a = true) (said j o).
Proof. unfold reported. by rewrite reports_of_snoc, filter_app. Qed.

(** A receive that got part of an item, which the server takes for an error. *)
Definition cut_short (j : nat) (tr : list label) : Prop := ∃ n, 0 < n < EVENT_SIZE ∧ SayShort n ∈ reports_of j tr.

Lemma cut_short_snoc j tr o : cut_short j tr → cut_short j (tr ++ option_list o).
Proof. intros (n & Hr & Hn). exists n. split; [done|]. rewrite reports_of_snoc. apply elem_of_app. by left. Qed.

(** ** Descriptors *)
Record ends_ok (sk : Z) (ends : list server_end) (backlog : list nat) (l : loop) (batch : list Z) : Prop := {
  eo_loop : loop_inv sk l;
  eo_watched fd : fd ∈ lp_epoll l ↔ fd = sk ∨ ∃ j, ends !! j = Some (At fd);
  eo_not_sk j : ends !! j ≠ Some (At sk);
  eo_inj j j' fd : ends !! j = Some (At fd) → ends !! j' = Some (At fd) → j = j';
  eo_backlog_nodup : NoDup backlog;
  eo_pending j : j ∈ backlog ↔ ends !! j = Some Pending;
  eo_batch_nodup : NoDup batch;
  eo_batch : Forall (λ fd, fd ∈ lp_epoll l) batch
}.

Lemma ends_connect sk ends backlog l batch i :
  ends_ok sk ends backlog l batch → ends !! i = Some Unconnected →
  ends_ok sk (<[i := Pending]> ends) (backlog ++ [i]) l batch.
Proof.
  intros [Hl Hw Hs Hi Hn Hp Hbn Hb] E. assert (Hlt := lookup_lt_Some _ _ _ E).
  assert (Hat : ∀ j fd, <[i := Pending]> ends !! j = Some (At fd) ↔ ends !! j = Some (At fd)).
  { intros j fd. destruct (decide (j = i)) as [->|Hne]; [rewrite list_lookup_insert_eq by done; naive_solver|].
    by rewrite list_lookup_insert_ne. }
  split; try done.
  - intros fd. rewrite Hw. by setoid_rewrite Hat.
  - intros j. rewrite Hat. apply Hs.
  - intros j j' fd. rewrite !Hat. apply Hi.
  - apply NoDup_app. split_and!; [done| |apply NoDup_singleton].
    intros j Hj ->%list_elem_of_singleton. apply Hp in Hj. congruence.
  - intros j. rewrite elem_of_app, list_elem_of_singleton, Hp. destruct (decide (j = i)) as [->|Hne].
    + rewrite list_lookup_insert_eq by done. naive_solver.
    + rewrite list_lookup_insert_ne by done. naive_solver.
Qed.

Lemma ends_accept sk ends backlog l batch j fd mem :
  ends_ok sk ends (j :: backlog) l (sk :: batch) → fd ∉ lp_epoll l → length mem = NetItem.sizeof_WorkItem →
  ends_ok sk (<[j := At fd]> ends) backlog (MkLoop ({[fd]} ∪ lp_epoll l) mem) batch.
Proof.
  intros [Hl Hw Hs Hi Hn Hp Hbn Hb] Hfd Hm. assert (Ej : ends !! j = Some Pending) by (apply Hp; by constructor).
  assert (Hlt := lookup_lt_Some _ _ _ Ej). apply NoDup_cons in Hn as [Hnj Hn]. apply NoDup_cons in Hbn as [_ Hbn].
  apply Forall_cons in Hb as [_ Hb].
  assert (Hsk : fd ≠ sk) by (intros ->; by destruct Hl). assert (Hno : ∀ k, ends !! k ≠ Some (At fd)).
  { intros k Hk. apply Hfd, Hw. right. by exists k. }
  assert (Hat : ∀ k fd', <[j := At fd]> ends !! k = Some (At fd') ↔ k = j ∧ fd' = fd ∨ ends !! k = Some (At fd')).
  { intros k fd'. destruct (decide (k = j)) as [->|Hne]; [rewrite list_lookup_insert_eq by done; naive_solver|].
    rewrite list_lookup_insert_ne by done. naive_solver. }
  split; cbn [lp_epoll]; try done.
  - split; [|done]. cbn. apply elem_of_union. right. apply Hl.
  - intros fd'. rewrite elem_of_union, elem_of_singleton, Hw. setoid_rewrite Hat. naive_solver.
  - intros k. rewrite Hat. naive_solver.
  - intros k k' fd'. rewrite !Hat. naive_solver.
  - intros k. destruct (decide (k = j)) as [->|Hne].
    + rewrite list_lookup_insert_eq by done. naive_solver.
    + rewrite list_lookup_insert_ne, <-Hp, elem_of_cons by done. naive_solver.
  - eapply Forall_impl; [exact Hb|]. cbn. set_solver.
Qed.

Lemma ends_close sk ends backlog l batch j fd mem :
  ends_ok sk ends backlog l (fd :: batch) → ends !! j = Some (At fd) → length mem = NetItem.sizeof_WorkItem →
  ends_ok sk (<[j := Gone]> ends) backlog (MkLoop (lp_epoll l ∖ {[fd]}) mem) batch.
Proof.
  intros [Hl Hw Hs Hi Hn Hp Hbn Hb] Ej Hm. assert (Hlt := lookup_lt_Some _ _ _ Ej).
  apply NoDup_cons in Hbn as [Hfb Hbn]. apply Forall_cons in Hb as [_ Hb].
  assert (Hsk : fd ≠ sk) by (intros ->; by apply (Hs j)).
  assert (Hat : ∀ k fd', <[j := Gone]> ends !! k = Some (At fd') ↔ fd' ≠ fd ∧ ends !! k = Some (At fd')).
  { intros k fd'. destruct (decide (k = j)) as [->|Hne]; [rewrite list_lookup_insert_eq by done; naive_solver|].
    rewrite list_lookup_insert_ne by done. split; [|naive_solver]. intros E. split; [|done]. intros ->. by apply Hne, (Hi k j fd). }
  split; cbn [lp_epoll]; try done.
  - split; [|done]. cbn. apply elem_of_difference. split; [apply Hl|]. by intros ->%elem_of_singleton.
  - intros fd'. rewrite elem_of_difference, elem_of_singleton, Hw. setoid_rewrite Hat. naive_solver.
  - intros k. rewrite Hat. naive_solver.
  - intros k k' fd'. rewrite !Hat. naive_solver.
  - intros k. rewrite Hp. destruct (decide (k = j)) as [->|Hne]; [rewrite list_lookup_insert_eq by done; naive_solver|].
    by rewrite list_lookup_insert_ne.
  - rewrite Forall_forall in *. intros fd' Hin. apply elem_of_difference. split; [by apply Hb|].
    intros ->%elem_of_singleton. done.
Qed.

Lemma ends_keep sk ends backlog l batch fd mem :
  ends_ok sk ends backlog l (fd :: batch) → length mem = NetItem.sizeof_WorkItem →
  ends_ok sk ends backlog (MkLoop (lp_epoll l) mem) batch.
Proof.
  intros [Hl Hw Hs Hi Hn Hp Hbn Hb] Hm. apply NoDup_cons in Hbn as [_ Hbn]. apply Forall_cons in Hb as [_ Hb].
  split; cbn [lp_epoll]; try done. split; [apply Hl|done].
Qed.

(** ** Connections *)

(** Connection [j] of the client that began as [c0]: the items it has written,
    the part of one it died in, and how many items have been reported. *)
Record channel (c0 : Client) (j : nat) (tr : list label) (p : client_proc) (cn : conn)
    (items : list (list Z)) (tail : list Z) (r : nat) : Prop := {
  ch_wf : client_wf (cp_client p);
  ch_id : NetClient.m_id (cp_client p) = NetClient.m_id c0;
  ch_count : m_cooked_count (cp_client p) = Z.of_nat (length items) ∧ Z.of_nat (length items) ≤ 1000000;
  ch_items : ∀ k bs, items !! k = Some bs → sent_item (NetClient.m_id c0) (Z.of_nat k) bs;
  ch_tail : (length tail < NetItem.sizeof_WorkItem)%nat ∧ (tail ≠ [] → cn_open cn = false);
  ch_open : cn_open cn = false → cp_pc p = Ended;
  ch_new : cp_pc p = Connecting → items = [] ∧ tail = [] ∧ r = 0%nat ∧ cn_end cn = Unconnected;
  ch_left : cn_end cn = Unconnected → (cp_pc p = Connecting ∨ cp_pc p = Ended) ∧ items = [];
  ch_ended : cp_pc p = Ended → cn_open cn = false ∨ cn_end cn = Unconnected ∧ items = [] ∧ tail = [] ∧ r = 0%nat;
  ch_reported : reported j tr = (λ k, SayValid (item_name (NetClient.m_id c0) (Z.of_nat k))) <$> seq 0 r;
  ch_behind : (r ≤ length items)%nat;
  ch_stream : cn_end cn ≠ Gone → cn_stream cn = concat (drop r items) ++ tail;
  ch_gone : cn_end cn = Gone → cut_short j tr ∨ cn_open cn = false ∧ r = length items ∧ tail = []
}.

Lemma channel_other c0 j tr o p cn items tail r :
  said j o = [] → channel c0 j tr p cn items tail r → channel c0 j (tr ++ option_list o) p cn items tail r.
Proof.
  intros E Hch. assert (Hg := ch_gone _ _ _ _ _ _ _ _ Hch). destruct Hch. split; try done.
  - by rewrite reported_snoc, E, app_nil_r.
  - intros Hgone. destruct (Hg Hgone); [left; by apply cut_short_snoc|by right].
Qed.

Definition set_pc (pc : client_pc) (p : client_proc) : client_proc := ClientProc (cp_client p) pc.

(** The client goes on without writing. *)
Lemma channel_moves c0 j tr c pc pc' cn items tail r :
  channel c0 j tr (ClientProc c pc) cn items tail r → pc ≠ Connecting → pc ≠ Ended → pc' ≠ Connecting → pc' ≠ Ended →
  channel c0 j tr (ClientProc c pc') cn items tail r.
Proof.
  intros Hch H1 H2 H3 H4. pose proof (ch_open _ _ _ _ _ _ _ _ Hch) as Ho. pose proof (ch_left _ _ _ _ _ _ _ _ Hch) as Hl.
  destruct Hch. split; try done; cbn in *.
  - intros E. by destruct Ho.
  - intros E. by destruct (Hl E) as [[] _].
Qed.

(** It ends, having written part of an item. *)
Lemma channel_ends c0 j tr c pc cn items tail r bs :
  channel c0 j tr (ClientProc c pc) cn items tail r → pc ≠ Connecting → pc ≠ Ended → (length bs < NetItem.sizeof_WorkItem)%nat →
  channel c0 j tr (ClientProc c Ended) (Conn (cn_stream cn ++ bs) false (cn_end cn)) items bs r ∧ tail = [].
Proof.
  intros Hch H1 H2 Hbs. pose proof (ch_open _ _ _ _ _ _ _ _ Hch) as Ho. pose proof (ch_left _ _ _ _ _ _ _ _ Hch) as Hl.
  pose proof (ch_tail _ _ _ _ _ _ _ _ Hch) as [Ht Ht']. pose proof (ch_stream _ _ _ _ _ _ _ _ Hch) as Hst.
  pose proof (ch_gone _ _ _ _ _ _ _ _ Hch) as Hg. cbn in *.
  assert (Hopen : cn_open cn = true) by (destruct (cn_open cn); [done|by specialize (Ho eq_refl)]).
  assert (tail = []) as ->. { destruct tail; [done|]. by rewrite Ht' in Hopen. }
  split; [|done]. destruct Hch. split; try done; cbn.
  - intros Eu. by destruct (Hl Eu) as [[] _].
  - by left.
  - intros Hne. by rewrite Hst, app_nil_r by done.
  - intros Hgone. destruct (Hg Hgone) as [?|(? & _)]; [by left|congruence].
Qed.

Lemma send_item_sends c c' bs :
  client_wf c → send_item c = Ok (c', bs) →
  client_wf c' ∧ sent_item (NetClient.m_id c) (m_cooked_count c) bs ∧ NetClient.m_id c' = NetClient.m_id c ∧
  m_cooked_count c' = u32 (m_cooked_count c + 1) ∧
  name_fits (NetClient.m_id c) (m_cooked_count c).
Proof.
  intros Hw E.
  destruct (Nat.le_dec (length (print_d (s32 (NetClient.m_id c))) + length (print_d (s32 (m_cooked_count c))))%nat 7%nat) as [Hf|Hn].
  - destruct (send_item_ok c Hw Hf) as (c1 & bs1 & E1 & ? & ? & ? & ?). rewrite E in E1. by apply Ok_pair in E1 as [<- <-].
  - unfold send_item in E. by rewrite (cook_data_overflow c Hw Hn) in E.
Qed.

(** It cannot be the millionth: the name would not fit. *)
Lemma fits_million id (n : nat) :
  Z.of_nat n ≤ 1000000 → name_fits id (Z.of_nat n) → Z.of_nat n < 1000000.
Proof.
  intros Hn Hf. unfold name_fits in Hf. rewrite (s32_small (Z.of_nat n)) in Hf by lia. pose proof (print_d_nonempty (s32 id)).
  change 1000000 with (10 ^ Z.of_nat 6). rewrite <-(print_d_length (Z.of_nat n) 6); lia.
Qed.

(** It writes an item. *)
Lemma channel_writes c0 j tr c c' n n' target cn items tail r bs :
  channel c0 j tr (ClientProc c (Sending target n)) cn items tail r → send_item c = Ok (c', bs) →
  channel c0 j tr (ClientProc c' (Sending target n')) (Conn (cn_stream cn ++ bs) (cn_open cn) (cn_end cn)) (items ++ [bs]) tail r.
Proof.
  intros Hch E. pose proof (ch_open _ _ _ _ _ _ _ _ Hch) as Ho. pose proof (ch_left _ _ _ _ _ _ _ _ Hch) as Hl.
  pose proof (ch_tail _ _ _ _ _ _ _ _ Hch) as [Ht Ht']. pose proof (ch_stream _ _ _ _ _ _ _ _ Hch) as Hst.
  pose proof (ch_gone _ _ _ _ _ _ _ _ Hch) as Hg. pose proof (ch_behind _ _ _ _ _ _ _ _ Hch) as Hr.
  pose proof (ch_items _ _ _ _ _ _ _ _ Hch) as Hit.
  pose proof (ch_wf _ _ _ _ _ _ _ _ Hch) as Hw. pose proof (ch_id _ _ _ _ _ _ _ _ Hch) as Eid.
  pose proof (ch_count _ _ _ _ _ _ _ _ Hch) as Ec. cbn [cp_client cp_pc] in *.
  assert (Hopen : cn_open cn = true) by (destruct (cn_open cn); [done|by specialize (Ho eq_refl)]).
  assert (tail = []) as ->. { destruct tail; [done|]. by rewrite Ht' in Hopen. }
  destruct (send_item_sends c c' bs Hw E) as (Hw1 & Hs1 & Eid1 & Ec1 & Hfit). rewrite Eid in Hs1.
  destruct Ec as [Ec Hmax]. rewrite Ec in Hs1, Hfit, Ec1. assert (Hlim := fits_million _ _ Hmax Hfit).
  clear E. destruct Hch. split; try done; cbn [cp_client cp_pc cn_stream cn_open cn_end].
  - by rewrite Eid1.
  - rewrite Ec1, length_app, u32_small by lia. cbn. lia.
  - intros k b Hk. apply lookup_app_Some in Hk as [Hk|[Hge Hk]]; [by apply Hit|].
    destruct (k - length items)%nat as [|m] eqn:Em; [|done]. injection Hk as <-. replace k with (length items) by lia. done.
  - intros Ef. congruence.
  - intros Eu. by destruct (Hl Eu) as [[] _].
  - rewrite length_app. lia.
  - intros Hne. rewrite Hst by done. rewrite drop_app_le, concat_app by done. cbn. by rewrite !app_nil_r.
  - intros Hgone. destruct (Hg Hgone) as [?|[Ef _]]; [by left|congruence].
Qed.

(** The server receives a whole item ... *)
Lemma channel_whole c0 j tr p cn items tail r :
  channel c0 j tr p cn items tail r → cn_end cn ≠ Gone → (NetItem.sizeof_WorkItem ≤ length (cn_stream cn))%nat →
  ∃ bs, items !! r = Some bs ∧ take NetItem.sizeof_WorkItem (cn_stream cn) = bs ∧
    report bs = Ok (SayValid (item_name (NetClient.m_id c0) (Z.of_nat r))) ∧
    ∀ fd, channel c0 j (tr ++ option_list (Some (j, [Recv fd; SayValid (item_name (NetClient.m_id c0) (Z.of_nat r))]))) p
      (Conn (drop NetItem.sizeof_WorkItem (cn_stream cn)) (cn_open cn) (cn_end cn)) items tail (S r).
Proof.
  intros Hch Hne Hlen. pose proof (ch_stream _ _ _ _ _ _ _ _ Hch Hne) as Hst. pose proof (ch_tail _ _ _ _ _ _ _ _ Hch) as [Ht _].
  pose proof (ch_items _ _ _ _ _ _ _ _ Hch) as Hit. pose proof (ch_reported _ _ _ _ _ _ _ _ Hch) as Hrep.
  pose proof (ch_new _ _ _ _ _ _ _ _ Hch) as Hnew. pose proof (ch_ended _ _ _ _ _ _ _ _ Hch) as Hend.
  assert (Hr : is_Some (items !! r)).
  { apply lookup_lt_is_Some. apply Nat.nle_gt. intros Hle. rewrite drop_ge in Hst by done. cbn in Hst. rewrite Hst in Hlen. lia. }
  destruct Hr as [bs Hbs]. exists bs. split; [done|].
  destruct (Hit r bs Hbs) as [Hl (it & Eit & _ & Hv & Hn)].
  assert (Es : cn_stream cn = bs ++ (concat (drop (S r) items) ++ tail)) by by rewrite Hst, (drop_S items bs r Hbs), app_assoc.
  split; [rewrite Es, <-Hl; apply take_app_length|]. split.
  { by rewrite (report_item _ _ _ Eit Hn), Hv. }
  assert (Hlt : (r < length items)%nat) by by eapply lookup_lt_Some.
  intros fd. destruct Hch. split; try done; cbn [cn_stream cn_open cn_end].
  - intros Hp. by destruct (Hnew Hp) as (-> & _).
  - intros Hp. destruct (Hend Hp) as [?|(? & -> & _)]; [by left|done].
  - rewrite reported_snoc, Hrep. cbn [said]. rewrite decide_True by done.
    rewrite seq_S, fmap_app. f_equal.
  - intros _. rewrite Es, <-Hl. apply drop_app_length.
Qed.

(** ... or something else, and closes its end. *)
Lemma channel_closed c0 j tr p cn items tail r acts stream :
  channel c0 j tr p cn items tail r → cn_end cn ≠ Gone → cn_end cn ≠ Unconnected →
  filter (λ a, is_report a = true) acts = [] →
  (∃ n, 0 < n < EVENT_SIZE ∧ SayShort n ∈ acts) ∨ cn_open cn = false ∧ cn_stream cn = [] →
  channel c0 j (tr ++ option_list (Some (j, acts))) p (Conn stream (cn_open cn) Gone) items tail r.
Proof.
  intros Hch Hne Hnu Hf Hshort. pose proof (ch_stream _ _ _ _ _ _ _ _ Hch Hne) as Hst.
  pose proof (ch_items _ _ _ _ _ _ _ _ Hch) as Hit. pose proof (ch_reported _ _ _ _ _ _ _ _ Hch) as Hrep.
  pose proof (ch_new _ _ _ _ _ _ _ _ Hch) as Hnew. pose proof (ch_ended _ _ _ _ _ _ _ _ Hch) as Hend.
  pose proof (ch_behind _ _ _ _ _ _ _ _ Hch) as Hr.
  destruct Hch. split; try done; cbn [cn_stream cn_open cn_end].
  - intros Hp. by destruct (Hnew Hp) as (_ & _ & _ & ?).
  - intros Hp. destruct (Hend Hp) as [?|[? _]]; [by left|done].
  - rewrite reported_snoc. cbn [said]. by rewrite decide_True, Hf, app_nil_r by done.
  - intros _. destruct Hshort as [(n & Hrn & Hn)|[Hopen Hnil]].
    + left. exists n. split; [done|]. rewrite reports_of_snoc. cbn [said]. rewrite decide_True by done. apply elem_of_app. by right.
    + right. split; [done|]. rewrite Hnil in Hst. symmetry in Hst. apply app_eq_nil in Hst as [Hc ->]. split; [|done].
      destruct (items !! r) as [bs|] eqn:Ebs; [|apply lookup_ge_None in Ebs; lia].
      rewrite (drop_S _ _ _ Ebs) in Hc. cbn in Hc. apply app_eq_nil in Hc as [-> _].
      by destruct (Hit _ _ Ebs) as [Hl _].
Qed.

Lemma channel_accepted c0 j tr p cn items tail r acts fd :
  channel c0 j tr p cn items tail r → cn_end cn = Pending → filter (λ a, is_report a = true) acts = [] →
  channel c0 j (tr ++ option_list (Some (j, acts))) p (Conn (cn_stream cn) (cn_open cn) (At fd)) items tail r.
Proof.
  intros Hch Hp Hf. pose proof (ch_stream _ _ _ _ _ _ _ _ Hch) as Hst.
  pose proof (ch_reported _ _ _ _ _ _ _ _ Hch) as Hrep.
  pose proof (ch_new _ _ _ _ _ _ _ _ Hch) as Hnew. pose proof (ch_ended _ _ _ _ _ _ _ _ Hch) as Hend.
  destruct Hch. split; try done; cbn [cn_stream cn_open cn_end].
  - intros Hc. destruct (Hnew Hc) as (_ & _ & _ & ?). congruence.
  - intros Hc. destruct (Hend Hc) as [?|[? _]]; [by left|congruence].
  - rewrite reported_snoc. cbn [said]. by rewrite decide_True, Hf, app_nil_r by done.
  - intros _. apply Hst. by rewrite Hp.
Qed.

(** ** The handler's outcome on a connection *)
Lemma handle_recv sk l fd n bs :
  fd ≠ sk → -1 ≤ n ≤ EVENT_SIZE → length bs = Z.to_nat n → length (lp_witem l) = NetItem.sizeof_WorkItem →
  ∃ mem, length mem = NetItem.sizeof_WorkItem ∧
    handle sk l (MkEvent fd true (-1) n bs) =
      if n =? EVENT_SIZE then say ← report bs; Ok (MkLoop (lp_epoll l) mem, [Recv fd; say])
      else Ok (MkLoop (lp_epoll l ∖ {[fd]}) mem, Recv fd :: if n =? 0 then [Close fd] else [SayShort n; Close fd]).
Proof.
  intros Hne Hn Hl Hm. exists (received (lp_witem l) bs). split.
  { rewrite received_length; [done|]. rewrite Hl, Hm. unfold EVENT_SIZE, NetItem.sizeof_WorkItem in *. lia. }
  unfold handle. cbn [ev_fd ev_in ev_n ev_bytes]. rewrite (proj2 (Z.eqb_neq _ _) Hne), size_test by done.
  destruct (Z.eqb_spec n EVENT_SIZE) as [->|Hn']; cbn [negb].
  - change (EVENT_SIZE =? 0) with false. cbn match. rewrite received_whole; [done|].
    rewrite Hl, Hm. done.
  - by destruct (n =? 0).
Qed.

Lemma do_recv_cases k cn n bs stream :
  do_recv k cn = Some (n, bs, stream) →
  (cn_stream cn = [] ∧ bs = [] ∧ stream = [] ∧ n = if cn_open cn then -1 else 0) ∨
  (cn_stream cn ≠ [] ∧ 0 < n ≤ EVENT_SIZE ∧ bs = take (Z.to_nat n) (cn_stream cn) ∧ stream = drop (Z.to_nat n) (cn_stream cn) ∧
   length bs = Z.to_nat n).
Proof.
  unfold do_recv. destruct (cn_stream cn) as [|b st]; [intros [= <- <- <-]; by left|].
  destruct (Nat.ltb_spec 0 k); [|done]. destruct (Nat.leb_spec k NetItem.sizeof_WorkItem) as [Hk|]; [|done].
  destruct (Nat.leb_spec k (length (b :: st))) as [Hl|]; [|done]. intros [= <- <- <-]. right. rewrite Nat2Z.id.
  split_and!; [done|lia| |done|done|].
  - unfold EVENT_SIZE. unfold NetItem.sizeof_WorkItem in Hk. lia.
  - change (length (take k (b :: st)) = k). rewrite length_take. lia.
Qed.

(** ** The invariant *)

(** [recv] has something to return: bytes, or the end of the stream. *)
Definition live (cn : conn) : Prop := cn_stream cn ≠ [] ∨ cn_open cn = false.

Lemma live_grows cn bs : live cn → live (Conn (cn_stream cn ++ bs) (cn_open cn) (cn_end cn)).
Proof. intros [Hne|]; [left; cbn|by right]. by destruct (cn_stream cn). Qed.

Record net_inv (sk : Z) (cs : list Client) (tr : list label) (s : net_system) : Prop := {
  nv_ends : ends_ok sk (cn_end <$> ns_conns s) (ns_backlog s) (ns_loop s) (ns_batch s);
  nv_size : length (ns_clients s) = length cs ∧ length (ns_conns s) = length cs;
  nv_channels : ∀ j c0 p cn, cs !! j = Some c0 → ns_clients s !! j = Some p → ns_conns s !! j = Some cn →
    ∃ items tail r, channel c0 j tr p cn items tail r;
  nv_accepts : sk ∈ ns_batch s → ns_backlog s ≠ [];
  nv_live j cn fd : ns_conns s !! j = Some cn → cn_end cn = At fd → fd ∈ ns_batch s → live cn
}.

Lemma same_end (conns : list conn) i cn cn' :
  conns !! i = Some cn → cn_end cn' = cn_end cn → cn_end <$> <[i := cn']> conns = cn_end <$> conns.
Proof.
  intros Hi E. rewrite list_fmap_insert, E. apply list_insert_id. by rewrite list_lookup_fmap, Hi.
Qed.

Lemma inv_client sk cs tr s i p cn p' cn' backlog :
  net_inv sk cs tr s → ns_clients s !! i = Some p → ns_conns s !! i = Some cn →
  ends_ok sk (cn_end <$> <[i := cn']> (ns_conns s)) backlog (ns_loop s) (ns_batch s) →
  (∀ c0 items tail r, channel c0 i tr p cn items tail r → ∃ items' tail' r', channel c0 i tr p' cn' items' tail' r') →
  (ns_backlog s ≠ [] → backlog ≠ []) → (∀ fd, cn_end cn' = At fd → cn_end cn = At fd ∧ (live cn → live cn')) →
  net_inv sk cs tr (NetSys (ns_clock s) (<[i := p']> (ns_clients s)) (<[i := cn']> (ns_conns s)) backlog (ns_loop s) (ns_batch s)).
Proof.
  intros [He [H1 H2] Hch Ha Hlv] Hp Hc Hends Hstep Hback Hlive.
  split; cbn [ns_conns ns_clients ns_backlog ns_loop ns_batch]; [done|by rewrite !length_insert| |by intros ?; apply Hback, Ha|].
  2: { intros j dn fd Hd Ed Hin. destruct (decide (j = i)) as [->|Hne].
    - rewrite list_lookup_insert_eq in Hd by exact (lookup_lt_Some _ _ _ Hc). injection Hd as <-.
      destruct (Hlive fd Ed) as [E Hl]. by eapply Hl, Hlv.
    - rewrite list_lookup_insert_ne in Hd by done. by eapply Hlv. }
  intros j c0 q dn Hj Hq Hd. destruct (decide (j = i)) as [->|Hne].
  - rewrite list_lookup_insert_eq in Hq by exact (lookup_lt_Some _ _ _ Hp). injection Hq as <-.
    rewrite list_lookup_insert_eq in Hd by exact (lookup_lt_Some _ _ _ Hc). injection Hd as <-.
    destruct (Hch i c0 p cn Hj Hp Hc) as (items & tail & r & Hcn). by eapply Hstep.
  - rewrite list_lookup_insert_ne in Hq by done. rewrite list_lookup_insert_ne in Hd by done. by eapply Hch.
Qed.

Lemma inv_client_quiet sk cs tr s i p cn p' cn' :
  net_inv sk cs tr s → ns_clients s !! i = Some p → ns_conns s !! i = Some cn → cn_end cn' = cn_end cn → (live cn → live cn') →
  (∀ c0 items tail r, channel c0 i tr p cn items tail r → ∃ items' tail' r', channel c0 i tr p' cn' items' tail' r') →
  net_inv sk cs tr (set_client i p' cn' s).
Proof.
  intros Hinv Hp Hc E Hlive Hstep. eapply inv_client; [done..| |done|done|by rewrite E].
  rewrite (same_end _ _ _ _ Hc E). apply Hinv.
Qed.

Lemma client_act_inv sk cs tr a i s s' :
  net_inv sk cs tr s → client_act a i s = Ok (Some s') → net_inv sk cs tr s'.
Proof.
  intros Hinv E. unfold client_act in E. destruct (ns_clients s !! i) as [[c pc]|] eqn:Hp; [|done].
  destruct (ns_conns s !! i) as [cn|] eqn:Hc; [|done]. destruct pc as [| |target|target [|n]|].
  - destruct (Connect a c).1; injection E as <-.
    + eapply inv_client; [done..| | |by destruct (ns_backlog s)|done].
      * rewrite list_fmap_insert. apply ends_connect; [apply Hinv|]. rewrite list_lookup_fmap, Hc. cbn. f_equal.
        destruct (nv_size _ _ _ _ Hinv) as [L1 L2]. assert (Hlt := lookup_lt_Some _ _ _ Hp). rewrite L1 in Hlt.
        apply lookup_lt_is_Some in Hlt as [c0 Hc0].
        destruct (nv_channels _ _ _ _ Hinv i c0 _ _ Hc0 Hp Hc) as (items & tail & r & Hch).
        by destruct (ch_new _ _ _ _ _ _ _ _ Hch eq_refl) as (_ & _ & _ & ?).
      * intros c0 items tail r Hch. destruct (ch_new _ _ _ _ _ _ _ _ Hch eq_refl) as (-> & -> & -> & _).
        exists [], [], 0%nat. destruct Hch. split; try done. split; [apply ch_tail0|done].
    + apply (inv_client_quiet sk cs tr s i (ClientProc c Connecting) cn); try done.
      intros c0 items tail r Hch. destruct (ch_new _ _ _ _ _ _ _ _ Hch eq_refl) as (-> & -> & -> & Eu).
      exists [], [], 0%nat. destruct Hch. split; try done; [by split; [right|]|]. intros _. by right.
  - injection E as <-. apply (inv_client_quiet sk cs tr s i (ClientProc c Starting) cn); try done.
    intros c0 items tail r Hch. exists items, tail, r. by eapply channel_moves.
  - destruct (target <? ns_clock s); injection E as <-.
    + apply (inv_client_quiet sk cs tr s i (ClientProc c (CheckTime target)) cn); try done.
      { by right. }
      intros c0 items tail r Hch. rewrite <-(app_nil_r (cn_stream cn)). exists items, [], r.
      apply (channel_ends c0 i tr c (CheckTime target) cn items tail r []); try done. unfold NetItem.sizeof_WorkItem. cbn. lia.
    + apply (inv_client_quiet sk cs tr s i (ClientProc c (CheckTime target)) cn); try done.
      intros c0 items tail r Hch. exists items, tail, r. by eapply channel_moves.
  - injection E as <-. apply (inv_client_quiet sk cs tr s i (ClientProc c (Sending target 0)) cn); try done.
    intros c0 items tail r Hch. exists items, tail, r. by eapply channel_moves.
  - apply bind_Ok in E as ([c' bs] & Es & [= <-]).
    apply (inv_client_quiet sk cs tr s i (ClientProc c (Sending target (S n))) cn); try done; [by apply live_grows|].
    intros c0 items tail r Hch. exists (items ++ [bs]), tail, r. by eapply channel_writes.
  - done.
Qed.

Lemma client_dies_inv sk cs tr i k s s' :
  net_inv sk cs tr s → client_dies i k s = Some s' → net_inv sk cs tr s'.
Proof.
  intros Hinv E. unfold client_dies in E. destruct (ns_clients s !! i) as [[c pc]|] eqn:Hp; [|done].
  destruct (ns_conns s !! i) as [cn|] eqn:Hc; [|done].
  assert (Hclose : ∀ bs, pc ≠ Connecting → pc ≠ Ended → (length bs < NetItem.sizeof_WorkItem)%nat →
    net_inv sk cs tr (set_client i (ClientProc c Ended) (Conn (cn_stream cn ++ bs) false (cn_end cn)) s)).
  { intros bs H1 H2 Hbs. apply (inv_client_quiet sk cs tr s i (ClientProc c pc) cn); try done; [by right|].
    intros c0 items tail r Hch. exists items, bs, r. by apply (channel_ends c0 i tr c pc cn items tail r bs). }
  assert (Hnil : (length (@nil Z) < NetItem.sizeof_WorkItem)%nat) by (unfold NetItem.sizeof_WorkItem; cbn; lia).
  destruct pc as [| |target|target [|n]|]; [|injection E as <-; by apply Hclose..| |done].
  - injection E as <-. apply (inv_client_quiet sk cs tr s i (ClientProc c Connecting) cn); try done.
    intros c0 items tail r Hch. destruct (ch_new _ _ _ _ _ _ _ _ Hch eq_refl) as (-> & -> & -> & Eu).
    exists [], [], 0%nat. destruct Hch. split; try done; [by split; [right|]|]. intros _. by right.
  - destruct (send_item c) as [[c' bs]|] eqn:Es; [|injection E as <-; by apply Hclose].
    destruct (Nat.ltb_spec k (length bs)) as [Hk|]; [|done]. injection E as <-. apply Hclose; [done..|].
    rewrite length_take. destruct (nv_size _ _ _ _ Hinv) as [L1 L2]. assert (Hlt := lookup_lt_Some _ _ _ Hp). rewrite L1 in Hlt.
    apply lookup_lt_is_Some in Hlt as [c0 Hc0].
    destruct (nv_channels _ _ _ _ Hinv i c0 _ _ Hc0 Hp Hc) as (items & tail & r & Hch).
    destruct (send_item_sends c c' bs (ch_wf _ _ _ _ _ _ _ _ Hch) Es) as (_ & [Hl _] & _). lia.
Qed.

(** ** The server's steps *)
Lemma inv_server sk cs tr s fd rest j cn cn' acts backlog l :
  net_inv sk cs tr s → ns_batch s = fd :: rest → ns_conns s !! j = Some cn →
  ends_ok sk (cn_end <$> <[j := cn']> (ns_conns s)) backlog l rest →
  (∀ c0 p items tail r, channel c0 j tr p cn items tail r →
     ∃ r', channel c0 j (tr ++ option_list (Some (j, acts))) p cn' items tail r') →
  (fd = sk ∨ ns_backlog s = backlog) → (∀ fd', cn_end cn' = At fd' → fd' ∉ rest) →
  net_inv sk cs (tr ++ option_list (Some (j, acts)))
    (NetSys (ns_clock s) (ns_clients s) (<[j := cn']> (ns_conns s)) backlog l rest).
Proof.
  intros [He [H1 H2] Hch Ha Hlv] Eb Hc Hends Hstep Hback Hlive.
  pose proof (eo_batch_nodup _ _ _ _ _ He) as Hnd. rewrite Eb in Hnd, Ha, Hlv. apply NoDup_cons in Hnd as [Hnin _].
  split; cbn [ns_conns ns_clients ns_backlog ns_loop ns_batch]; [done|by rewrite !length_insert| | |].
  - intros k c0 p dn Hk Hp Hd. destruct (decide (k = j)) as [->|Hne].
    + rewrite list_lookup_insert_eq in Hd by exact (lookup_lt_Some _ _ _ Hc). injection Hd as <-.
      destruct (Hch j c0 p cn Hk Hp Hc) as (items & tail & r & Hcn). exists items, tail. by eapply Hstep.
    + rewrite list_lookup_insert_ne in Hd by done. destruct (Hch k c0 p dn Hk Hp Hd) as (items & tail & r & Hcn).
      exists items, tail, r. apply channel_other; [|done]. cbn. by rewrite decide_False.
  - intros Hin. destruct Hback as [->|<-]; [done|]. apply Ha. by right.
  - intros k dn fd' Hd Ed Hin. destruct (decide (k = j)) as [->|Hne].
    + rewrite list_lookup_insert_eq in Hd by exact (lookup_lt_Some _ _ _ Hc). injection Hd as <-. by destruct (Hlive fd' Ed).
    + rewrite list_lookup_insert_ne in Hd by done. eapply Hlv; [done..|]. by right.
Qed.

(** [accept] failed. *)
Lemma handle_accept_fails sk l :
  handle sk l (MkEvent sk true (-1) 0 []) =
    Ok (MkLoop (lp_epoll l) (lp_witem l), [Accept (-1); Nonblock (-1); Watch (-1); SayConnected]).
Proof. unfold handle. cbn [ev_fd ev_accept]. by rewrite Z.eqb_refl. Qed.

Lemma handle_accepts sk l fd :
  0 ≤ fd → handle sk l (MkEvent sk true fd 0 []) =
    Ok (MkLoop ({[fd]} ∪ lp_epoll l) (lp_witem l), [Accept fd; Nonblock fd; Watch fd; SayConnected]).
Proof. intros H. unfold handle. cbn [ev_fd ev_accept]. rewrite Z.eqb_refl. destruct (Z.ltb_spec fd 0); [lia|done]. Qed.

Lemma inv_skips sk cs tr s fd rest mem :
  net_inv sk cs tr s → ns_batch s = fd :: rest → length mem = NetItem.sizeof_WorkItem →
  net_inv sk cs tr (NetSys (ns_clock s) (ns_clients s) (ns_conns s) (ns_backlog s) (MkLoop (lp_epoll (ns_loop s)) mem) rest).
Proof.
  intros [He Hs Hch Ha Hlv] Eb Hm. rewrite Eb in He, Ha, Hlv.
  split; cbn [ns_conns ns_clients ns_backlog ns_loop ns_batch]; try done.
  - by eapply ends_keep.
  - intros Hin. apply Ha. by right.
  - intros j cn fd' Hc Ec Hin. eapply Hlv; [done..|]. by right.
Qed.

(** The connection of a watched descriptor. *)
Lemma conn_at_watched sk cs tr s fd :
  net_inv sk cs tr s → fd ∈ lp_epoll (ns_loop s) → fd ≠ sk →
  ∃ j cn, conn_at fd s = Some (j, cn) ∧ ns_conns s !! j = Some cn ∧ cn_end cn = At fd.
Proof.
  intros Hinv Hw Hne. apply (eo_watched _ _ _ _ _ (nv_ends _ _ _ _ Hinv)) in Hw as [?|[j Hj]]; [done|].
  rewrite list_lookup_fmap in Hj. destruct (ns_conns s !! j) as [cn|] eqn:Ej; [|done]. injection Hj as Ecn.
  exists j, cn. split; [|done]. apply list_find_Some. split_and!; [done..|]. intros k dn Hk Hlt Edn.
  assert (k = j); [|lia]. apply (eo_inj _ _ _ _ _ (nv_ends _ _ _ _ Hinv) k j fd); rewrite list_lookup_fmap.
  - rewrite Hk. cbn. by rewrite Edn.
  - rewrite Ej. cbn. by rewrite Ecn.
Qed.

(** A client for every connection. *)
Lemma conn_client sk cs tr s j cn :
  net_inv sk cs tr s → ns_conns s !! j = Some cn → ∃ c0 p items tail r, channel c0 j tr p cn items tail r.
Proof.
  intros [_ [H1 H2] Hch _ _] Hc. assert (Hlt := lookup_lt_Some _ _ _ Hc). rewrite H2 in Hlt. assert (Hlt' := Hlt). rewrite <-H1 in Hlt'.
  apply lookup_lt_is_Some in Hlt as [c0 Hc0]. apply lookup_lt_is_Some in Hlt' as [p Hp].
  destruct (Hch j c0 p cn Hc0 Hp Hc) as (items & tail & r & ?). by exists c0, p, items, tail, r.
Qed.

(** What the handler of a connection's event does: it reports the next item,
    or closes; the latter only at the end of the stream or when it got a part
    of an item. *)
Lemma handle_conn sk cs tr s fd rest j cn k n bs stream :
  net_inv sk cs tr s → ns_batch s = fd :: rest → fd ≠ sk →
  ns_conns s !! j = Some cn → cn_end cn = At fd → do_recv k cn = Some (n, bs, stream) →
  ∃ mem, length mem = NetItem.sizeof_WorkItem ∧
  ((∃ say, n = EVENT_SIZE ∧ handle sk (ns_loop s) (MkEvent fd true (-1) n bs) = Ok (MkLoop (lp_epoll (ns_loop s)) mem, [Recv fd; say]) ∧
      ∀ c0 p items tail r, channel c0 j tr p cn items tail r →
        channel c0 j (tr ++ option_list (Some (j, [Recv fd; say]))) p (Conn stream (cn_open cn) (At fd)) items tail (S r)) ∨
   (∃ acts, n ≠ EVENT_SIZE ∧ handle sk (ns_loop s) (MkEvent fd true (-1) n bs) = Ok (MkLoop (lp_epoll (ns_loop s) ∖ {[fd]}) mem, acts) ∧
      ∀ c0 p items tail r, channel c0 j tr p cn items tail r →
        channel c0 j (tr ++ option_list (Some (j, acts))) p (Conn stream (cn_open cn) Gone) items tail r)).
Proof.
  intros Hinv Eb Hne Hc Ecn Hr.
  assert (Hg : cn_end cn ≠ Gone) by congruence. assert (Hu : cn_end cn ≠ Unconnected) by congruence.
  assert (Hw := li_witem _ _ (eo_loop _ _ _ _ _ (nv_ends _ _ _ _ Hinv))).
  assert (Hlive : live cn) by (eapply (nv_live _ _ _ _ Hinv); [done..|rewrite Eb; by left]).
  destruct (do_recv_cases _ _ _ _ _ Hr) as [(Enil & -> & -> & En)|(Hnil & Hn & -> & -> & Hl)].
  - destruct Hlive as [?|Ho]; [done|]. rewrite Ho in En. subst n.
    destruct (handle_recv sk (ns_loop s) fd 0 []) as (mem & Hm & Eh); [done|unfold EVENT_SIZE; lia|done|done|].
    exists mem. split; [done|]. right. eexists. split; [done|]. split; [exact Eh|]. intros. apply channel_closed; try done. by right.
  - destruct (handle_recv sk (ns_loop s) fd n (take (Z.to_nat n) (cn_stream cn))) as (mem & Hm & Eh); [done|lia|done|done|].
    exists mem. split; [done|]. destruct (Z.eqb_spec n EVENT_SIZE) as [->|Hsz].
    + left. change (Z.to_nat EVENT_SIZE) with NetItem.sizeof_WorkItem in *.
      assert (Hlen : (NetItem.sizeof_WorkItem ≤ length (cn_stream cn))%nat) by (rewrite length_take in Hl; lia).
      destruct (conn_client _ _ _ _ _ _ Hinv Hc) as (c1 & p1 & items1 & tail1 & r1 & Hch1).
      destruct (channel_whole _ _ _ _ _ _ _ _ Hch1 Hg Hlen) as (bs & _ & Ebs & Erep & _). rewrite <-Ebs in Erep.
      rewrite Erep in Eh. eexists. split; [done|]. split; [exact Eh|]. intros c0 p items tail r Hch.
      destruct (channel_whole _ _ _ _ _ _ _ _ Hch Hg Hlen) as (bs' & _ & Ebs' & Erep' & Hnext).
      subst bs'. rewrite Erep in Erep'. rewrite <-Ecn. revert Erep' Hnext.
      generalize (SayValid (item_name (NetClient.m_id c0) (Z.of_nat r))). intros say [= <-] Hnext. apply Hnext.
    + right. eexists. split; [done|]. split; [exact Eh|]. intros. apply channel_closed; try done.
      * destruct (Z.eqb_spec n 0); [lia|done].
      * left. exists n. split; [lia|]. destruct (Z.eqb_spec n 0); [lia|]. by right; left.
Qed.

Lemma server_wait_inv sk cs tr s fds s' :
  net_inv sk cs tr s → server_wait sk fds s = Some s' → net_inv sk cs tr s'.
Proof.
  intros Hinv E. unfold server_wait in E. destruct (ns_batch s) eqn:Eb; [|done]. case_bool_decide as Hd; [|done].
  destruct Hd as (Hne & Hnd & Hlen & Hall). injection E as <-. rewrite Forall_forall in Hall.
  pose proof (nv_ends _ _ _ _ Hinv) as He. pose proof Hinv as [_ Hs Hch _ _].
  split; cbn [ns_conns ns_clients ns_backlog ns_loop ns_batch]; try done.
  - destruct He. split; try done. apply Forall_forall. intros fd Hfd. by apply Hall.
  - intros Hin. destruct (Hall sk Hin) as [_ Hr]. unfold ready in Hr. rewrite Z.eqb_refl in Hr. by case_bool_decide.
  - intros j cn fd Hc Ecn Hin. destruct (Hall fd Hin) as [Hw Hr].
    assert (Hsk : fd ≠ sk).
    { intros ->. apply (eo_not_sk _ _ _ _ _ He j). by rewrite list_lookup_fmap, Hc, <-Ecn. }
    destruct (conn_at_watched sk cs tr s fd Hinv Hw Hsk) as (k & dn & Ek & Hk & Edn).
    assert (k = j) as ->.
    { apply (eo_inj _ _ _ _ _ He k j fd); rewrite list_lookup_fmap, ?Hk, ?Hc; cbn; congruence. }
    unfold ready in Hr. rewrite (proj2 (Z.eqb_neq _ _) Hsk), Ek in Hr. rewrite Hc in Hk. injection Hk as <-.
    apply orb_true_iff in Hr as [Hr|Hr]; [left; by case_bool_decide|right; by apply negb_true_iff].
Qed.

(** The server's handler of a connection in the batch. *)
Lemma server_conn_step sk cs tr s fd rest ans :
  net_inv sk cs tr s → ns_batch s = fd :: rest → fd ≠ sk →
  ∃ j cn, ns_conns s !! j = Some cn ∧ cn_end cn = At fd ∧
  match do_recv (ka_received ans) cn with
  | None => server_handle sk ans s = Ok None
  | Some (n, bs, stream) => ∃ acts cn' l',
      let s' := NetSys (ns_clock s) (ns_clients s) (<[j := cn']> (ns_conns s)) (ns_backlog s) l' rest in
      server_handle sk ans s = Ok (Some (Some (j, acts), s')) ∧ net_inv sk cs (tr ++ option_list (Some (j, acts))) s' ∧
      cn_stream cn' = stream ∧
      (n = EVENT_SIZE ∧ cn_end cn' = At fd ∨
       n ≠ EVENT_SIZE ∧ cn_end cn' = Gone ∧ ∀ c0 p items tail r, channel c0 j tr p cn items tail r →
         channel c0 j (tr ++ option_list (Some (j, acts))) p cn' items tail r)
  end.
Proof.
  intros Hinv Eb Hne. pose proof (nv_ends _ _ _ _ Hinv) as He. rewrite Eb in He.
  assert (Hw : fd ∈ lp_epoll (ns_loop s)) by (pose proof (eo_batch _ _ _ _ _ He) as [? _]%Forall_cons; done).
  destruct (conn_at_watched sk cs tr s fd Hinv Hw Hne) as (j & cn & Ej & Hc & Ecn).
  exists j, cn. split; [done|]. split; [done|].
  unfold server_handle. rewrite Eb, (proj2 (Z.eqb_neq _ _) Hne), Ej.
  destruct (do_recv (ka_received ans) cn) as [[[n bs] stream]|] eqn:Er; [|done].
  assert (Hat : (cn_end <$> ns_conns s) !! j = Some (At fd)) by (rewrite list_lookup_fmap, Hc; cbn; by rewrite Ecn).
  assert (Hfd : fd ∉ rest) by (by apply (eo_batch_nodup _ _ _ _ _) in He as [? _]%NoDup_cons).
  destruct (handle_conn sk cs tr s fd rest j cn (ka_received ans) n bs stream Hinv Eb Hne Hc Ecn Er)
    as (mem & Hm & [(say & En & -> & Hch)|(acts & En & -> & Hch)]); simpl_bind; cbn [lp_epoll].
  - rewrite bool_decide_eq_true_2 by done. eexists _, _, _. split; [done|].
    split; [|split; [done|by left]]. apply (inv_server sk cs tr s fd rest j cn); try done.
    + rewrite list_fmap_insert, list_insert_id by (by rewrite list_lookup_fmap, Hc; cbn; rewrite Ecn). by eapply ends_keep.
    + intros c0 p items tail r H. exists (S r). by apply Hch.
    + by right.
    + by intros fd' [= <-].
  - rewrite bool_decide_eq_false_2 by (intros [_ Hn]%elem_of_difference; by apply Hn, elem_of_singleton).
    eexists _, _, _. split; [done|]. split; [|split; [done|by right]]. apply (inv_server sk cs tr s fd rest j cn); try done.
    + rewrite list_fmap_insert. by eapply ends_close.
    + intros c0 p items tail r H. exists r. by apply Hch.
    + by right.
Qed.

(** ... and of a connection request. *)
Lemma server_accepts sk cs tr s rest ans :
  net_inv sk cs tr s → ns_batch s = sk :: rest →
  if ka_accept ans <? 0
  then ∃ s', server_handle sk ans s = Ok (Some (None, s')) ∧ net_inv sk cs tr s'
  else if bool_decide (ka_accept ans ∈ lp_epoll (ns_loop s)) then server_handle sk ans s = Ok None
  else ∃ j cn acts backlog l',
    let s' := NetSys (ns_clock s) (ns_clients s) (<[j := Conn (cn_stream cn) (cn_open cn) (At (ka_accept ans))]> (ns_conns s)) backlog l' rest in
    ns_conns s !! j = Some cn ∧ cn_end cn = Pending ∧ server_handle sk ans s = Ok (Some (Some (j, acts), s')) ∧
    net_inv sk cs (tr ++ option_list (Some (j, acts))) s'.
Proof.
  intros Hinv Eb. pose proof (nv_ends _ _ _ _ Hinv) as He. rewrite Eb in He.
  pose proof (li_witem _ _ (eo_loop _ _ _ _ _ He)) as Hm.
  unfold server_handle. rewrite Eb, Z.eqb_refl. destruct (ns_backlog s) as [|j backlog] eqn:Ebl.
  { exfalso. apply (nv_accepts _ _ _ _ Hinv); [|done]. rewrite Eb. by left. }
  destruct (Z.ltb_spec (ka_accept ans) 0).
  { rewrite handle_accept_fails. simpl_bind. eexists. split; [done|]. rewrite <-Ebl. by apply (inv_skips sk cs tr s sk). }
  case_bool_decide as Hnew; [done|]. rewrite handle_accepts by done. simpl_bind.
  assert (Hp : j ∈ j :: backlog) by by left. apply (eo_pending _ _ _ _ _ He) in Hp. rewrite list_lookup_fmap in Hp.
  destruct (ns_conns s !! j) as [cn|] eqn:Hc; [|done]. injection Hp as Ep.
  exists j, cn. eexists _, _, _. split; [done|]. split; [done|]. split; [done|].
  apply (inv_server sk cs tr s sk rest j cn); try done.
  - rewrite list_fmap_insert. by apply (ends_accept sk _ _ (ns_loop s)).
  - intros c0 p items tail r H'. exists r. by apply channel_accepted.
  - by left.
  - intros fd' [= <-] Hin. apply Hnew. pose proof (eo_batch _ _ _ _ _ He) as [_ Hb]%Forall_cons.
    rewrite Forall_forall in Hb. by apply Hb.
Qed.

Lemma server_handle_inv sk cs tr s ans :
  net_inv sk cs tr s →
  server_handle sk ans s = Ok None ∨
  ∃ acts s', server_handle sk ans s = Ok (Some (acts, s')) ∧ net_inv sk cs (tr ++ option_list acts) s'.
Proof.
  intros Hinv. destruct (ns_batch s) as [|fd rest] eqn:Eb; [left; unfold server_handle; by rewrite Eb|].
  destruct (decide (fd = sk)) as [->|Hne].
  - pose proof (server_accepts sk cs tr s rest ans Hinv Eb) as H. destruct (ka_accept ans <? 0).
    + destruct H as (s' & E & Hs'). right. exists None, s'. cbn [option_list]. by rewrite app_nil_r.
    + case_bool_decide; [by left|]. destruct H as (j & cn & acts & backlog & l' & _ & _ & E & Hs'). right. by eexists _, _.
  - destruct (server_conn_step sk cs tr s fd rest ans Hinv Eb Hne) as (j & cn & _ & _ & H).
    destruct (do_recv _ cn) as [[[n bs] stream]|]; [|by left].
    destruct H as (acts & cn' & l' & E & Hs' & _). right. by eexists _, _.
Qed.

(** ** Every state of a run *)
Lemma net_step_inv sk cs tr s o s' :
  net_step sk s o s' → net_inv sk cs tr s → net_inv sk cs (tr ++ option_list o) s'.
Proof.
  intros Hst Hinv. destruct Hst as [a i s s' E|i k s s' E|fds s s' E|ans s o s' E|now s Hnow]; cbn [option_list]; rewrite ?app_nil_r.
  - by eapply client_act_inv.
  - by eapply client_dies_inv.
  - by eapply server_wait_inv.
  - destruct (server_handle_inv sk cs tr s ans Hinv) as [E'|(o' & s1 & E' & ?)]; [by rewrite E in E'|].
    rewrite E in E'. by injection E' as -> ->.
  - destruct Hinv. by split.
Qed.

Lemma net_start_inv sk cs now l :
  loop_inv sk l → lp_epoll l = {[sk]} → Forall (λ c, client_wf c ∧ m_cooked_count c = 0) cs →
  net_inv sk cs [] (net_start now l cs).
Proof.
  intros Hl He Hcs. unfold net_start.
  assert (Hends : ∀ j e, (cn_end <$> replicate (length cs) (Conn [] true Unconnected)) !! j = Some e → e = Unconnected).
  { intros j e. rewrite fmap_replicate. by intros [-> _]%lookup_replicate. }
  split; cbn [ns_conns ns_clients ns_backlog ns_loop ns_batch]; try done.
  - split; try done; try constructor.
    + rewrite He. intros ->%elem_of_singleton. by left.
    + rewrite He. intros [->|[j Hj]]; [by apply elem_of_singleton|]. by apply Hends in Hj.
    + intros j Hj. by apply Hends in Hj.
    + intros j j' fd Hj. by apply Hends in Hj.
    + by intros Hj%not_elem_of_nil.
    + by intros Hj%Hends.
  - rewrite length_fmap, length_replicate. done.
  - intros j c0 p cn Hc0 Hp Hc. apply lookup_replicate in Hc as [-> _]. rewrite list_lookup_fmap, Hc0 in Hp.
    injection Hp as <-. rewrite Forall_forall in Hcs. destruct (Hcs c0) as [Hw Hn]; [by eapply list_elem_of_lookup_2|].
    exists [], [], 0%nat. split; cbn; try done; try lia; auto. split; [unfold NetItem.sizeof_WorkItem; lia|done].
  - by intros ?%not_elem_of_nil.
  - by intros ? ? ? ? ? ?%not_elem_of_nil.
Qed.

Lemma net_run_inv sk cs now l tr s :
  loop_inv sk l → lp_epoll l = {[sk]} → Forall (λ c, client_wf c ∧ m_cooked_count c = 0) cs →
  exec (net_step sk) (net_start now l cs) tr s → net_inv sk cs tr s.
Proof.
  intros Hl He Hcs. apply (exec_trace_invariant (net_step sk) (net_inv sk cs)); [|by apply net_start_inv].
  intros. by eapply net_step_inv.
Qed.
