(* ===== verification/NetSysProps.v ===== *)
(** * Clients and server together: what comes of it

    From the invariant: the reports the server prints of a connection are the
    items its client wrote, in order; and the server can always catch up. *)
From stdpp Require Import gmap fin_sets.
From S2P Require Import Prelude Digits Items NetItem NetClient NetServer NetProps NetSystem NetSysInv.

(** ** Specification *)

(** [n] valid items of client [c], from its first on. *)
Definition names (c : Client) (n : nat) : list action :=
  (λ k, SayValid (item_name (NetClient.m_id c) (Z.of_nat k))) <$> seq 0 n.

(** The server has nothing to do. *)
Definition quiet (sk : Z) (s : net_system) : Prop :=
  ns_batch s = [] ∧ ∀ fd, fd ∈ lp_epoll (ns_loop s) → ready sk fd s = false.

(** Every item [p] wrote on connection [j] has been reported. *)
Definition said_all (c : Client) (j : nat) (tr : list label) (p : client_proc) : Prop :=
  reported j tr = names c (Z.to_nat (m_cooked_count (cp_client p))).

(** The server's part of a step, the clients not moving. *)
Inductive server_step (sk : Z) : net_system → option label → net_system → Prop :=
  | server_waits fds s s' : server_wait sk fds s = Some s' → server_step sk s None s'
  | server_handles ans s o s' : server_handle sk ans s = Ok (Some (o, s')) → server_step sk s o s'.

Lemma server_step_net sk s o s' : server_step sk s o s' → net_step sk s o s'.
Proof. intros [fds s1 s2 E|ans s1 o1 s2 E]; [by eapply step_wait|by eapply step_handle]. Qed.

(** ** How much there is to do *)
Definition conn_weight (cn : conn) : nat :=
  (length (cn_stream cn) + match cn_end cn with Pending => 2 | At _ => 1 | _ => 0 end)%nat.
Definition to_do (s : net_system) : nat := sum_list_with conn_weight (ns_conns s).

Lemma fresh_fd (X : gset Z) : ∃ fd, 0 ≤ fd ∧ fd ∉ X.
Proof.
  assert (H : ∃ m, 0 ≤ m ∧ ∀ x, x ∈ X → x < m).
  { induction X as [|x X _ [m [Hm H]]] using set_ind_L; [by exists 0|].
    exists (Z.max m (x + 1)). split; [lia|]. intros y [->%elem_of_singleton|Hy]%elem_of_union; [lia|]. specialize (H y Hy). lia. }
  destruct H as (m & Hm & H). exists m. split; [done|]. intros Hin. specialize (H m Hin). lia.
Qed.

(** ** Catching up *)

(** A connection the server has closed was reported to the end, unless a
    receive got part of an item before [tr0] ended. *)
Definition kept_up (cs : list Client) (tr0 tr : list label) (s : net_system) : Prop :=
  ∀ j c0 p cn, cs !! j = Some c0 → ns_clients s !! j = Some p → ns_conns s !! j = Some cn → cn_end cn = Gone →
    cut_short j tr0 ∨ said_all c0 j tr p.

Lemma kept_up_insert cs tr0 tr s j cn cn' acts backlog l batch :
  kept_up cs tr0 tr s → ns_conns s !! j = Some cn →
  (∀ c0 p, cs !! j = Some c0 → ns_clients s !! j = Some p → cn_end cn' = Gone →
     said_all c0 j (tr ++ option_list (Some (j, acts))) p) →
  kept_up cs tr0 (tr ++ option_list (Some (j, acts)))
    (NetSys (ns_clock s) (ns_clients s) (<[j := cn']> (ns_conns s)) backlog l batch).
Proof.
  intros Hk Hc Hn k c0 p dn Hc0 Hp Hd Eg. cbn [ns_clients ns_conns] in *. destruct (decide (k = j)) as [->|Hne].
  - rewrite list_lookup_insert_eq in Hd by exact (lookup_lt_Some _ _ _ Hc). injection Hd as <-. right. by apply Hn.
  - rewrite list_lookup_insert_ne in Hd by done. destruct (Hk k c0 p dn Hc0 Hp Hd Eg) as [?|Hs]; [by left|right].
    unfold said_all in *. rewrite reported_snoc. cbn [said]. rewrite decide_False by done. by rewrite app_nil_r.
Qed.

(** A channel with less than an item under way has nothing left to report. *)
Lemma channel_all c0 j tr p cn items tail r :
  channel c0 j tr p cn items tail r → cn_end cn ≠ Gone → (length (cn_stream cn) < NetItem.sizeof_WorkItem)%nat →
  r = length items ∧ cn_stream cn = tail.
Proof.
  intros Hch Hg Hlen. pose proof (ch_stream _ _ _ _ _ _ _ _ Hch Hg) as Hst. pose proof (ch_behind _ _ _ _ _ _ _ _ Hch).
  destruct (items !! r) as [bs|] eqn:Ebs.
  - destruct (ch_items _ _ _ _ _ _ _ _ Hch r bs Ebs) as [Hl _]. rewrite Hst, (drop_S _ _ _ Ebs) in Hlen.
    cbn in Hlen. rewrite !length_app in Hlen. lia.
  - apply lookup_ge_None in Ebs. assert (r = length items) as -> by lia. split; [done|]. by rewrite Hst, drop_all.
Qed.

Lemma channel_said_all c0 j tr p cn items tail :
  channel c0 j tr p cn items tail (length items) → said_all c0 j tr p.
Proof.
  intros Hch. unfold said_all. rewrite (ch_reported _ _ _ _ _ _ _ _ Hch).
  destruct (ch_count _ _ _ _ _ _ _ _ Hch) as [-> _]. by rewrite Nat2Z.id.
Qed.

(** [recv] gets all it can. *)
Definition most (cn : conn) : nat := Nat.min NetItem.sizeof_WorkItem (length (cn_stream cn)).

Lemma do_recv_most cn :
  ∃ n bs stream, do_recv (most cn) cn = Some (n, bs, stream) ∧ (length stream ≤ length (cn_stream cn))%nat ∧
    (n = EVENT_SIZE → (length stream < length (cn_stream cn))%nat) ∧
    (n ≠ EVENT_SIZE → (length (cn_stream cn) < NetItem.sizeof_WorkItem)%nat).
Proof.
  assert (Hs : (0 < NetItem.sizeof_WorkItem)%nat) by (unfold NetItem.sizeof_WorkItem; lia).
  unfold do_recv, most. destruct (cn_stream cn) as [|b st] eqn:Est.
  - eexists _, _, _. split; [done|]. split_and!; [done| |done]. destruct (cn_open cn); unfold EVENT_SIZE; lia.
  - set (k := Nat.min NetItem.sizeof_WorkItem (length (b :: st))).
    assert (Hk : (0 < k ≤ length (b :: st) ∧ k ≤ NetItem.sizeof_WorkItem)%nat) by (subst k; cbn [length] in *; lia).
    rewrite (proj2 (Nat.ltb_lt _ _)), !(proj2 (Nat.leb_le _ _)) by lia. cbn [andb].
    eexists _, _, _. split; [done|]. rewrite length_drop. split_and!; [lia|lia|].
    intros Hn. apply Nat.nle_gt. intros Hle. apply Hn. subst k. rewrite Nat.min_l by done. done.
Qed.

Section CatchUp.
Context (sk : Z) (cs : list Client) (tr0 : list label).

(** One event is handled. *)
Lemma handle_progress tr s fd rest :
  net_inv sk cs tr s → kept_up cs tr0 tr s → ns_batch s = fd :: rest →
  ∃ o s', server_step sk s o s' ∧ net_inv sk cs (tr ++ option_list o) s' ∧ kept_up cs tr0 (tr ++ option_list o) s' ∧
    ns_clients s' = ns_clients s ∧ (to_do s' < to_do s)%nat.
Proof.
  intros Hinv Hk Eb. destruct (decide (fd = sk)) as [->|Hne].
  - destruct (fresh_fd (lp_epoll (ns_loop s))) as (new & Hnew & Hf).
    pose proof (server_accepts sk cs tr s rest (KernelAnswer new 0) Hinv Eb) as H. cbn [ka_accept] in H.
    rewrite (proj2 (Z.ltb_ge _ _)), bool_decide_eq_false_2 in H by done.
    destruct H as (j & cn & acts & backlog & l' & Hc & Ep & E & Hs').
    eexists _, _. split; [by eapply server_handles|]. split; [done|]. split; [by apply (kept_up_insert cs tr0 tr s j cn)|].
    split; [done|]. unfold to_do. cbn [ns_conns]. pose proof (sum_insert conn_weight _ j cn (Conn (cn_stream cn) (cn_open cn) (At new)) Hc) as Hsum.
    unfold conn_weight at 2 4 in Hsum. cbn [cn_stream cn_end] in Hsum. rewrite Ep in Hsum. lia.
  - assert (Hw : fd ∈ lp_epoll (ns_loop s)).
    { pose proof (eo_batch _ _ _ _ _ (nv_ends _ _ _ _ Hinv)) as Hb. rewrite Eb in Hb. by apply Forall_cons in Hb as [? _]. }
    destruct (conn_at_watched sk cs tr s fd Hinv Hw Hne) as (j & cn & Ej & Hc & Ecn).
    destruct (server_conn_step sk cs tr s fd rest (KernelAnswer 0 (most cn)) Hinv Eb Hne) as (j' & cn' & Hc' & Ecn' & H).
    assert (j' = j) as ->.
    { apply (eo_inj _ _ _ _ _ (nv_ends _ _ _ _ Hinv) j' j fd); rewrite list_lookup_fmap, ?Hc, ?Hc'; cbn; congruence. }
    rewrite Hc in Hc'. injection Hc' as <-. cbn [ka_received] in H.
    destruct (do_recv_most cn) as (n & bs & stream & Er & Hle & Hwhole & Hpart). rewrite Er in H.
    destruct H as (acts & cn1 & l' & E & Hs' & Est & Hcase).
    eexists _, _. split; [by eapply server_handles|]. split; [done|]. pose proof (sum_insert conn_weight _ j cn cn1 Hc) as Hsum.
    unfold conn_weight at 2 4 in Hsum. rewrite Est, Ecn in Hsum. unfold to_do. cbn [ns_conns ns_clients].
    destruct Hcase as [[En Ee]|(En & Ee & Hch)]; rewrite Ee in Hsum; (split; [apply (kept_up_insert cs tr0 tr s j cn); [done..|]|]).
    + intros c0 p _ _ Eg. congruence.
    + specialize (Hwhole En). split; [done|]. lia.
    + intros c0 p Hc0 Hp _. destruct (nv_channels _ _ _ _ Hinv j c0 p cn Hc0 Hp Hc) as (items & tail & r & Hcn).
      destruct (channel_all _ _ _ _ _ _ _ _ Hcn) as [-> _]; [congruence|by apply Hpart|]. eapply channel_said_all, Hch, Hcn.
    + split; [done|]. lia.
Qed.

(** [epoll_wait] returns a descriptor there is something to do about. *)
Lemma wait_progress tr s fd :
  net_inv sk cs tr s → kept_up cs tr0 tr s → ns_batch s = [] → fd ∈ lp_epoll (ns_loop s) → ready sk fd s = true →
  ∃ s', server_step sk s None s' ∧ net_inv sk cs tr s' ∧ kept_up cs tr0 tr s' ∧ ns_clients s' = ns_clients s ∧
    to_do s' = to_do s ∧ ns_batch s' = [fd].
Proof.
  intros Hinv Hk Eb Hw Hr.
  assert (E : server_wait sk [fd] s =
    Some (NetSys (ns_clock s) (ns_clients s) (ns_conns s) (ns_backlog s) (ns_loop s) [fd])).
  { unfold server_wait. rewrite Eb, bool_decide_eq_true_2; [done|]. split_and!; [done|apply NoDup_singleton| |by repeat constructor].
    unfold MAX_EVENTS_RECEIVED. cbn. lia. }
  eexists. split; [by eapply server_waits|]. split; [by eapply server_wait_inv|]. done.
Qed.

Lemma catch_up m : ∀ tr s,
  (to_do s < m)%nat → net_inv sk cs tr s → kept_up cs tr0 tr s →
  ∃ tr' s', exec (server_step sk) s tr' s' ∧ net_inv sk cs (tr ++ tr') s' ∧ kept_up cs tr0 (tr ++ tr') s' ∧
    ns_clients s' = ns_clients s ∧ quiet sk s'.
Proof.
  induction m as [|m IH]; intros tr s Hm Hinv Hk; [lia|].
  assert (Hgo : ∀ s1 fd rest, exec (server_step sk) s [] s1 → net_inv sk cs tr s1 → kept_up cs tr0 tr s1 →
    ns_clients s1 = ns_clients s → to_do s1 = to_do s → ns_batch s1 = fd :: rest →
    ∃ tr' s', exec (server_step sk) s tr' s' ∧ net_inv sk cs (tr ++ tr') s' ∧ kept_up cs tr0 (tr ++ tr') s' ∧
      ns_clients s' = ns_clients s ∧ quiet sk s').
  { intros s1 fd rest Hx Hinv1 Hk1 Ec1 Et Eb.
    destruct (handle_progress tr s1 fd rest Hinv1 Hk1 Eb) as (o & s2 & Hst & Hinv2 & Hk2 & Ec2 & Hlt).
    destruct (IH (tr ++ option_list o) s2) as (tr' & s' & Hx' & Hinv' & Hk' & Ec' & Hq); [lia|done..|].
    exists (option_list o ++ tr'), s'. rewrite app_assoc, Ec', Ec2, Ec1. split_and!; try done.
    eapply exec_trans; [|exact Hx']. apply (exec_trans _ s [] s1); [done|by apply exec_one]. }
  destruct (ns_batch s) as [|fd rest] eqn:Eb; [|by eapply Hgo; [constructor|..]].
  destruct (decide (Exists (λ fd, ready sk fd s = true) (elements (lp_epoll (ns_loop s))))) as [Hex|Hno].
  - apply Exists_exists in Hex as (fd & Hin%elem_of_elements & Hr).
    destruct (wait_progress tr s fd Hinv Hk Eb Hin Hr) as (s1 & Hst & Hinv1 & Hk1 & Ec & Et & Eb1).
    eapply (Hgo s1 fd []); try done. exact (exec_one _ _ _ _ Hst).
  - exists [], s. rewrite app_nil_r. split_and!; try done; [constructor|]. split; [done|]. intros fd Hfd.
    destruct (ready sk fd s) eqn:Er; [|done]. exfalso. apply Hno, Exists_exists. exists fd. split; [by apply elem_of_elements|done].
Qed.
End CatchUp.

(** ** What a state tells *)
Section Reached.
Context (sk : Z) (cs : list Client) (tr : list label) (s : net_system) (Hinv : net_inv sk cs tr s).

Lemma connection_of j c0 p :
  cs !! j = Some c0 → ns_clients s !! j = Some p →
  ∃ cn items tail r, ns_conns s !! j = Some cn ∧ channel c0 j tr p cn items tail r.
Proof.
  intros Hc0 Hp. pose proof (lookup_lt_Some _ _ _ Hc0) as Hlt. rewrite <-(proj2 (nv_size _ _ _ _ Hinv)) in Hlt.
  apply lookup_lt_is_Some in Hlt as [cn Hc]. destruct (nv_channels _ _ _ _ Hinv j c0 p cn Hc0 Hp Hc) as (items & tail & r & Hch).
  by exists cn, items, tail, r.
Qed.

Lemma gone_is_kept_up : kept_up cs tr tr s.
Proof.
  intros j c0 p cn Hc0 Hp Hc Eg. destruct (nv_channels _ _ _ _ Hinv j c0 p cn Hc0 Hp Hc) as (items & tail & r & Hch).
  destruct (ch_gone _ _ _ _ _ _ _ _ Hch Eg) as [?|(_ & -> & _)]; [by left|right]. by eapply channel_said_all.
Qed.

(** With nothing to do, all that came was reported. *)
Lemma quiet_said_all tr0 j c0 p :
  quiet sk s → kept_up cs tr0 tr s → cs !! j = Some c0 → ns_clients s !! j = Some p →
  cut_short j tr0 ∨ said_all c0 j tr p.
Proof.
  intros [Eb Hq] Hk Hc0 Hp. destruct (connection_of j c0 p Hc0 Hp) as (cn & items & tail & r & Hc & Hch).
  pose proof (nv_ends _ _ _ _ Hinv) as He.
  assert (Hcase : cn_end cn = Gone ∨ r = length items); [|destruct Hcase as [Eg|Er]].
  2: by eapply Hk. 2: right; eapply channel_said_all; by rewrite Er in Hch.
  destruct (cn_end cn) as [| |fd|] eqn:Ecn; [right|exfalso|right|by left].
  - pose proof (ch_behind _ _ _ _ _ _ _ _ Hch). destruct (ch_left _ _ _ _ _ _ _ _ Hch Ecn) as [_ ->]. cbn in *. lia.
  - assert (Hj : j ∈ ns_backlog s) by (apply (eo_pending _ _ _ _ _ He); rewrite list_lookup_fmap, Hc; cbn; by rewrite Ecn).
    specialize (Hq sk (li_listening _ _ (eo_loop _ _ _ _ _ He))). unfold ready in Hq. rewrite Z.eqb_refl in Hq.
    case_bool_decide as Hb; [done|]. rewrite Hb in Hj. by apply elem_of_nil in Hj.
  - assert (Hat : (cn_end <$> ns_conns s) !! j = Some (At fd)) by (rewrite list_lookup_fmap, Hc; cbn; by rewrite Ecn).
    assert (Hw : fd ∈ lp_epoll (ns_loop s)) by (apply (eo_watched _ _ _ _ _ He); right; by exists j).
    assert (Hsk : fd ≠ sk) by (intros ->; by apply (eo_not_sk _ _ _ _ _ He j)).
    destruct (conn_at_watched sk cs tr s fd Hinv Hw Hsk) as (k & dn & Ek & Hk' & Edn).
    assert (k = j) as -> by (apply (eo_inj _ _ _ _ _ He k j fd); [rewrite list_lookup_fmap, Hk'; cbn; by rewrite Edn|done]).
    rewrite Hc in Hk'. injection Hk' as <-. specialize (Hq fd Hw). unfold ready in Hq.
    rewrite (proj2 (Z.eqb_neq _ _) Hsk), Ek in Hq. apply orb_false_iff in Hq as [Hq _].
    apply (channel_all _ _ _ _ _ _ _ _ Hch); [congruence|]. case_bool_decide as Hb; [done|].
    rewrite Hb. unfold NetItem.sizeof_WorkItem. cbn. lia.
Qed.
End Reached.

(** Clients as the constructor leaves them. *)
Definition fresh_client (c : Client) : Prop := client_wf c ∧ m_cooked_count c = 0.

(** ** A run *)

(** Two clients; the second dies in the middle of its second item. *)
Definition demo_answers : answers := Answers (Some 1) (Some 1) 5 0 0.
Definition demo_clients : list Client := [demo_client 1 0; demo_client 2 0].
Definition demo_turns : list net_choice :=
  [ClientTurn demo_answers 0; ClientTurn demo_answers 1; ClientTurn demo_answers 0; ClientTurn demo_answers 0;
   ClientTurn demo_answers 0; Wait [3]; Handle (KernelAnswer 4 0); Wait [4]; Handle (KernelAnswer 0 544);
   ClientTurn demo_answers 1; ClockAt 101; ClientTurn demo_answers 1; ClientTurn demo_answers 1; Dies 1 100; Wait [3];
   Handle (KernelAnswer 5 0); ClientTurn demo_answers 0; Wait [5]; Handle (KernelAnswer 0 544);
   Wait [5; 4]; Handle (KernelAnswer 0 100); Handle (KernelAnswer 0 544)].
Definition demo_net : net_system := net_start 100 demo0 demo_clients.
Definition demo_run : list label * net_system := net_run 3 demo_turns demo_net.
Definition gone_conn : conn := Conn [] false Gone.

Lemma demo_client_fresh id : fresh_client (demo_client id 0).
Proof. split; [by apply demo_client_wf|done]. Qed.

Lemma demo_run_reports :
  reported 0 demo_run.1 = names (demo_client 1 0) 2 ∧ reported 1 demo_run.1 = names (demo_client 2 0) 1 ∧
  ns_conns demo_run.2 !! 1%nat = Some gone_conn.
Proof. vm_compute. split_and!; reflexivity. Qed.

(** What became of the second client. *)
Definition demo_proc : client_proc := default (ClientProc (demo_client 2 0) Connecting) (ns_clients demo_run.2 !! 1%nat).

Lemma demo_proc_there : ns_clients demo_run.2 !! 1%nat = Some demo_proc.
Proof. vm_compute. reflexivity. Qed.

Lemma demo_starts :
  NetServer.start (StartAnswers 3 (Some 1) 0 0) (Server_ctor 10 6323) =
    Ok (Some demo0, [Socket 3; Nonblock 3; Bind 1 6323; Listen 3 32; Watch 3]).
Proof. vm_compute. reflexivity. Qed.

Lemma demo_clients_fresh : Forall fresh_client demo_clients.
Proof. repeat (apply Forall_cons_2; [apply demo_client_fresh|]); apply Forall_nil_2. Qed.

(** ** The properties *)

(** C5. Any number of clients and the server, however their actions
    interleave, however the bytes come in and whenever clients die: the
    server's handlers have no undefined behaviour; what it reports of a
    connection are the client's first items, each valid, under its name, once
    and in order, and never more than the client has written, which is at most
    a million; and once it has closed the connection it has reported all of
    them, unless a receive got part of an item. *)
Theorem server_reports_what_clients_wrote a srv l acts now cs tr s j c0 p cn :
  0 ≤ sa_socket a → NetServer.start a srv = Ok (Some l, acts) → Forall fresh_client cs →
  exec (net_step (sa_socket a)) (net_start now l cs) tr s →
  cs !! j = Some c0 → ns_clients s !! j = Some p → ns_conns s !! j = Some cn →
  (∀ ans, is_ok (server_handle (sa_socket a) ans s)) ∧
  m_cooked_count (cp_client p) ≤ 1000000 ∧
  (∃ r, reported j tr = names c0 r ∧ Z.of_nat r ≤ m_cooked_count (cp_client p)) ∧
  (cn_end cn = Gone → cut_short j tr ∨ said_all c0 j tr p).
Proof.
  intros Hsk Hs Hcs Hex Hc0 Hp Hc. destruct (start_inv a srv l acts Hsk Hs) as [Hl He].
  pose proof (net_run_inv _ _ _ _ _ _ Hl He Hcs Hex) as Hinv.
  destruct (nv_channels _ _ _ _ Hinv j c0 p cn Hc0 Hp Hc) as (items & tail & r & Hch).
  destruct (ch_count _ _ _ _ _ _ _ _ Hch) as [-> Hmax]. split_and!; [|done| |].
  - intros ans. by destruct (server_handle_inv _ _ _ _ ans Hinv) as [->|(? & ? & -> & _)].
  - exists r. split; [apply (ch_reported _ _ _ _ _ _ _ _ Hch)|]. pose proof (ch_behind _ _ _ _ _ _ _ _ Hch). lia.
  - intros Eg. by eapply (gone_is_kept_up _ _ _ _ Hinv).
Qed.

Lemma server_reports_what_clients_wrote_witness :
  (∀ ans, is_ok (server_handle 3 ans demo_run.2)) ∧
  m_cooked_count (cp_client demo_proc) ≤ 1000000 ∧
  (∃ r, reported 1 demo_run.1 = names (demo_client 2 0) r ∧ Z.of_nat r ≤ m_cooked_count (cp_client demo_proc)) ∧
  (cn_end gone_conn = Gone → cut_short 1 demo_run.1 ∨ said_all (demo_client 2 0) 1 demo_run.1 demo_proc).
Proof.
  apply (server_reports_what_clients_wrote (StartAnswers 3 (Some 1) 0 0) (Server_ctor 10 6323) demo0
    [Socket 3; Nonblock 3; Bind 1 6323; Listen 3 32; Watch 3] 100 demo_clients demo_run.1 demo_run.2 1
    (demo_client 2 0) demo_proc gone_conn);
    [simpl; lia|apply demo_starts|apply demo_clients_fresh|apply net_run_exec|reflexivity|apply demo_proc_there|apply demo_run_reports].
Defined.

(** C6. From every state that clients and server reach, the server can catch
    up with the clients: with no action of theirs it comes to a state where it
    has nothing to do, and then everything every client ever wrote has been
    reported, except on connections where a receive had got part of an item
    before. *)
Theorem server_catches_up a srv l acts now cs tr s :
  0 ≤ sa_socket a → NetServer.start a srv = Ok (Some l, acts) → Forall fresh_client cs →
  exec (net_step (sa_socket a)) (net_start now l cs) tr s →
  ∃ tr' s', exec (server_step (sa_socket a)) s tr' s' ∧ quiet (sa_socket a) s' ∧ ns_clients s' = ns_clients s ∧
    ∀ j c0 p, cs !! j = Some c0 → ns_clients s !! j = Some p → cut_short j tr ∨ said_all c0 j (tr ++ tr') p.
Proof.
  intros Hsk Hs Hcs Hex. destruct (start_inv a srv l acts Hsk Hs) as [Hl He].
  pose proof (net_run_inv _ _ _ _ _ _ Hl He Hcs Hex) as Hinv.
  destruct (catch_up (sa_socket a) cs tr (S (to_do s)) tr s) as (tr' & s' & Hx & Hinv' & Hk & Ec & Hq);
    [lia|done|by eapply gone_is_kept_up|].
  exists tr', s'. split_and!; [done..|]. intros j c0 p Hc0 Hp. rewrite <-Ec in Hp.
  by eapply (quiet_said_all (sa_socket a) cs _ _ Hinv').
Qed.

Lemma server_catches_up_witness :
  ∃ tr' s', exec (server_step 3) demo_run.2 tr' s' ∧ quiet 3 s' ∧ ns_clients s' = ns_clients demo_run.2 ∧
    ∀ j c0 p, demo_clients !! j = Some c0 → ns_clients demo_run.2 !! j = Some p →
      cut_short j demo_run.1 ∨ said_all c0 j (demo_run.1 ++ tr') p.
Proof.
  apply (server_catches_up (StartAnswers 3 (Some 1) 0 0) (Server_ctor 10 6323) demo0
    [Socket 3; Nonblock 3; Bind 1 6323; Listen 3 32; Watch 3] 100 demo_clients);
    [simpl; lia|apply demo_starts|apply demo_clients_fresh|apply net_run_exec].
Defined.
