(* ===== verification/PoolConfig.v ===== *)
(** * Thread-pool configuration (AdaptiveThreadPool/include/WorkerConf.h)

    The enumerations and the two configuration classes, setters included. *)
From S2P Require Import Prelude Semaphore.

(** ** Data *)
Definition MAX_WORKER_COUNT : Z := 128.
Definition WORK_QUEUE_LENGTH_DEFAULT : Z := 20.
Definition UPDATING_POOL_STATISTICS_TIME_DEFAULT : Z := 20.

Inductive JobWorkerType :=
  | JOBWORKER_TYPE_INDEPENDENT | JOBWORKER_TYPE_HELP_ADJACENT | JOBWORKER_TYPE_MAX.

Inductive JobQueueType := JOBQUEUE_TYPE_EXCLUSIVE | JOBQUEUE_TYPE_SHARED | JOBQUEUE_TYPE_MAX.

Inductive ThreadSchedulePolicy :=
  | THREADSCHED_DEFAULT | THREADSCHED_REALTIME_WITH_SLICE | THREADSCHED_REALTIME_NO_SLICE.

Inductive JobAssignPolicy :=
  | JOB_ASSIGN_SAME_CORE_ROUND_ROBIN
  | JOB_ASSIGN_SAME_CORE_LEAST_JOBS
  | JOB_ASSIGN_ROUND_ROBIN
  | JOB_ASSIGN_LEAST_JOBS
  | JOB_ASSIGN_SAME_CORE_RANDOM
  | JOB_ASSIGN_RANDOM
  | JOB_ASSIGN_MAX.

#[export] Instance queue_type_eq_dec : EqDecision JobQueueType.
Proof. solve_decision. Defined.
#[export] Instance sched_policy_eq_dec : EqDecision ThreadSchedulePolicy.
Proof. solve_decision. Defined.
#[export] Instance assign_policy_eq_dec : EqDecision JobAssignPolicy.
Proof. solve_decision. Defined.

Record JobWorkerConfig := MkWorkerConfig {
  mJobWorkerType : JobWorkerType;
  mThreadPolicy : ThreadSchedulePolicy;
  mThreadPriority : Z;      (* int *)
  mWhichCore : Z            (* unsigned int *)
}.

Record ThreadPoolConfig := MkPoolConfig {
  worker_config : JobWorkerConfig;
  mJobQueueType : JobQueueType;
  mWorkersPerCore : Z;
  mQueueLength : Z;
  mQueueShareFactor : Z;
  mUpdatingStatisticsTime : timespec
}.

(** ** Setters *)
Definition setThreadPriority (priority : Z) (c : JobWorkerConfig) : JobWorkerConfig :=
  MkWorkerConfig (mJobWorkerType c) (mThreadPolicy c) priority (mWhichCore c).
Definition setSchedulePolicy (policy : ThreadSchedulePolicy) (c : JobWorkerConfig) : JobWorkerConfig :=
  MkWorkerConfig (mJobWorkerType c) policy (mThreadPriority c) (mWhichCore c).
Definition setWorkerType (type : JobWorkerType) (c : JobWorkerConfig) : JobWorkerConfig :=
  MkWorkerConfig type (mThreadPolicy c) (mThreadPriority c) (mWhichCore c).
Definition set_core (core : Z) (c : JobWorkerConfig) : JobWorkerConfig :=
  MkWorkerConfig (mJobWorkerType c) (mThreadPolicy c) (mThreadPriority c) core.

Definition set_worker_config (w : JobWorkerConfig) (c : ThreadPoolConfig) : ThreadPoolConfig :=
  MkPoolConfig w (mJobQueueType c) (mWorkersPerCore c) (mQueueLength c) (mQueueShareFactor c)
    (mUpdatingStatisticsTime c).
Definition setWorkersPerCore (n : Z) (c : ThreadPoolConfig) : ThreadPoolConfig :=
  MkPoolConfig (worker_config c) (mJobQueueType c) (u32 n) (mQueueLength c) (mQueueShareFactor c)
    (mUpdatingStatisticsTime c).
Definition setQueueType (t : JobQueueType) (c : ThreadPoolConfig) : ThreadPoolConfig :=
  MkPoolConfig (worker_config c) t (mWorkersPerCore c) (mQueueLength c) (mQueueShareFactor c)
    (mUpdatingStatisticsTime c).
Definition setQueueLength (len : Z) (c : ThreadPoolConfig) : ThreadPoolConfig :=
  MkPoolConfig (worker_config c) (mJobQueueType c) (mWorkersPerCore c) (u32 len)
    (mQueueShareFactor c) (mUpdatingStatisticsTime c).
Definition setQueueShareFactor (factor : Z) (c : ThreadPoolConfig) : ThreadPoolConfig :=
  MkPoolConfig (worker_config c) (mJobQueueType c) (mWorkersPerCore c) (mQueueLength c)
    (u32 factor) (mUpdatingStatisticsTime c).

(** [time * 1000000] is computed as an [unsigned int] before it becomes the
    [long long] of nanoseconds. *)
Definition setStatisticsUpdatingTimeInMs (time : Z) (c : ThreadPoolConfig) : ThreadPoolConfig :=
  let updateTimeNs := u32 (time * 1000000) in
  MkPoolConfig (worker_config c) (mJobQueueType c) (mWorkersPerCore c) (mQueueLength c)
    (mQueueShareFactor c)
    (Timespec (updateTimeNs / 1000000000) (updateTimeNs mod 1000000000)).

(** The constructor.  [memory] is the uninitialised object: nothing sets
    [mQueueShareFactor], the argument for it is not used. *)
Definition ThreadPoolConfig_ctor (memory : ThreadPoolConfig) (workersPerCore : Z)
    (sched_policy : ThreadSchedulePolicy) (priority : Z) (workerType : JobWorkerType)
    (queueType : JobQueueType) (queueLength queueShareFactor : Z) : ThreadPoolConfig :=
  setStatisticsUpdatingTimeInMs UPDATING_POOL_STATISTICS_TIME_DEFAULT
    (MkPoolConfig (MkWorkerConfig workerType sched_policy priority 0) queueType
      (u32 workersPerCore) (u32 queueLength) (mQueueShareFactor memory)
      (mUpdatingStatisticsTime memory)).

(** ** Getters *)
Definition getSchedulePolicy (c : JobWorkerConfig) : ThreadSchedulePolicy := mThreadPolicy c.
Definition getThreadPriority (c : JobWorkerConfig) : Z := mThreadPriority c.
Definition getWorkerType (c : JobWorkerConfig) : JobWorkerType := mJobWorkerType c.
Definition getWorkersPerCore (c : ThreadPoolConfig) : Z := mWorkersPerCore c.
Definition getQueueType (c : ThreadPoolConfig) : JobQueueType := mJobQueueType c.
Definition getQueueLength (c : ThreadPoolConfig) : Z := mQueueLength c.
Definition getQueueShareFactor (c : ThreadPoolConfig) : Z := mQueueShareFactor c.
Definition getStatisticsUpdatingTimeSpec (c : ThreadPoolConfig) : timespec := mUpdatingStatisticsTime c.

(** The nanoseconds a [timespec] stands for. *)
Definition ts_nanoseconds (ts : timespec) : Z := tv_sec ts * 1000000000 + tv_nsec ts.

(** ** Proofs *)

(** A getter returns what its setter stored and is not disturbed by the
    setters of the other members. *)
Lemma config_members c n t len factor ms :
  let c' := setStatisticsUpdatingTimeInMs ms (setQueueShareFactor factor (setQueueLength len
              (setQueueType t (setWorkersPerCore n c)))) in
  worker_config c' = worker_config c ∧ getWorkersPerCore c' = u32 n ∧ getQueueType c' = t ∧
  getQueueLength c' = u32 len ∧ getQueueShareFactor c' = u32 factor ∧
  ts_nanoseconds (getStatisticsUpdatingTimeSpec c') = u32 (ms * 1000000).
Proof.
  split_and!; try done. unfold ts_nanoseconds. cbn.
  pose proof (Z.div_mod (u32 (ms * 1000000)) 1000000000 ltac:(lia)). lia.
Qed.

Lemma worker_config_members c policy priority type :
  let c' := setWorkerType type (setThreadPriority priority (setSchedulePolicy policy c)) in
  getSchedulePolicy c' = policy ∧ getThreadPriority c' = priority ∧ getWorkerType c' = type ∧ mWhichCore c' = mWhichCore c.
Proof. done. Qed.
