(* ===== verification/ThreadPool.v ===== *)
(** * The adaptive thread pool (AdaptiveThreadPool)

    [AdaptiveThreadPool]: set-up and tear-down, the assignment of queues to
    workers, the choice of a worker for a job and the timer's statistics.
    [JobWorker], [JobQueue] and [Job] are declared nowhere in the repository;
    they are parameters.  Here each call runs to its end before the next;
    [PoolThreads] has them interleaved. *)
From S2P Require Import Prelude Semaphore PoolConfig.

(** What the pool calls on its workers and queues. *)
Class PoolParts (W Q J : Type) := {
  createJobWorker : Z → JobWorkerConfig → W;
  createJobQueue : Z → JobQueueType → Q;   (* the object the n-th call returns *)
  assignQ : W → Q → W;
  worker_start : W → W;
  worker_addJob : W → J → W * bool;
  worker_jobs : W → Z       (* getJobCount() *)
}.

Section Pool.
Context {W Q J : Type} `{PoolParts W Q J}.

(** ** Data *)
Record StatisticCtrl := MkStat {
  mWorkerProcessedCountArr : list Z;
  mNextGlobalJobWorker : Z;
  mNextJobWorkerOnEachCoreArr : list Z;
  mJobWorkerWithLeastJob : Z;
  mJobWorkerWithLeastJobOnEachCoreArr : list Z
}.

(** What [pthread_create] stored: nothing yet, or the timer's thread. *)
Inductive pthread := NoThread | TimerThread.

(** Arrays of pointers; [None] is an element not assigned yet. *)
Record AdaptiveThreadPool := MkPool {
  mName : list Z;
  mConfig : ThreadPoolConfig;
  mJobWorkerArr : list (option W);
  mJobWorkerCount : Z;
  mJobQueueArr : list (option Q);
  mJobQueueCount : Z;
  mStatCtrl : StatisticCtrl;
  mTimerRun : bool;
  mTimerThread : pthread
}.

Definition deref {A} (arr : list (option A)) (i : Z) : outcome A :=
  p ← array_read arr i;
  match p with Some x => Ok x | None => Fault Uninitialised end.

Definition set_workers (p : AdaptiveThreadPool) arr : AdaptiveThreadPool :=
  MkPool (mName p) (mConfig p) arr (mJobWorkerCount p) (mJobQueueArr p) (mJobQueueCount p) (mStatCtrl p)
    (mTimerRun p) (mTimerThread p).
Definition set_queues (p : AdaptiveThreadPool) arr : AdaptiveThreadPool :=
  MkPool (mName p) (mConfig p) (mJobWorkerArr p) (mJobWorkerCount p) arr (mJobQueueCount p) (mStatCtrl p)
    (mTimerRun p) (mTimerThread p).
Definition set_stat (p : AdaptiveThreadPool) st : AdaptiveThreadPool :=
  MkPool (mName p) (mConfig p) (mJobWorkerArr p) (mJobWorkerCount p) (mJobQueueArr p) (mJobQueueCount p) st
    (mTimerRun p) (mTimerThread p).

(** ** Set-up *)

(** [n] iterations of the loop of [initializeStatistics] from index [i]; both
    per-core arrays get the same values. *)
Fixpoint init_cores (n : nat) (i workers_per_core : Z) (arr : list Z) : outcome (list Z) :=
  match n with
  | O => Ok arr
  | S n' =>
      arr' ← array_write arr i (u32 (i * workers_per_core));
      init_cores n' (i + 1) workers_per_core arr'
  end.

Definition initializeStatistics (p : AdaptiveThreadPool) : outcome AdaptiveThreadPool :=
  let workers_per_core := mWorkersPerCore (mConfig p) in
  let st := mStatCtrl p in
  next ← init_cores (Z.to_nat MAX_WORKER_COUNT) 0 workers_per_core (mNextJobWorkerOnEachCoreArr st);
  least ← init_cores (Z.to_nat MAX_WORKER_COUNT) 0 workers_per_core
            (mJobWorkerWithLeastJobOnEachCoreArr st);
  Ok (set_stat p (MkStat (replicate (Z.to_nat MAX_WORKER_COUNT) 0) 0 next 0 least)).

(** What the system answers: the number of cores, the user, the range of
    priorities of a policy, and whether [pthread_create] made the timer. *)
Record sys_answers := SysAnswers {
  core_count : Z;
  uid : Z;
  min_priority : ThreadSchedulePolicy → Z;
  max_priority : ThreadSchedulePolicy → Z;
  timer_created : bool
}.

(** The priority [checkAndAjustConfig] sets. *)
Definition adjust_priority (a : sys_answers) (policy : ThreadSchedulePolicy) (priority : Z) : Z :=
  let lo := min_priority a policy in
  let hi := max_priority a policy in
  let pr := if priority <? lo then lo else if hi <? priority then hi else priority in
  if bool_decide (policy = THREADSCHED_REALTIME_NO_SLICE) && (pr =? hi) then
    let pr := hi - 2 in if pr <? lo then lo else pr
  else pr.

(** Its body: the pool as adjusted, and false where the code returns false,
    true where it comes to its end. *)
Definition adjustConfig (a : sys_answers) (p : AdaptiveThreadPool)
    : outcome (AdaptiveThreadPool * bool) :=
  let cfg := mConfig p in
  let wcfg := worker_config cfg in
  let workers := u32 (core_count a * mWorkersPerCore cfg) in
  let p1 := MkPool (mName p) cfg (mJobWorkerArr p) workers (mJobQueueArr p) (mJobQueueCount p) (mStatCtrl p)
              (mTimerRun p) (mTimerThread p) in
  if MAX_WORKER_COUNT <? workers then Ok (p1, false)
  else if negb (bool_decide (mThreadPolicy wcfg = THREADSCHED_DEFAULT)) && negb (uid a =? 0)
  then Ok (p1, false)
  else
    let pr := adjust_priority a (mThreadPolicy wcfg) (mThreadPriority wcfg) in
    let cfg' := set_worker_config (setThreadPriority pr wcfg) cfg in
    queues ←
      match mJobQueueType cfg with
      | JOBQUEUE_TYPE_EXCLUSIVE => Ok workers
      | JOBQUEUE_TYPE_SHARED =>
          u32_div (u32 (workers + mQueueShareFactor cfg - 1)) (mQueueShareFactor cfg)
      | JOBQUEUE_TYPE_MAX => Fault AssertFailed
      end;
    Ok (MkPool (mName p) cfg' (mJobWorkerArr p) workers (mJobQueueArr p) queues (mStatCtrl p) (mTimerRun p) (mTimerThread p), true).

(** The function as written: where it comes to its closing brace it has no
    [return], which is undefined in C++. *)
Definition checkAndAjustConfig (a : sys_answers) (p : AdaptiveThreadPool)
    : outcome (AdaptiveThreadPool * bool) :=
  '(p', done) ← adjustConfig a p;
  if done : bool then Fault MissingReturn else Ok (p', false).

(** [createJobQueues]: [n] iterations from index [i]. *)
Fixpoint create_queues (n : nat) (i : Z) (queueType : JobQueueType) (arr : list (option Q))
    : outcome (list (option Q)) :=
  match n with
  | O => Ok arr
  | S n' =>
      arr' ← array_write arr i (Some (createJobQueue i queueType));
      create_queues n' (i + 1) queueType arr'
  end.

Definition createJobQueues (p : AdaptiveThreadPool) : outcome AdaptiveThreadPool :=
  arr ← create_queues (Z.to_nat (mJobQueueCount p)) 0 (mJobQueueType (mConfig p)) (mJobQueueArr p);
  Ok (set_queues p arr).

(** [createJobWorkers]: the inner loop, over the workers of a core ... *)
Fixpoint create_on_core (n : nat) (cfg : JobWorkerConfig) (worker_id : Z) (arr : list (option W))
    : outcome (list (option W) * Z) :=
  match n with
  | O => Ok (arr, worker_id)
  | S n' =>
      arr' ← array_write arr worker_id (Some (createJobWorker worker_id cfg));
      create_on_core n' cfg (u32 (worker_id + 1)) arr'
  end.

(** ... and the outer, over the cores. *)
Fixpoint create_cores (n : nat) (core : Z) (workers_per_core : nat) (cfg : JobWorkerConfig)
    (worker_id : Z) (arr : list (option W)) : outcome (list (option W)) :=
  match n with
  | O => Ok arr
  | S n' =>
      '(arr', worker_id') ← create_on_core workers_per_core (set_core core cfg) worker_id arr;
      create_cores n' (core + 1) workers_per_core cfg worker_id' arr'
  end.

Definition createJobWorkers (a : sys_answers) (p : AdaptiveThreadPool) : outcome AdaptiveThreadPool :=
  arr ← create_cores (Z.to_nat (core_count a)) 0 (Z.to_nat (mWorkersPerCore (mConfig p)))
          (worker_config (mConfig p)) 0 (mJobWorkerArr p);
  Ok (set_workers p arr).

(** [assignQueuesToWorkers]: one queue given to the next [n] workers ... *)
Fixpoint assign_queue (n : nat) (q : Q) (next : Z) (arr : list (option W))
    : outcome (list (option W) * Z) :=
  match n with
  | O => Ok (arr, next)
  | S n' =>
      w ← deref arr next;
      arr' ← array_write arr next (Some (assignQ w q));
      assign_queue n' q (u32 (next + 1)) arr'
  end.

(** ... and the loop over the queues. *)
Fixpoint assign_queues (n : nat) (qi : Z) (workers_per_q : nat) (queues : list (option Q))
    (next : Z) (arr : list (option W)) : outcome (list (option W)) :=
  match n with
  | O => Ok arr
  | S n' =>
      match workers_per_q with
      | O => assign_queues n' (qi + 1) workers_per_q queues next arr
      | _ =>
          q ← deref queues qi;
          '(arr', next') ← assign_queue workers_per_q q next arr;
          assign_queues n' (qi + 1) workers_per_q queues next' arr'
      end
  end.

Definition assignQueuesToWorkers (p : AdaptiveThreadPool) : outcome AdaptiveThreadPool :=
  arr ← assign_queues (Z.to_nat (mJobQueueCount p)) 0 (Z.to_nat (mQueueShareFactor (mConfig p)))
          (mJobQueueArr p) 0 (mJobWorkerArr p);
  Ok (set_workers p arr).

(** The loop that starts the workers. *)
Fixpoint start_workers (n : nat) (i : Z) (arr : list (option W)) : outcome (list (option W)) :=
  match n with
  | O => Ok arr
  | S n' =>
      w ← deref arr i;
      arr' ← array_write arr i (Some (worker_start w));
      start_workers n' (i + 1) arr'
  end.

(** [createTimer], whose [assert] has the call in it. *)
Definition createTimer (a : sys_answers) (p : AdaptiveThreadPool) : outcome AdaptiveThreadPool :=
  if timer_created a
  then Ok (MkPool (mName p) (mConfig p) (mJobWorkerArr p) (mJobWorkerCount p) (mJobQueueArr p) (mJobQueueCount p)
             (mStatCtrl p) true TimerThread)
  else Fault AssertFailed.

(** [configAndStartWorkers] after its check. *)
Definition setup (a : sys_answers) (p : AdaptiveThreadPool) : outcome AdaptiveThreadPool :=
  p1 ← createJobQueues p;
  p2 ← createJobWorkers a p1;
  p3 ← assignQueuesToWorkers p2;
  arr ← start_workers (Z.to_nat (mJobWorkerCount p3)) 0 (mJobWorkerArr p3);
  createTimer a (set_workers p3 arr).

Definition configAndStartWorkers (a : sys_answers) (p : AdaptiveThreadPool)
    : outcome (AdaptiveThreadPool * bool) :=
  '(p1, ok) ← checkAndAjustConfig a p;
  if ok : bool then p2 ← setup a p1; Ok (p2, true) else Ok (p1, false).

(** The constructor, from the uninitialised object [memory]; it assigns no
    [mTimerThread]. *)
Definition AdaptiveThreadPool_ctor (a : sys_answers) (memory : AdaptiveThreadPool)
    (name : list Z) (config : ThreadPoolConfig) : outcome (AdaptiveThreadPool * bool) :=
  p ← initializeStatistics
        (MkPool name config (mJobWorkerArr memory) (mJobWorkerCount memory) (mJobQueueArr memory)
          (mJobQueueCount memory) (mStatCtrl memory) (mTimerRun memory) NoThread);
  configAndStartWorkers a p.

Definition getPoolName (p : AdaptiveThreadPool) : list Z := mName p.
Definition getPoolConfig (p : AdaptiveThreadPool) : ThreadPoolConfig := mConfig p.

(** ** Choosing a worker *)

(** What [addJob] is told: the calling thread's core and a random number. *)
Record call_answers := CallAnswers { cur_core : Z; random : Z }.

Definition set_next_on_core (st : StatisticCtrl) arr : StatisticCtrl :=
  MkStat (mWorkerProcessedCountArr st) (mNextGlobalJobWorker st) arr (mJobWorkerWithLeastJob st)
    (mJobWorkerWithLeastJobOnEachCoreArr st).
Definition set_next_global (st : StatisticCtrl) n : StatisticCtrl :=
  MkStat (mWorkerProcessedCountArr st) n (mNextJobWorkerOnEachCoreArr st)
    (mJobWorkerWithLeastJob st) (mJobWorkerWithLeastJobOnEachCoreArr st).

(** The [switch] of [addJob]: the worker, and the counters after it. *)
Definition choose_worker (ca : call_answers) (policy : JobAssignPolicy) (p : AdaptiveThreadPool)
    : outcome (Z * StatisticCtrl) :=
  let st := mStatCtrl p in
  let per_core := mWorkersPerCore (mConfig p) in
  let core := cur_core ca in
  match policy with
  | JOB_ASSIGN_SAME_CORE_ROUND_ROBIN =>
      w ← array_read (mNextJobWorkerOnEachCoreArr st) core;
      let next := u32 (w + 1) in
      let next := if next =? u32 (u32 (core + 1) * per_core) then u32 (core * per_core) else next in
      arr ← array_write (mNextJobWorkerOnEachCoreArr st) core next;
      Ok (w, set_next_on_core st arr)
  | JOB_ASSIGN_SAME_CORE_LEAST_JOBS =>
      w ← array_read (mJobWorkerWithLeastJobOnEachCoreArr st) core;
      Ok (w, st)
  | JOB_ASSIGN_ROUND_ROBIN =>
      let w := mNextGlobalJobWorker st in
      let next := u32 (w + 1) in
      Ok (w, set_next_global st (if next =? mJobWorkerCount p then 0 else next))
  | JOB_ASSIGN_LEAST_JOBS => Ok (mJobWorkerWithLeastJob st, st)
  | JOB_ASSIGN_SAME_CORE_RANDOM =>
      r ← u32_rem (random ca) per_core;
      Ok (u32 (core * per_core + r), st)
  | JOB_ASSIGN_RANDOM =>
      r ← u32_rem (random ca) (mJobWorkerCount p);
      Ok (r, st)
  | JOB_ASSIGN_MAX => Fault AssertFailed
  end.

Definition addJob (ca : call_answers) (job : J) (policy : JobAssignPolicy) (p : AdaptiveThreadPool)
    : outcome (AdaptiveThreadPool * bool) :=
  '(which, st) ← choose_worker ca policy p;
  w ← deref (mJobWorkerArr p) which;
  let '(w', ok) := worker_addJob w job in
  arr ← array_write (mJobWorkerArr p) which (Some w');
  Ok (set_stat (set_workers p arr) st, ok).

(** [getJobCount]: the sum over the workers, an [unsigned long long]. *)
Fixpoint count_jobs (n : nat) (i : Z) (arr : list (option W)) (jobCount : Z) : outcome Z :=
  match n with
  | O => Ok jobCount
  | S n' =>
      w ← deref arr i;
      count_jobs n' (i + 1) arr (u64 (jobCount + worker_jobs w))
  end.

Definition getJobCount (p : AdaptiveThreadPool) : outcome Z :=
  count_jobs (Z.to_nat (mJobWorkerCount p)) 0 (mJobWorkerArr p) 0.

(** ** The timer *)

(** The scan for the least loaded worker: [n] more workers from index [i]. *)
Fixpoint least_loop (n : nat) (i : Z) (arr : list (option W)) (leastJobs leastJobWorker : Z)
    : outcome Z :=
  match n with
  | O => Ok leastJobWorker
  | S n' =>
      w ← deref arr i;
      let jobNum := worker_jobs w in
      if jobNum <? leastJobs then least_loop n' (i + 1) arr jobNum i
      else least_loop n' (i + 1) arr leastJobs leastJobWorker
  end.

(** Over [n] workers starting at index [first]. *)
Definition least_job (n first : Z) (arr : list (option W)) : outcome Z :=
  w ← deref arr first;
  least_loop (Z.to_nat (n - 1)) (first + 1) arr (worker_jobs w) first.

Fixpoint least_on_cores (n : nat) (core first workers_per_core : Z) (arr : list (option W))
    (least : list Z) : outcome (list Z) :=
  match n with
  | O => Ok least
  | S n' =>
      l ← least_job workers_per_core first arr;
      least' ← array_write least core l;
      least_on_cores n' (core + 1) (u32 (first + workers_per_core)) workers_per_core arr least'
  end.

(** The policy and the priority [timer_thread_func] asks for. *)
Definition timer_sched (a : sys_answers) : ThreadSchedulePolicy * Z :=
  if uid a =? 0 then (THREADSCHED_REALTIME_NO_SLICE, max_priority a THREADSCHED_REALTIME_NO_SLICE)
  else (THREADSCHED_DEFAULT, 0).

(** One round of the loop of [timer_thread_func]. *)
Definition timer_round (a : sys_answers) (p : AdaptiveThreadPool) : outcome AdaptiveThreadPool :=
  let st := mStatCtrl p in
  l ← least_job (mJobWorkerCount p) 0 (mJobWorkerArr p);
  cores ← least_on_cores (Z.to_nat (core_count a)) 0 0 (mWorkersPerCore (mConfig p))
            (mJobWorkerArr p) (mJobWorkerWithLeastJobOnEachCoreArr st);
  Ok (set_stat p (MkStat (mWorkerProcessedCountArr st) (mNextGlobalJobWorker st)
        (mNextJobWorkerOnEachCoreArr st) l cores)).

(** ** Tear-down *)

(** The workers and queues [stopWorkers] deletes, in order. *)
Fixpoint delete_all {A} (n : nat) (i : Z) (arr : list (option A)) : outcome (list A) :=
  match n with
  | O => Ok []
  | S n' => x ← deref arr i; rest ← delete_all n' (i + 1) arr; Ok (x :: rest)
  end.

(** What [stopWorkers] does besides. *)
Inductive stop_act :=
  | JoinTimer
  | DestroyGlobalLock
  | DestroyCoreLock (i : nat)
  | DeleteWorker (w : W)
  | DeleteQueue (q : Q).

Definition set_timer_run (b : bool) (p : AdaptiveThreadPool) : AdaptiveThreadPool :=
  MkPool (mName p) (mConfig p) (mJobWorkerArr p) (mJobWorkerCount p) (mJobQueueArr p) (mJobQueueCount p) (mStatCtrl p) b
    (mTimerThread p).

(** [pthread_join], of a thread that ends. *)
Definition join_timer (t : pthread) : outcome unit :=
  match t with TimerThread => Ok tt | NoThread => Fault Uninitialised end.

Definition stopWorkers (p : AdaptiveThreadPool) : outcome (AdaptiveThreadPool * list stop_act) :=
  let p := set_timer_run false p in
  _ ← join_timer (mTimerThread p);
  ws ← delete_all (Z.to_nat (mJobWorkerCount p)) 0 (mJobWorkerArr p);
  qs ← delete_all (Z.to_nat (mJobQueueCount p)) 0 (mJobQueueArr p);
  Ok (p, [JoinTimer; DestroyGlobalLock] ++ (DestroyCoreLock <$> seq 0 (Z.to_nat MAX_WORKER_COUNT)) ++
         (DeleteWorker <$> ws) ++ (DeleteQueue <$> qs)).
End Pool.
Arguments AdaptiveThreadPool W Q : clear implicits.
Arguments stop_act W Q : clear implicits.
