(* ===== verification/PoolInv.v ===== *)
(** * The thread pool: its loops and its invariant

    What each loop of the set-up does to the arrays, and [pool_wf], the
    invariant of a pool that is set up. *)
From S2P Require Import Prelude Semaphore PoolConfig ThreadPool.

Section Pool.
Context {W Q J : Type} `{PoolParts W Q J}.
Implicit Types arr : list (option W).

Lemma deref_ok {A} (l : list (option A)) i x : l !! i = Some (Some x) → deref l (Z.of_nat i) = Ok x.
Proof.
  intros Hx. unfold deref.
  rewrite (proj2 (array_read_Ok l (Z.of_nat i) (Some x))); [done|]. split; [lia|]. by rewrite Nat2Z.id.
Qed.

(** ** The loops *)
Lemma init_cores_ok n i w f l :
  progress f (λ k, u32 (Z.of_nat k * w)) i (i + n) l →
  ∃ l', init_cores n (Z.of_nat i) w l = Ok l' ∧
    progress f (λ k, u32 (Z.of_nat k * w)) (i + n) (i + n) l'.
Proof.
  revert i l. induction n as [|n IH]; intros i l Hp; simpl.
  - rewrite Nat.add_0_r in *. by exists l.
  - pose proof (progress_write_at _ _ _ _ _ Hp ltac:(lia)) as E. cbn beta in E. rewrite E. simpl.
    replace (Z.of_nat i + 1) with (Z.of_nat (S i)) by lia.
    replace (i + S n)%nat with (S i + n)%nat in * by lia.
    apply IH. apply (progress_write _ _ _ _ _ Hp). lia.
Qed.

Lemma create_queues_ok n i qt (f : nat → option Q) l :
  progress f (λ k, Some (createJobQueue (Z.of_nat k) qt)) i (i + n) l →
  ∃ l', create_queues n (Z.of_nat i) qt l = Ok l' ∧
    progress f (λ k, Some (createJobQueue (Z.of_nat k) qt)) (i + n) (i + n) l'.
Proof.
  revert i l. induction n as [|n IH]; intros i l Hp; simpl.
  - rewrite Nat.add_0_r in *. by exists l.
  - pose proof (progress_write_at _ _ _ _ _ Hp ltac:(lia)) as E. cbn beta in E. rewrite E. simpl.
    replace (Z.of_nat i + 1) with (Z.of_nat (S i)) by lia.
    replace (i + S n)%nat with (S i + n)%nat in * by lia.
    apply IH. apply (progress_write _ _ _ _ _ Hp). lia.
Qed.

(** Worker [k] as created: its number, and core [k / per_core]. *)
Definition created (per_core : nat) (cfg : JobWorkerConfig) (k : nat) : option W :=
  Some (createJobWorker (Z.of_nat k) (set_core (Z.of_nat (k / per_core)) cfg)).

Lemma create_on_core_ok n per_core cfg core i m f arr :
  (core * per_core ≤ i)%nat → (i + n ≤ S core * per_core)%nat →
  (i + n ≤ m)%nat → Z.of_nat m < 4294967296 →
  progress f (created per_core cfg) i m arr →
  ∃ arr', create_on_core n (set_core (Z.of_nat core) cfg) (Z.of_nat i) arr =
      Ok (arr', Z.of_nat (i + n)) ∧
    progress f (created per_core cfg) (i + n) m arr'.
Proof.
  revert i arr. induction n as [|n IH]; intros i arr H1 H2 Hm H32 Hp; simpl.
  - rewrite Nat.add_0_r. by exists arr.
  - pose proof (progress_write_at _ _ _ _ _ Hp ltac:(lia)) as E.
    assert (Ec : created per_core cfg i =
      Some (createJobWorker (Z.of_nat i) (set_core (Z.of_nat core) cfg))).
    { unfold created. do 4 f_equal. symmetry.
      apply (Nat.div_unique i per_core core (i - core * per_core)); lia. }
    rewrite Ec in E. rewrite E. simpl. rewrite u32_small by lia.
    replace (Z.of_nat i + 1) with (Z.of_nat (S i)) by lia.
    replace (i + S n)%nat with (S i + n)%nat in * by lia.
    apply IH; try lia. rewrite <-Ec. apply (progress_write _ _ _ _ _ Hp). lia.
Qed.

Lemma create_cores_ok n core per_core cfg m f arr :
  m = ((core + n) * per_core)%nat → Z.of_nat m < 4294967296 →
  progress f (created per_core cfg) (core * per_core) m arr →
  ∃ arr', create_cores n (Z.of_nat core) per_core cfg (Z.of_nat (core * per_core)) arr = Ok arr' ∧
    progress f (created per_core cfg) m m arr'.
Proof.
  revert core arr. induction n as [|n IH]; intros core arr Em H32 Hp; simpl.
  - rewrite Nat.add_0_r in Em. subst m. by exists arr.
  - destruct (create_on_core_ok per_core per_core cfg core (core * per_core) m f arr)
      as (arr1 & E1 & Hp1); [lia|lia|nia|done|done|].
    rewrite E1. simpl_bind.
    replace (core * per_core + per_core)%nat with (S core * per_core)%nat in * by lia.
    replace (Z.of_nat core + 1) with (Z.of_nat (S core)) by lia.
    apply IH; [lia|done|done].
Qed.

(** Worker [k] once it has queue [k / share]. *)
Definition assigned (share : nat) (queue : nat → Q) (f : nat → W) (k : nat) : option W :=
  Some (assignQ (f k) (queue (k / share)%nat)).

Lemma assign_queue_ok n share queue qi (f : nat → W) i m arr :
  (qi * share ≤ i)%nat → (i + n ≤ S qi * share)%nat → (i + n ≤ m)%nat → Z.of_nat m < 4294967296 →
  progress (λ k, Some (f k)) (assigned share queue f) i m arr →
  ∃ arr', assign_queue n (queue qi) (Z.of_nat i) arr = Ok (arr', Z.of_nat (i + n)) ∧
    progress (λ k, Some (f k)) (assigned share queue f) (i + n) m arr'.
Proof.
  revert i arr. induction n as [|n IH]; intros i arr H1 H2 Hm H32 Hp; simpl.
  - rewrite Nat.add_0_r. by exists arr.
  - rewrite (deref_ok _ _ _ (progress_read _ _ _ _ _ Hp ltac:(lia))). simpl.
    pose proof (progress_write_at _ _ _ _ _ Hp ltac:(lia)) as E.
    assert (Ec : assigned share queue f i = Some (assignQ (f i) (queue qi))).
    { unfold assigned. do 3 f_equal. symmetry. apply (Nat.div_unique i share qi (i - qi * share)); lia. }
    rewrite Ec in E. rewrite E. simpl. rewrite u32_small by lia.
    replace (Z.of_nat i + 1) with (Z.of_nat (S i)) by lia.
    replace (i + S n)%nat with (S i + n)%nat in * by lia.
    apply IH; try lia. rewrite <-Ec. apply (progress_write _ _ _ _ _ Hp). lia.
Qed.

Lemma assign_queues_ok n qi share queues queue (f : nat → W) m arr :
  (0 < share)%nat → m = ((qi + n) * share)%nat → Z.of_nat m < 4294967296 →
  (∀ k, (k < qi + n)%nat → queues !! k = Some (Some (queue k))) →
  progress (λ k, Some (f k)) (assigned share queue f) (qi * share) m arr →
  ∃ arr', assign_queues n (Z.of_nat qi) share queues (Z.of_nat (qi * share)) arr = Ok arr' ∧
    progress (λ k, Some (f k)) (assigned share queue f) m m arr'.
Proof.
  intros Hs. revert qi arr. induction n as [|n IH]; intros qi arr Em H32 Hq Hp.
  - rewrite Nat.add_0_r in Em. subst m. by exists arr.
  - destruct (assign_queue_ok share share queue qi f (qi * share) m arr) as (arr1 & E1 & Hp1);
      [lia|lia|nia|done|done|].
    destruct share as [|share']; [lia|]. cbn [assign_queues].
    rewrite (deref_ok queues qi (queue qi)) by (apply Hq; lia). simpl_bind.
    rewrite E1. simpl_bind.
    replace (qi * S share' + S share')%nat with (S qi * S share')%nat in * by lia.
    replace (Z.of_nat qi + 1) with (Z.of_nat (S qi)) by lia.
    apply IH; [lia|done| |done]. intros k Hk. apply Hq. lia.
Qed.

Lemma start_workers_ok n i (f : nat → W) arr :
  progress (λ k, Some (f k)) (λ k, Some (worker_start (f k))) i (i + n) arr →
  ∃ arr', start_workers n (Z.of_nat i) arr = Ok arr' ∧
    progress (λ k, Some (f k)) (λ k, Some (worker_start (f k))) (i + n) (i + n) arr'.
Proof.
  revert i arr. induction n as [|n IH]; intros i arr Hp; simpl.
  - rewrite Nat.add_0_r in *. by exists arr.
  - rewrite (deref_ok _ _ _ (progress_read _ _ _ _ _ Hp ltac:(lia))). simpl.
    pose proof (progress_write_at _ _ _ _ _ Hp ltac:(lia)) as E. cbn beta in E. rewrite E. simpl.
    replace (Z.of_nat i + 1) with (Z.of_nat (S i)) by lia.
    replace (i + S n)%nat with (S i + n)%nat in * by lia.
    apply IH. apply (progress_write _ _ _ _ _ Hp). lia.
Qed.
(** A worker too few: the loop over the queues reads a pointer that was never
    assigned. *)
Lemma deref_unassigned {A} (l : list (option A)) i :
  l !! i = Some None ∨ l !! i = None → ¬ is_ok (deref l (Z.of_nat i)).
Proof.
  intros Hi. unfold deref, array_read. rewrite (proj2 (Z.ltb_ge _ _)) by lia. rewrite Nat2Z.id.
  intros Hok. destruct Hi as [E|E]; rewrite E in Hok; exact Hok.
Qed.

Lemma assign_queue_short n share queue qi (f : nat → W) i m arr :
  (qi * share ≤ i)%nat → (i + n ≤ S qi * share)%nat → (i ≤ m < i + n)%nat → Z.of_nat m < 4294967295 →
  (arr !! m = Some None ∨ arr !! m = None) →
  progress (λ k, Some (f k)) (assigned share queue f) i m arr →
  ¬ is_ok (assign_queue n (queue qi) (Z.of_nat i) arr).
Proof.
  revert i arr. induction n as [|n IH]; intros i arr H1 H2 Hm H32 Hnone Hp; [lia|]. cbn [assign_queue].
  rewrite bind_is_ok. intros (w & Hd & Hok). destruct (decide (i = m)) as [->|Hne].
  { apply (deref_unassigned arr m Hnone). by rewrite Hd. }
  rewrite (deref_ok _ _ _ (progress_read _ _ _ _ _ Hp ltac:(lia))) in Hd. injection Hd as <-.
  pose proof (progress_write_at _ _ _ _ _ Hp ltac:(lia)) as E.
  assert (Ec : assigned share queue f i = Some (assignQ (f i) (queue qi))).
  { unfold assigned. do 3 f_equal. symmetry. apply (Nat.div_unique i share qi (i - qi * share)); lia. }
  rewrite Ec in E. rewrite E in Hok. simpl_bind in Hok. rewrite u32_small in Hok by lia.
  replace (Z.of_nat i + 1) with (Z.of_nat (S i)) in Hok by lia. revert Hok. rewrite <-Ec.
  apply IH; [lia|lia|lia|done| |].
  - rewrite list_lookup_insert_ne by done. exact Hnone.
  - apply (progress_write _ _ _ _ _ Hp). lia.
Qed.

Lemma assign_queue_keeps n q i arr arr' next m :
  assign_queue n q (Z.of_nat i) arr = Ok (arr', next) → (i + n ≤ m)%nat → Z.of_nat m < 4294967296 →
  arr' !! m = arr !! m.
Proof.
  revert i arr. induction n as [|n IH]; intros i arr E Hm H32; cbn [assign_queue] in E; [by inv_ok|].
  apply bind_Ok in E as (w & _ & E). apply bind_Ok in E as (arr1 & Hw & E).
  rewrite u32_small in E by lia. replace (Z.of_nat i + 1) with (Z.of_nat (S i)) in E by lia.
  rewrite (IH _ _ E) by lia. apply array_write_Ok in Hw as [_ ->]. rewrite Nat2Z.id.
  apply list_lookup_insert_ne. lia.
Qed.

Lemma assign_queues_short n qi share queues queue (f : nat → W) m arr :
  (0 < share)%nat → (qi * share ≤ m < (qi + n) * share)%nat → Z.of_nat m < 4294967295 →
  (∀ k, (k < qi + n)%nat → queues !! k = Some (Some (queue k))) →
  (arr !! m = Some None ∨ arr !! m = None) →
  progress (λ k, Some (f k)) (assigned share queue f) (qi * share) m arr →
  ¬ is_ok (assign_queues n (Z.of_nat qi) share queues (Z.of_nat (qi * share)) arr).
Proof.
  intros Hs. revert qi arr. induction n as [|n IH]; intros qi arr Hm H32 Hq Hnone Hp; [lia|].
  destruct share as [|share']; [lia|]. cbn [assign_queues].
  rewrite (deref_ok queues qi (queue qi)) by (apply Hq; lia). simpl_bind.
  destruct (decide (m < S qi * S share')%nat) as [Hlt|Hge].
  - rewrite bind_is_ok. intros (x & E & _).
    apply (assign_queue_short (S share') (S share') queue qi f (qi * S share') m arr); [lia|lia|lia|done..|].
    by rewrite E.
  - destruct (assign_queue_ok (S share') (S share') queue qi f (qi * S share') m arr)
      as (arr1 & E1 & Hp1); [lia|lia|lia|lia|done|].
    rewrite E1. simpl_bind.
    pose proof (assign_queue_keeps _ _ _ _ _ _ m E1 ltac:(lia) ltac:(lia)) as Hk.
    replace (qi * S share' + S share')%nat with (S qi * S share')%nat in * by lia.
    replace (Z.of_nat qi + 1) with (Z.of_nat (S qi)) by lia.
    apply IH; [lia|done| | |done].
    + intros k Hk'. apply Hq. lia.
    + by rewrite Hk.
Qed.

(** ** The set-up *)

(** A pool whose configuration was adjusted: [c] cores, [w] workers on each,
    [n] queues, nothing created yet. *)
Record adjusted (c w n share : nat) (p : AdaptiveThreadPool W Q) : Prop := {
  ad_workers : mJobWorkerCount p = Z.of_nat (c * w);
  ad_per_core : mWorkersPerCore (mConfig p) = Z.of_nat w;
  ad_queues : mJobQueueCount p = Z.of_nat n;
  ad_share : mQueueShareFactor (mConfig p) = Z.of_nat share;
  ad_room : (c * w ≤ 128)%nat ∧ (n ≤ 128)%nat;
  ad_worker_arr : mJobWorkerArr p = replicate 128 None;
  ad_queue_arr : mJobQueueArr p = replicate 128 None
}.

(** Worker [k] of a pool that is set up. *)
Definition worker_at (w share : nat) (cfg : ThreadPoolConfig) (k : nat) : W :=
  worker_start
    (assignQ (createJobWorker (Z.of_nat k) (set_core (Z.of_nat (k / w)) (worker_config cfg)))
       (createJobQueue (Z.of_nat (k / share)) (mJobQueueType cfg))).

Lemma create_queues_all (p : AdaptiveThreadPool W Q) n :
  (n ≤ 128)%nat → mJobQueueCount p = Z.of_nat n → mJobQueueArr p = replicate 128 None →
  ∃ arr : list (option Q), createJobQueues p = Ok (set_queues p arr) ∧
    ∀ k, (k < n)%nat → arr !! k = Some (Some (createJobQueue (Z.of_nat k) (mJobQueueType (mConfig p)))).
Proof.
  intros Hn Hc Ha. unfold createJobQueues. rewrite Hc, Ha, Nat2Z.id.
  destruct (create_queues_ok n 0 (mJobQueueType (mConfig p)) (λ _, None) (replicate 128 None))
    as (arr & E & Hp).
  { intros k Hk. apply lookup_replicate. split; [by rewrite decide_False by lia|lia]. }
  change (Z.of_nat 0) with 0 in E. rewrite E.
  exists arr. split; [done|]. intros k Hk. apply (progress_done _ _ _ _ _ Hp Hk).
Qed.

Lemma create_cores_tail n core per_core cfg id arr arr' m :
  create_cores n core per_core cfg (Z.of_nat id) arr = Ok arr' →
  (id + n * per_core ≤ m)%nat → Z.of_nat m < 4294967296 → arr' !! m = arr !! m.
Proof.
  assert (T : ∀ n cfg id arr arr' next m, create_on_core n cfg (Z.of_nat id) arr = Ok (arr', next) →
    (id + n ≤ m)%nat → Z.of_nat m < 4294967296 → arr' !! m = arr !! m ∧ next = Z.of_nat (id + n)).
  { clear. induction n as [|n IH]; intros cfg id arr arr' next m E Hm H32; cbn [create_on_core] in E.
    - apply Ok_pair in E as [<- <-]. by rewrite Nat.add_0_r.
    - apply bind_Ok in E as (arr1 & Hw & E). rewrite u32_small in E by lia.
      replace (Z.of_nat id + 1) with (Z.of_nat (S id)) in E by lia.
      destruct (IH _ _ _ _ _ m E ltac:(lia) H32) as [-> ->].
      apply array_write_Ok in Hw as [_ ->]. rewrite Nat2Z.id.
      split; [apply list_lookup_insert_ne; lia|lia]. }
  revert core id arr. induction n as [|n IH]; intros core id arr E Hm H32; cbn [create_cores] in E.
  { by injection E as <-. }
  apply bind_Ok in E as ([arr1 next] & E1 & E).
  destruct (T _ _ _ _ _ _ m E1 ltac:(lia) H32) as [H1 ->].
  rewrite (IH _ _ _ E) by lia. exact H1.
Qed.

Lemma create_workers_all a (p : AdaptiveThreadPool W Q) c w :
  (c * w ≤ 128)%nat → core_count a = Z.of_nat c → mWorkersPerCore (mConfig p) = Z.of_nat w →
  mJobWorkerArr p = replicate 128 None →
  ∃ arr, createJobWorkers a p = Ok (set_workers p arr) ∧
    (∀ k, (k < c * w)%nat → arr !! k = Some (created w (worker_config (mConfig p)) k)) ∧
    (arr !! (c * w)%nat = Some None ∨ arr !! (c * w)%nat = None).
Proof.
  intros Hn Hc Hw Ha. unfold createJobWorkers. rewrite Hc, Hw, Ha, !Nat2Z.id.
  destruct (create_cores_ok c 0 w (worker_config (mConfig p)) (c * w) (λ _, None) (replicate 128 None))
    as (arr & E & Hp); [lia|lia| |].
  { intros k Hk. apply lookup_replicate. split; [by rewrite decide_False by lia|lia]. }
  change (Z.of_nat (0 * w)) with 0 in E. change (Z.of_nat 0) with 0 in E. rewrite E.
  exists arr. split_and!; [done|intros k Hk; apply (progress_done _ _ _ _ _ Hp Hk)|].
  rewrite (create_cores_tail c 0 w _ 0%nat _ _ (c * w) E) by lia.
  destruct (decide (c * w < 128)%nat); [left; by apply lookup_replicate_2|right].
  apply lookup_ge_None. rewrite length_replicate. lia.
Qed.
(** What the set-up does before the queues are assigned. *)
Lemma setup_created a (p : AdaptiveThreadPool W Q) c w n share :
  adjusted c w n share p → core_count a = Z.of_nat c →
  ∃ qarr warr p2,
    createJobQueues p = Ok (set_queues p qarr) ∧ createJobWorkers a (set_queues p qarr) = Ok p2 ∧
    p2 = set_workers (set_queues p qarr) warr ∧
    (∀ k, (k < n)%nat → qarr !! k =
       Some (Some (createJobQueue (Z.of_nat k) (mJobQueueType (mConfig p))))) ∧
    (∀ k, (k < c * w)%nat → warr !! k = Some (created w (worker_config (mConfig p)) k)) ∧
    (warr !! (c * w)%nat = Some None ∨ warr !! (c * w)%nat = None).
Proof.
  intros Ha Hc. destruct (ad_room _ _ _ _ _ Ha) as [Hcw Hn].
  destruct (create_queues_all p n Hn (ad_queues _ _ _ _ _ Ha) (ad_queue_arr _ _ _ _ _ Ha))
    as (qarr & Eq & Hq).
  destruct (create_workers_all a (set_queues p qarr) c w Hcw Hc (ad_per_core _ _ _ _ _ Ha)
    (ad_worker_arr _ _ _ _ _ Ha)) as (warr & Ew & Hw & Hnone).
  by exists qarr, warr, (set_workers (set_queues p qarr) warr).
Qed.

Lemma setup_ok a (p : AdaptiveThreadPool W Q) c w n share :
  adjusted c w n share p → core_count a = Z.of_nat c → timer_created a = true →
  (0 < share)%nat → (n * share = c * w)%nat →
  ∃ p', setup a p = Ok p' ∧ mTimerThread p' = TimerThread ∧ mConfig p' = mConfig p ∧
    mJobWorkerCount p' = mJobWorkerCount p ∧ mJobQueueCount p' = mJobQueueCount p ∧
    mStatCtrl p' = mStatCtrl p ∧
    (∀ k, (k < c * w)%nat → mJobWorkerArr p' !! k = Some (Some (worker_at w share (mConfig p) k))) ∧
    (∀ k, (k < n)%nat → mJobQueueArr p' !! k =
       Some (Some (createJobQueue (Z.of_nat k) (mJobQueueType (mConfig p))))).
Proof.
  intros Ha Hc Ht Hs Hcw.
  destruct (setup_created a p c w n share Ha Hc) as (qarr & warr & p2 & E1 & E2 & -> & Hq & Hw & _).
  destruct (ad_room _ _ _ _ _ Ha) as [Hroom _].
  set (f := λ k, createJobWorker (Z.of_nat k) (set_core (Z.of_nat (k / w)) (worker_config (mConfig p)))).
  set (queue := λ k, createJobQueue (Z.of_nat k) (mJobQueueType (mConfig p))).
  destruct (assign_queues_ok n 0 share qarr queue f (c * w) warr Hs) as (arr3 & E3 & Hp3);
    [lia|lia|intros k Hk; by apply Hq| |].
  { intros k Hk. rewrite decide_False by lia. by rewrite Hw. }
  set (g := λ k, assignQ (f k) (queue (k / share)%nat)).
  destruct (start_workers_ok (c * w) 0 g arr3) as (arr4 & E4 & Hp4).
  { apply (progress_next _ _ _ _ _ Hp3). }
  unfold setup. rewrite E1. simpl_bind. rewrite E2. simpl_bind.
  unfold assignQueuesToWorkers. cbn [set_workers set_queues mJobQueueCount mConfig mJobQueueArr mJobWorkerArr].
  rewrite (ad_queues _ _ _ _ _ Ha), (ad_share _ _ _ _ _ Ha), !Nat2Z.id.
  change (Z.of_nat (0 * share)) with 0 in E3. change (Z.of_nat 0) with 0 in E3, E4.
  rewrite E3.
  cbn [mbind outcome_bind set_workers set_queues mJobWorkerCount mJobWorkerArr mConfig mJobQueueArr
    mJobQueueCount mStatCtrl].
  rewrite (ad_workers _ _ _ _ _ Ha), Nat2Z.id, E4. simpl_bind.
  unfold createTimer. rewrite Ht. eexists. split; [done|]. split_and!; try done.
  - by apply (ad_workers _ _ _ _ _ Ha).
  - by apply (ad_queues _ _ _ _ _ Ha).
  - intros k Hk. apply (progress_done _ _ _ _ _ Hp4 Hk).
Qed.

Lemma setup_short a (p : AdaptiveThreadPool W Q) c w n share :
  adjusted c w n share p → core_count a = Z.of_nat c → (c * w < n * share)%nat →
  ¬ is_ok (setup a p).
Proof.
  intros Ha Hc Hlt.
  destruct (setup_created a p c w n share Ha Hc) as (qarr & warr & p2 & E1 & E2 & -> & Hq & Hw & Hnone).
  destruct (ad_room _ _ _ _ _ Ha) as [Hroom _].
  set (f := λ k, createJobWorker (Z.of_nat k) (set_core (Z.of_nat (k / w)) (worker_config (mConfig p)))).
  set (queue := λ k, createJobQueue (Z.of_nat k) (mJobQueueType (mConfig p))).
  unfold setup. rewrite E1. simpl_bind. rewrite E2. simpl_bind.
  unfold assignQueuesToWorkers. cbn [set_workers set_queues mJobQueueCount mConfig mJobQueueArr mJobWorkerArr].
  rewrite (ad_queues _ _ _ _ _ Ha), (ad_share _ _ _ _ _ Ha), !Nat2Z.id.
  assert (Hno : ¬ is_ok (assign_queues n 0 share qarr 0 warr)).
  { change 0 with (Z.of_nat (0 * share)) at 2. change 0 with (Z.of_nat 0) at 1.
    apply (assign_queues_short n 0 share qarr queue f (c * w) warr); [nia|lia|lia| |done|].
    - intros k Hk. by apply Hq.
    - intros k Hk. rewrite decide_False by lia. by rewrite Hw. }
  by destruct (assign_queues n 0 share qarr 0 warr).
Qed.
(** ** A pool that is set up: [c] cores, [w] workers on each *)
Record pool_wf (c w : nat) (p : AdaptiveThreadPool W Q) : Prop := {
  pw_size : (0 < w)%nat ∧ (0 < c)%nat ∧ (c * w ≤ 128)%nat;
  pw_per_core : mWorkersPerCore (mConfig p) = Z.of_nat w;
  pw_count : mJobWorkerCount p = Z.of_nat (c * w);
  pw_workers : ∀ k, (k < c * w)%nat → ∃ x, mJobWorkerArr p !! k = Some (Some x);
  pw_next : ∀ core, (core < c)%nat → ∃ k, mNextJobWorkerOnEachCoreArr (mStatCtrl p) !! core =
              Some (Z.of_nat k) ∧ (k / w = core)%nat;
  pw_least : ∀ core, (core < c)%nat → ∃ k, mJobWorkerWithLeastJobOnEachCoreArr (mStatCtrl p) !! core =
              Some (Z.of_nat k) ∧ (k / w = core)%nat;
  pw_next_global : ∃ k, mNextGlobalJobWorker (mStatCtrl p) = Z.of_nat k ∧ (k < c * w)%nat;
  pw_least_global : ∃ k, mJobWorkerWithLeastJob (mStatCtrl p) = Z.of_nat k ∧ (k < c * w)%nat
}.

Definition same_core (policy : JobAssignPolicy) : bool :=
  match policy with
  | JOB_ASSIGN_SAME_CORE_ROUND_ROBIN | JOB_ASSIGN_SAME_CORE_LEAST_JOBS
  | JOB_ASSIGN_SAME_CORE_RANDOM => true
  | _ => false
  end.

(** The successor of worker [k] on its core, and among all. *)
Definition next_on_core (w k : nat) : nat := if decide ((S k) mod w = 0)%nat then (S k - w)%nat else S k.
Definition next_of (n k : nat) : nat := if decide (S k = n) then 0%nat else S k.

Lemma div_range w k core : (0 < w)%nat → (k / w = core)%nat ↔ (core * w ≤ k < S core * w)%nat.
Proof.
  intros Hw. split.
  - intros <-. pose proof (Nat.div_mod_eq k w). pose proof (Nat.mod_upper_bound k w). lia.
  - intros Hk. symmetry. apply (Nat.div_unique k w core (k - core * w)); lia.
Qed.

Lemma core_lt w c k core : (0 < w)%nat → (k / w = core)%nat → (core < c)%nat → (k < c * w)%nat.
Proof. intros Hw Hk Hc. apply (div_range w k core Hw) in Hk. nia. Qed.

Lemma next_on_core_core w k core : (0 < w)%nat → (k / w = core)%nat → (next_on_core w k / w = core)%nat.
Proof.
  intros Hw Hk. apply (div_range w _ _ Hw) in Hk. apply (div_range w _ _ Hw).
  unfold next_on_core. case_decide as Hd; [|].
  - apply Nat.Div0.mod_divides in Hd as [j Hj]. assert (j = S core) by nia. subst j. lia.
  - destruct (decide (S k = S core * w)%nat) as [E|]; [|lia].
    exfalso. apply Hd. rewrite E. apply Nat.Div0.mod_mul.
Qed.

(** The wrap-around test of the code. *)
Lemma next_on_core_code w k core c :
  (0 < w)%nat → (k / w = core)%nat → (core < c)%nat → (c * w ≤ 128)%nat →
  (if u32 (Z.of_nat k + 1) =? u32 (u32 (Z.of_nat core + 1) * Z.of_nat w)
   then u32 (Z.of_nat core * Z.of_nat w) else u32 (Z.of_nat k + 1))
  = Z.of_nat (next_on_core w k).
Proof.
  intros Hw Hk Hc Hroom. pose proof (core_lt w c k core Hw Hk Hc).
  pose proof (proj1 (div_range w k core Hw) Hk) as Hr.
  assert (c ≤ 128)%nat by nia. assert (S core * w ≤ 128)%nat by nia.
  rewrite (u32_small (Z.of_nat core + 1)) by lia.
  rewrite (u32_small (Z.of_nat k + 1)) by lia.
  replace ((Z.of_nat core + 1) * Z.of_nat w) with (Z.of_nat (S core * w)) by lia.
  rewrite <-Nat2Z.inj_mul, !u32_small by lia. unfold next_on_core.
  destruct (Z.eqb_spec (Z.of_nat k + 1) (Z.of_nat (S core * w))) as [E|E].
  - assert (E' : S k = (S core * w)%nat) by lia.
    rewrite decide_True by (rewrite E'; apply Nat.Div0.mod_mul). lia.
  - rewrite decide_False; [lia|]. intros Hd. apply Nat.Div0.mod_divides in Hd as [j Hj].
    assert (j = S core) by nia. subst j. lia.
Qed.

(** Every policy chooses a worker there is, on the caller's core when it says
    so, and keeps the counters in range. *)
Lemma choose_worker_ok c w ca policy p :
  pool_wf c w p → 0 ≤ cur_core ca < Z.of_nat c → 0 ≤ random ca → policy ≠ JOB_ASSIGN_MAX →
  ∃ k st, choose_worker ca policy p = Ok (Z.of_nat k, st) ∧ (k < c * w)%nat ∧
    (same_core policy = true → (k / w)%nat = Z.to_nat (cur_core ca)) ∧ pool_wf c w (set_stat p st).
Proof.
  intros Hw Hcore Hr Hpol. destruct (pw_size _ _ _ Hw) as (Hw0 & Hc0 & Hroom).
  destruct Hw as [_ Hper Hcnt Hwk Hnext Hleast Hng Hlg].
  set (core := Z.to_nat (cur_core ca)). assert (Ec : cur_core ca = Z.of_nat core) by lia.
  assert (Hcc : (core < c)%nat) by lia.
  assert (Hrd : ∀ l k, l !! core = Some (Z.of_nat k) → array_read l (Z.of_nat core) = Ok (Z.of_nat k)).
  { intros l k Hk. apply array_read_Ok. split; [lia|]. by rewrite Nat2Z.id. }
  destruct policy; try done; cbn [choose_worker same_core]; rewrite ?Ec.
  - destruct (Hnext core Hcc) as (k & Hk & Hkc). rewrite (Hrd _ _ Hk). simpl_bind.
    rewrite Hper, (next_on_core_code w k core c) by done.
    rewrite array_write_ok by (pose proof (lookup_lt_Some _ _ _ Hk); lia).
    simpl_bind. rewrite Nat2Z.id.
    eexists k, _. split_and!; [done|by eapply core_lt|by intros _; rewrite Hkc|].
    constructor; try done. intros core' Hc'. cbn [mStatCtrl set_stat set_next_on_core mNextJobWorkerOnEachCoreArr].
    destruct (decide (core' = core)) as [->|Hne].
    + exists (next_on_core w k). split; [|by apply next_on_core_core].
      apply list_lookup_insert_eq. by eapply lookup_lt_Some.
    + rewrite list_lookup_insert_ne by done. by apply Hnext.
  - destruct (Hleast core Hcc) as (k & Hk & Hkc). rewrite (Hrd _ _ Hk). simpl_bind.
    eexists k, _. split_and!; [done|by eapply core_lt|by intros _; rewrite Hkc|by constructor].
  - destruct Hng as (k & Hk & Hkn). rewrite Hk, u32_small, Hcnt by lia.
    eexists k, _. split_and!; [done|done|done|]. constructor; try done.
    cbn [mStatCtrl set_stat set_next_global mNextGlobalJobWorker].
    destruct (Z.eqb_spec (Z.of_nat k + 1) (Z.of_nat (c * w))); [by exists 0%nat; split; [|nia]|].
    exists (S k). lia.
  - destruct Hlg as (k & Hk & Hkn). rewrite Hk.
    eexists k, _. split_and!; [done|done|done|constructor; try done]. by exists k.
  - rewrite Hper. unfold u32_rem. rewrite (proj2 (Z.eqb_neq _ _)) by lia. simpl_bind.
    pose proof (Z.mod_pos_bound (random ca) (Z.of_nat w) ltac:(lia)) as Hm.
    set (r := Z.to_nat (random ca mod Z.of_nat w)). assert (Hrw : (r < w)%nat) by lia.
    exists (core * w + r)%nat, (mStatCtrl p).
    assert ((core * w + r) / w = core)%nat by (apply div_range; lia).
    assert (core * w + r < c * w)%nat by (by eapply core_lt).
    split_and!; [|done|intros _; lia|by constructor].
    rewrite u32_small by lia. do 2 f_equal. lia.
  - rewrite Hcnt. unfold u32_rem. rewrite (proj2 (Z.eqb_neq _ _)) by nia. simpl_bind.
    pose proof (Z.mod_pos_bound (random ca) (Z.of_nat (c * w)) ltac:(nia)) as Hm.
    exists (Z.to_nat (random ca mod Z.of_nat (c * w))). eexists.
    split_and!; [by rewrite Z2Nat.id by lia|lia|done|by constructor].
Qed.

Lemma addJob_ok c w ca job policy p :
  pool_wf c w p → 0 ≤ cur_core ca < Z.of_nat c → 0 ≤ random ca → policy ≠ JOB_ASSIGN_MAX →
  ∃ k st x p', choose_worker ca policy p = Ok (Z.of_nat k, st) ∧ (k < c * w)%nat ∧
    (same_core policy = true → (k / w)%nat = Z.to_nat (cur_core ca)) ∧
    mJobWorkerArr p !! k = Some (Some x) ∧
    addJob ca job policy p = Ok (p', (worker_addJob x job).2) ∧
    p' = set_stat (set_workers p (<[k := Some (worker_addJob x job).1]> (mJobWorkerArr p))) st ∧
    pool_wf c w p'.
Proof.
  intros Hw Hcore Hr Hpol.
  destruct (choose_worker_ok c w ca policy p Hw Hcore Hr Hpol) as (k & st & E & Hk & Hsame & Hw').
  destruct (pw_workers _ _ _ Hw k Hk) as [x Hx].
  exists k, st, x. eexists. split_and!; [done|done|done|done| |done|].
  - unfold addJob. rewrite E. simpl_bind. rewrite (deref_ok _ _ _ Hx).
    simpl_bind. destruct (worker_addJob x job) as [x' ok]. 
    rewrite array_write_ok by (pose proof (lookup_lt_Some _ _ _ Hx); lia).
    cbn [mbind outcome_bind fst snd]. by rewrite Nat2Z.id.
  - destruct Hw'. constructor; try done. intros j Hj. cbn [mJobWorkerArr set_stat set_workers].
    destruct (decide (j = k)) as [->|Hne].
    + rewrite list_lookup_insert_eq by (by eapply lookup_lt_Some). by eexists.
    + rewrite list_lookup_insert_ne by done. by apply (pw_workers _ _ _ Hw).
Qed.
(** ** The timer: the first of the least loaded workers *)

(** Among the workers [first] to [last - 1], [k] has the fewest jobs, and every
    one before it more. *)
Definition is_least (jobs : nat → Z) (first last k : nat) : Prop :=
  (first ≤ k < last)%nat ∧
  ∀ j, (first ≤ j < last)%nat → jobs k ≤ jobs j ∧ ((j < k)%nat → jobs k < jobs j).

Lemma least_loop_ok (x : nat → W) n i first k arr :
  (∀ j, (j < i + n)%nat → arr !! j = Some (Some (x j))) →
  is_least (λ j, worker_jobs (x j)) first i k →
  ∃ k', least_loop n (Z.of_nat i) arr (worker_jobs (x k)) (Z.of_nat k) = Ok (Z.of_nat k') ∧
    is_least (λ j, worker_jobs (x j)) first (i + n) k'.
Proof.
  revert i k. induction n as [|n IH]; intros i k Hx Hk; cbn [least_loop].
  - exists k. split; [done|]. by rewrite Nat.add_0_r.
  - rewrite (deref_ok _ _ _ (Hx i ltac:(lia))). simpl_bind.
    replace (Z.of_nat i + 1) with (Z.of_nat (S i)) by lia.
    replace (i + S n)%nat with (S i + n)%nat in * by lia. destruct Hk as [Hr Hk].
    destruct (Z.ltb_spec (worker_jobs (x i)) (worker_jobs (x k))) as [Hlt|Hge].
    + apply IH; [done|]. split; [lia|]. intros j Hj. destruct (decide (j = i)) as [->|]; [lia|].
      destruct (Hk j ltac:(lia)). lia.
    + apply IH; [done|]. split; [lia|]. intros j Hj. destruct (decide (j = i)) as [->|]; [lia|].
      destruct (Hk j ltac:(lia)). lia.
Qed.

Lemma least_job_ok (x : nat → W) n first arr :
  (0 < n)%nat → (∀ j, (j < first + n)%nat → arr !! j = Some (Some (x j))) →
  ∃ k, least_job (Z.of_nat n) (Z.of_nat first) arr = Ok (Z.of_nat k) ∧
    is_least (λ j, worker_jobs (x j)) first (first + n) k.
Proof.
  intros Hn Hx. unfold least_job. rewrite (deref_ok _ _ _ (Hx first ltac:(lia))).
  simpl_bind. replace (Z.of_nat first + 1) with (Z.of_nat (S first)) by lia.
  replace (Z.to_nat (Z.of_nat n - 1)) with (n - 1)%nat by lia.
  replace (first + n)%nat with (S first + (n - 1))%nat in * by lia.
  apply least_loop_ok; [done|]. split; [lia|]. intros j Hj. assert (j = first) as -> by lia. lia.
Qed.

Lemma least_on_cores_ok (x : nat → W) n core w arr least :
  (0 < w)%nat → ((core + n) * w ≤ 128)%nat →
  (∀ j, (j < (core + n) * w)%nat → arr !! j = Some (Some (x j))) → (core + n ≤ length least)%nat →
  ∃ least', least_on_cores n (Z.of_nat core) (Z.of_nat (core * w)) (Z.of_nat w) arr least = Ok least' ∧
    (∀ j, (core ≤ j < core + n)%nat → ∃ k, least' !! j = Some (Z.of_nat k) ∧
       is_least (λ j, worker_jobs (x j)) (j * w) (S j * w) k) ∧
    (∀ j, (j < core)%nat → least' !! j = least !! j).
Proof.
  intros Hw. revert core least. induction n as [|n IH]; intros core least Hroom Hx Hl; cbn [least_on_cores].
  { exists least. split_and!; [done| |done]. lia. }
  destruct (least_job_ok x w (core * w) arr Hw) as (k & E & Hk).
  { intros j Hj. apply Hx. nia. }
  rewrite E. simpl_bind. rewrite array_write_ok by lia. simpl_bind.
  rewrite Nat2Z.id. replace (Z.of_nat core + 1) with (Z.of_nat (S core)) by lia.
  rewrite u32_small by nia.
  replace (Z.of_nat (core * w) + Z.of_nat w) with (Z.of_nat (S core * w)) by lia.
  destruct (IH (S core) (<[core:=Z.of_nat k]> least)) as (least' & E' & Hin & Hout).
  { lia. }
  { intros j Hj. apply Hx. lia. }
  { rewrite length_insert. lia. }
  exists least'. split_and!; [done| |].
  - intros j Hj. destruct (decide (j = core)) as [->|]; [|apply Hin; lia].
    exists k. rewrite Hout, list_lookup_insert_eq by lia. split; [done|].
    by replace (S core * w)%nat with (core * w + w)%nat by lia.
  - intros j Hj. rewrite Hout by lia. apply list_lookup_insert_ne. lia.
Qed.

(** The workers of a pool as a function. *)
Lemma workers_fun (p : AdaptiveThreadPool W Q) m :
  (∀ k, (k < m)%nat → ∃ x, mJobWorkerArr p !! k = Some (Some x)) → (0 < m)%nat →
  ∃ x : nat → W, ∀ k, (k < m)%nat → mJobWorkerArr p !! k = Some (Some (x k)).
Proof.
  intros Hk Hm. destruct (Hk 0%nat Hm) as [x0 _].
  exists (λ k, match mJobWorkerArr p !! k with Some (Some x) => x | _ => x0 end).
  intros k Hlt. destruct (Hk k Hlt) as [x E]. by rewrite E.
Qed.

Lemma timer_round_ok a c w (p : AdaptiveThreadPool W Q) (x : nat → W) :
  pool_wf c w p → core_count a = Z.of_nat c →
  (∀ k, (k < c * w)%nat → mJobWorkerArr p !! k = Some (Some (x k))) →
  ∃ p', timer_round a p = Ok p' ∧ pool_wf c w p' ∧ mJobWorkerArr p' = mJobWorkerArr p ∧
    (∃ k, mJobWorkerWithLeastJob (mStatCtrl p') = Z.of_nat k ∧
       is_least (λ j, worker_jobs (x j)) 0 (c * w) k) ∧
    (∀ core, (core < c)%nat → ∃ k,
       mJobWorkerWithLeastJobOnEachCoreArr (mStatCtrl p') !! core = Some (Z.of_nat k) ∧
       is_least (λ j, worker_jobs (x j)) (core * w) (S core * w) k).
Proof.
  intros Hw Hc Hx. destruct (pw_size _ _ _ Hw) as (Hw0 & Hc0 & Hroom).
  unfold timer_round. rewrite (pw_count _ _ _ Hw), (pw_per_core _ _ _ Hw), Hc, Nat2Z.id.
  destruct (least_job_ok x (c * w) 0 (mJobWorkerArr p)) as (k & E & Hk); [nia|done|].
  change (Z.of_nat 0) with 0 in E. rewrite E. simpl_bind.
  destruct (least_on_cores_ok x c 0 w (mJobWorkerArr p)
    (mJobWorkerWithLeastJobOnEachCoreArr (mStatCtrl p)) Hw0) as (least & E' & Hin & _).
  { lia. }
  { intros j Hj. apply Hx. lia. }
  { destruct (pw_least _ _ _ Hw (c - 1)%nat ltac:(lia)) as (j & Hj & _).
    apply lookup_lt_Some in Hj. lia. }
  change (Z.of_nat (0 * w)) with 0 in E'. change (Z.of_nat 0) with 0 in E'. rewrite E'.
  simpl_bind. eexists. split; [done|].
  assert (Hin' : ∀ core, (core < c)%nat → ∃ k, least !! core = Some (Z.of_nat k) ∧
       is_least (λ j, worker_jobs (x j)) (core * w) (S core * w) k) by (intros; apply Hin; lia).
  split_and!; [|done|by exists k|done]. destruct Hw. constructor; try done.
  - intros core Hcore. destruct (Hin' core Hcore) as (j & Hj & [Hr _]). exists j.
    split; [done|]. by apply div_range.
  - exists k. split; [done|]. destruct Hk as [Hr _]. lia.
Qed.

(** ** Statistics at the start *)
Lemma initializeStatistics_ok (p : AdaptiveThreadPool W Q) :
  length (mNextJobWorkerOnEachCoreArr (mStatCtrl p)) = 128%nat →
  length (mJobWorkerWithLeastJobOnEachCoreArr (mStatCtrl p)) = 128%nat →
  ∃ next least, initializeStatistics p =
      Ok (set_stat p (MkStat (replicate 128 0) 0 next 0 least)) ∧
    ∀ k, (k < 128)%nat →
      next !! k = Some (u32 (Z.of_nat k * mWorkersPerCore (mConfig p))) ∧
      least !! k = Some (u32 (Z.of_nat k * mWorkersPerCore (mConfig p))).
Proof.
  intros L1 L2. unfold initializeStatistics. change (Z.to_nat MAX_WORKER_COUNT) with 128%nat.
  set (w := mWorkersPerCore (mConfig p)).
  assert (S : ∀ l : list Z, length l = 128%nat → ∃ l', init_cores 128 0 w l = Ok l' ∧
    ∀ k, (k < 128)%nat → l' !! k = Some (u32 (Z.of_nat k * w))).
  { intros l Hl. pose proof (progress_start (λ k, u32 (Z.of_nat k * w)) l 0) as Hp. rewrite Hl in Hp.
    destruct (init_cores_ok 128 0 w _ l Hp) as (l' & E & Hp').
    exists l'. split; [exact E|]. intros k Hk. by apply (progress_done _ _ _ _ _ Hp'). }
  destruct (S _ L1) as (next & E1 & H1). destruct (S _ L2) as (least & E2 & H2).
  rewrite E1. simpl_bind. rewrite E2. simpl_bind.
  exists next, least. split; [done|]. intros k Hk. by rewrite H1, H2.
Qed.
(** A pool set up after its statistics were initialised is well formed. *)
Lemma setup_wf a (p : AdaptiveThreadPool W Q) c w n share p' :
  adjusted c w n share p → core_count a = Z.of_nat c → timer_created a = true → (0 < c)%nat → (0 < w)%nat → (0 < share)%nat →
  (n * share = c * w)%nat →
  mNextGlobalJobWorker (mStatCtrl p) = 0 → mJobWorkerWithLeastJob (mStatCtrl p) = 0 →
  (∀ k, (k < 128)%nat →
     mNextJobWorkerOnEachCoreArr (mStatCtrl p) !! k = Some (u32 (Z.of_nat k * Z.of_nat w)) ∧
     mJobWorkerWithLeastJobOnEachCoreArr (mStatCtrl p) !! k = Some (u32 (Z.of_nat k * Z.of_nat w))) →
  setup a p = Ok p' → pool_wf c w p'.
Proof.
  intros Ha Hc Ht Hc0 Hw0 Hs0 Hcw Hg Hl Harr E. destruct (ad_room _ _ _ _ _ Ha) as [Hroom _].
  destruct (setup_ok a p c w n share Ha Hc Ht Hs0 Hcw) as (p1 & E1 & _ & Hcfg & Hcnt & _ & Hst & Hwk & _).
  rewrite E in E1. injection E1 as <-.
  assert (Hsm : ∀ core, (core < c)%nat → u32 (Z.of_nat core * Z.of_nat w) = Z.of_nat (core * w) ∧
    (core * w / w = core)%nat).
  { intros core Hcore. rewrite Nat.div_mul by lia. split; [|done]. rewrite <-Nat2Z.inj_mul. apply u32_small. nia. }
  constructor; rewrite ?Hst, ?Hcfg, ?Hcnt.
  - done.
  - apply (ad_per_core _ _ _ _ _ Ha).
  - apply (ad_workers _ _ _ _ _ Ha).
  - intros k Hk. rewrite Hwk by done. by eexists.
  - intros core Hcore. destruct (Hsm core Hcore) as [E1 E2]. destruct (Harr core) as [En _]; [nia|].
    rewrite E1 in En. by exists (core * w)%nat.
  - intros core Hcore. destruct (Hsm core Hcore) as [E1 E2]. destruct (Harr core) as [_ En]; [nia|].
    rewrite E1 in En. by exists (core * w)%nat.
  - exists 0%nat. split; [done|nia].
  - exists 0%nat. split; [done|nia].
Qed.

(** ** Round robin *)

(** The workers the jobs of [calls] go to. *)
Fixpoint chosen (calls : list (call_answers * J)) (policy : JobAssignPolicy)
    (p : AdaptiveThreadPool W Q) : outcome (list Z) :=
  match calls with
  | [] => Ok []
  | (ca, job) :: rest =>
      '(k, _) ← choose_worker ca policy p;
      '(p', _) ← addJob ca job policy p;
      ks ← chosen rest policy p';
      Ok (k :: ks)
  end.

(** How many of the calls came from a core. *)
Definition from_core (core : nat) (calls : list (call_answers * J)) : nat :=
  length (filter (λ c, cur_core c.1 = Z.of_nat core) calls).

Lemma from_core_cons core ca job calls :
  from_core core ((ca, job) :: calls) =
  ((if decide (cur_core ca = Z.of_nat core) then 1 else 0) + from_core core calls)%nat.
Proof. unfold from_core. rewrite filter_cons. simpl. by case_decide. Qed.

Lemma next_on_core_offset w core o :
  (o < w)%nat → next_on_core w (core * w + o) = (core * w + (S o) mod w)%nat.
Proof.
  intros Ho. unfold next_on_core.
  replace (S (core * w + o)) with (S o + core * w)%nat by lia. rewrite Nat.Div0.mod_add.
  destruct (decide (S o = w)) as [E|].
  - rewrite E, Nat.Div0.mod_same. rewrite decide_True by done. lia.
  - rewrite (Nat.mod_small (S o) w) by lia. rewrite decide_False by lia. lia.
Qed.

Lemma choose_core_rr c w ca core k p :
  pool_wf c w p → cur_core ca = Z.of_nat core → (core < c)%nat →
  mNextJobWorkerOnEachCoreArr (mStatCtrl p) !! core = Some (Z.of_nat k) → (k / w = core)%nat →
  choose_worker ca JOB_ASSIGN_SAME_CORE_ROUND_ROBIN p =
    Ok (Z.of_nat k, set_next_on_core (mStatCtrl p)
      (<[core := Z.of_nat (next_on_core w k)]> (mNextJobWorkerOnEachCoreArr (mStatCtrl p)))).
Proof.
  intros Hw Ec Hc Hk Hkc. destruct (pw_size _ _ _ Hw) as (Hw0 & _ & Hroom).
  cbn [choose_worker]. rewrite Ec.
  rewrite (proj2 (array_read_Ok _ (Z.of_nat core) (Z.of_nat k)))
    by (split; [lia|by rewrite Nat2Z.id]).
  simpl_bind. rewrite (pw_per_core _ _ _ Hw), (next_on_core_code w k core c) by done.
  rewrite array_write_ok by (pose proof (lookup_lt_Some _ _ _ Hk); lia).
  simpl_bind. by rewrite Nat2Z.id.
Qed.

Definition calls_ok (c : nat) (calls : list (call_answers * J)) : Prop :=
  Forall (λ x, 0 ≤ cur_core x.1 < Z.of_nat c ∧ 0 ≤ random x.1) calls.

Lemma chosen_core_rr c w calls p (o : nat → nat) :
  pool_wf c w p → calls_ok c calls →
  (∀ core, (core < c)%nat → (o core < w)%nat ∧
     mNextJobWorkerOnEachCoreArr (mStatCtrl p) !! core = Some (Z.of_nat (core * w + o core))) →
  ∃ ks, chosen calls JOB_ASSIGN_SAME_CORE_ROUND_ROBIN p = Ok ks ∧ length ks = length calls ∧
    ∀ i x core, calls !! i = Some x → cur_core x.1 = Z.of_nat core →
      ks !! i = Some (Z.of_nat (core * w + (o core + from_core core (take i calls)) mod w)).
Proof.
  revert p o. induction calls as [|[ca job] calls IH]; intros p o Hw Hcalls Ho; [by exists []|].
  apply Forall_cons in Hcalls as [[Hc Hr] Hcalls]. cbn [fst] in *.
  set (core := Z.to_nat (cur_core ca)). assert (Ec : cur_core ca = Z.of_nat core) by lia.
  assert (Hcc : (core < c)%nat) by lia. destruct (Ho core Hcc) as [Hoc Hn].
  destruct (pw_size _ _ _ Hw) as (Hw0 & _ & Hroom).
  assert (Hdiv : ((core * w + o core) / w = core)%nat) by (apply div_range; lia).
  pose proof (choose_core_rr c w ca core _ p Hw Ec Hcc Hn Hdiv) as E.
  destruct (addJob_ok c w ca job JOB_ASSIGN_SAME_CORE_ROUND_ROBIN p Hw Hc Hr) as
    (k & st & x & p' & E' & _ & _ & _ & Ea & Ep & Hw'); [done|].
  rewrite E in E'. apply Ok_pair in E' as [_ <-].
  destruct (IH p' (λ j, if decide (j = core) then (S (o core) mod w)%nat else o j) Hw' Hcalls)
    as (ks & Ek & Hl & Hks).
  { intros j Hj. rewrite Ep. cbn [mStatCtrl set_stat set_next_on_core mNextJobWorkerOnEachCoreArr].
    destruct (decide (j = core)) as [->|Hne].
    - split; [apply Nat.mod_upper_bound; lia|].
      rewrite list_lookup_insert_eq by (by eapply lookup_lt_Some). by rewrite next_on_core_offset.
    - rewrite list_lookup_insert_ne by done. by apply Ho. }
  exists (Z.of_nat (core * w + o core) :: ks). cbn [chosen]. rewrite E. simpl_bind.
  rewrite Ea. simpl_bind. rewrite Ek. simpl_bind.
  split_and!; [done|by simpl; rewrite Hl|]. intros [|i] y j Hy Hj.
  - injection Hy as <-. cbn [fst] in Hj. assert (j = core) as -> by lia. cbn [take]. simpl.
    unfold from_core. simpl. by rewrite Nat.add_0_r, Nat.mod_small.
  - cbn [lookup list_lookup] in Hy. rewrite firstn_cons, from_core_cons. change ((_ :: ks) !! S i) with (ks !! i).
    rewrite (Hks i y j Hy Hj). do 3 f_equal. destruct (decide (j = core)) as [->|Hne].
    + rewrite decide_True by done. rewrite Nat.Div0.add_mod_idemp_l. f_equal. lia.
    + by rewrite decide_False by lia.
Qed.

Lemma chosen_global_rr c w calls p s :
  pool_wf c w p → calls_ok c calls → mNextGlobalJobWorker (mStatCtrl p) = Z.of_nat s → (s < c * w)%nat →
  ∃ ks, chosen calls JOB_ASSIGN_ROUND_ROBIN p = Ok ks ∧ length ks = length calls ∧
    ∀ i, (i < length calls)%nat → ks !! i = Some (Z.of_nat ((s + i) mod (c * w))).
Proof.
  revert p s. induction calls as [|[ca job] calls IH]; intros p s Hw Hcalls Hs Hlt.
  { exists []. split_and!; [done|done|]. intros i Hi. simpl in Hi. lia. }
  apply Forall_cons in Hcalls as [[Hc Hr] Hcalls]. cbn [fst] in *.
  destruct (pw_size _ _ _ Hw) as (Hw0 & Hc0 & Hroom).
  destruct (addJob_ok c w ca job JOB_ASSIGN_ROUND_ROBIN p Hw Hc Hr) as
    (k & st & x & p' & E & _ & _ & _ & Ea & Ep & Hw'); [done|].
  assert (E' := E). cbn [choose_worker] in E'. apply Ok_pair in E' as [Ek Est].
  rewrite Hs in Ek. apply Nat2Z.inj in Ek as <-.
  rewrite Hs, u32_small, (pw_count _ _ _ Hw) in Est by lia.
  assert (Hs' : mNextGlobalJobWorker (mStatCtrl p') = Z.of_nat (S s mod (c * w))).
  { rewrite Ep, <-Est. cbn [mStatCtrl set_stat set_next_global mNextGlobalJobWorker].
    destruct (Z.eqb_spec (Z.of_nat s + 1) (Z.of_nat (c * w))).
    - assert (S s = c * w)%nat as -> by lia. by rewrite Nat.Div0.mod_same.
    - rewrite Nat.mod_small by lia. lia. }
  destruct (IH p' _ Hw' Hcalls Hs') as (ks & Ek & Hl & Hks); [apply Nat.mod_upper_bound; nia|].
  exists (Z.of_nat s :: ks). cbn [chosen]. rewrite E. simpl_bind.
  rewrite Ea. simpl_bind. rewrite Ek. simpl_bind.
  split_and!; [done|by simpl; rewrite Hl|]. intros [|i] Hi.
  - simpl. by rewrite Nat.add_0_r, Nat.mod_small.
  - change ((_ :: ks) !! S i) with (ks !! i). simpl in Hi. rewrite Hks by lia.
    rewrite Nat.Div0.add_mod_idemp_l. do 3 f_equal. lia.
Qed.

(** ** Too many workers for the array *)
Lemma create_on_core_overflow n cfg id arr :
  (id ≤ length arr)%nat → (length arr < id + n)%nat → Z.of_nat (length arr) < 4294967295 →
  ¬ is_ok (create_on_core n cfg (Z.of_nat id) arr).
Proof.
  revert id arr. induction n as [|n IH]; intros id arr Hid Hn H32; [lia|]. cbn [create_on_core].
  rewrite bind_is_ok. intros (arr1 & E & Hok). apply array_write_Ok in E as [Hlt ->].
  rewrite u32_small in Hok by lia. replace (Z.of_nat id + 1) with (Z.of_nat (S id)) in Hok by lia.
  revert Hok. apply IH; rewrite length_insert; lia.
Qed.
(** ** The check *)
Lemma adjust_priority_range a policy priority :
  min_priority a policy ≤ max_priority a policy →
  min_priority a policy ≤ adjust_priority a policy priority ≤ max_priority a policy.
Proof.
  intros Hlh. unfold adjust_priority.
  destruct (Z.ltb_spec priority (min_priority a policy)), (Z.ltb_spec (max_priority a policy) priority);
    destruct (bool_decide _); cbn [andb];
    repeat match goal with |- context [if ?x =? ?y then _ else _] => destruct (Z.eqb_spec x y)
      | |- context [if ?x <? ?y then _ else _] => destruct (Z.ltb_spec x y) end; lia.
Qed.

Lemma adjust_priority_reserved a policy priority :
  policy = THREADSCHED_REALTIME_NO_SLICE → min_priority a policy < max_priority a policy →
  adjust_priority a policy priority < max_priority a policy.
Proof.
  intros Hp Hlh. unfold adjust_priority. rewrite (bool_decide_eq_true_2 _ Hp). cbn [andb].
  destruct (Z.ltb_spec priority (min_priority a policy)), (Z.ltb_spec (max_priority a policy) priority);
    repeat match goal with |- context [if ?x =? ?y then _ else _] => destruct (Z.eqb_spec x y)
      | |- context [if ?x <? ?y then _ else _] => destruct (Z.ltb_spec x y) end; lia.
Qed.

(** An accepted configuration, in the terms of the set-up. *)
Lemma adjustConfig_adjusted a (p p1 : AdaptiveThreadPool W Q) c w share :
  core_count a = Z.of_nat c → mWorkersPerCore (mConfig p) = Z.of_nat w → (c * w ≤ 128)%nat →
  mQueueShareFactor (mConfig p) = Z.of_nat share → (0 < share ≤ 128)%nat →
  mJobWorkerArr p = replicate 128 None → mJobQueueArr p = replicate 128 None →
  adjustConfig a p = Ok (p1, true) →
  ∃ n, adjusted c w n share p1 ∧
    match mJobQueueType (mConfig p) with
    | JOBQUEUE_TYPE_EXCLUSIVE => n = (c * w)%nat
    | JOBQUEUE_TYPE_SHARED => (n * share < c * w + share)%nat ∧ (c * w ≤ n * share)%nat
    | JOBQUEUE_TYPE_MAX => False
    end.
Proof.
  intros Hc Hw Hroom Hs Hs0 Hwa Hqa E. unfold adjustConfig in E.
  rewrite Hc, Hw, <-Nat2Z.inj_mul, u32_small in E by lia.
  destruct (MAX_WORKER_COUNT <? _); [by apply Ok_pair in E as [_ ?]|].
  destruct (negb _ && negb _); [by apply Ok_pair in E as [_ ?]|].
  apply bind_Ok in E as (q & Eq & E). apply Ok_pair in E as [<- _].
  destruct (mJobQueueType (mConfig p)); [| |done].
  - injection Eq as <-. exists (c * w)%nat. by split.
  - rewrite Hs in Eq. unfold u32_div in Eq. rewrite (proj2 (Z.eqb_neq _ _)) in Eq by lia.
    injection Eq as <-. rewrite u32_small by lia.
    set (n := Z.to_nat ((Z.of_nat (c * w) + Z.of_nat share - 1) / Z.of_nat share)).
    pose proof (Z.div_mod (Z.of_nat (c * w) + Z.of_nat share - 1) (Z.of_nat share) ltac:(lia)) as Hd.
    pose proof (Z.mod_pos_bound (Z.of_nat (c * w) + Z.of_nat share - 1) (Z.of_nat share) ltac:(lia)).
    assert (Hq : (Z.of_nat (c * w) + Z.of_nat share - 1) / Z.of_nat share = Z.of_nat n).
    { unfold n. rewrite Z2Nat.id; [done|]. apply Z.div_pos; lia. }
    rewrite Hq in Hd |- *. exists n.
    assert (Hn : (n * share < c * w + share)%nat ∧ (c * w ≤ n * share)%nat) by lia.
    split; [|done]. split; try done. split; [done|]. nia.
Qed.

Lemma delete_all_ok {A} n (f : nat → A) (arr : list (option A)) :
  (∀ k, (k < n)%nat → arr !! k = Some (Some (f k))) →
  ∃ l, delete_all n 0 arr = Ok l ∧ l = f <$> seq 0 n.
Proof.
  intros Hf. enough (G : ∀ i, (∀ k, (k < i + n)%nat → arr !! k = Some (Some (f k))) →
    delete_all n (Z.of_nat i) arr = Ok (f <$> seq i n)) by (eexists; split; [by apply (G 0%nat)|done]).
  clear Hf. induction n as [|n IH]; intros i Hf; [done|]. cbn [delete_all].
  rewrite (deref_ok _ _ _ (Hf i ltac:(lia))). simpl_bind.
  replace (Z.of_nat i + 1) with (Z.of_nat (S i)) by lia.
  rewrite IH; [done|]. intros k Hk. apply Hf. lia.
Qed.
End Pool.
