(* ===== verification/PoolLife.v ===== *)
(** * The life of a thread pool (AdaptiveThreadPool)

    The whole life of a pool: set-up, any sequence of [addJob], [getJobCount]
    and rounds of the timer, then the destructor; and the configurations that
    are rejected before it begins. *)
From S2P Require Import Prelude Semaphore PoolConfig ThreadPool PoolInv.

Section Pool.
Context {W Q J : Type} `{PoolParts W Q J}.

(** ** An object of the class: the lengths of its arrays and its [unsigned int]s *)
Definition is_u32 (z : Z) : Prop := 0 ≤ z < 4294967296.

Record stat_typed (st : StatisticCtrl) : Prop := {
  st_processed : length (mWorkerProcessedCountArr st) = 128%nat;
  st_next : length (mNextJobWorkerOnEachCoreArr st) = 128%nat ∧ Forall is_u32 (mNextJobWorkerOnEachCoreArr st);
  st_least : length (mJobWorkerWithLeastJobOnEachCoreArr st) = 128%nat ∧
             Forall is_u32 (mJobWorkerWithLeastJobOnEachCoreArr st);
  st_globals : is_u32 (mNextGlobalJobWorker st) ∧ is_u32 (mJobWorkerWithLeastJob st)
}.

Record pool_typed (p : AdaptiveThreadPool W Q) : Prop := {
  pt_workers : length (mJobWorkerArr p) = 128%nat;
  pt_queues : length (mJobQueueArr p) = 128%nat;
  pt_counts : is_u32 (mJobWorkerCount p) ∧ is_u32 (mJobQueueCount p);
  pt_config : is_u32 (mWorkersPerCore (mConfig p)) ∧ is_u32 (mQueueShareFactor (mConfig p));
  pt_stat : stat_typed (mStatCtrl p)
}.

(** ** The calls on a pool, and the rounds of its timer, in any order *)
Inductive pool_op :=
  | OpAdd (ca : call_answers) (job : J) (policy : JobAssignPolicy)
  | OpCount
  | OpTimer.

(** The timer's thread goes round while [mTimerRun] is set. *)
Definition pool_do (a : sys_answers) (p : AdaptiveThreadPool W Q) (op : pool_op) : outcome (AdaptiveThreadPool W Q) :=
  match op with
  | OpAdd ca job policy => '(p', _) ← addJob ca job policy p; Ok p'
  | OpCount => _ ← getJobCount p; Ok p
  | OpTimer => if mTimerRun p then timer_round a p else Ok p
  end.

Fixpoint pool_calls (a : sys_answers) (p : AdaptiveThreadPool W Q) (ops : list pool_op) : outcome (AdaptiveThreadPool W Q) :=
  match ops with
  | [] => Ok p
  | op :: ops' => p' ← pool_do a p op; pool_calls a p' ops'
  end.

(** The jobs added, each with its call. *)
Fixpoint jobs_added (ops : list pool_op) : list (call_answers * JobAssignPolicy * J) :=
  match ops with
  | [] => []
  | OpAdd ca job policy :: ops' => (ca, policy, job) :: jobs_added ops'
  | _ :: ops' => jobs_added ops'
  end.

(** Calls from cores there are, with policies there are. *)
Definition call_ok (c : nat) (x : call_answers * JobAssignPolicy * J) : Prop :=
  0 ≤ cur_core x.1.1 < Z.of_nat c ∧ 0 ≤ random x.1.1 ∧ x.1.2 ≠ JOB_ASSIGN_MAX.

(** Where the jobs went, [(k, job)] each, and what that makes of a worker. *)
Definition take_job (x : W) (job : J) : W := (worker_addJob x job).1.
Definition jobs_of (k : nat) (ds : list (nat * J)) : list J := snd <$> filter (λ d, d.1 = k) ds.
Definition after_jobs (x : nat → W) (ds : list (nat * J)) (k : nat) : W := foldl take_job (x k) (jobs_of k ds).

(** A delivery a call allows: the job, to a worker of the pool, and of the
    caller's core if the policy says so. *)
Definition delivery (c w : nat) (x : call_answers * JobAssignPolicy * J) (d : nat * J) : Prop :=
  d.2 = x.2 ∧ (d.1 < c * w)%nat ∧ (same_core x.1.2 = true → (d.1 / w)%nat = Z.to_nat (cur_core x.1.1)).

(** What the calls leave alone. *)
Record same_pool (p p' : AdaptiveThreadPool W Q) : Prop := {
  sp_config : mConfig p' = mConfig p;
  sp_count : mJobWorkerCount p' = mJobWorkerCount p;
  sp_queues : mJobQueueArr p' = mJobQueueArr p;
  sp_queue_count : mJobQueueCount p' = mJobQueueCount p;
  sp_timer : mTimerThread p' = mTimerThread p
}.

Lemma same_pool_trans p1 p2 p3 : same_pool p1 p2 → same_pool p2 p3 → same_pool p1 p3.
Proof. intros [] []. split; congruence. Qed.

Lemma timer_round_same a (p p' : AdaptiveThreadPool W Q) : timer_round a p = Ok p' → same_pool p p'.
Proof. unfold timer_round. intros E. apply bind_Ok in E as (l & _ & E). by apply bind_Ok in E as (cores & _ & [= <-]). Qed.

Lemma count_jobs_ok (x : nat → W) n i (arr : list (option W)) count :
  (∀ k, (k < i + n)%nat → arr !! k = Some (Some (x k))) → 0 ≤ count < 2 ^ 64 →
  count_jobs n (Z.of_nat i) arr count = Ok (u64 (count + zsum (λ k, worker_jobs (x k)) (seq i n))).
Proof.
  revert i count. induction n as [|n IH]; intros i count Hx Hc; cbn [count_jobs seq zsum].
  - f_equal. rewrite Z.add_0_r. unfold u64. symmetry. by apply Z.mod_small.
  - rewrite (deref_ok _ _ _ (Hx i ltac:(lia))). simpl_bind. replace (Z.of_nat i + 1) with (Z.of_nat (S i)) by lia.
    rewrite IH by (by apply Z.mod_pos_bound || (intros; apply Hx; lia)). f_equal. unfold u64.
    rewrite Zplus_mod_idemp_l. f_equal. lia.
Qed.

Lemma getJobCount_ok c w (p : AdaptiveThreadPool W Q) (x : nat → W) :
  pool_wf c w p → (∀ k, (k < c * w)%nat → mJobWorkerArr p !! k = Some (Some (x k))) →
  getJobCount p = Ok (u64 (zsum (λ k, worker_jobs (x k)) (seq 0 (c * w)))).
Proof.
  intros Hw Hx. unfold getJobCount. rewrite (pw_count _ _ _ Hw), Nat2Z.id.
  by rewrite (count_jobs_ok x (c * w) 0) by (done || lia).
Qed.

Lemma after_jobs_cons x k job ds j :
  after_jobs x ((k, job) :: ds) j = after_jobs (λ i, if decide (i = k) then take_job (x k) job else x i) ds j.
Proof.
  unfold after_jobs, jobs_of. rewrite filter_cons. cbn [fst]. repeat case_decide; subst; done.
Qed.

(** One call: no fault, the pool's invariant kept, and its job delivered. *)
Lemma pool_do_ok a c w (p : AdaptiveThreadPool W Q) (x : nat → W) op :
  pool_wf c w p → core_count a = Z.of_nat c → Forall (call_ok c) (jobs_added [op]) →
  (∀ k, (k < c * w)%nat → mJobWorkerArr p !! k = Some (Some (x k))) →
  ∃ p' ds, pool_do a p op = Ok p' ∧ pool_wf c w p' ∧ same_pool p p' ∧
    Forall2 (delivery c w) (jobs_added [op]) ds ∧
    ∀ k, (k < c * w)%nat → mJobWorkerArr p' !! k = Some (Some (after_jobs x ds k)).
Proof.
  intros Hw Hc Hok Hx. destruct op as [ca job policy| |]; cbn [jobs_added pool_do] in *.
  - apply Forall_singleton in Hok as (Hcore & Hr & Hp). cbn in Hcore, Hr, Hp.
    destruct (addJob_ok c w ca job policy p Hw Hcore Hr Hp) as (k & st & y & p' & _ & Hk & Hs & Hy & E & Ep & Hw').
    rewrite E. simpl_bind. exists p', [(k, job)]. split_and!; [done|done|by subst|by repeat constructor|].
    rewrite Hx in Hy by done. simplify_eq. intros j Hj. cbn [mJobWorkerArr set_stat set_workers].
    rewrite after_jobs_cons. unfold after_jobs. cbn. destruct (decide (j = k)) as [->|Hne].
    + rewrite list_lookup_insert_eq; [done|]. by eapply lookup_lt_Some, Hx.
    + rewrite list_lookup_insert_ne by done. by apply Hx.
  - rewrite (getJobCount_ok c w p x Hw Hx). simpl_bind. by exists p, [].
  - destruct (mTimerRun p); [|by exists p, []].
    destruct (timer_round_ok a c w p x Hw Hc Hx) as (p' & E & Hw' & Ha & _). exists p', [].
    split_and!; [done|done|by eapply timer_round_same|done|]. intros k Hk. rewrite Ha. by apply Hx.
Qed.

Lemma jobs_added_cons op ops : jobs_added (op :: ops) = jobs_added [op] ++ jobs_added ops.
Proof. by destruct op. Qed.

Lemma after_jobs_app x ds1 ds2 k : after_jobs x (ds1 ++ ds2) k = after_jobs (after_jobs x ds1) ds2 k.
Proof. unfold after_jobs, jobs_of. by rewrite filter_app, fmap_app, foldl_app. Qed.

(** Any sequence of them. *)
Lemma pool_calls_ok a c w ops (p : AdaptiveThreadPool W Q) (x : nat → W) :
  pool_wf c w p → core_count a = Z.of_nat c → Forall (call_ok c) (jobs_added ops) →
  (∀ k, (k < c * w)%nat → mJobWorkerArr p !! k = Some (Some (x k))) →
  ∃ p' ds, pool_calls a p ops = Ok p' ∧ pool_wf c w p' ∧ same_pool p p' ∧
    Forall2 (delivery c w) (jobs_added ops) ds ∧
    ∀ k, (k < c * w)%nat → mJobWorkerArr p' !! k = Some (Some (after_jobs x ds k)).
Proof.
  intros Hw Hc. revert p x Hw. induction ops as [|op ops IH]; intros p x Hw Hok Hx; [by exists p, []|].
  rewrite jobs_added_cons in *. apply Forall_app in Hok as [Hop Hok]. cbn [pool_calls].
  destruct (pool_do_ok a c w p x op Hw Hc Hop Hx) as (p1 & ds1 & E1 & Hw1 & Hs1 & Hd1 & Hx1). rewrite E1. simpl_bind.
  destruct (IH p1 _ Hw1 Hok Hx1) as (p2 & ds2 & E2 & Hw2 & Hs2 & Hd2 & Hx2).
  exists p2, (ds1 ++ ds2). split_and!; [done|done|by eapply same_pool_trans|by apply Forall2_app|].
  intros k Hk. by rewrite after_jobs_app, Hx2.
Qed.

(** ** From the constructor to the destructor *)
(** What the destructor does to a pool with these workers and queues: the
    timer's thread joined, the 129 semaphores destroyed, then each worker and
    each queue deleted. *)
Definition tear_down_acts (ws : list W) (qs : list Q) : list (stop_act W Q) :=
  JoinTimer :: DestroyGlobalLock :: (DestroyCoreLock <$> seq 0 128) ++ (DeleteWorker <$> ws) ++ (DeleteQueue <$> qs).

(** The configurations [checkAndAjustConfig] returns false for. *)
Definition rejected (a : sys_answers) (cfg : ThreadPoolConfig) : Prop :=
  MAX_WORKER_COUNT < u32 (core_count a * mWorkersPerCore cfg) ∨
  mThreadPolicy (worker_config cfg) ≠ THREADSCHED_DEFAULT ∧ uid a ≠ 0.

(** The undefined behaviour in which it ends for the others: its closing brace,
    but for a share factor of zero and a type of queue that is none. *)
Definition check_fault (cfg : ThreadPoolConfig) : fault :=
  match mJobQueueType cfg with
  | JOBQUEUE_TYPE_EXCLUSIVE => MissingReturn
  | JOBQUEUE_TYPE_SHARED => if mQueueShareFactor cfg =? 0 then DivByZero else MissingReturn
  | JOBQUEUE_TYPE_MAX => AssertFailed
  end.

Lemma rejected_iff a (p : AdaptiveThreadPool W Q) :
  let cfg := mConfig p in
  rejected a cfg ↔ (MAX_WORKER_COUNT <? u32 (core_count a * mWorkersPerCore cfg)) = true ∨
    negb (bool_decide (mThreadPolicy (worker_config cfg) = THREADSCHED_DEFAULT)) && negb (uid a =? 0) = true.
Proof. intros cfg. unfold rejected. by rewrite Z.ltb_lt, andb_true_iff, !negb_true_iff, bool_decide_eq_false, Z.eqb_neq. Qed.

(** How the check ends: rejected, with nothing changed but the number of
    workers; at its end, or where the queues cannot be counted. *)
Lemma adjustConfig_ends a (p : AdaptiveThreadPool W Q) :
  match adjustConfig a p with
  | Ok (p', false) =>
      rejected a (mConfig p) ∧ mName p' = mName p ∧ mConfig p' = mConfig p ∧ mTimerThread p' = mTimerThread p
  | Ok (_, true) =>
      ¬ rejected a (mConfig p) ∧ check_fault (mConfig p) = MissingReturn
  | Fault f => ¬ rejected a (mConfig p) ∧ f = check_fault (mConfig p)
  end.
Proof.
  pose proof (rejected_iff a p) as Hr. cbn zeta in Hr. unfold adjustConfig.
  destruct (MAX_WORKER_COUNT <? _); [split_and!; [apply Hr; by left|done..]|].
  destruct (negb _ && negb _); [split_and!; [apply Hr; by right|done..]|].
  assert (Hno : ¬ rejected a (mConfig p)) by (intros Hre; apply Hr in Hre; by destruct Hre).
  unfold check_fault. destruct (mJobQueueType (mConfig p)); [done| |done].
  unfold u32_div. by destruct (mQueueShareFactor (mConfig p) =? 0).
Qed.

Lemma adjustConfig_stat a (p p' : AdaptiveThreadPool W Q) ok : adjustConfig a p = Ok (p', ok) → mStatCtrl p' = mStatCtrl p.
Proof.
  intros E. unfold adjustConfig in E. destruct (MAX_WORKER_COUNT <? _); [by apply Ok_pair in E as [<- _]|].
  destruct (negb _ && negb _); [by apply Ok_pair in E as [<- _]|].
  apply bind_Ok in E as (q & _ & E). by apply Ok_pair in E as [<- _].
Qed.

(** The share factors set-up can use. *)
Definition share_fits (type : JobQueueType) (share workers : nat) : Prop :=
  match type with JOBQUEUE_TYPE_EXCLUSIVE => share = 1%nat | _ => Nat.divide share workers end.

Lemma pool_set_up_ok a c w share (p p1 p2 : AdaptiveThreadPool W Q) :
  pool_typed p → mJobWorkerArr p = replicate 128 None → mJobQueueArr p = replicate 128 None →
  core_count a = Z.of_nat c → timer_created a = true → (0 < c)%nat → (0 < w)%nat → (c * w ≤ 128)%nat →
  mWorkersPerCore (mConfig p) = Z.of_nat w → mQueueShareFactor (mConfig p) = Z.of_nat share → (0 < share ≤ 128)%nat →
  share_fits (mJobQueueType (mConfig p)) share (c * w) →
  initializeStatistics p = Ok p1 → adjustConfig a p1 = Ok (p2, true) →
  ∃ n p3, (n * share = c * w)%nat ∧ setup a p2 = Ok p3 ∧ pool_wf c w p3 ∧ mTimerThread p3 = TimerThread ∧
    mJobQueueCount p3 = Z.of_nat n ∧
    (∀ k, (k < c * w)%nat → mJobWorkerArr p3 !! k = Some (Some (worker_at w share (mConfig p2) k))) ∧
    (∀ k, (k < n)%nat → mJobQueueArr p3 !! k = Some (Some (createJobQueue (Z.of_nat k) (mJobQueueType (mConfig p2))))).
Proof.
  intros [_ _ _ _ [_ [L1 _] [L2 _] _]] Hwa Hqa Hc Ht Hc0 Hw0 Hroom Hw Hs Hs0 Hfit E1 E2.
  destruct (initializeStatistics_ok p L1 L2) as (next & least & E1' & Harr).
  assert (Ep : p1 = set_stat p (MkStat (replicate 128 0) 0 next 0 least)) by congruence.
  destruct (adjustConfig_adjusted a p1 p2 c w share) as (n & Had & Hn); [by rewrite ?Ep..|done|].
  pose proof (adjustConfig_stat _ _ _ _ E2) as Hst. rewrite Ep in Hst, Hn. cbn [set_stat mStatCtrl mConfig] in Hst, Hn.
  assert (Hcw : (n * share = c * w)%nat).
  { destruct (mJobQueueType (mConfig p)); cbn in Hfit; [subst; lia| |done].
    destruct Hfit as [d Hd]. destruct Hn as [Hlt Hle]. rewrite Hd in Hlt, Hle |- *. f_equal.
    assert (n < S d)%nat by (apply (Nat.mul_lt_mono_pos_r share); lia).
    assert (d ≤ n)%nat by (apply (Nat.mul_le_mono_pos_r _ _ share); lia). lia. }
  destruct (setup_ok a p2 c w n share Had Hc Ht ltac:(lia) Hcw) as (p3 & E3 & Hrun & _ & _ & Hqc & _ & Hwk & Hqk).
  exists n, p3. split_and!; [done|done| |done|by rewrite Hqc, (ad_queues _ _ _ _ _ Had)|done|done].
  eapply (setup_wf a p2 c w n share); try done; try lia.
  - by rewrite Hst.
  - by rewrite Hst.
  - intros k Hk. rewrite Hst. cbn. rewrite <-Hw. by apply Harr.
Qed.

Lemma stop_ok c w n (p : AdaptiveThreadPool W Q) (x : nat → W) (q : nat → Q) :
  mTimerThread p = TimerThread → pool_wf c w p → mJobQueueCount p = Z.of_nat n →
  (∀ k, (k < c * w)%nat → mJobWorkerArr p !! k = Some (Some (x k))) →
  (∀ k, (k < n)%nat → mJobQueueArr p !! k = Some (Some (q k))) →
  stopWorkers p = Ok (set_timer_run false p, tear_down_acts (x <$> seq 0 (c * w)) (q <$> seq 0 n)).
Proof.
  intros Ht Hw Hn Hx Hq. unfold stopWorkers.
  cbn [set_timer_run mTimerThread mJobWorkerCount mJobWorkerArr mJobQueueCount mJobQueueArr]. rewrite Ht. cbn [join_timer].
  simpl_bind. rewrite (pw_count _ _ _ Hw), Hn, !Nat2Z.id.
  destruct (delete_all_ok (c * w) x (mJobWorkerArr p) Hx) as (ws & -> & ->).
  by destruct (delete_all_ok n q (mJobQueueArr p) Hq) as (qs & -> & ->).
Qed.
End Pool.
