(* ===== verification/PoolThreads.v ===== *)
(** * The thread pool under concurrent calls (AdaptiveThreadPool)

    [addJob] called by any number of threads at once, one access to shared
    memory at a time: the semaphore of a round-robin counter, the accesses
    between [sem_wait] and [sem_post], the words the timer writes, and the job
    handed to its worker; the timer's thread the same way, with the workers'
    own threads and the destructor's first statement among them.  [JobWorker]
    is a parameter: a call of one of its methods is one action. *)
From S2P Require Import Prelude Semaphore PoolConfig ThreadPool.

(** ** The counters and their locks *)

(** [mNextGlobalJobWorker], or an element of [mNextJobWorkerOnEachCoreArr]. *)
Inductive counter := Global | OnCore (core : Z).
#[export] Instance counter_eq_dec : EqDecision counter.
Proof. solve_decision. Defined.

Record locks := Locks { mGlobalLock_Next : sem_t; mCoreLock_Next_Arr : list sem_t }.

(** The locks after [initializeStatistics]. *)
Definition init_locks : locks := Locks (sem_init 0 1) (replicate (Z.to_nat MAX_WORKER_COUNT) (sem_init 0 1)).

Definition load_lock (ct : counter) (l : locks) : outcome sem_t :=
  match ct with Global => Ok (mGlobalLock_Next l) | OnCore core => array_read (mCoreLock_Next_Arr l) core end.
Definition store_lock (ct : counter) (s : sem_t) (l : locks) : outcome locks :=
  match ct with
  | Global => Ok (Locks s (mCoreLock_Next_Arr l))
  | OnCore core => arr ← array_write (mCoreLock_Next_Arr l) core s; Ok (Locks (mGlobalLock_Next l) arr)
  end.

(** The counter the policy goes by, if it is a round robin. *)
Definition counter_of (ca : call_answers) (policy : JobAssignPolicy) : option counter :=
  match policy with
  | JOB_ASSIGN_SAME_CORE_ROUND_ROBIN => Some (OnCore (cur_core ca))
  | JOB_ASSIGN_ROUND_ROBIN => Some Global
  | _ => None
  end.

Section Pool.
Context {W Q J : Type} `{PoolParts W Q J}.
Abbreviation pool := (AdaptiveThreadPool W Q).

Definition load_counter (ct : counter) (p : pool) : outcome Z :=
  match ct with
  | Global => Ok (mNextGlobalJobWorker (mStatCtrl p))
  | OnCore core => array_read (mNextJobWorkerOnEachCoreArr (mStatCtrl p)) core
  end.
Definition store_counter (ct : counter) (n : Z) (p : pool) : outcome pool :=
  match ct with
  | Global => Ok (set_stat p (set_next_global (mStatCtrl p) n))
  | OnCore core =>
      arr ← array_write (mNextJobWorkerOnEachCoreArr (mStatCtrl p)) core n;
      Ok (set_stat p (set_next_on_core (mStatCtrl p) arr))
  end.

(** Where the counter wraps around, and to what. *)
Definition wrap_at (ct : counter) (p : pool) : Z :=
  match ct with
  | Global => mJobWorkerCount p
  | OnCore core => u32 (u32 (core + 1) * mWorkersPerCore (mConfig p))
  end.
Definition wrap_to (ct : counter) (p : pool) : Z :=
  match ct with Global => 0 | OnCore core => u32 (core * mWorkersPerCore (mConfig p)) end.

(** ** A call of [addJob] *)

(** The answers a call gets, its policy and its job. *)
Definition request : Type := call_answers * JobAssignPolicy * J.

(** About to enter the [switch]; inside a critical section, about to load the
    counter, to store its successor, to test it, to reset it, to leave; and
    about to call the worker's [addJob]. *)
Inductive call_pc :=
  | AtSwitch
  | InLoad (ct : counter)
  | InStore (ct : counter) (w : Z)
  | InTest (ct : counter) (w : Z)
  | InReset (ct : counter) (w : Z)
  | InPost (ct : counter) (w : Z)
  | AtDeliver (w : Z).

Inductive call_next := CallGoto (pc : call_pc) | CallReturn (ok : bool).

(** What is seen of the pool: thread [i] has chosen a worker, or given its job
    to it; a worker's own thread has changed the worker; the timer has recorded
    a worker; the destructor has begun. *)
Inductive target := OverPool | OverCore (core : Z).
Inductive pool_event :=
  | Chose (i : nat) (ca : call_answers) (policy : JobAssignPolicy) (w : Z)
  | Delivered (i : nat) (w : Z) (job : J) (ok : bool)
  | Worked (k : nat) (x : W)
  | Recorded (tg : target) (w : Z)
  | Stopping.

(** One action of a call; [None] while it waits in [sem_wait]. *)
Definition addJob_step (i : nat) (r : request) (pc : call_pc) (p : pool) (l : locks)
    : outcome (option (pool * locks * option pool_event * call_next)) :=
  let '(ca, policy, job) := r in
  match pc with
  | AtSwitch =>
      match counter_of ca policy with
      | Some ct =>
          s ← load_lock ct l;
          match sem_wait s with
          | Some s' => l' ← store_lock ct s' l; Ok (Some (p, l', None, CallGoto (InLoad ct)))
          | None => Ok None
          end
      | None =>
          '(w, st) ← choose_worker ca policy p;
          Ok (Some (set_stat p st, l, Some (Chose i ca policy w), CallGoto (AtDeliver w)))
      end
  | InLoad ct => w ← load_counter ct p; Ok (Some (p, l, Some (Chose i ca policy w), CallGoto (InStore ct w)))
  | InStore ct w => p' ← store_counter ct (u32 (w + 1)) p; Ok (Some (p', l, None, CallGoto (InTest ct w)))
  | InTest ct w =>
      n ← load_counter ct p;
      Ok (Some (p, l, None, CallGoto (if n =? wrap_at ct p then InReset ct w else InPost ct w)))
  | InReset ct w => p' ← store_counter ct (wrap_to ct p) p; Ok (Some (p', l, None, CallGoto (InPost ct w)))
  | InPost ct w =>
      s ← load_lock ct l;
      l' ← store_lock ct (sem_post s) l;
      Ok (Some (p, l', None, CallGoto (AtDeliver w)))
  | AtDeliver w =>
      x ← deref (mJobWorkerArr p) w;
      let '(x', ok) := worker_addJob x job in
      arr ← array_write (mJobWorkerArr p) w (Some x');
      Ok (Some (set_workers p arr, l, Some (Delivered i w job ok), CallReturn ok))
  end.

(** A thread of the program: the calls it still has to make, where it is in the
    first of them, and what the others returned. *)
Record caller := Caller { c_calls : list request; c_pc : call_pc; c_results : list bool }.

Definition moved (r : request) (rs : list request) (res : list bool) (next : call_next) : caller :=
  match next with CallGoto pc => Caller (r :: rs) pc res | CallReturn ok => Caller rs AtSwitch (res ++ [ok]) end.

(** ** The timer *)

(** About to test [mTimerRun]; in [nanosleep]; about to ask the first of the
    workers of a scan; in the loop, with [i], [leastJobs] and [leastJobWorker];
    gone. *)
Inductive timer_pc :=
  | TimerCheck
  | TimerSleep
  | FirstCount (tg : target) (first : Z)
  | NextCount (tg : target) (first i leastJobs leastJobWorker : Z)
  | TimerExited.

Definition scan_size (tg : target) (p : pool) : Z :=
  match tg with OverPool => mJobWorkerCount p | OverCore _ => mWorkersPerCore (mConfig p) end.

(** Store the result of a scan, and go on to the next. *)
Definition record_least (tg : target) (w : Z) (p : pool) : outcome pool :=
  let st := mStatCtrl p in
  match tg with
  | OverPool =>
      Ok (set_stat p (MkStat (mWorkerProcessedCountArr st) (mNextGlobalJobWorker st) (mNextJobWorkerOnEachCoreArr st) w
            (mJobWorkerWithLeastJobOnEachCoreArr st)))
  | OverCore core =>
      arr ← array_write (mJobWorkerWithLeastJobOnEachCoreArr st) core w;
      Ok (set_stat p (MkStat (mWorkerProcessedCountArr st) (mNextGlobalJobWorker st) (mNextJobWorkerOnEachCoreArr st)
            (mJobWorkerWithLeastJob st) arr))
  end.
Definition next_scan (a : sys_answers) (tg : target) (first : Z) (p : pool) : timer_pc :=
  let '(core, first') :=
    match tg with OverPool => (0, 0) | OverCore core => (core + 1, u32 (first + mWorkersPerCore (mConfig p))) end in
  if core <? core_count a then FirstCount (OverCore core) first' else TimerCheck.

(** One action of [timer_thread_func]. *)
Definition timer_step (a : sys_answers) (pc : timer_pc) (p : pool)
    : outcome (option (pool * option pool_event * timer_pc)) :=
  match pc with
  | TimerCheck => Ok (Some (p, None, if mTimerRun p then TimerSleep else TimerExited))
  | TimerSleep => Ok (Some (p, None, FirstCount OverPool 0))
  | FirstCount tg first =>
      x ← deref (mJobWorkerArr p) first;
      Ok (Some (p, None, NextCount tg first 1 (worker_jobs x) first))
  | NextCount tg first i leastJobs leastJobWorker =>
      if i <? scan_size tg p then
        x ← deref (mJobWorkerArr p) (u32 (first + i));
        Ok (Some (p, None,
          if worker_jobs x <? leastJobs then NextCount tg first (u32 (i + 1)) (worker_jobs x) (u32 (first + i))
          else NextCount tg first (u32 (i + 1)) leastJobs leastJobWorker))
      else
        p' ← record_least tg leastJobWorker p;
        Ok (Some (p', Some (Recorded tg leastJobWorker), next_scan a tg first p))
  | TimerExited => Ok None
  end.

(** ** The pool among its threads *)
Record pool_system := PoolSystem {
  ps_pool : pool;
  ps_locks : locks;
  ps_callers : list caller;
  ps_timer : timer_pc
}.

Definition caller_act (i : nat) (s : pool_system) : outcome (option (option pool_event * pool_system)) :=
  match ps_callers s !! i with
  | Some (Caller (r :: rs) pc res) =>
      o ← addJob_step i r pc (ps_pool s) (ps_locks s);
      match o with
      | Some (p', l', ev, next) =>
          Ok (Some (ev, PoolSystem p' l' (<[i := moved r rs res next]> (ps_callers s)) (ps_timer s)))
      | None => Ok None
      end
  | _ => Ok None
  end.

Definition timer_act (a : sys_answers) (s : pool_system) : outcome (option (option pool_event * pool_system)) :=
  o ← timer_step a (ps_timer s) (ps_pool s);
  match o with
  | Some (p', ev, pc') => Ok (Some (ev, PoolSystem p' (ps_locks s) (ps_callers s) pc'))
  | None => Ok None
  end.

Definition with_pool (p : pool) (s : pool_system) : pool_system :=
  PoolSystem p (ps_locks s) (ps_callers s) (ps_timer s).

(** [acts x x'] : what a worker's own thread may do to it. *)
Inductive pool_step (a : sys_answers) (acts : W → W → Prop) : pool_system → option pool_event → pool_system → Prop :=
  | step_caller i s o s' : caller_act i s = Ok (Some (o, s')) → pool_step a acts s o s'
  | step_timer s o s' : timer_act a s = Ok (Some (o, s')) → pool_step a acts s o s'
  | step_worker k x x' s :
      mJobWorkerArr (ps_pool s) !! k = Some (Some x) → acts x x' →
      pool_step a acts s (Some (Worked k x'))
        (with_pool (set_workers (ps_pool s) (<[k := Some x']> (mJobWorkerArr (ps_pool s)))) s)
  | step_stop s : pool_step a acts s (Some Stopping) (with_pool (set_timer_run false (ps_pool s)) s).

(** The threads of the program with these calls to make, on a pool set up. *)
Definition pool_start (p : pool) (calls : list (list request)) : pool_system :=
  PoolSystem p init_locks ((λ rs, Caller rs AtSwitch []) <$> calls) TimerCheck.

(** ** Specification: every call chooses at once *)
Inductive atomic_step : pool → option pool_event → pool → Prop :=
  | atomic_choose i ca policy w st p :
      choose_worker ca policy p = Ok (w, st) → atomic_step p (Some (Chose i ca policy w)) (set_stat p st)
  | atomic_deliver i w job x p :
      0 ≤ w → mJobWorkerArr p !! Z.to_nat w = Some (Some x) →
      atomic_step p (Some (Delivered i w job (worker_addJob x job).2))
        (set_workers p (<[Z.to_nat w := Some (worker_addJob x job).1]> (mJobWorkerArr p)))
  | atomic_work k x p : atomic_step p (Some (Worked k x)) (set_workers p (<[k := Some x]> (mJobWorkerArr p)))
  | atomic_record tg w p p' : record_least tg w p = Ok p' → atomic_step p (Some (Recorded tg w)) p'
  | atomic_stop p : atomic_step p (Some Stopping) (set_timer_run false p).

(** ** Runs *)
Inductive turn := TurnOf (i : nat) | TimerTurn | StopTurn.
Definition take_turn (a : sys_answers) (t : turn) (s : pool_system) : option (option pool_event * pool_system) :=
  match t with
  | TurnOf i => match caller_act i s with Ok (Some x) => Some x | _ => None end
  | TimerTurn => match timer_act a s with Ok (Some x) => Some x | _ => None end
  | StopTurn => Some (Some Stopping, with_pool (set_timer_run false (ps_pool s)) s)
  end.

(** The run of these turns, up to the first that is not possible. *)
Fixpoint run_turns (a : sys_answers) (ts : list turn) (s : pool_system) : list pool_event * pool_system :=
  match ts with
  | [] => ([], s)
  | t :: ts' =>
      match take_turn a t s with
      | Some (o, s1) => let '(tr, s') := run_turns a ts' s1 in (option_list o ++ tr, s')
      | None => ([], s)
      end
  end.

Lemma run_turns_exec a acts ts s :
  exec (pool_step a acts) s (run_turns a ts s).1 (run_turns a ts s).2.
Proof.
  revert s. induction ts as [|t ts IH]; intros s; [constructor|]. cbn [run_turns].
  destruct (take_turn a t s) as [[o s1]|] eqn:Ht; [|constructor]. specialize (IH s1).
  destruct (run_turns a ts s1) as [tr s']. eapply exec_trans; [|exact IH]. apply exec_one.
  destruct t as [i| |]; cbn [take_turn] in Ht.
  - destruct (caller_act i s) as [[[]|]|] eqn:E; simplify_eq. by eapply step_caller.
  - destruct (timer_act a s) as [[[]|]|] eqn:E; simplify_eq. by eapply step_timer.
  - simplify_eq. apply step_stop.
Qed.
End Pool.
Arguments pool_system W Q J : clear implicits.
Arguments pool_event W J : clear implicits.
Arguments request J : clear implicits.
Arguments caller J : clear implicits.
