(* ===== verification/PoolSim.v ===== *)
(** * Concurrent calls of [addJob] are atomic

    The simulation of [PoolThreads]' actions by the specification in which a
    call chooses its worker at once: mutual exclusion on every counter, and
    what each call in a critical section has left to do to its counter. *)
From S2P Require Import Prelude Semaphore PoolConfig ThreadPool PoolInv PoolLife PoolThreads.

(** ** The locks *)
Lemma store_lock_ok ct s s0 l : load_lock ct l = Ok s0 →
  ∃ l', store_lock ct s l = Ok l' ∧ load_lock ct l' = Ok s ∧ ∀ ct', ct' ≠ ct → load_lock ct' l' = load_lock ct' l.
Proof.
  destruct ct as [|core]; cbn [load_lock store_lock]; intros Hl.
  - eexists. split; [done|]. split; [done|]. by intros [].
  - assert (Hl' := Hl). apply array_read_Ok in Hl' as [Hc Hc'].
    rewrite array_write_ok by (apply lookup_lt_Some in Hc'; lia). simpl_bind. eexists. split; [done|]. split.
    + by eapply array_read_insert.
    + intros [|core'] Hne; [done|]. apply array_read_insert_ne; [done|congruence].
Qed.

Section Pool.
Context {W Q J : Type} `{PoolParts W Q J}.
Implicit Types p b : AdaptiveThreadPool W Q.

(** ** The counters *)

(** Everything but the counters. *)
Definition blank p : AdaptiveThreadPool W Q := set_stat p (set_next_on_core (set_next_global (mStatCtrl p) 0) []).

Lemma blank_eq p b : blank p = blank b →
  mConfig p = mConfig b ∧ mJobWorkerArr p = mJobWorkerArr b ∧ mJobWorkerCount p = mJobWorkerCount b ∧
  mJobWorkerWithLeastJob (mStatCtrl p) = mJobWorkerWithLeastJob (mStatCtrl b) ∧
  mJobWorkerWithLeastJobOnEachCoreArr (mStatCtrl p) = mJobWorkerWithLeastJobOnEachCoreArr (mStatCtrl b).
Proof. destruct p, b. unfold blank, set_stat. cbn. intros [=]. by split_and!. Qed.

Lemma store_counter_ok ct n n0 p : load_counter ct p = Ok n0 →
  ∃ p', store_counter ct n p = Ok p' ∧ load_counter ct p' = Ok n ∧ blank p' = blank p ∧
    ∀ ct', ct' ≠ ct → load_counter ct' p' = load_counter ct' p.
Proof.
  destruct ct as [|core]; cbn [load_counter store_counter]; intros Hl.
  - eexists. split; [done|]. split_and!; [done|done|]. by intros [].
  - assert (Hl' := Hl). apply array_read_Ok in Hl' as [Hc Hc'].
    rewrite array_write_ok by (apply lookup_lt_Some in Hc'; lia). simpl_bind. eexists. split; [done|]. split_and!.
    + by eapply array_read_insert.
    + done.
    + intros [|core'] Hne; [done|]. apply array_read_insert_ne; [done|congruence].
Qed.

(** What a critical section makes of its counter. *)
Definition after ct (k : Z) p : Z := if u32 (k + 1) =? wrap_at ct p then wrap_to ct p else u32 (k + 1).

Lemma wrap_blank ct p b : blank p = blank b → wrap_at ct p = wrap_at ct b ∧ wrap_to ct p = wrap_to ct b.
Proof. intros (E1 & _ & E2 & _)%blank_eq. destruct ct; cbn; by rewrite ?E1, ?E2. Qed.

Lemma after_blank ct k p b : blank p = blank b → after ct k p = after ct k b.
Proof. intros E. unfold after. by destruct (wrap_blank ct p b E) as [-> ->]. Qed.

(** A round robin chooses what its counter holds, and stores what the critical
    section does; the other policies look at no counter. *)
Lemma choose_round_robin ct ca policy k p :
  counter_of ca policy = Some ct → load_counter ct p = Ok k →
  ∃ st, choose_worker ca policy p = Ok (k, st) ∧ blank (set_stat p st) = blank p ∧
    load_counter ct (set_stat p st) = Ok (after ct k p) ∧
    ∀ ct', ct' ≠ ct → load_counter ct' (set_stat p st) = load_counter ct' p.
Proof.
  intros Hct Hk. destruct (store_counter_ok ct (after ct k p) k p Hk) as (p' & E & Hl & Hb & Ho).
  destruct policy; try done; injection Hct as <-; cbn [choose_worker load_counter store_counter] in *.
  - rewrite Hk. simpl_bind. unfold after in *. cbn [wrap_at wrap_to] in *.
    apply bind_Ok in E as (arr & Ea & E). injection E as <-. rewrite Ea. simpl_bind. eexists. by split_and!.
  - injection Hk as <-. injection E as <-. unfold after in *. cbn [wrap_at wrap_to] in *. eexists. split_and!; try done.
Qed.

Lemma choose_other ca policy p b k st :
  counter_of ca policy = None → blank p = blank b → choose_worker ca policy p = Ok (k, st) →
  st = mStatCtrl p ∧ choose_worker ca policy b = Ok (k, mStatCtrl b).
Proof.
  intros Hct (E1 & _ & E3 & E4 & E5)%blank_eq.
  destruct policy; try done; cbn [choose_worker]; rewrite ?E1, ?E3, ?E4, ?E5; intros E.
  - apply bind_Ok in E as (n & -> & [= <- <-]). done.
  - by injection E as <- <-.
  - apply bind_Ok in E as (n & -> & [= <- <-]). done.
  - apply bind_Ok in E as (n & -> & [= <- <-]). done.
Qed.

Lemma blank_workers p b arr : blank p = blank b → blank (set_workers p arr) = blank (set_workers b arr).
Proof. intros E. change (set_workers (blank p) arr = set_workers (blank b) arr). by rewrite E. Qed.
Lemma blank_timer_run p b f : blank p = blank b → blank (set_timer_run f p) = blank (set_timer_run f b).
Proof. intros E. change (set_timer_run f (blank p) = set_timer_run f (blank b)). by rewrite E. Qed.

Lemma blank_set_stat p : set_stat p (mStatCtrl p) = p.
Proof. by destruct p. Qed.

(** ** The simulation *)
Context (c w : nat).
Implicit Types th : caller J.

Definition valid (ct : counter) : Prop := match ct with Global => True | OnCore core => 0 ≤ core < Z.of_nat c end.

(** The counter whose lock the call has. *)
Definition section_of (pc : call_pc) : option counter :=
  match pc with
  | InLoad ct | InStore ct _ | InTest ct _ | InReset ct _ | InPost ct _ => Some ct
  | AtSwitch | AtDeliver _ => None
  end.
Definition holds (ct : counter) th : Z := if decide (section_of (c_pc th) = Some ct) then 1 else 0.

(** A worker the call may have chosen. *)
Definition may_choose (r : request J) (k : Z) : Prop :=
  0 ≤ k < Z.of_nat (c * w) ∧ (same_core r.1.2 = true → (Z.to_nat k / w)%nat = Z.to_nat (cur_core r.1.1)).

(** What the call has seen and what it has left to do: the pool [p] as it is,
    [b] as if every call that has chosen had left its critical section. *)
Definition pc_ok p b (r : request J) (pc : call_pc) : Prop :=
  match pc with
  | AtSwitch => True
  | InLoad ct => load_counter ct p = load_counter ct b
  | InStore ct k => load_counter ct p = Ok k ∧ load_counter ct b = Ok (after ct k p)
  | InTest ct k => load_counter ct p = Ok (u32 (k + 1)) ∧ load_counter ct b = Ok (after ct k p)
  | InReset ct k => load_counter ct p = Ok (wrap_at ct p) ∧ load_counter ct b = Ok (wrap_to ct p)
  | InPost ct k => load_counter ct p = load_counter ct b
  | AtDeliver k => True
  end ∧
  (∀ ct, section_of pc = Some ct → counter_of r.1.1 r.1.2 = Some ct) ∧
  match pc with
  | AtSwitch | InLoad _ => True
  | InStore _ k | InTest _ k | InReset _ k | InPost _ k | AtDeliver k => may_choose r k
  end.

Definition caller_ok p b th : Prop :=
  Forall (call_ok c) (c_calls th) ∧
  match c_calls th with [] => c_pc th = AtSwitch | r :: _ => pc_ok p b r (c_pc th) end.

Definition scan_ok (tg : target) (first : Z) : Prop :=
  match tg with OverPool => first = 0 | OverCore core => 0 ≤ core < Z.of_nat c ∧ first = core * Z.of_nat w end.
Definition timer_ok p (pc : timer_pc) : Prop :=
  match pc with
  | FirstCount tg first => scan_ok tg first
  | NextCount tg first i _ least => scan_ok tg first ∧ 1 ≤ i ≤ scan_size tg p ∧ first ≤ least < first + i
  | _ => True
  end.

Record sim (s : pool_system W Q J) b : Prop := {
  sm_wf : pool_wf c w b;
  sm_blank : blank (ps_pool s) = blank b;
  sm_lock : ∀ ct, valid ct → ∃ l, load_lock ct (ps_locks s) = Ok l ∧ 0 ≤ sem_value l ∧
    sem_value l + zsum (holds ct) (ps_callers s) = 1;
  sm_free : ∀ ct, valid ct → zsum (holds ct) (ps_callers s) = 0 → load_counter ct (ps_pool s) = load_counter ct b;
  sm_callers : ∀ i th, ps_callers s !! i = Some th → caller_ok (ps_pool s) b th;
  sm_timer : timer_ok (ps_pool s) (ps_timer s)
}.

Lemma holds_nonneg ct th : 0 ≤ holds ct th.
Proof. unfold holds. by case_decide. Qed.

Lemma holds_out ct th : section_of (c_pc th) ≠ Some ct → holds ct th = 0.
Proof. intros Hne. unfold holds. by rewrite decide_False. Qed.
Lemma holds_in ct th : section_of (c_pc th) = Some ct → holds ct th = 1.
Proof. intros E. unfold holds. by rewrite decide_True. Qed.

(** The same counters under the critical sections of a call, and the same
    places to wrap around: all it needs. *)
Lemma caller_ok_mono p b p' b' th :
  caller_ok p b th →
  (∀ ct, section_of (c_pc th) = Some ct → load_counter ct p' = load_counter ct p ∧ load_counter ct b' = load_counter ct b) →
  (∀ ct, wrap_at ct p' = wrap_at ct p ∧ wrap_to ct p' = wrap_to ct p) → caller_ok p' b' th.
Proof.
  intros [Hf Hok] Hl Hw. split; [done|]. destruct (c_calls th) as [|r rs]; [done|].
  destruct Hok as (Hpc & Hct & Hk). split; [|done].
  destruct (c_pc th) as [|ct|ct k|ct k|ct k|ct k|k]; try done; destruct (Hl ct eq_refl) as [-> ->]; unfold after in *;
    destruct (Hw ct) as [E1 E2]; by rewrite ?E1, ?E2.
Qed.

(** No other caller is in the sections of a counter. *)
Lemma others_out ct ths i j th th' :
  ths !! i = Some th → ths !! j = Some th' → i ≠ j → zsum (holds ct) ths = holds ct th →
  section_of (c_pc th') ≠ Some ct.
Proof.
  intros Hi Hj Hne Hsum E. set (idle := Caller (c_calls th) AtSwitch (c_results th)).
  pose proof (zsum_insert (holds ct) _ _ _ idle Hi) as Ez.
  assert (Hj' : <[i := idle]> ths !! j = Some th') by by rewrite list_lookup_insert_ne.
  pose proof (zsum_lookup_le (holds ct) _ _ _ (holds_nonneg ct) Hj') as Hle. rewrite Ez in Hle.
  change (holds ct idle) with 0 in Hle. unfold holds at 1 in Hle. rewrite decide_True in Hle by done. lia.
Qed.

Lemma alone s b ct i j th th' :
  sim s b → valid ct → ps_callers s !! i = Some th → ps_callers s !! j = Some th' →
  section_of (c_pc th) = Some ct → section_of (c_pc th') = Some ct → i = j.
Proof.
  intros Hs Hv Hi Hj Eh Eh'. destruct (decide (i = j)) as [|Hne]; [done|]. exfalso.
  destruct (sm_lock _ _ Hs ct Hv) as (l & _ & Hl & Hsum).
  apply (others_out ct _ _ _ _ _ Hi Hj Hne); [|done].
  pose proof (zsum_lookup_le (holds ct) _ _ _ (holds_nonneg ct) Hi) as Hle.
  unfold holds at 1 in Hle. unfold holds at 2. rewrite decide_True in * by done. lia.
Qed.

(** Actions on one counter or its lock. *)
Lemma sim_section s b i th ct p' b' l' th' l0 l1 :
  sim s b → ps_callers s !! i = Some th → valid ct →
  load_lock ct (ps_locks s) = Ok l0 → load_lock ct l' = Ok l1 → 0 ≤ sem_value l1 →
  holds ct th + sem_value l0 = 1 → holds ct th' + sem_value l1 = 1 →
  (∀ ct', ct' ≠ ct → load_lock ct' l' = load_lock ct' (ps_locks s) ∧ holds ct' th' = holds ct' th ∧
     load_counter ct' p' = load_counter ct' (ps_pool s) ∧ load_counter ct' b' = load_counter ct' b) →
  (holds ct th' = 0 → load_counter ct p' = load_counter ct b') →
  blank p' = blank (ps_pool s) → blank b' = blank b → pool_wf c w b' → caller_ok p' b' th' →
  sim (PoolSystem p' l' (<[i := th']> (ps_callers s)) (ps_timer s)) b'.
Proof.
  intros Hs Hi Hv El0 El1 Hl1 H0 H1 Ho Hfree Ep Eb Hwf Hok.
  assert (Hsum : zsum (holds ct) (ps_callers s) = holds ct th).
  { destruct (sm_lock _ _ Hs ct Hv) as (l & E & _ & Hz). rewrite El0 in E. injection E as <-. lia. }
  split; cbn [ps_pool ps_locks ps_callers ps_timer].
  - done.
  - by rewrite Ep, Eb, (sm_blank _ _ Hs).
  - intros ct' Hv'. rewrite (zsum_insert _ _ _ _ _ Hi). destruct (decide (ct' = ct)) as [->|Hne].
    + exists l1. split_and!; [done..|lia].
    + destruct (Ho ct' Hne) as (-> & -> & _). destruct (sm_lock _ _ Hs ct' Hv') as (l & E & Hl & Hz).
      exists l. split_and!; [done..|lia].
  - intros ct' Hv'. rewrite (zsum_insert _ _ _ _ _ Hi). destruct (decide (ct' = ct)) as [->|Hne].
    + intros Hz. apply Hfree. lia.
    + destruct (Ho ct' Hne) as (_ & -> & -> & ->). intros Hz. apply (sm_free _ _ Hs ct' Hv'). lia.
  - intros j thj Hj. apply list_lookup_insert_Some in Hj as [(<- & <- & _)|[Hne Hj]]; [done|].
    apply (caller_ok_mono (ps_pool s) b); [by eapply sm_callers|..].
    + intros ct' Hct'. destruct (decide (ct' = ct)) as [->|Hne']; [|by destruct (Ho ct' Hne') as (_ & _ & ? & ?)].
      by destruct (others_out ct _ _ _ _ _ Hi Hj Hne Hsum).
    + intros ct'. by apply wrap_blank.
  - pose proof (sm_timer _ _ Hs) as Ht. apply blank_eq in Ep as (E1 & _ & E2 & _).
    destruct (ps_timer s) as [| |tg f|tg f n l k|]; try done. destruct tg; cbn in *; by rewrite ?E1, ?E2.
Qed.

(** Actions on no counter. *)
Lemma sim_quiet s b p' b' ths' t' :
  sim s b →
  (∀ ct, load_counter ct p' = load_counter ct (ps_pool s) ∧ load_counter ct b' = load_counter ct b) →
  (∀ ct, zsum (holds ct) ths' = zsum (holds ct) (ps_callers s)) →
  blank p' = blank b' → pool_wf c w b' →
  (∀ i th, ths' !! i = Some th → caller_ok p' b' th) → timer_ok p' t' →
  sim (PoolSystem p' (ps_locks s) ths' t') b'.
Proof.
  intros Hs Hl Hh Eb Hwf Hok Ht. split; cbn [ps_pool ps_locks ps_callers ps_timer]; [done..| | |done|done].
  - intros ct Hv. rewrite Hh. by apply (sm_lock _ _ Hs).
  - intros ct Hv. rewrite Hh. destruct (Hl ct) as [-> ->]. by apply (sm_free _ _ Hs).
Qed.

(** ** A call's next action *)
Lemma counter_valid (r : request J) ct : call_ok c r → counter_of r.1.1 r.1.2 = Some ct → valid ct.
Proof. intros (Hc & _) Hct. destruct r as [[ca []] job]; simplify_eq/=; done. Qed.

Lemma wf_load b ct : pool_wf c w b → valid ct → ∃ k, load_counter ct b = Ok k.
Proof.
  intros Hw Hv. destruct ct as [|core]; [by eexists|]. cbn in Hv.
  destruct (pw_next _ _ _ Hw (Z.to_nat core) ltac:(lia)) as (k & Hk & _). exists (Z.of_nat k).
  apply array_read_Ok. split; [lia|done].
Qed.

Lemma wf_set_worker b k x : pool_wf c w b → pool_wf c w (set_workers b (<[k := Some x]> (mJobWorkerArr b))).
Proof.
  intros Hw. pose proof (pw_workers _ _ _ Hw) as Hk. destruct Hw. constructor; try done.
  intros j Hj. cbn [mJobWorkerArr set_workers]. destruct (Hk j Hj) as [y Hy]. destruct (decide (j = k)) as [->|Hne].
  - exists x. apply list_lookup_insert_eq. by eapply lookup_lt_Some.
  - exists y. by rewrite list_lookup_insert_ne.
Qed.

Section Action.
Context (s : pool_system W Q J) (b : AdaptiveThreadPool W Q) (Hs : sim s b).
Context (i : nat) (r : request J) (rs : list (request J)) (pc : call_pc) (res : list bool).
Context (Hi : ps_callers s !! i = Some (Caller (r :: rs) pc res)).

Lemma act_ok : call_ok c r ∧ Forall (call_ok c) rs ∧ pc_ok (ps_pool s) b r pc.
Proof. destruct (sm_callers _ _ Hs i _ Hi) as [Hf Hpc]. apply Forall_cons in Hf as [? ?]. by split_and!. Qed.

Lemma act_section ct : section_of pc = Some ct →
  valid ct ∧ ∃ l, load_lock ct (ps_locks s) = Ok l ∧ sem_value l = 0 ∧ holds ct (Caller (r :: rs) pc res) = 1.
Proof.
  intros Ect. destruct act_ok as (Hr & _ & _ & Hct & _). assert (Hv : valid ct) by (eapply counter_valid; eauto).
  split; [done|]. destruct (sm_lock _ _ Hs ct Hv) as (l & El & Hl & Hz). exists l.
  pose proof (zsum_lookup_le (holds ct) _ _ _ (holds_nonneg ct) Hi) as Hle.
  assert (Eh : holds ct (Caller (r :: rs) pc res) = 1) by by apply holds_in. split_and!; [done|lia|done].
Qed.

Lemma sim_in_section ct p' b' pc' :
  section_of pc = Some ct → section_of pc' = Some ct →
  (∀ ct', ct' ≠ ct → load_counter ct' p' = load_counter ct' (ps_pool s) ∧ load_counter ct' b' = load_counter ct' b) →
  blank p' = blank (ps_pool s) → blank b' = blank b → pool_wf c w b' → pc_ok p' b' r pc' →
  sim (PoolSystem p' (ps_locks s) (<[i := moved r rs res (CallGoto pc')]> (ps_callers s)) (ps_timer s)) b'.
Proof.
  intros Ect Ect' Ho Ep Eb Hwf Hok. destruct (act_section ct Ect) as (Hv & l & El & Hl & Hh).
  assert (Hh' : holds ct (Caller (r :: rs) pc' res) = 1) by by apply holds_in.
  destruct act_ok as (Hr & Hrs & _).
  eapply (sim_section s b i _ ct p' b' (ps_locks s) _ l l); try done; [lia|lia|cbn [moved]; lia| |cbn [moved]; lia|].
  - intros ct' Hne. destruct (Ho ct' Hne) as [? ?]. split_and!; [done| |done|done].
    unfold holds. cbn [c_pc moved]. rewrite Ect, Ect'. done.
  - split; [by constructor|done].
Qed.

Definition proceeds : Prop :=
  ∃ p' l' ev next b', addJob_step i r pc (ps_pool s) (ps_locks s) = Ok (Some (p', l', ev, next)) ∧
    exec atomic_step b (option_list ev) b' ∧
    sim (PoolSystem p' l' (<[i := moved r rs res next]> (ps_callers s)) (ps_timer s)) b'.

Lemma silent p' l' next : addJob_step i r pc (ps_pool s) (ps_locks s) = Ok (Some (p', l', None, next)) →
  sim (PoolSystem p' l' (<[i := moved r rs res next]> (ps_callers s)) (ps_timer s)) b → proceeds.
Proof. intros E Hsim. exists p', l', None, next, b. split_and!; [done|constructor|done]. Qed.
End Action.

Ltac act Hs Hi :=
  destruct (act_ok _ _ Hs _ _ _ _ _ Hi) as (Hr & Hrs & Hpc & Hct & Hk);
  try (specialize (Hct _ eq_refl); destruct (act_section _ _ Hs _ _ _ _ _ Hi _ eq_refl) as (Hv & l & El & Hl & Hh)).

Lemma act_load s b i r rs ct res :
  sim s b → ps_callers s !! i = Some (Caller (r :: rs) (InLoad ct) res) → proceeds s b i r rs (InLoad ct) res.
Proof.
  intros Hs Hi. act Hs Hi. destruct r as [[ca policy] job]. cbn [fst snd] in *.
  destruct (wf_load b ct (sm_wf _ _ Hs) Hv) as [k Eb]. assert (Ep := Eb). rewrite <-Hpc in Ep.
  destruct (choose_round_robin ct ca policy k b Hct Eb) as (st & Ech & Ebl & Ela & Eo).
  destruct Hr as (Hcore & Hrand & Hmax). cbn [fst snd] in *.
  destruct (choose_worker_ok c w ca policy b (sm_wf _ _ Hs) Hcore Hrand Hmax) as (k' & st' & E' & Hk' & Hsame & Hwf).
  rewrite Ech in E'. apply Ok_pair in E' as [-> <-].
  exists (ps_pool s), (ps_locks s), (Some (Chose i ca policy (Z.of_nat k'))), (CallGoto (InStore ct (Z.of_nat k'))), (set_stat b st).
  split_and!.
  - cbn [addJob_step]. rewrite Ep. done.
  - by eapply (exec_one _ _ (Some _)), atomic_choose.
  - eapply (sim_in_section s b Hs i _ rs (InLoad ct) res Hi ct); try done.
    + intros ct' Hne. by rewrite Eo.
    + split; [split; [done|]|split; [by intros ? [= <-]|split; [lia|by rewrite Nat2Z.id]]].
      by rewrite Ela, (after_blank ct _ _ _ (sm_blank _ _ Hs)).
Qed.

Lemma act_store s b i r rs ct k res :
  sim s b → ps_callers s !! i = Some (Caller (r :: rs) (InStore ct k) res) → proceeds s b i r rs (InStore ct k) res.
Proof.
  intros Hs Hi. act Hs Hi. destruct Hpc as [Ep Eb].
  destruct (store_counter_ok ct (u32 (k + 1)) k _ Ep) as (p' & E & El' & Ebl & Eo).
  eapply (silent _ _ _ _ _ _ _ p'); [destruct r as [[ca policy] job]; cbn [addJob_step]; rewrite E; done|].
  eapply (sim_in_section s b Hs i r rs _ res Hi ct); try done; [by intros ct' Hne; rewrite Eo|apply Hs|].
  split; [split; [done|]|split; [by intros ? [= <-]|done]]. by rewrite Eb, (after_blank ct k _ _ Ebl).
Qed.

Lemma act_test s b i r rs ct k res :
  sim s b → ps_callers s !! i = Some (Caller (r :: rs) (InTest ct k) res) → proceeds s b i r rs (InTest ct k) res.
Proof.
  intros Hs Hi. act Hs Hi. destruct Hpc as [Ep Eb].
  eapply (silent _ _ _ _ _ _ _ (ps_pool s)).
  { destruct r as [[ca policy] job]; cbn [addJob_step]; rewrite Ep; simpl_bind. reflexivity. }
  unfold after in Eb. destruct (Z.eqb_spec (u32 (k + 1)) (wrap_at ct (ps_pool s))) as [Ew|Ew];
    (eapply (sim_in_section s b Hs i r rs _ res Hi ct); try done; [apply Hs|]);
    (split; [|split; [by intros ? [= <-]|done]]).
  - by rewrite <-Ew.
  - by rewrite Ep, Eb.
Qed.

Lemma act_reset s b i r rs ct k res :
  sim s b → ps_callers s !! i = Some (Caller (r :: rs) (InReset ct k) res) → proceeds s b i r rs (InReset ct k) res.
Proof.
  intros Hs Hi. act Hs Hi. destruct Hpc as [Ep Eb].
  destruct (store_counter_ok ct (wrap_to ct (ps_pool s)) _ _ Ep) as (p' & E & El' & Ebl & Eo).
  eapply (silent _ _ _ _ _ _ _ p'); [destruct r as [[ca policy] job]; cbn [addJob_step]; rewrite E; done|].
  eapply (sim_in_section s b Hs i r rs _ res Hi ct); try done; [by intros ct' Hne; rewrite Eo|apply Hs|].
  split; [by rewrite El', Eb|split; [by intros ? [= <-]|done]].
Qed.

Lemma act_post s b i r rs ct k res :
  sim s b → ps_callers s !! i = Some (Caller (r :: rs) (InPost ct k) res) → proceeds s b i r rs (InPost ct k) res.
Proof.
  intros Hs Hi. act Hs Hi.
  destruct (store_lock_ok ct (sem_post l) l _ El) as (l' & E & El' & Eo).
  eapply (silent _ _ _ _ _ _ _ (ps_pool s) l').
  { destruct r as [[ca policy] job]; cbn [addJob_step]. rewrite El. simpl_bind. rewrite E. done. }
  eapply (sim_section s b i _ ct _ b l' _ l (sem_post l)); try done; [cbn; lia|lia|rewrite holds_out by done; cbn; lia| |apply Hs|].
  - intros ct' Hne. split_and!; [by apply Eo| |done|done]. by rewrite !holds_out by (cbn; congruence).
  - split; [by constructor|]. cbn [moved c_calls c_pc]. split; [done|split; [done|done]].
Qed.

(** A call waits only for another that is in the sections of its counter. *)
Definition waits (s : pool_system W Q J) (i : nat) (r : request J) (pc : call_pc) : Prop :=
  addJob_step i r pc (ps_pool s) (ps_locks s) = Ok None ∧
  ∃ ct, valid ct ∧ 0 < zsum (holds ct) (ps_callers s).

Lemma act_wait s b i r rs ct res :
  sim s b → ps_callers s !! i = Some (Caller (r :: rs) AtSwitch res) → counter_of r.1.1 r.1.2 = Some ct →
  proceeds s b i r rs AtSwitch res ∨ waits s i r AtSwitch.
Proof.
  intros Hs Hi Ect. act Hs Hi. assert (Hv : valid ct) by by eapply counter_valid.
  destruct (sm_lock _ _ Hs ct Hv) as (l & El & Hl & Hz). destruct r as [[ca policy] job]. cbn [fst snd] in *.
  destruct (sem_wait l) as [l1|] eqn:Ew.
  - apply sem_wait_Some in Ew as Hw. destruct (store_lock_ok ct l1 l _ El) as (l' & E & El' & Eo). left.
    eapply (silent _ _ _ _ _ _ _ (ps_pool s) l').
    { cbn [addJob_step]. rewrite Ect, El. simpl_bind. rewrite Ew. rewrite E. done. }
    pose proof (zsum_lookup_le (holds ct) _ _ _ (holds_nonneg ct) Hi) as Hle.
    rewrite holds_out in Hle by done.
    eapply (sim_section s b i _ ct _ b l' _ l l1); try done; [lia|rewrite holds_out by done; lia|rewrite holds_in by done; lia| | |apply Hs|].
    + intros ct' Hne. split_and!; [by apply Eo| |done|done]. by rewrite !holds_out by (cbn; congruence).
    + by rewrite holds_in by done.
    + split; [by constructor|]. split; [apply (sm_free _ _ Hs ct Hv); lia|]. split; [by intros ? [= <-]|done].
  - apply sem_wait_None in Ew. right. split; [|exists ct; split; [done|lia]].
    cbn [addJob_step]. rewrite Ect, El. simpl_bind. apply sem_wait_None in Ew. by rewrite Ew.
Qed.

Lemma sim_moves s b i th th' p' b' :
  sim s b → ps_callers s !! i = Some th → section_of (c_pc th) = None → section_of (c_pc th') = None →
  (∀ ct, load_counter ct p' = load_counter ct (ps_pool s) ∧ load_counter ct b' = load_counter ct b) →
  (∀ ct, wrap_at ct p' = wrap_at ct (ps_pool s) ∧ wrap_to ct p' = wrap_to ct (ps_pool s)) →
  blank p' = blank b' → pool_wf c w b' → caller_ok p' b' th' → timer_ok p' (ps_timer s) →
  sim (PoolSystem p' (ps_locks s) (<[i := th']> (ps_callers s)) (ps_timer s)) b'.
Proof.
  intros Hs Hi E1 E2 Hl Hwr Eb Hwf Hok Ht. apply (sim_quiet s b); try done.
  - intros ct. rewrite (zsum_insert _ _ _ _ _ Hi). rewrite !holds_out by (by rewrite ?E1, ?E2). lia.
  - intros j thj Hj. apply list_lookup_insert_Some in Hj as [(<- & <- & _)|[Hne Hj]]; [done|].
    apply (caller_ok_mono (ps_pool s) b); [by eapply sm_callers|by intros ct _|done].
Qed.

Lemma act_choose s b i r rs res :
  sim s b → ps_callers s !! i = Some (Caller (r :: rs) AtSwitch res) → counter_of r.1.1 r.1.2 = None →
  proceeds s b i r rs AtSwitch res.
Proof.
  intros Hs Hi Ect. act Hs Hi. destruct r as [[ca policy] job]. cbn [fst snd] in *.
  destruct Hr as (Hcore & Hrand & Hmax). cbn [fst snd] in *.
  destruct (choose_worker_ok c w ca policy b (sm_wf _ _ Hs) Hcore Hrand Hmax) as (k & st & E & Hk' & Hsame & Hwf).
  destruct (choose_other ca policy b (ps_pool s) _ _ Ect (eq_sym (sm_blank _ _ Hs)) E) as [-> Ep].
  exists (ps_pool s), (ps_locks s), (Some (Chose i ca policy (Z.of_nat k))), (CallGoto (AtDeliver (Z.of_nat k))), b.
  split_and!.
  - cbn [addJob_step]. rewrite Ect, Ep. simpl_bind. by rewrite blank_set_stat.
  - rewrite <-(blank_set_stat b) at 2. by eapply (exec_one _ _ (Some _)), atomic_choose.
  - eapply sim_moves; try done; [apply Hs..| |apply Hs]. split; [by constructor|]. cbn [moved c_calls c_pc].
    split; [done|]. split; [done|]. split; [lia|by rewrite Nat2Z.id].
Qed.

Lemma act_deliver s b i r rs k res :
  sim s b → ps_callers s !! i = Some (Caller (r :: rs) (AtDeliver k) res) → proceeds s b i r rs (AtDeliver k) res.
Proof.
  intros Hs Hi. act Hs Hi. destruct r as [[ca policy] job]. destruct Hk as [Hk _].
  destruct (pw_workers _ _ _ (sm_wf _ _ Hs) (Z.to_nat k) ltac:(lia)) as [x Hx].
  assert (Hb := sm_blank _ _ Hs). apply blank_eq in Hb as (_ & Ew & _).
  assert (Hx' := Hx). rewrite <-Ew in Hx'.
  exists (set_workers (ps_pool s) (<[Z.to_nat k := Some (worker_addJob x job).1]> (mJobWorkerArr (ps_pool s)))), (ps_locks s),
    (Some (Delivered i k job (worker_addJob x job).2)), (CallReturn (worker_addJob x job).2),
    (set_workers b (<[Z.to_nat k := Some (worker_addJob x job).1]> (mJobWorkerArr b))).
  split_and!.
  - cbn [addJob_step]. rewrite <-(Z2Nat.id k) at 1 by lia. rewrite (deref_ok _ _ _ Hx'). simpl_bind.
    destruct (worker_addJob x job) as [x' ok]. 
    rewrite array_write_ok by (apply lookup_lt_Some in Hx'; lia). done.
  - eapply (exec_one _ _ (Some _)), atomic_deliver; [lia|done].
  - eapply sim_moves; try done; [|by apply wf_set_worker, Hs| |].
    + rewrite Ew. by apply blank_workers, Hs.
    + by split; [|destruct rs].
    + apply (sm_timer _ _ Hs).
Qed.

Lemma act_proceeds s b i r rs pc res :
  sim s b → ps_callers s !! i = Some (Caller (r :: rs) pc res) →
  proceeds s b i r rs pc res ∨ pc = AtSwitch ∧ waits s i r pc.
Proof.
  intros Hs Hi. destruct pc.
  - destruct (counter_of r.1.1 r.1.2) as [ct|] eqn:E.
    + destruct (act_wait s b i r rs ct res Hs Hi E); [by left|by right].
    + left. by apply act_choose.
  - left. by apply act_load.
  - left. by apply act_store.
  - left. by apply act_test.
  - left. by apply act_reset.
  - left. by apply act_post.
  - left. by apply act_deliver.
Qed.

(** ** The timer's next action *)
Lemma sim_with s b p' b' t' :
  sim s b → (∀ ct, load_counter ct p' = load_counter ct (ps_pool s) ∧ load_counter ct b' = load_counter ct b) →
  (∀ ct, wrap_at ct p' = wrap_at ct (ps_pool s) ∧ wrap_to ct p' = wrap_to ct (ps_pool s)) →
  blank p' = blank b' → pool_wf c w b' → timer_ok p' t' →
  sim (PoolSystem p' (ps_locks s) (ps_callers s) t') b'.
Proof.
  intros Hs Hl Hwr Eb Hwf Ht. apply (sim_quiet s b); try done. intros i th Hi.
  apply (caller_ok_mono (ps_pool s) b); [by eapply sm_callers|by intros ct _|done].
Qed.

Lemma scan_range tg first b : pool_wf c w b → scan_ok tg first →
  0 ≤ first ∧ 0 < scan_size tg b ∧ first + scan_size tg b ≤ Z.of_nat (c * w).
Proof.
  intros Hw Hs. destruct (pw_size _ _ _ Hw) as (Hw0 & Hc0 & _). destruct tg as [|core]; cbn in *.
  - subst first. rewrite (pw_count _ _ _ Hw). nia.
  - destruct Hs as [Hc ->]. rewrite (pw_per_core _ _ _ Hw). nia.
Qed.

Lemma scan_size_blank tg p b : blank p = blank b → scan_size tg p = scan_size tg b.
Proof. intros (E1 & _ & E2 & _)%blank_eq. destruct tg; cbn; by rewrite ?E1, ?E2. Qed.

Lemma record_wf tg first k b :
  pool_wf c w b → scan_ok tg first → first ≤ k < first + scan_size tg b →
  ∃ b', record_least tg k b = Ok b' ∧ pool_wf c w b' ∧ ∀ ct, load_counter ct b' = load_counter ct b.
Proof.
  intros Hw Ht Hk. pose proof (scan_range tg first b Hw Ht) as (Hf & Hsz & Hm).
  destruct tg as [|core]; cbn [scan_ok record_least scan_size] in *.
  - eexists. split; [done|]. split; [|by intros ct; destruct ct].
    destruct Hw. constructor; try done. exists (Z.to_nat k). cbn. lia.
  - destruct Ht as [Hc ->]. rewrite (pw_per_core _ _ _ Hw) in Hk.
    destruct (pw_least _ _ _ Hw (Z.to_nat core) ltac:(lia)) as (j & Hj & _). apply lookup_lt_Some in Hj as Hlt.
    rewrite array_write_ok by lia. simpl_bind. eexists. split; [done|]. split; [|by intros ct; destruct ct].
    pose proof (pw_least _ _ _ Hw) as Hleast. destruct (pw_size _ _ _ Hw) as (Hw0 & _).
    destruct Hw. constructor; try done. intros core' Hc'. cbn [mStatCtrl set_stat mJobWorkerWithLeastJobOnEachCoreArr].
    destruct (decide (core' = Z.to_nat core)) as [->|Hne].
    + exists (Z.to_nat k). rewrite list_lookup_insert_eq by done. split; [f_equal; lia|]. apply div_range; [done|]. nia.
    + rewrite list_lookup_insert_ne by done. by apply Hleast.
Qed.

Lemma record_blank tg k p b b' : blank p = blank b → record_least tg k b = Ok b' →
  ∃ p', record_least tg k p = Ok p' ∧ blank p' = blank b' ∧ (∀ ct, load_counter ct p' = load_counter ct p) ∧
    (∀ ct, wrap_at ct p' = wrap_at ct p ∧ wrap_to ct p' = wrap_to ct p) ∧ (∀ tg', scan_size tg' p' = scan_size tg' p).
Proof.
  intros E Er. assert (E' := E). apply blank_eq in E' as (_ & _ & _ & E4 & E5).
  set (put k arr p := let st := mStatCtrl p in set_stat p (MkStat (mWorkerProcessedCountArr st) (mNextGlobalJobWorker st)
    (mNextJobWorkerOnEachCoreArr st) k arr) : AdaptiveThreadPool W Q).
  assert (Hput : ∀ k arr, blank (put k arr p) = blank (put k arr b))
    by (intros k' arr; change (put k' arr (blank p) = put k' arr (blank b)); by rewrite E).
  destruct tg as [|core]; cbn [record_least] in *.
  - injection Er as <-. eexists. split; [done|]. split; [|by split_and!; intros []]. rewrite E5. apply Hput.
  - apply bind_Ok in Er as (arr & Ea & [= <-]). rewrite E5, Ea. simpl_bind. eexists. split; [done|].
    split; [|by split_and!; intros []]. rewrite E4. apply Hput.
Qed.

Lemma timer_proceeds a s b :
  sim s b → core_count a = Z.of_nat c →
  (ps_timer s = TimerExited ∧ timer_act a s = Ok None) ∨
  ∃ o s' b', timer_act a s = Ok (Some (o, s')) ∧ exec atomic_step b (option_list o) b' ∧ sim s' b'.
Proof.
  intros Hs Ha. pose proof (sm_timer _ _ Hs) as Ht. pose proof (sm_wf _ _ Hs) as Hw.
  assert (Hb := sm_blank _ _ Hs). apply blank_eq in Hb as (_ & Ewk & _). destruct (pw_size _ _ _ Hw) as (Hw0 & Hc0 & Hroom).
  assert (Hquiet : ∀ t', timer_step a (ps_timer s) (ps_pool s) = Ok (Some (ps_pool s, None, t')) → timer_ok (ps_pool s) t' →
    ∃ o s' b', timer_act a s = Ok (Some (o, s')) ∧ exec atomic_step b (option_list o) b' ∧ sim s' b').
  { intros t' E Hok. unfold timer_act. rewrite E. simpl_bind. eexists _, _, b. split; [done|]. split; [constructor|].
    apply (sim_with s b); try done; apply Hs. }
  destruct (ps_timer s) as [| |tg first|tg first i jobs least|] eqn:Et; cbn [timer_ok] in Ht.
  - right. eapply Hquiet; [done|]. by destruct (mTimerRun _).
  - right. by eapply Hquiet.
  - right. destruct (scan_range tg first b Hw Ht) as (Hf & Hsz & Hm).
    destruct (pw_workers _ _ _ Hw (Z.to_nat first) ltac:(lia)) as [x Hx]. rewrite <-Ewk in Hx.
    eapply Hquiet; [cbn [timer_step]; rewrite <-(Z2Nat.id first) at 1 by lia; rewrite (deref_ok _ _ _ Hx); done|].
    cbn. rewrite (scan_size_blank _ _ _ (sm_blank _ _ Hs)). split; [done|lia].
  - right. destruct Ht as (Ht & Hi & Hl). destruct (scan_range tg first b Hw Ht) as (Hf & Hsz & Hm).
    rewrite (scan_size_blank _ _ _ (sm_blank _ _ Hs)) in Hi.
    destruct (Z.ltb_spec i (scan_size tg (ps_pool s))) as [Hlt|Hge];
      rewrite (scan_size_blank _ _ _ (sm_blank _ _ Hs)) in *.
    + destruct (pw_workers _ _ _ Hw (Z.to_nat (first + i)) ltac:(lia)) as [x Hx]. rewrite <-Ewk in Hx.
      assert (Eu : u32 (first + i) = Z.of_nat (Z.to_nat (first + i))) by (rewrite u32_small; lia).
      eapply Hquiet.
      { cbn [timer_step]. rewrite (scan_size_blank _ _ _ (sm_blank _ _ Hs)), (proj2 (Z.ltb_lt _ _) Hlt).
        rewrite Eu, (deref_ok _ _ _ Hx). done. }
      rewrite Z2Nat.id, u32_small by lia.
      destruct (worker_jobs x <? jobs); cbn; rewrite (scan_size_blank _ _ _ (sm_blank _ _ Hs)); split_and!; try done; lia.
    + assert (Hk : first ≤ least < first + scan_size tg b) by lia.
      destruct (record_wf tg first least b Hw Ht Hk) as (b' & Er & Hw' & Hl').
      destruct (record_blank tg least _ _ _ (sm_blank _ _ Hs) Er) as (p' & Ep & Eb & Hlp & Hwr & Hss).
      eexists _, _, b'. unfold timer_act. rewrite Et. cbn [timer_step].
      rewrite (scan_size_blank _ _ _ (sm_blank _ _ Hs)), (proj2 (Z.ltb_ge _ _)), Ep by lia. simpl_bind. split; [done|].
      split; [by eapply (exec_one _ _ (Some _)), atomic_record|].
      apply (sim_with s b); try done. unfold next_scan. destruct tg as [|core]; cbn [scan_ok] in Ht.
      * destruct (0 <? core_count a) eqn:E0; cbn; [lia|done].
      * destruct (Z.ltb_spec (core + 1) (core_count a)); cbn; [|done]. destruct Ht as [Hc ->].
        assert (Ew : mWorkersPerCore (mConfig (ps_pool s)) = Z.of_nat w).
        { assert (Hb := sm_blank _ _ Hs). apply blank_eq in Hb as (-> & _). apply Hw. }
        rewrite Ew. split; [lia|]. rewrite u32_small; nia.
  - left. split; [done|]. unfold timer_act. by rewrite Et.
Qed.

(** ** Every action *)
Lemma caller_act_cases s b i : sim s b →
  (caller_act i s = Ok None ∧
     ∀ r rs pc res, ps_callers s !! i = Some (Caller (r :: rs) pc res) → waits s i r pc) ∨
  ∃ o s' b', caller_act i s = Ok (Some (o, s')) ∧ exec atomic_step b (option_list o) b' ∧ sim s' b'.
Proof.
  intros Hs. unfold caller_act. destruct (ps_callers s !! i) as [[[|r rs] pc res]|] eqn:Hi; [by left..| |by left].
  destruct (act_proceeds s b i r rs pc res Hs Hi) as [(p' & l' & ev & next & b' & E & Hex & Hs')|[-> [E Hct]]].
  - right. rewrite E. simpl_bind. by eexists _, _, b'.
  - left. rewrite E. split; [done|]. by intros ???? [= <- <- <- <-].
Qed.

Lemma pool_step_sim a acts s b o s' :
  sim s b → core_count a = Z.of_nat c → pool_step a acts s o s' →
  ∃ b', exec atomic_step b (option_list o) b' ∧ sim s' b'.
Proof.
  intros Hs Ha Hstep. destruct Hstep as [i s o s' E|s o s' E|k x x' s Hx Hact|s].
  - destruct (caller_act_cases s b i Hs) as [[E' _]|(o' & s'' & b' & E' & He)]; rewrite E in E'; simplify_eq. by exists b'.
  - destruct (timer_proceeds a s b Hs Ha) as [[_ E']|(o' & s'' & b' & E' & He)]; rewrite E in E'; simplify_eq. by exists b'.
  - assert (Hb := sm_blank _ _ Hs). apply blank_eq in Hb as (_ & Ewk & _). rewrite Ewk.
    exists (set_workers b (<[k := Some x']> (mJobWorkerArr b))). split; [apply (exec_one _ _ (Some _)), atomic_work|].
    apply (sim_with s b); try done; [by apply blank_workers, Hs|by apply wf_set_worker, Hs|apply (sm_timer _ _ Hs)].
  - exists (set_timer_run false b). split; [apply (exec_one _ _ (Some _)), atomic_stop|].
    apply (sim_with s b); try done; [by apply blank_timer_run, Hs| |apply (sm_timer _ _ Hs)].
    destruct (sm_wf _ _ Hs). by constructor.
Qed.

Lemma pool_exec_sim a acts s b tr s' :
  sim s b → core_count a = Z.of_nat c → exec (pool_step a acts) s tr s' → ∃ b', exec atomic_step b tr b' ∧ sim s' b'.
Proof.
  intros Hs Ha Hex. induction Hex as [s|s tr s1 o s2 Hex IH Hstep]; [exists b; split; [constructor|done]|].
  destruct (IH Hs) as (b1 & He1 & Hs1). destruct (pool_step_sim a acts s1 b1 o s2 Hs1 Ha Hstep) as (b2 & He2 & Hs2).
  exists b2. split; [by eapply exec_trans|done].
Qed.

Lemma start_sim p calls : pool_wf c w p → Forall (Forall (call_ok c)) calls → sim (pool_start p calls) p.
Proof.
  intros Hw Hcalls.
  assert (Hz : ∀ ct, zsum (holds ct) (ps_callers (pool_start p calls)) = 0).
  { intros ct. by apply zsum_zero, Forall_fmap, Forall_true. }
  split; [done|done| |done| |done].
  - intros ct Hv. exists (sem_init 0 1). rewrite Hz. split; [|done]. destruct ct as [|core]; [done|].
    destruct (pw_size _ _ _ Hw) as (Hw0 & Hc0 & Hroom). cbn in Hv. cbn [load_lock pool_start init_locks ps_locks mCoreLock_Next_Arr].
    apply array_read_Ok. split; [lia|]. apply lookup_replicate_2. change (Z.to_nat MAX_WORKER_COUNT) with 128%nat. nia.
  - intros i th Hi. cbn in Hi. apply list_lookup_fmap_Some in Hi as (rs & -> & Hrs).
    split; [by eapply Forall_lookup_1|]. cbn. destruct rs; [done|]. by split_and!.
Qed.
End Pool.
