(* ===== verification/PoolCalls.v ===== *)
(** * Concurrent calls of [addJob]: who gets the jobs, and that every call returns

    What a run of [PoolThreads] shows of each thread and of each counter, and
    how much each thread and the timer have left to do. *)
From S2P Require Import Prelude Semaphore PoolConfig ThreadPool PoolInv PoolLife PoolThreads PoolSim.

Section Pool.
Context {W Q J : Type} `{PoolParts W Q J}.
Implicit Types p b : AdaptiveThreadPool W Q.
Implicit Types th : caller J.

(** ** The jobs *)

(** The worker a call has chosen and not yet given its job. *)
Definition chosen_in (pc : call_pc) : list Z :=
  match pc with
  | AtSwitch | InLoad _ => []
  | InStore _ k | InTest _ k | InReset _ k | InPost _ k | AtDeliver k => [k]
  end.

(** The workers thread [i] has chosen; what it has delivered: a worker, a job
    and what [addJob] returned. *)
Definition chosen_by (i : nat) (tr : list (pool_event W J)) : list Z :=
  omap (λ e, match e with Chose j _ _ k => if decide (j = i) then Some k else None | _ => None end) tr.
Definition delivered_by (i : nat) (tr : list (pool_event W J)) : list (Z * J * bool) :=
  omap (λ e, match e with Delivered j k job ok => if decide (j = i) then Some (k, job, ok) else None | _ => None end) tr.

(** What one action of a call shows. *)
Lemma addJob_step_shape i (r : request J) rs res pc p l p' l' ev next :
  addJob_step i r pc p l = Ok (Some (p', l', ev, next)) →
  let th := moved r rs res next in
  (ev = None ∧ c_calls th = r :: rs ∧ c_results th = res ∧ chosen_in (c_pc th) = chosen_in pc) ∨
  (∃ k, ev = Some (Chose i r.1.1 r.1.2 k) ∧ c_calls th = r :: rs ∧ c_results th = res ∧ chosen_in pc = [] ∧
     chosen_in (c_pc th) = [k]) ∨
  (∃ k ok, ev = Some (Delivered i k r.2 ok) ∧ th = Caller rs AtSwitch (res ++ [ok]) ∧ pc = AtDeliver k).
Proof.
  intros E. destruct r as [[ca policy] job]. destruct pc as [|ct|ct k|ct k|ct k|ct k|k]; cbn [addJob_step] in E.
  - destruct (counter_of ca policy) as [ct|].
    + apply bind_Ok in E as (s & _ & E). destruct (sem_wait s); [|done].
      apply bind_Ok in E as (l1 & _ & [= <- <- <- <-]). by left.
    + apply bind_Ok in E as ([k st] & _ & [= <- <- <- <-]). right; left. by exists k.
  - apply bind_Ok in E as (k & _ & [= <- <- <- <-]). right; left. by exists k.
  - apply bind_Ok in E as (p1 & _ & [= <- <- <- <-]). by left.
  - apply bind_Ok in E as (n & _ & [= <- <- <- <-]). left. cbn. by destruct (_ =? _).
  - apply bind_Ok in E as (p1 & _ & [= <- <- <- <-]). by left.
  - apply bind_Ok in E as (s & _ & E). apply bind_Ok in E as (l1 & _ & [= <- <- <- <-]). by left.
  - apply bind_Ok in E as (x & _ & E). destruct (worker_addJob x job) as [x' ok].
    apply bind_Ok in E as (arr & _ & [= <- <- <- <-]). right; right. by exists k, ok.
Qed.

Lemma timer_step_shape a pc p p' ev pc' : timer_step (J := J) a pc p = Ok (Some (p', ev, pc')) →
  ev = None ∨ ∃ tg k, ev = Some (Recorded tg k).
Proof.
  intros E. destruct pc as [| |tg first|tg first i l k|]; cbn [timer_step] in E; [by simplify_eq; left..| | |done].
  - apply bind_Ok in E as (x & _ & [= <- <- <-]). by left.
  - destruct (i <? scan_size tg p).
    + apply bind_Ok in E as (x & _ & [= <- <- <-]). by left.
    + apply bind_Ok in E as (p1 & _ & [= <- <- <-]). right. by exists tg, k.
Qed.

(** What an action adds. *)
Definition chose_now (i : nat) (o : option (pool_event W J)) : list Z :=
  match o with Some (Chose j _ _ k) => if decide (j = i) then [k] else [] | _ => [] end.
Definition delivered_now (i : nat) (o : option (pool_event W J)) : list (Z * J * bool) :=
  match o with Some (Delivered j k job ok) => if decide (j = i) then [(k, job, ok)] else [] | _ => [] end.

Lemma chosen_by_snoc i tr o : chosen_by i (tr ++ option_list o) = chosen_by i tr ++ chose_now i o.
Proof.
  unfold chosen_by. destruct o as [e|]; [|by rewrite !app_nil_r]. rewrite omap_app. f_equal.
  destruct e; try done. cbn. by case_decide.
Qed.
Lemma delivered_by_snoc i tr o : delivered_by i (tr ++ option_list o) = delivered_by i tr ++ delivered_now i o.
Proof.
  unfold delivered_by. destruct o as [e|]; [|by rewrite !app_nil_r]. rewrite omap_app. f_equal.
  destruct e; try done. cbn. by case_decide.
Qed.

Context (c w : nat).

(** Thread [i], which had the calls [rs] to make, after the trace [tr]. *)
Definition served (i : nat) (rs : list (request J)) (tr : list (pool_event W J)) th : Prop :=
  ∃ ds, delivered_by i tr = ds ∧ c_results th = ds.*2 ∧ chosen_by i tr = ds.*1.*1 ++ chosen_in (c_pc th) ∧
    ∃ done, rs = done ++ c_calls th ∧ Forall2 (λ r d, d.1.2 = r.2 ∧ may_choose c w r d.1.1) done ds.

Lemma served_step a acts s b tr o s' i rs th :
  sim c w s b → pool_step a acts s o s' → ps_callers s !! i = Some th → served i rs tr th →
  ∃ th', ps_callers s' !! i = Some th' ∧ served i rs (tr ++ option_list o) th'.
Proof.
  intros Hs Hstep Hi (ds & Ed & Er & Ec & dn & Ers & Hds).
  assert (Hother : chose_now i o = [] → delivered_now i o = [] → served i rs (tr ++ option_list o) th).
  { intros H1 H2. exists ds. rewrite chosen_by_snoc, delivered_by_snoc, H1, H2, !app_nil_r. by split_and!; [..|exists dn]. }
  destruct Hstep as [j s o s' E|s o s' E|k x x' s Hx Hact|s].
  - unfold caller_act in E. destruct (ps_callers s !! j) as [[[|r rs0] pc res]|] eqn:Hj; [done| |done].
    apply bind_Ok in E as ([[[[p' l'] ev] next]|] & Ea & E); [|done]. injection E as <- <-. cbn [ps_callers].
    pose proof (addJob_step_shape j r rs0 res _ _ _ _ _ _ _ Ea) as Hshape. cbv zeta in Hshape.
    destruct (decide (j = i)) as [->|Hne].
    + rewrite Hi in Hj. injection Hj as ->. cbn [c_calls c_pc c_results] in *.
      rewrite list_lookup_insert_eq by (by eapply lookup_lt_Some). eexists. split; [done|].
      destruct Hshape as [(-> & E1 & E2 & E3)|[(k & -> & E1 & E2 & E3 & E4)|(k & ok & -> & E1 & ->)]];
        unfold served; rewrite chosen_by_snoc, delivered_by_snoc; cbn [chose_now delivered_now];
        rewrite ?decide_True, ?app_nil_r by done.
      * exists ds. rewrite E1, E2, E3. by split_and!; [..|exists dn].
      * exists ds. rewrite E1, E2, E4, Ec, E3, app_nil_r. by split_and!; [..|exists dn].
      * destruct (sm_callers _ _ _ _ Hs i _ Hi) as [_ (_ & _ & Hmay)]. cbn [c_pc chosen_in] in *.
        exists (ds ++ [(k, r.2, ok)]). rewrite Ed, E1, Ec, Er, !fmap_app. cbn [fmap list_fmap c_results c_pc chosen_in fst snd c_calls].
        rewrite ?app_nil_r. split_and!; [done..|]. exists (dn ++ [r]). rewrite Ers, <-app_assoc. split; [done|].
        apply Forall2_app; [done|]. constructor; [by split|constructor].
    + exists th. rewrite list_lookup_insert_ne by done. split; [done|].
      destruct Hshape as [(-> & _)|[(k & -> & _)|(k & ok & -> & _)]]; apply Hother; try done; cbn; by rewrite decide_False.
  - unfold timer_act in E. apply bind_Ok in E as ([[[p' ev] pc']|] & Ea & E); [|done]. injection E as <- <-.
    exists th. split; [done|]. by apply timer_step_shape in Ea as [->|(tg & k & ->)]; apply Hother.
  - exists th. split; [done|]. by eapply Hother.
  - exists th. split; [done|]. by eapply Hother.
Qed.

Lemma served_run a acts (p : AdaptiveThreadPool W Q) calls tr s i rs :
  pool_wf c w p → core_count a = Z.of_nat c → Forall (Forall (call_ok c)) calls → calls !! i = Some rs →
  exec (pool_step a acts) (pool_start p calls) tr s → ∃ th, ps_callers s !! i = Some th ∧ served i rs tr th.
Proof.
  intros Hw Ha Hcalls Hi Hex.
  apply (exec_trace_invariant (pool_step a acts)
    (λ tr s, (∃ b, sim c w s b) ∧ ∃ th, ps_callers s !! i = Some th ∧ served i rs tr th)) with (3 := Hex).
  - intros tr1 s1 o s2 [[b Hs] (th & Hth & Hsv)] Hstep. split.
    + destruct (pool_step_sim c w a acts s1 b o s2 Hs Ha Hstep) as (b' & _ & Hs'). by exists b'.
    + by eapply served_step.
  - split; [exists p; by apply start_sim|]. exists (Caller rs AtSwitch []). split.
    + cbn [pool_start ps_callers]. rewrite list_lookup_fmap. exact (f_equal (fmap (λ rs, Caller rs AtSwitch [])) Hi).
    + exists []. by split_and!; [..|exists []].
Qed.

(** All deliveries, each with the index of its worker, and the workers' objects
    after them when the workers do nothing of their own. *)
Definition deliveries (tr : list (pool_event W J)) : list (nat * J) :=
  omap (λ e, match e with Delivered _ k job _ => Some (Z.to_nat k, job) | _ => None end) tr.
Definition delivery_now (o : option (pool_event W J)) : list (nat * J) :=
  match o with Some (Delivered _ k job _) => [(Z.to_nat k, job)] | _ => [] end.
Lemma deliveries_snoc tr o : deliveries (tr ++ option_list o) = deliveries tr ++ delivery_now o.
Proof.
  unfold deliveries. destruct o as [e|]; [|by rewrite !app_nil_r]. rewrite omap_app. f_equal. by destruct e.
Qed.
Definition worked (tr : list (pool_event W J)) : Prop := ∃ k x, Worked k x ∈ tr.

Lemma deliveries_run p tr b (x : nat → W) :
  (∀ k, (k < c * w)%nat → mJobWorkerArr p !! k = Some (Some (x k))) → ¬ worked tr → exec atomic_step p tr b →
  ∀ k, (k < c * w)%nat → mJobWorkerArr b !! k = Some (Some (after_jobs x (deliveries tr) k)).
Proof.
  intros Hx Hno Hex. induction Hex as [p|p tr b1 o b2 Hex IH Hstep]; [done|].
  assert (Hno1 : ¬ worked tr) by (intros (k & y & Hin); apply Hno; exists k, y; apply elem_of_app; by left).
  specialize (IH Hx Hno1). rewrite deliveries_snoc.
  destruct Hstep as [i ca policy k st b1 Ech|i k job y b1 Hk Hy|k y b1|tg k b1 b2 Er|b1]; cbn [delivery_now]; rewrite ?app_nil_r.
  - done.
  - intros j Hj. rewrite after_jobs_app. cbn [mJobWorkerArr set_workers]. rewrite after_jobs_cons. unfold after_jobs at 1. cbn.
    destruct (decide (j = Z.to_nat k)) as [->|Hne].
    + rewrite list_lookup_insert_eq by (by eapply lookup_lt_Some). rewrite IH in Hy by done. by simplify_eq.
    + rewrite list_lookup_insert_ne by done. by apply IH.
  - exfalso. apply Hno. exists k, y. apply elem_of_app. right. cbn. by constructor.
  - destruct tg; cbn in Er; [by simplify_eq|]. by apply bind_Ok in Er as (arr & _ & [= <-]).
  - done.
Qed.

(** A choice and its delivery, one after the other, are [addJob]. *)
Lemma atomic_call i ca job policy k ok p p1 b :
  atomic_step p (Some (Chose i ca policy k)) p1 → atomic_step p1 (Some (Delivered i k job ok)) b →
  addJob ca job policy p = Ok (b, ok).
Proof.
  intros H1 H2. inversion H1 as [? ? ? ? st ? E| | | |]; subst. inversion H2 as [|? ? ? x ? Hk Hx| | |]; subst.
  cbn [mJobWorkerArr set_stat] in *. unfold addJob. rewrite E. simpl_bind.
  rewrite <-(Z2Nat.id k) by done. rewrite (deref_ok _ _ _ Hx). simpl_bind. destruct (worker_addJob x job) as [x' ok].
  rewrite array_write_ok by (apply lookup_lt_Some in Hx; lia). simpl_bind. by rewrite !Nat2Z.id.
Qed.

(** ** The round robins *)

(** The workers the calls that go by a counter chose, in order. *)
Definition turns_of (ct : counter) (tr : list (pool_event W J)) : list Z :=
  omap (λ e, match e with
    | Chose _ ca policy k => if decide (counter_of ca policy = Some ct) then Some k else None
    | _ => None end) tr.
Definition turn_now (ct : counter) (o : option (pool_event W J)) : list Z :=
  match o with Some (Chose _ ca policy k) => if decide (counter_of ca policy = Some ct) then [k] else [] | _ => [] end.

Lemma turns_of_snoc ct tr o : turns_of ct (tr ++ option_list o) = turns_of ct tr ++ turn_now ct o.
Proof.
  unfold turns_of. destruct o as [e|]; [|by rewrite !app_nil_r]. rewrite omap_app. f_equal.
  destruct e; try done. cbn. by case_decide.
Qed.

Lemma atomic_turns ct p tr b (f : nat → Z) :
  load_counter ct p = Ok (f 0%nat) → (∀ n, after ct (f n) p = f (S n)) → exec atomic_step p tr b →
  turns_of ct tr = f <$> seq 0 (length (turns_of ct tr)) ∧ load_counter ct b = Ok (f (length (turns_of ct tr))) ∧
  ∀ k, after ct k b = after ct k p.
Proof.
  intros H0 Hf Hex. induction Hex as [p|p tr b1 o b2 Hex IH Hstep]; [done|].
  destruct (IH H0 Hf) as (Ht & Hl & Ha). rewrite turns_of_snoc.
  assert (Hsame : turn_now ct o = [] → load_counter ct b2 = load_counter ct b1 → (∀ k, after ct k b2 = after ct k b1) →
    turns_of ct tr ++ turn_now ct o = f <$> seq 0 (length (turns_of ct tr ++ turn_now ct o)) ∧
    load_counter ct b2 = Ok (f (length (turns_of ct tr ++ turn_now ct o))) ∧ ∀ k, after ct k b2 = after ct k p).
  { intros -> -> E. rewrite app_nil_r. split_and!; [done..|]. intros k. by rewrite E. }
  destruct Hstep as [i ca policy k st b1 Ech|i k job y b1 Hk Hy|k y b1|tg k b1 b2 Er|b1].
  - destruct (counter_of ca policy) as [ct'|] eqn:Ect.
    + destruct (decide (ct' = ct)) as [->|Hne].
      * destruct (choose_round_robin ct ca policy _ b1 Ect Hl) as (st' & E & Hb & Hl' & _).
        rewrite Ech in E. apply Ok_pair in E as [-> <-]. cbn [turn_now]. rewrite decide_True, length_app by done. cbn [length].
        rewrite Nat.add_1_r, seq_S, fmap_app, <-Ht. split_and!; [done| |].
        -- by rewrite Hl', Ha, Hf.
        -- intros k. by rewrite (after_blank ct k _ _ Hb).
      * assert (Hk : ∃ n, load_counter ct' b1 = Ok n).
        { destruct policy; try done; injection Ect as <-; cbn [choose_worker] in Ech; [|by eexists].
          apply bind_Ok in Ech as (n & En & _). by exists n. }
        destruct Hk as [n Hn]. destruct (choose_round_robin ct' ca policy n b1 Ect Hn) as (st' & E & Hb & _ & Ho).
        rewrite Ech in E. apply Ok_pair in E as [-> <-].
        apply Hsame; [cbn; rewrite Ect; by rewrite decide_False by congruence|by apply Ho|].
        intros k. by apply after_blank.
    + destruct (choose_other ca policy b1 b1 k st Ect eq_refl Ech) as [-> _]. rewrite blank_set_stat.
      apply Hsame; [cbn; by rewrite Ect|done|done].
  - by apply Hsame; destruct ct.
  - by apply Hsame; destruct ct.
  - assert (E : load_counter ct b2 = load_counter ct b1 ∧ ∀ n, after ct n b2 = after ct n b1).
    { destruct tg; cbn in Er; [by simplify_eq; destruct ct|]. by apply bind_Ok in Er as (arr & _ & [= <-]); destruct ct. }
    destruct E. by apply Hsame.
  - by apply Hsame; destruct ct.
Qed.

Lemma core_after p core o :
  pool_wf c w p → (core < c)%nat → (o < w)%nat →
  after (OnCore (Z.of_nat core)) (Z.of_nat (core * w + o)) p = Z.of_nat (core * w + S o mod w).
Proof.
  intros Hw Hc Ho. destruct (pw_size _ _ _ Hw) as (Hw0 & Hc0 & Hroom). unfold after. cbn [wrap_at wrap_to].
  rewrite (pw_per_core _ _ _ Hw), (next_on_core_code w (core * w + o) core c), next_on_core_offset; try done.
  apply div_range; lia.
Qed.

Lemma global_after p s :
  pool_wf c w p → (s < c * w)%nat → after Global (Z.of_nat s) p = Z.of_nat (S s mod (c * w)).
Proof.
  intros Hw Hs. destruct (pw_size _ _ _ Hw) as (Hw0 & Hc0 & Hroom). unfold after. cbn [wrap_at wrap_to].
  rewrite (pw_count _ _ _ Hw), u32_small by lia. destruct (Z.eqb_spec (Z.of_nat s + 1) (Z.of_nat (c * w))).
  - assert (S s = c * w)%nat as -> by lia. by rewrite Nat.Div0.mod_same.
  - rewrite Nat.mod_small; lia.
Qed.

(** ** Every call returns *)

(** At most how many more actions a thread needs for its calls. *)
Definition pc_left (pc : call_pc) : nat :=
  match pc with
  | AtSwitch => 7 | InLoad _ => 6 | InStore _ _ => 5 | InTest _ _ => 4 | InReset _ _ => 3 | InPost _ _ => 2 | AtDeliver _ => 1
  end.
Definition calls_left th : nat :=
  match c_calls th with [] => 0 | _ :: rs => pc_left (c_pc th) + 7 * length rs end.
Definition work_left (s : pool_system W Q J) : Z := zsum (λ th, Z.of_nat (calls_left th)) (ps_callers s).

Lemma caller_act_less i s o s' : caller_act i s = Ok (Some (o, s')) → work_left s' < work_left s ∧ ps_timer s' = ps_timer s.
Proof.
  intros E. unfold caller_act in E. destruct (ps_callers s !! i) as [[[|r rs] pc res]|] eqn:Hi; [done| |done].
  apply bind_Ok in E as ([[[[p' l'] ev] next]|] & Ea & E); [|done]. injection E as <- <-. split; [|done].
  unfold work_left. cbn [ps_callers]. rewrite (zsum_insert _ _ _ _ _ Hi).
  assert (calls_left (moved r rs res next) < calls_left (Caller (r :: rs) pc res))%nat; [|lia].
  destruct r as [[ca policy] job]. destruct pc; cbn [addJob_step] in Ea.
  - destruct (counter_of ca policy).
    + apply bind_Ok in Ea as (s1 & _ & Ea). destruct (sem_wait s1); [|done].
      apply bind_Ok in Ea as (l1 & _ & [= <- <- <- <-]). cbn. lia.
    + apply bind_Ok in Ea as ([k st] & _ & [= <- <- <- <-]). cbn. lia.
  - apply bind_Ok in Ea as (k & _ & [= <- <- <- <-]). cbn. lia.
  - apply bind_Ok in Ea as (p1 & _ & [= <- <- <- <-]). cbn. lia.
  - apply bind_Ok in Ea as (n & _ & [= <- <- <- <-]). cbn. destruct (_ =? _); cbn; lia.
  - apply bind_Ok in Ea as (p1 & _ & [= <- <- <- <-]). cbn. lia.
  - apply bind_Ok in Ea as (s1 & _ & Ea). apply bind_Ok in Ea as (l1 & _ & [= <- <- <- <-]). cbn. lia.
  - apply bind_Ok in Ea as (x & _ & Ea). destruct (worker_addJob x job) as [x' ok].
    apply bind_Ok in Ea as (arr & _ & [= <- <- <- <-]). cbn. destruct rs; cbn; lia.
Qed.

(** While calls are open one of their threads can act: a call that waits for a
    counter waits for a thread in its sections, which does not wait. *)
Lemma some_caller_acts s b i th :
  sim c w s b → ps_callers s !! i = Some th → c_calls th ≠ [] → ∃ j o s', caller_act j s = Ok (Some (o, s')).
Proof.
  intros Hs Hi Hne. destruct (caller_act_cases c w s b i Hs) as [[E Hwait]|(o & s' & _ & E & _)]; [|by exists i, o, s'].
  destruct th as [[|r rs] pc res]; [done|]. destruct (Hwait r rs pc res Hi) as (_ & ct & Hv & Hz).
  apply zsum_pos_lookup in Hz as (j & [rs' pc' res'] & Hj & Hh).
  assert (Es : section_of pc' = Some ct) by (unfold holds in Hh; cbn in Hh; by case_decide).
  destruct (caller_act_cases c w s b j Hs) as [[Ej Hwj]|(o & s' & _ & Ej & _)]; [|by exists j, o, s'].
  exfalso. destruct (sm_callers _ _ _ _ Hs j _ Hj) as [_ Hok]. cbn in Hok. destruct rs' as [|r' rs']; [by subst|].
  destruct (act_proceeds c w s b j r' rs' pc' res' Hs Hj) as [(p' & l' & ev & nx & b' & Ea & _)|[-> _]]; [|done].
  unfold caller_act in Ej. rewrite Hj, Ea in Ej. done.
Qed.

Lemma calls_return a acts s b :
  sim c w s b → core_count a = Z.of_nat c →
  ∃ tr s' b', exec (pool_step a acts) s tr s' ∧ sim c w s' b' ∧ Forall (λ th, c_calls th = []) (ps_callers s') ∧
    ps_timer s' = ps_timer s.
Proof.
  intros Hs Ha. remember (Z.to_nat (work_left s)) as n eqn:En. revert s b Hs En.
  induction n as [n IH] using lt_wf_ind. intros s b Hs En.
  destruct (decide (Forall (λ th, c_calls th = []) (ps_callers s))) as [Hd|Hd].
  { exists [], s, b. split; [constructor|done]. }
  apply not_Forall_Exists in Hd; [|apply _]. apply Exists_exists in Hd as (th & Hin & Hne).
  apply list_elem_of_lookup in Hin as [i Hi].
  destruct (some_caller_acts s b i th Hs Hi Hne) as (j & o & s1 & E).
  destruct (pool_step_sim c w a acts s b o s1 Hs Ha (step_caller _ _ j s o s1 E)) as (b1 & _ & Hs1).
  destruct (caller_act_less j s o s1 E) as [Hless Et].
  assert (Hn : 0 ≤ work_left s1) by (apply zsum_nonneg; intros; lia).
  destruct (IH (Z.to_nat (work_left s1)) ltac:(lia) s1 b1 Hs1 eq_refl) as (tr & s2 & b2 & Hex & Hs2 & Hall & Et2).
  exists (option_list o ++ tr), s2, b2. split_and!; [|done|done|by rewrite Et2].
  eapply exec_trans; [by eapply exec_one, step_caller|done].
Qed.

(** At most how many more actions the timer makes once [mTimerRun] is false. *)
Definition scans_left (tg : target) : Z :=
  match tg with
  | OverPool => Z.of_nat c * (Z.of_nat w + 1)
  | OverCore core => (Z.of_nat c - core - 1) * (Z.of_nat w + 1)
  end.
Definition timer_left (p : AdaptiveThreadPool W Q) (pc : timer_pc) : Z :=
  match pc with
  | TimerExited => 0
  | TimerCheck => 1
  | TimerSleep => scan_size OverPool p + scans_left OverPool + 3
  | FirstCount tg _ => scan_size tg p + scans_left tg + 2
  | NextCount tg _ i _ _ => scan_size tg p - i + scans_left tg + 2
  end.

Lemma timer_act_less a s b o s' :
  sim c w s b → core_count a = Z.of_nat c → mTimerRun (ps_pool s) = false → timer_act a s = Ok (Some (o, s')) →
  0 ≤ timer_left (ps_pool s') (ps_timer s') < timer_left (ps_pool s) (ps_timer s) ∧ mTimerRun (ps_pool s') = false ∧
  ps_callers s' = ps_callers s.
Proof.
  intros Hs Ha Hoff E. pose proof (sm_timer _ _ _ _ Hs) as Ht. pose proof (sm_wf _ _ _ _ Hs) as Hw.
  assert (Hb := sm_blank _ _ _ _ Hs). apply blank_eq in Hb as (Ecf & _ & Ecn & _).
  assert (Ew : mWorkersPerCore (mConfig (ps_pool s)) = Z.of_nat w) by (rewrite Ecf; apply Hw).
  assert (En : mJobWorkerCount (ps_pool s) = Z.of_nat (c * w)) by (rewrite Ecn; apply Hw).
  destruct (pw_size _ _ _ Hw) as (Hw0 & Hc0 & _).
  unfold timer_act in E. apply bind_Ok in E as ([[[p' ev] pc']|] & Et & E); [|done]. injection E as <- <-.
  cbn [ps_pool ps_timer ps_callers].
  destruct (ps_timer s) as [| |tg first|tg first i jobs least|]; cbn [timer_step timer_ok] in *; [| | | |done].
  - rewrite Hoff in Et. injection Et as <- _ <-. cbn. split; [lia|done].
  - injection Et as <- _ <-. cbn. rewrite En. split; [nia|done].
  - apply bind_Ok in Et as (x & _ & [= <- _ <-]). split; [|done]. destruct tg; cbn in *; rewrite ?En, ?Ew; nia.
  - destruct Ht as (Ht & Hi & Hl). destruct (Z.ltb_spec i (scan_size tg (ps_pool s))) as [Hlt|Hge].
    + apply bind_Ok in Et as (x & _ & [= <- _ <-]). split; [|done].
      assert (Hsm : scan_size tg (ps_pool s) ≤ 128 ∧ 0 ≤ scans_left tg) by
        (destruct (pw_size _ _ _ Hw) as (_ & _ & ?); destruct tg; cbn in *; rewrite ?En, ?Ew; nia).
      rewrite (u32_small (i + 1)) by lia. destruct (worker_jobs x <? jobs); cbn [timer_left]; lia.
    + apply bind_Ok in Et as (p1 & Er & [= <- _ <-]).
      assert (Ep : mConfig p1 = mConfig (ps_pool s) ∧ mTimerRun p1 = false).
      { destruct tg; cbn in Er; [by simplify_eq|]. by apply bind_Ok in Er as (arr & _ & [= <-]). }
      destruct Ep as [Ec1 Et1]. split; [|done].
      unfold next_scan. destruct tg as [|core]; cbn in *.
      * destruct (Z.ltb_spec 0 (core_count a)); [|lia]. cbn. rewrite Ec1, En, Ew. nia.
      * destruct Ht as [Hc _]. rewrite Ew in *. destruct (Z.ltb_spec (core + 1) (core_count a)); cbn; rewrite ?Ec1, ?Ew; nia.
Qed.

Lemma timer_exits a acts s b :
  sim c w s b → core_count a = Z.of_nat c → mTimerRun (ps_pool s) = false →
  ∃ tr s' b', exec (pool_step a acts) s tr s' ∧ sim c w s' b' ∧ ps_timer s' = TimerExited ∧ ps_callers s' = ps_callers s.
Proof.
  intros Hs Ha Hoff. remember (Z.to_nat (timer_left (ps_pool s) (ps_timer s))) as n eqn:En. revert s b Hs Hoff En.
  induction n as [n IH] using lt_wf_ind. intros s b Hs Hoff En.
  destruct (timer_proceeds c w a s b Hs Ha) as [[Et _]|(o & s1 & b1 & E & _ & Hs1)].
  { exists [], s, b. split; [constructor|done]. }
  destruct (timer_act_less a s b o s1 Hs Ha Hoff E) as (Hless & Hoff1 & Ec).
  destruct (IH (Z.to_nat (timer_left (ps_pool s1) (ps_timer s1))) ltac:(lia) s1 b1 Hs1 Hoff1 eq_refl) as (tr & s2 & b2 & Hex & Hs2 & Ht & Ec2).
  exists (option_list o ++ tr), s2, b2. split_and!; [|done|done|by rewrite Ec2].
  eapply exec_trans; [by eapply exec_one, step_timer|done].
Qed.
End Pool.
