(* ===== verification/PoolProps.v ===== *)
(** * Properties of the thread pool (AdaptiveThreadPool)

    Configuration, set-up, the choice of a worker and the timer, with
    witnesses on a pool of two cores. *)
From S2P Require Import Prelude Semaphore PoolConfig ThreadPool PoolInv PoolLife.

(** ** A small pool

    A worker is the list of the numbers it was given: its id, its core, its
    queue and its jobs. *)
#[local] Instance demo_parts : PoolParts (list Z) Z Z := {
  createJobWorker id cfg := [id; mWhichCore cfg];
  createJobQueue n _ := 100 + n;
  assignQ w q := w ++ [q];
  worker_start w := w;
  worker_addJob w j := (w ++ [j], true);
  worker_jobs w := Z.of_nat (length w)
}.

Definition two_cores : sys_answers := SysAnswers 2 0 (λ _, 1) (λ _, 99) true.

Definition demo_config (per_core share : Z) (type : JobQueueType) : ThreadPoolConfig :=
  setQueueShareFactor share
    (ThreadPoolConfig_ctor
      (MkPoolConfig (MkWorkerConfig JOBWORKER_TYPE_INDEPENDENT THREADSCHED_DEFAULT 0 0)
         JOBQUEUE_TYPE_EXCLUSIVE 0 0 0 (Timespec 0 0))
      per_core THREADSCHED_REALTIME_NO_SLICE 1000 JOBWORKER_TYPE_INDEPENDENT type 20 share).

(** The uninitialised object, its statistics initialised. *)
Definition demo_pool (cfg : ThreadPoolConfig) : AdaptiveThreadPool (list Z) Z :=
  let cores := (λ k, u32 (Z.of_nat k * mWorkersPerCore cfg)) <$> seq 0 128 in
  MkPool [112] cfg (replicate 128 None) 0 (replicate 128 None) 0
    (MkStat (replicate 128 0) 0 cores 0 cores) false NoThread.

Definition pool_of {A} (d : A) (m : outcome A) : A := match m with Ok x => x | Fault _ => d end.

Definition demo_adjusted cfg : AdaptiveThreadPool (list Z) Z :=
  (pool_of (demo_pool cfg, false) (adjustConfig two_cores (demo_pool cfg))).1.
Definition demo_setup cfg : AdaptiveThreadPool (list Z) Z :=
  pool_of (demo_pool cfg) (setup two_cores (demo_adjusted cfg)).

(** Two cores, two workers on each, two workers to a queue. *)
Definition shared_config : ThreadPoolConfig := demo_config 2 2 JOBQUEUE_TYPE_SHARED.

Lemma demo_adjusted_ok : adjusted 2 2 2 2 (demo_adjusted shared_config).
Proof. split; (vm_compute; reflexivity) || (split; apply Nat.leb_le; reflexivity). Qed.

Lemma demo_cores_lookup per_core k :
  (k < 128)%nat →
  ((λ k, u32 (Z.of_nat k * per_core)) <$> seq 0 128) !! k = Some (u32 (Z.of_nat k * per_core)).
Proof. intros Hk. rewrite list_lookup_fmap, lookup_seq_lt by done. done. Qed.

Lemma demo_wf : pool_wf 2 2 (demo_setup shared_config).
Proof.
  apply (setup_wf two_cores (demo_adjusted shared_config) 2 2 2 2); try lia; try done.
  - apply demo_adjusted_ok.
  - intros k Hk. split; by apply demo_cores_lookup.
Qed.

Section Props.
Context {W Q J : Type} `{PoolParts W Q J}.

(** ** Configuration *)

(** The updating time stored is normalised, and is the time asked for
    exactly up to 4294 ms: the product of longer times wraps around. *)
Lemma statistics_time_exact_below_4295 time c :
  0 ≤ time < 4294967296 →
  let ts := mUpdatingStatisticsTime (setStatisticsUpdatingTimeInMs time c) in
  0 ≤ tv_sec ts ∧ 0 ≤ tv_nsec ts < 1000000000 ∧
  (ts_nanoseconds ts = time * 1000000 ↔ time ≤ 4294).
Proof.
  intros Ht ts. pose proof (u32_bounds (time * 1000000)) as Hb.
  pose proof (Z.mod_pos_bound (u32 (time * 1000000)) 1000000000 ltac:(lia)).
  assert (E : ts_nanoseconds ts = u32 (time * 1000000)).
  { unfold ts, ts_nanoseconds. cbn [setStatisticsUpdatingTimeInMs mUpdatingStatisticsTime tv_sec tv_nsec].
    pose proof (Z.div_mod (u32 (time * 1000000)) 1000000000 ltac:(lia)). lia. }
  split_and!; [apply Z.div_pos; lia|apply H0|apply H0|]. rewrite E. split; [lia|].
  intros Hle. apply u32_small. lia.
Qed.

(** C38. No pool has a defined life.  Its constructor returns only for a
    configuration that the check rejects, for too many workers or a policy the
    user has no right to; nothing is started then, and the destructor joins a
    thread that was never created.  For every other configuration the
    constructor itself is undefined: the check comes to its closing brace
    without a [return], or divides by a share factor of zero, or asserts. *)
Theorem pool_has_no_defined_life a (memory : AdaptiveThreadPool W Q) name config :
  length (mNextJobWorkerOnEachCoreArr (mStatCtrl memory)) = 128%nat →
  length (mJobWorkerWithLeastJobOnEachCoreArr (mStatCtrl memory)) = 128%nat →
  match AdaptiveThreadPool_ctor a memory name config with
  | Ok (p, started) =>
      rejected a config ∧ started = false ∧ mName p = name ∧ mConfig p = config ∧ stopWorkers p = Fault Uninitialised
  | Fault f => ¬ rejected a config ∧ f = check_fault config
  end.
Proof.
  intros L1 L2. unfold AdaptiveThreadPool_ctor.
  destruct (initializeStatistics_ok (MkPool name config (mJobWorkerArr memory) (mJobWorkerCount memory) (mJobQueueArr memory)
    (mJobQueueCount memory) (mStatCtrl memory) (mTimerRun memory) NoThread) L1 L2) as (next & least & -> & _).
  simpl_bind. set (p1 := set_stat _ _). unfold configAndStartWorkers, checkAndAjustConfig.
  pose proof (adjustConfig_ends a p1) as Hend. destruct (adjustConfig a p1) as [[p' []]|f]; simpl_bind.
  - split; [|symmetry]; apply Hend.
  - destruct Hend as (Hr & Hname & Hcfg & Ht). split_and!; [done..|]. unfold stopWorkers. cbn [set_timer_run mTimerThread]. by rewrite Ht.
  - done.
Qed.

(** What the check adjusts: at most 128 workers, a priority the policy
    allows, below the maximum for the policy of the timer thread, one queue
    per worker or enough queues for groups of [mQueueShareFactor]; it rejects
    too many workers and real-time policies without privilege. *)
Lemma adjusted_config_is_legal a (p : AdaptiveThreadPool W Q) p' ok :
  adjustConfig a p = Ok (p', ok) →
  let cfg := mConfig p in
  let policy := mThreadPolicy (worker_config cfg) in
  let lo := min_priority a policy in
  let hi := max_priority a policy in
  let prio := mThreadPriority (worker_config (mConfig p')) in
  mJobWorkerCount p' = u32 (core_count a * mWorkersPerCore cfg) ∧
  if ok then
    mJobWorkerCount p' ≤ 128 ∧ (policy = THREADSCHED_DEFAULT ∨ uid a = 0) ∧
    (lo ≤ hi → lo ≤ prio ≤ hi) ∧
    (policy = THREADSCHED_REALTIME_NO_SLICE → lo < hi → prio < hi) ∧
    match mJobQueueType cfg with
    | JOBQUEUE_TYPE_EXCLUSIVE => mJobQueueCount p' = mJobWorkerCount p'
    | JOBQUEUE_TYPE_SHARED =>
        let share := mQueueShareFactor cfg in
        0 < share → mJobWorkerCount p' + share - 1 < 4294967296 →
        mJobQueueCount p' * share - share < mJobWorkerCount p' ≤ mJobQueueCount p' * share
    | JOBQUEUE_TYPE_MAX => False
    end
  else 128 < mJobWorkerCount p' ∨ (policy ≠ THREADSCHED_DEFAULT ∧ uid a ≠ 0).
Proof.
  intros E cfg policy lo hi prio. unfold adjustConfig in E. fold cfg in E. fold policy in E.
  pose proof (u32_bounds (core_count a * mWorkersPerCore cfg)) as Hb.
  destruct (Z.ltb_spec MAX_WORKER_COUNT (u32 (core_count a * mWorkersPerCore cfg))) as [Hlt|Hge].
  { apply Ok_pair in E as [<- <-]. split; [done|]. by left. }
  destruct (negb (bool_decide (policy = THREADSCHED_DEFAULT)) && negb (uid a =? 0)) eqn:Ep.
  { apply Ok_pair in E as [<- <-]. split; [done|]. right.
    apply andb_true_iff in Ep as [H1 H2]. rewrite negb_true_iff in H1, H2.
    apply bool_decide_eq_false in H1. by apply Z.eqb_neq in H2. }
  apply bind_Ok in E as (q & Eq & E). apply Ok_pair in E as [<- <-].
  split; [done|]. split_and!.
  - exact Hge.
  - apply andb_false_iff in Ep as [H1|H1]; rewrite negb_false_iff in H1;
      [left; by apply bool_decide_eq_true in H1|right; by apply Z.eqb_eq in H1].
  - apply adjust_priority_range.
  - intros Hpol Hlh. unfold prio. cbn [mConfig set_worker_config worker_config setThreadPriority mThreadPriority].
    by apply adjust_priority_reserved.
  - cbn [mJobQueueCount mJobWorkerCount]. fold cfg in Eq |- *. destruct (mJobQueueType cfg); [by injection Eq| |done].
    set (share := mQueueShareFactor cfg) in *. intros Hs Hsum. unfold u32_div in Eq.
    rewrite (proj2 (Z.eqb_neq _ _)) in Eq by lia. injection Eq as <-.
    rewrite u32_small by lia.
    pose proof (Z.div_mod (u32 (core_count a * mWorkersPerCore cfg) + share - 1) share ltac:(lia)).
    pose proof (Z.mod_pos_bound (u32 (core_count a * mWorkersPerCore cfg) + share - 1) share Hs). lia.
Qed.

(** ** Set-up *)

(** When the share factor divides the workers, the set-up of an adjusted
    configuration creates every worker on its core ([per_core] consecutive
    ones on each), gives it its group's queue, starts it, and leaves the pool
    in its invariant; the destructor then deletes each worker and queue once. *)
Lemma setup_builds_the_pool a (p : AdaptiveThreadPool W Q) c w n share :
  adjusted c w n share p → core_count a = Z.of_nat c → timer_created a = true →
  (0 < share)%nat → (n * share = c * w)%nat →
  ∃ p', setup a p = Ok p' ∧
    (∀ k, (k < c * w)%nat → mJobWorkerArr p' !! k = Some (Some
       (worker_start (assignQ
          (createJobWorker (Z.of_nat k) (set_core (Z.of_nat (k / w)) (worker_config (mConfig p))))
          (createJobQueue (Z.of_nat (k / share)) (mJobQueueType (mConfig p))))))) ∧
    ∃ ws qs, stopWorkers p' = Ok (set_timer_run false p', tear_down_acts ws qs) ∧ length ws = (c * w)%nat ∧
      qs = (λ k, createJobQueue (Z.of_nat k) (mJobQueueType (mConfig p))) <$> seq 0 n.
Proof.
  intros Ha Hc Ht Hs Hcw.
  destruct (setup_ok a p c w n share Ha Hc Ht Hs Hcw)
    as (p' & E & Hrun & _ & Hcnt & Hqc & _ & Hwk & Hq).
  exists p'. split; [done|]. split; [exact Hwk|].
  destruct (delete_all_ok (c * w) (worker_at w share (mConfig p)) (mJobWorkerArr p') Hwk) as (ws & Ew & Hws).
  destruct (delete_all_ok n _ (mJobQueueArr p') Hq) as (qs & Eq & Hqs).
  exists ws, qs. unfold stopWorkers.
  cbn [set_timer_run mTimerThread mJobWorkerCount mJobWorkerArr mJobQueueCount mJobQueueArr]. rewrite Hrun. cbn [join_timer].
  simpl_bind. rewrite Hcnt, Hqc, (ad_workers _ _ _ _ _ Ha),
    (ad_queues _ _ _ _ _ Ha), !Nat2Z.id, Ew. simpl_bind. rewrite Eq.
  split_and!; [done| |done]. by rewrite Hws, length_fmap, length_seq.
Qed.

(** When it does not divide them, or queues are exclusive and the factor is
    not one, the set-up uses a worker that was never created. *)
Lemma setup_needs_a_dividing_factor a (p p1 : AdaptiveThreadPool W Q) c w share :
  core_count a = Z.of_nat c → timer_created a = true → mWorkersPerCore (mConfig p) = Z.of_nat w →
  (c * w ≤ 128)%nat → mQueueShareFactor (mConfig p) = Z.of_nat share → (0 < share ≤ 128)%nat →
  mJobWorkerArr p = replicate 128 None → mJobQueueArr p = replicate 128 None →
  adjustConfig a p = Ok (p1, true) → (0 < c * w)%nat →
  is_ok (setup a p1) ↔
    match mJobQueueType (mConfig p) with
    | JOBQUEUE_TYPE_EXCLUSIVE => share = 1%nat
    | _ => Nat.divide share (c * w)
    end.
Proof.
  intros Hc Ht Hw Hroom Hs Hs0 Hwa Hqa E H0. pose proof E as E'.
  destruct (adjustConfig_adjusted a p p1 c w share Hc Hw Hroom Hs Hs0 Hwa Hqa E) as (n & Ha & Hn).
  destruct (decide (n * share = c * w)%nat) as [Heq|Hne].
  - destruct (setup_ok a p1 c w n share Ha Hc Ht ltac:(lia) Heq) as (p' & Es & _).
    rewrite Es. split; [intros _|done]. destruct (mJobQueueType (mConfig p)); [nia|..]; by exists n.
  - split; [intros Hok; exfalso; revert Hok; apply (setup_short a p1 c w n share Ha Hc)|].
    + destruct (mJobQueueType (mConfig p)); [nia|lia|done].
    + intros Hd. exfalso. destruct (mJobQueueType (mConfig p)); [subst; lia| |done].
      destruct Hd as [d Hd]. destruct Hn as [Hlt Hle]. apply Hne. rewrite Hd in Hlt, Hle |- *. f_equal.
      assert (n < S d)%nat by (apply (Nat.mul_lt_mono_pos_r share); lia).
      assert (d ≤ n)%nat by (apply (Nat.mul_le_mono_pos_r _ _ share); lia). lia.
Qed.
End Props.

Section Props2.
Context {W Q J : Type} `{PoolParts W Q J}.

(** ** Jobs *)

(** [addJob] in a pool that is set up: under every policy the job goes to
    one worker of the pool, on the caller's core under the same-core policies,
    whose answer is returned; the other workers are left alone and the pool
    stays in its invariant. *)
Lemma addJob_reaches_one_worker c w ca job policy (p : AdaptiveThreadPool W Q) :
  pool_wf c w p → 0 ≤ cur_core ca < Z.of_nat c → 0 ≤ random ca → policy ≠ JOB_ASSIGN_MAX →
  ∃ k x p', (k < c * w)%nat ∧ (same_core policy = true → (k / w)%nat = Z.to_nat (cur_core ca)) ∧
    mJobWorkerArr p !! k = Some (Some x) ∧
    addJob ca job policy p = Ok (p', (worker_addJob x job).2) ∧
    mJobWorkerArr p' = <[k := Some (worker_addJob x job).1]> (mJobWorkerArr p) ∧
    pool_wf c w p'.
Proof.
  intros Hw Hc Hr Hp.
  destruct (addJob_ok c w ca job policy p Hw Hc Hr Hp) as (k & st & x & p' & _ & Hk & Hs & Hx & E & Ep & Hw').
  exists k, x, p'. split_and!; [done|done|done|done|by rewrite Ep|done].
Qed.

(** Same-core round robin is fair whatever the cores' calls interleave like:
    a core's jobs go to its own workers in turn, independently of the other
    cores'. *)
Lemma same_core_round_robin_is_fair c w calls (p : AdaptiveThreadPool W Q) (o : nat → nat) :
  pool_wf c w p → calls_ok c calls →
  (∀ core, (core < c)%nat → (o core < w)%nat ∧
     mNextJobWorkerOnEachCoreArr (mStatCtrl p) !! core = Some (Z.of_nat (core * w + o core))) →
  ∃ ks, chosen calls JOB_ASSIGN_SAME_CORE_ROUND_ROBIN p = Ok ks ∧ length ks = length calls ∧
    ∀ i x core, calls !! i = Some x → cur_core x.1 = Z.of_nat core →
      ks !! i = Some (Z.of_nat (core * w + (o core + from_core core (take i calls)) mod w)).
Proof. apply chosen_core_rr. Qed.

(** Global round robin visits all the workers in turn. *)
Lemma round_robin_visits_all c w calls (p : AdaptiveThreadPool W Q) s :
  pool_wf c w p → calls_ok c calls → mNextGlobalJobWorker (mStatCtrl p) = Z.of_nat s → (s < c * w)%nat →
  ∃ ks, chosen calls JOB_ASSIGN_ROUND_ROBIN p = Ok ks ∧ length ks = length calls ∧
    ∀ i, (i < length calls)%nat → ks !! i = Some (Z.of_nat ((s + i) mod (c * w))).
Proof. apply chosen_global_rr. Qed.

(** ** The timer *)

(** C30. From set-up on a pool is well formed: every worker up to
    [mJobWorkerCount] exists; both numbers of the next worker and of the least
    loaded one, kept for the pool and for each core, are indices of workers
    that exist, on that core; and each operation, which never fails, keeps it
    so. *)
Theorem pool_stays_well_formed a c w share (p p1 p2 : AdaptiveThreadPool W Q) :
  pool_typed p → mJobWorkerArr p = replicate 128 None → mJobQueueArr p = replicate 128 None →
  core_count a = Z.of_nat c → timer_created a = true → (0 < c)%nat → (0 < w)%nat → (c * w ≤ 128)%nat →
  mWorkersPerCore (mConfig p) = Z.of_nat w → mQueueShareFactor (mConfig p) = Z.of_nat share → (0 < share ≤ 128)%nat →
  share_fits (mJobQueueType (mConfig p)) share (c * w) →
  initializeStatistics p = Ok p1 → adjustConfig a p1 = Ok (p2, true) →
  ∃ p3, setup a p2 = Ok p3 ∧
  ∀ ops, Forall (call_ok c) (jobs_added ops) →
    ∃ p4, pool_calls a p3 ops = Ok p4 ∧
      mJobWorkerCount p4 = Z.of_nat (c * w) ∧ (∀ k, (k < c * w)%nat → ∃ x, mJobWorkerArr p4 !! k = Some (Some x)) ∧
      (∃ next least, mNextGlobalJobWorker (mStatCtrl p4) = Z.of_nat next ∧ (next < c * w)%nat ∧
         mJobWorkerWithLeastJob (mStatCtrl p4) = Z.of_nat least ∧ (least < c * w)%nat) ∧
      ∀ core, (core < c)%nat → ∃ next least,
        mNextJobWorkerOnEachCoreArr (mStatCtrl p4) !! core = Some (Z.of_nat next) ∧ (core * w ≤ next < S core * w)%nat ∧
        mJobWorkerWithLeastJobOnEachCoreArr (mStatCtrl p4) !! core = Some (Z.of_nat least) ∧
        (core * w ≤ least < S core * w)%nat.
Proof.
  intros Hp Hwa Hqa Hc Ht Hc0 Hw0 Hroom Hw Hs Hs0 Hfit E1 E2.
  destruct (pool_set_up_ok a c w share p p1 p2) as (n & p3 & Hn & E3 & Hwf & _ & _ & Hwk & _); [done..|].
  exists p3. split; [done|]. intros ops Hops.
  destruct (pool_calls_ok a c w ops p3 _ Hwf Hc Hops Hwk) as (p4 & ds & E4 & [_ _ Hcnt Hx Hnext Hleast [k Hk] [j Hj]] & _).
  destruct Hk as [Ek Hk], Hj as [Ej Hj].
  exists p4. split; [done|]. split; [done|]. split; [exact Hx|]. split; [by exists k, j|]. intros core Hcore.
  destruct (Hnext core Hcore) as (i & Ei & Hi), (Hleast core Hcore) as (l & El & Hl).
  exists i, l. by rewrite <-!div_range.
Qed.

(** C11. The life of a pool whose share factor fits: set-up succeeds; then any
    sequence of [addJob] calls from its cores, [getJobCount] calls and rounds
    of the timer runs without fault and delivers each job, in the order of
    the calls, to one worker of the pool, on the caller's core where the
    policy says so; and the destructor joins the timer, destroys the
    semaphores and deletes each worker, which has got exactly its jobs in
    order, and each queue once.  (The set-up is what follows the check, and
    what the check would do if it returned.) *)
Theorem pool_lives_as_promised a c w share (p p1 p2 : AdaptiveThreadPool W Q) :
  pool_typed p → mJobWorkerArr p = replicate 128 None → mJobQueueArr p = replicate 128 None →
  core_count a = Z.of_nat c → timer_created a = true → (0 < c)%nat → (0 < w)%nat → (c * w ≤ 128)%nat →
  mWorkersPerCore (mConfig p) = Z.of_nat w → mQueueShareFactor (mConfig p) = Z.of_nat share → (0 < share ≤ 128)%nat →
  share_fits (mJobQueueType (mConfig p)) share (c * w) →
  initializeStatistics p = Ok p1 → adjustConfig a p1 = Ok (p2, true) →
  ∃ p3, setup a p2 = Ok p3 ∧
  ∀ ops, Forall (call_ok c) (jobs_added ops) →
    ∃ p4 ds n, pool_calls a p3 ops = Ok p4 ∧ Forall2 (delivery c w) (jobs_added ops) ds ∧ (n * share = c * w)%nat ∧
      stopWorkers p4 = Ok (set_timer_run false p4, tear_down_acts
        (after_jobs (worker_at w share (mConfig p2)) ds <$> seq 0 (c * w))
        ((λ k, createJobQueue (Z.of_nat k) (mJobQueueType (mConfig p2))) <$> seq 0 n)).
Proof.
  intros Hp Hwa Hqa Hc Ht Hc0 Hw0 Hroom Hw Hs Hs0 Hfit E1 E2.
  destruct (pool_set_up_ok a c w share p p1 p2) as (n & p3 & Hn & E3 & Hwf & Hrun & Hqc & Hwk & Hqk); [done..|].
  exists p3. split; [done|]. intros ops Hops.
  destruct (pool_calls_ok a c w ops p3 _ Hwf Hc Hops Hwk) as (p4 & ds & E4 & Hwf4 & Hsame & Hds & Hwk4).
  exists p4, ds, n. split_and!; [done..|]. apply stop_ok; [|done| |done|].
  - by rewrite (sp_timer _ _ Hsame).
  - by rewrite (sp_queue_count _ _ Hsame).
  - by rewrite (sp_queues _ _ Hsame).
Qed.

(** C24. A round of the timer records the first of the workers with the fewest
    jobs, over the pool and on each core, and keeps the pool's invariant: what
    the least-jobs policies then choose is a least loaded worker. *)
Theorem timer_finds_the_least_loaded a c w (p : AdaptiveThreadPool W Q) (x : nat → W) :
  pool_wf c w p → core_count a = Z.of_nat c →
  (∀ k, (k < c * w)%nat → mJobWorkerArr p !! k = Some (Some (x k))) →
  ∃ p', timer_round a p = Ok p' ∧ pool_wf c w p' ∧ mJobWorkerArr p' = mJobWorkerArr p ∧
    (∀ ca, ∃ k, choose_worker ca JOB_ASSIGN_LEAST_JOBS p' = Ok (Z.of_nat k, mStatCtrl p') ∧
       is_least (λ j, worker_jobs (x j)) 0 (c * w) k) ∧
    (∀ ca core, cur_core ca = Z.of_nat core → (core < c)%nat →
       ∃ k, choose_worker ca JOB_ASSIGN_SAME_CORE_LEAST_JOBS p' = Ok (Z.of_nat k, mStatCtrl p') ∧
       is_least (λ j, worker_jobs (x j)) (core * w) (S core * w) k).
Proof.
  intros Hw Hc Hx. destruct (timer_round_ok a c w p x Hw Hc Hx) as (p' & E & Hw' & Ha & (k & Hk & Hl) & Hcores).
  exists p'. split_and!; [done|done|done| |].
  - intros ca. exists k. split; [|done]. cbn [choose_worker]. by rewrite Hk.
  - intros ca core Ec Hcore. destruct (Hcores core Hcore) as (j & Hj & Hlj). exists j. split; [|done].
    cbn [choose_worker]. rewrite Ec.
    rewrite (proj2 (array_read_Ok _ (Z.of_nat core) (Z.of_nat j))); [done|].
    split; [lia|]. by rewrite Nat2Z.id.
Qed.
End Props2.

(** ** Witnesses *)
(** Two cores of 65 workers: one hundred and thirty are too many. *)
Definition crowded : ThreadPoolConfig := demo_config 65 1 JOBQUEUE_TYPE_EXCLUSIVE.

Lemma pool_has_no_defined_life_witness :
  (∃ p, AdaptiveThreadPool_ctor two_cores (demo_pool crowded) [112] crowded = Ok (p, false) ∧
     rejected two_cores crowded ∧ stopWorkers p = Fault Uninitialised) ∧
  AdaptiveThreadPool_ctor two_cores (demo_pool shared_config) [112] shared_config = Fault MissingReturn ∧
  ¬ rejected two_cores shared_config.
Proof.
  pose proof (pool_has_no_defined_life (J := Z) two_cores (demo_pool crowded) [112] crowded eq_refl eq_refl) as H1.
  pose proof (pool_has_no_defined_life (J := Z) two_cores (demo_pool shared_config) [112] shared_config eq_refl eq_refl) as H2.
  assert (E2 : AdaptiveThreadPool_ctor two_cores (demo_pool shared_config) [112] shared_config = Fault MissingReturn)
    by (vm_compute; reflexivity).
  rewrite E2 in H2. split; [|split; [exact E2|apply H2]].
  destruct (AdaptiveThreadPool_ctor two_cores (demo_pool crowded) [112] crowded) as [[p s]|f].
  - destruct H1 as (Hr & -> & _ & _ & Hst). exists p. split; [reflexivity|split; [exact Hr|exact Hst]].
  - exfalso. apply H1. left. vm_compute. reflexivity.
Defined.

(** Four workers by three do not go. *)
Definition uneven : ThreadPoolConfig := demo_config 2 3 JOBQUEUE_TYPE_SHARED.

Lemma setup_needs_a_dividing_factor_witness :
  is_ok (setup two_cores (demo_adjusted uneven)) ↔ Nat.divide 3 (2 * 2).
Proof.
  apply (setup_needs_a_dividing_factor (J := Z) two_cores (demo_pool uneven) (demo_adjusted uneven) 2 2 3);
    try reflexivity; try lia.
Defined.

Definition call (core : Z) : call_answers := CallAnswers core 0.

Lemma addJob_reaches_one_worker_witness :
  ∃ k x p', (k < 2 * 2)%nat ∧ (true = true → (k / 2)%nat = 1%nat) ∧
    mJobWorkerArr (demo_setup shared_config) !! k = Some (Some x) ∧
    addJob (call 1) 7 JOB_ASSIGN_SAME_CORE_RANDOM (demo_setup shared_config) = Ok (p', true) ∧
    mJobWorkerArr p' = <[k := Some (x ++ [7])]> (mJobWorkerArr (demo_setup shared_config)) ∧
    pool_wf 2 2 p'.
Proof.
  destruct (addJob_reaches_one_worker (J := Z) 2 2 (call 1) 7 JOB_ASSIGN_SAME_CORE_RANDOM
    (demo_setup shared_config) demo_wf ltac:(simpl; lia) ltac:(simpl; lia) ltac:(discriminate))
    as (k & x & p' & Hk & Hs & Hx & E & Ep & Hw).
  exists k, x, p'. split_and!; [exact Hk|exact Hs|exact Hx|exact E|exact Ep|exact Hw].
Defined.

Definition demo_calls : list (call_answers * Z) := [(call 0, 1); (call 1, 2); (call 0, 3); (call 0, 4)].

Lemma demo_calls_ok : calls_ok 2 demo_calls.
Proof. repeat constructor; simpl; lia. Qed.

Lemma same_core_round_robin_is_fair_witness :
  ∃ ks, chosen demo_calls JOB_ASSIGN_SAME_CORE_ROUND_ROBIN (demo_setup shared_config) = Ok ks ∧
    length ks = 4%nat ∧
    ∀ i x core, demo_calls !! i = Some x → cur_core x.1 = Z.of_nat core →
      ks !! i = Some (Z.of_nat (core * 2 + (0 + from_core core (take i demo_calls)) mod 2)).
Proof.
  apply (same_core_round_robin_is_fair 2 2 demo_calls (demo_setup shared_config) (λ _, 0%nat));
    [exact demo_wf|exact demo_calls_ok|].
  intros [|[|core]] Hc; [split; [lia|vm_compute; reflexivity]..|lia].
Defined.


Definition demo_worker (k : nat) : list Z := [Z.of_nat k; Z.of_nat (k / 2); 100 + Z.of_nat (k / 2)].

Lemma timer_finds_the_least_loaded_witness :
  ∃ p', timer_round two_cores (demo_setup shared_config) = Ok p' ∧ pool_wf 2 2 p' ∧
    mJobWorkerArr p' = mJobWorkerArr (demo_setup shared_config) ∧
    (∀ ca, ∃ k, choose_worker ca JOB_ASSIGN_LEAST_JOBS p' = Ok (Z.of_nat k, mStatCtrl p') ∧
       is_least (λ j, worker_jobs (demo_worker j)) 0 (2 * 2) k) ∧
    (∀ ca core, cur_core ca = Z.of_nat core → (core < 2)%nat →
       ∃ k, choose_worker ca JOB_ASSIGN_SAME_CORE_LEAST_JOBS p' = Ok (Z.of_nat k, mStatCtrl p') ∧
       is_least (λ j, worker_jobs (demo_worker j)) (core * 2) (S core * 2) k).
Proof.
  refine (timer_finds_the_least_loaded (J := Z) two_cores 2 2 (demo_setup shared_config) demo_worker
    demo_wf eq_refl _).
  intros [|[|[|[|k]]]] Hk; [vm_compute; reflexivity..|lia].
Defined.

Lemma demo_pool_typed per_core share type :
  pool_typed (demo_pool (demo_config per_core share type)).
Proof.
  assert (Hf : Forall is_u32 ((λ k, u32 (Z.of_nat k * mWorkersPerCore (demo_config per_core share type))) <$> seq 0 128)).
  { apply Forall_fmap, Forall_true. intros k. apply u32_bounds. }
  split; cbn [demo_pool mJobWorkerArr mJobQueueArr mJobWorkerCount mJobQueueCount mConfig mStatCtrl]; try done.
  split; apply u32_bounds.
Qed.

(** Jobs 5, 6 and 7 under three policies, with a round of the timer and a
    count in between. *)
Definition demo_ops : list (pool_op (J := Z)) :=
  [OpAdd (call 1) 5 JOB_ASSIGN_SAME_CORE_ROUND_ROBIN; OpTimer; OpAdd (call 0) 6 JOB_ASSIGN_LEAST_JOBS; OpCount;
   OpAdd (call 0) 7 JOB_ASSIGN_ROUND_ROBIN].

Lemma pool_lives_as_promised_witness :
  ∃ p3, setup two_cores (demo_adjusted shared_config) = Ok p3 ∧
    ∃ p4 ds n, pool_calls two_cores p3 demo_ops = Ok p4 ∧ Forall2 (delivery 2 2) (jobs_added demo_ops) ds ∧
      (n * 2 = 2 * 2)%nat ∧
      stopWorkers p4 = Ok (set_timer_run false p4, tear_down_acts
        (after_jobs (worker_at 2 2 (mConfig (demo_adjusted shared_config))) ds <$> seq 0 (2 * 2))
        ((λ k, 100 + Z.of_nat k) <$> seq 0 n)).
Proof.
  destruct (pool_lives_as_promised (J := Z) two_cores 2 2 2 (demo_pool shared_config) (demo_pool shared_config)
    (demo_adjusted shared_config)) as (p3 & E & H).
  - apply demo_pool_typed.
  - reflexivity.
  - reflexivity.
  - reflexivity.
  - reflexivity.
  - lia.
  - lia.
  - lia.
  - reflexivity.
  - reflexivity.
  - lia.
  - by exists 2%nat.
  - vm_compute. reflexivity.
  - vm_compute. reflexivity.
  - exists p3. split; [exact E|]. apply (H demo_ops). repeat constructor; simpl; (lia || discriminate).
Defined.

(** The same pool after the same calls: the counters have moved on. *)
Lemma pool_stays_well_formed_witness :
  ∃ p3, setup two_cores (demo_adjusted shared_config) = Ok p3 ∧
    ∃ p4, pool_calls two_cores p3 demo_ops = Ok p4 ∧
      ∀ core, (core < 2)%nat → ∃ next least,
        mNextJobWorkerOnEachCoreArr (mStatCtrl p4) !! core = Some (Z.of_nat next) ∧ (core * 2 ≤ next < S core * 2)%nat ∧
        mJobWorkerWithLeastJobOnEachCoreArr (mStatCtrl p4) !! core = Some (Z.of_nat least) ∧
        (core * 2 ≤ least < S core * 2)%nat.
Proof.
  destruct (pool_stays_well_formed (J := Z) two_cores 2 2 2 (demo_pool shared_config) (demo_pool shared_config)
    (demo_adjusted shared_config)) as (p3 & E & H); [apply demo_pool_typed|try reflexivity; try lia..| | | |].
  - by exists 2%nat.
  - vm_compute. reflexivity.
  - vm_compute. reflexivity.
  - exists p3. split; [exact E|]. destruct (H demo_ops) as (p4 & E4 & _ & _ & _ & Hc).
    + repeat constructor; simpl; (lia || discriminate).
    + by exists p4.
Defined.
