(* ===== verification/PoolRunProps.v ===== *)
(** * Properties of concurrent calls on the thread pool (AdaptiveThreadPool)

    Any number of threads in [addJob], the timer, the workers' own threads and
    the destructor's first statement, interleaved: atomicity, who gets the
    jobs, fairness and that every call returns, with witnesses. *)
From S2P Require Import Prelude Semaphore PoolConfig ThreadPool PoolInv PoolLife PoolThreads PoolSim PoolCalls PoolProps.

Section Pool.
Context {W Q J : Type} `{PoolParts W Q J}.

(** A pool that is set up, on a machine with its [c] cores, the calls to be made
    on it, and what the workers' threads may do to their workers. *)
Context (c w : nat) (a : sys_answers) (acts : W → W → Prop).
Context (p : AdaptiveThreadPool W Q) (calls : list (list (request J))).
Context (p_wf : pool_wf c w p) (cores_ok : core_count a = Z.of_nat c) (calls_fit : Forall (Forall (call_ok c)) calls).

Lemma run_sim tr s : exec (pool_step a acts) (pool_start p calls) tr s → ∃ b, exec atomic_step p tr b ∧ sim c w s b.
Proof. intros Hex. by eapply pool_exec_sim; [apply start_sim|..]. Qed.

(** C21. Concurrent calls of [addJob] behave as if each chose its worker at one
    instant: the choices, deliveries and records of any run, in their order,
    are those of the sequential code ([choose_worker], the worker's [addJob]
    and the timer's stores one at a time), the pool it leaves differs from the
    real one only in the counters some thread is in the critical section of,
    and no two threads are ever in one.  No action faults. *)
Theorem pool_calls_are_atomic tr s :
  exec (pool_step a acts) (pool_start p calls) tr s →
  (∃ b, exec atomic_step p tr b ∧ pool_wf c w b ∧ blank (ps_pool s) = blank b ∧
     ∀ ct, valid c ct → (∀ i th, ps_callers s !! i = Some th → section_of (c_pc th) ≠ Some ct) →
       load_counter ct (ps_pool s) = load_counter ct b) ∧
  (∀ ct i j th th', valid c ct → ps_callers s !! i = Some th → ps_callers s !! j = Some th' →
     section_of (c_pc th) = Some ct → section_of (c_pc th') = Some ct → i = j) ∧
  (∀ i, is_ok (caller_act i s)) ∧ is_ok (timer_act a s).
Proof.
  intros Hex. destruct (run_sim tr s Hex) as (b & He & Hs). split_and!.
  - exists b. split_and!; [done|apply Hs..|]. intros ct Hv Hout. apply (sm_free _ _ _ _ Hs ct Hv).
    apply zsum_zero, Forall_lookup. intros i th Hi. by eapply holds_out, Hout.
  - intros ct i j th th' Hv. by apply (alone c w s b ct).
  - intros i. by destruct (caller_act_cases c w s b i Hs) as [[-> _]|(o & s' & b' & -> & _)].
  - by destruct (timer_proceeds c w a s b Hs cores_ok) as [[_ ->]|(o & s' & b' & -> & _)].
Qed.

(** C22. Whatever the interleaving, a thread's calls deliver their jobs one after
    the other, each job once, to the worker the call has chosen: one of the
    pool, on the caller's core when the policy says so; the calls return what
    that worker's [addJob] returned.  And unless a worker changes of itself, it
    is left with exactly the jobs delivered to it, in order. *)
Theorem jobs_reach_their_workers tr s :
  exec (pool_step a acts) (pool_start p calls) tr s →
  (∀ i rs, calls !! i = Some rs → ∃ th ds done,
     ps_callers s !! i = Some th ∧ delivered_by i tr = ds ∧ c_results th = ds.*2 ∧ rs = done ++ c_calls th ∧
     Forall2 (λ r d, d.1.2 = r.2 ∧ may_choose c w r d.1.1) done ds ∧
     chosen_by i tr = ds.*1.*1 ++ chosen_in (c_pc th)) ∧
  (∀ x, (∀ k, (k < c * w)%nat → mJobWorkerArr p !! k = Some (Some (x k))) → ¬ worked tr →
     ∀ k, (k < c * w)%nat → mJobWorkerArr (ps_pool s) !! k = Some (Some (after_jobs x (deliveries tr) k))).
Proof.
  intros Hex. split.
  - intros i rs Hi. destruct (served_run c w a acts p calls tr s i rs p_wf cores_ok calls_fit Hi Hex)
      as (th & Hth & ds & Ed & Er & Ec & dn & Ers & Hds). by exists th, ds, dn.
  - intros x Hx Hno k Hk. destruct (run_sim tr s Hex) as (b & He & Hs).
    destruct (blank_eq _ _ (sm_blank _ _ _ _ Hs)) as (_ & -> & _). by eapply deliveries_run.
Qed.

(** Both round robins are fair under every interleaving: the calls that go
    by a core's counter get the core's workers in turn, in the order in which
    they load the counter, and those that go by the global one get all the
    workers in turn. *)
Lemma round_robins_are_fair tr s :
  exec (pool_step a acts) (pool_start p calls) tr s →
  (∀ core o, (core < c)%nat → (o < w)%nat →
     mNextJobWorkerOnEachCoreArr (mStatCtrl p) !! core = Some (Z.of_nat (core * w + o)) →
     let ks := turns_of (OnCore (Z.of_nat core)) tr in
     ks = (λ n, Z.of_nat (core * w + (o + n) mod w)) <$> seq 0 (length ks)) ∧
  (∀ n0, (n0 < c * w)%nat → mNextGlobalJobWorker (mStatCtrl p) = Z.of_nat n0 →
     let ks := turns_of Global tr in ks = (λ n, Z.of_nat ((n0 + n) mod (c * w))) <$> seq 0 (length ks)).
Proof.
  intros Hex. destruct (run_sim tr s Hex) as (b & He & _). destruct (pw_size _ _ _ p_wf) as (Hw0 & Hc0 & _). split.
  - intros core o Hc Ho Hnext. apply (atomic_turns _ p tr b (λ n, Z.of_nat (core * w + (o + n) mod w))); [| |done].
    + rewrite Nat.add_0_r, Nat.mod_small by done. apply array_read_Ok. split; [lia|by rewrite Nat2Z.id].
    + intros n. rewrite (core_after c w p core); [|done|done|apply Nat.mod_upper_bound; lia].
      change (S ((o + n) mod w)) with (1 + (o + n) mod w)%nat. rewrite Nat.Div0.add_mod_idemp_r. do 3 f_equal. lia.
  - intros n0 Hn Hnext. apply (atomic_turns _ p tr b (λ n, Z.of_nat ((n0 + n) mod (c * w)))); [| |done].
    + rewrite Nat.add_0_r, Nat.mod_small by done. cbn. by rewrite Hnext.
    + intros n. rewrite (global_after c w p) by (done || apply Nat.mod_upper_bound; nia).
      change (S ((n0 + n) mod (c * w))) with (1 + (n0 + n) mod (c * w))%nat. rewrite Nat.Div0.add_mod_idemp_r.
      do 2 f_equal. lia.
Qed.

(** C23. Every call returns: each action of a call leaves its threads fewer to
    make (seven at most for a call); as long as calls are open one of their
    threads can act; and from every state the pool can go on, with the
    destructor's first statement, to one in which every call has returned and
    the timer's thread, which the destructor joins, has exited. *)
Theorem pool_calls_all_return tr s :
  exec (pool_step a acts) (pool_start p calls) tr s →
  (∀ i o s', caller_act i s = Ok (Some (o, s')) → 0 ≤ work_left s' < work_left s) ∧
  (∀ i th, ps_callers s !! i = Some th → c_calls th ≠ [] → ∃ j o s', caller_act j s = Ok (Some (o, s'))) ∧
  ∃ tr' s', exec (pool_step a acts) s tr' s' ∧ Forall (λ th, c_calls th = []) (ps_callers s') ∧ ps_timer s' = TimerExited.
Proof.
  intros Hex. destruct (run_sim tr s Hex) as (b & He & Hs). split_and!.
  - intros i o s' E. split; [apply zsum_nonneg; lia|by eapply caller_act_less].
  - intros i th. by apply (some_caller_acts c w s b).
  - destruct (calls_return c w a acts s b Hs cores_ok) as (tr1 & s1 & b1 & He1 & Hs1 & Hall & _).
    destruct (pool_step_sim c w a acts s1 b1 _ _ Hs1 cores_ok (step_stop a acts s1)) as (b2 & _ & Hs2).
    destruct (timer_exits c w a acts _ b2 Hs2 cores_ok eq_refl) as (tr3 & s3 & b3 & He3 & _ & Ht & Ec).
    exists (tr1 ++ [Stopping] ++ tr3), s3. split_and!; [|by rewrite Ec|done].
    eapply exec_trans; [exact He1|]. eapply exec_trans; [apply (exec_one _ _ (Some Stopping)), step_stop|exact He3].
Qed.
End Pool.

(** ** Witnesses: two threads on the pool of [PoolProps], two workers on each of
    two cores *)
#[local] Existing Instance demo_parts.

Definition demo_requests : list (list (request Z)) :=
  [[(call 0, JOB_ASSIGN_SAME_CORE_ROUND_ROBIN, 7); (call 1, JOB_ASSIGN_ROUND_ROBIN, 8)];
   [(call 0, JOB_ASSIGN_SAME_CORE_ROUND_ROBIN, 9); (call 1, JOB_ASSIGN_SAME_CORE_RANDOM, 5)]].

Definition demo_pool_start : pool_system (list Z) Z Z := pool_start (demo_setup shared_config) demo_requests.

(** The second thread enters core 0's critical section when the first has left
    it, and has the counter wrap around while the first is in the global one
    and the timer scans the workers. *)
Definition demo_turns : list turn :=
  [TurnOf 0; TurnOf 0; TurnOf 0; TimerTurn; TimerTurn; TurnOf 0; TurnOf 0; TurnOf 1; TurnOf 0; TurnOf 1; TurnOf 1; TurnOf 0;
   TimerTurn; TurnOf 1; TurnOf 0; TurnOf 1; TimerTurn; TurnOf 1; TurnOf 0; TurnOf 0; TurnOf 1; TurnOf 0; TurnOf 0; TurnOf 1].

Definition demo_pool_run := run_turns two_cores demo_turns demo_pool_start.
Definition idle (x x' : list Z) : Prop := False.

Lemma demo_pool_exec : exec (pool_step two_cores idle) demo_pool_start demo_pool_run.1 demo_pool_run.2.
Proof. apply run_turns_exec. Qed.

Lemma demo_requests_ok : Forall (Forall (call_ok 2)) demo_requests.
Proof. repeat constructor; simpl; lia || done. Qed.

Lemma demo_outside : Forall (λ th, section_of (c_pc th) = None) (ps_callers demo_pool_run.2).
Proof. vm_compute. by repeat constructor. Qed.
Lemma demo_core_counter : load_counter (OnCore 0) (ps_pool demo_pool_run.2) = Ok 0.
Proof. vm_compute. reflexivity. Qed.
Lemma demo_global_counter : load_counter Global (ps_pool demo_pool_run.2) = Ok 1.
Proof. vm_compute. reflexivity. Qed.
Lemma demo_not_worked : ¬ worked demo_pool_run.1.
Proof.
  assert (Hf : Forall (λ e, match e with Worked _ _ => False | _ => True end) demo_pool_run.1)
    by (vm_compute; by repeat constructor).
  intros (k & x & Hin). rewrite Forall_forall in Hf. exact (Hf _ Hin).
Qed.

Lemma pool_calls_are_atomic_witness :
  (∃ b, exec atomic_step (demo_setup shared_config) demo_pool_run.1 b ∧
     mNextJobWorkerOnEachCoreArr (mStatCtrl b) !! 0%nat = Some 0 ∧ mNextGlobalJobWorker (mStatCtrl b) = 1) ∧
  ∀ i, is_ok (caller_act i demo_pool_run.2).
Proof.
  destruct (pool_calls_are_atomic 2 2 two_cores idle (demo_setup shared_config) demo_requests demo_wf eq_refl
    demo_requests_ok _ _ demo_pool_exec) as ((b & He & _ & _ & Hl) & _ & Hok & _). split; [|exact Hok]. exists b.
  assert (Hout : ∀ ct i th, ps_callers demo_pool_run.2 !! i = Some th → section_of (c_pc th) ≠ Some ct).
  { intros ct i th Hi E. by rewrite (Forall_lookup_1 _ _ _ _ demo_outside Hi) in E. }
  split; [exact He|]. split.
  - assert (E := Hl (OnCore 0) ltac:(by split) (Hout _)). rewrite demo_core_counter in E.
    symmetry in E. by apply array_read_Ok in E as [_ E].
  - assert (E := Hl Global I (Hout _)). rewrite demo_global_counter in E. by apply Ok_inj in E.
Defined.

Lemma jobs_reach_their_workers_witness :
  mJobWorkerArr (ps_pool demo_pool_run.2) !! 0%nat = Some (Some [0; 0; 100; 7; 8]) ∧
  mJobWorkerArr (ps_pool demo_pool_run.2) !! 1%nat = Some (Some [1; 0; 100; 9]).
Proof.
  destruct (jobs_reach_their_workers 2 2 two_cores idle (demo_setup shared_config) demo_requests demo_wf eq_refl
    demo_requests_ok _ _ demo_pool_exec) as [_ Hw].
  assert (Hx : ∀ k, (k < 2 * 2)%nat → mJobWorkerArr (demo_setup shared_config) !! k = Some (Some (demo_worker k)))
    by (intros [|[|[|[|k]]]] Hk; [vm_compute; reflexivity..|lia]).
  split; rewrite (Hw demo_worker Hx demo_not_worked) by lia; vm_compute; reflexivity.
Defined.

Lemma round_robins_are_fair_witness :
  turns_of (OnCore 0) demo_pool_run.1 = [0; 1] ∧ turns_of Global demo_pool_run.1 = [0].
Proof.
  destruct (round_robins_are_fair 2 2 two_cores idle (demo_setup shared_config) demo_requests demo_wf eq_refl
    demo_requests_ok _ _ demo_pool_exec) as [Hc Hg]. split.
  - etransitivity; [exact (Hc 0%nat 0%nat ltac:(lia) ltac:(lia) ltac:(vm_compute; reflexivity))|vm_compute; reflexivity].
  - etransitivity; [exact (Hg 0%nat ltac:(lia) ltac:(vm_compute; reflexivity))|vm_compute; reflexivity].
Defined.

Lemma pool_calls_all_return_witness :
  work_left demo_pool_run.2 = 1 ∧
  ∃ tr' s', exec (pool_step two_cores idle) demo_pool_run.2 tr' s' ∧ Forall (λ th, c_calls th = []) (ps_callers s') ∧
    ps_timer s' = TimerExited.
Proof.
  split; [vm_compute; reflexivity|].
  destruct (pool_calls_all_return 2 2 two_cores idle (demo_setup shared_config) demo_requests demo_wf eq_refl
    demo_requests_ok _ _ demo_pool_exec) as (_ & _ & Hret). exact Hret.
Defined.
