(* ===== verification/SharedMem.v ===== *)
(** * Chapter 14: [itoa], and the arguments the simulations hand on

    [Sim/SharedMem.h] (one copy for shared memory, one for message queues) and
    the part of [Sim/ProducerConsumerSim.cpp] that formats the object's name and
    the arguments of the two child processes, each into a fixed buffer. *)
From S2P Require Import Prelude Digits.

(** ** [itoa] *)

(** [r < 10 ? (r + '0') : (r - 10 + 'A')], stored in a [char]. *)
Definition digit_char (r : Z) : Z := (if r <? 10 then r + 48 else r - 10 + 65) mod 256.

(** The loop [while(n)], [str] being the position it writes at; [None] when
    [fuel] runs out. *)
Fixpoint itoa_digits (fuel : nat) (n base : Z) (buf : list Z) (str : Z)
    : outcome (option (list Z * Z)) :=
  if n =? 0 then Ok (Some (buf, str)) else
  match fuel with
  | O => Ok None
  | S f =>
      r ← u32_rem n base;
      n' ← u32_div n base;
      buf' ← array_write buf str (digit_char r);
      itoa_digits f n' base buf' (str + 1)
  end.

(** The loop [while(orgStr < str)], which reverses the digits in place. *)
Fixpoint itoa_reverse (fuel : nat) (buf : list Z) (orgStr str : Z) : outcome (option (list Z)) :=
  if orgStr <? str then
    match fuel with
    | O => Ok None
    | S f =>
        a ← array_read buf orgStr;
        b ← array_read buf str;
        buf1 ← array_write buf orgStr b;
        buf2 ← array_write buf1 str a;
        itoa_reverse f buf2 (orgStr + 1) (str - 1)
    end
  else Ok (Some buf).

(** [n] is an [unsigned int]; [str] the caller's array. *)
Definition itoa (n : Z) (str : list Z) (base : Z) : outcome (option (list Z)) :=
  if n =? 0 then
    buf ← array_write str 0 48;
    buf' ← array_write buf 1 0;
    Ok (Some buf')
  else
    r ← itoa_digits WORD_DIGITS n base str 0;
    match r with
    | None => Ok None
    | Some (buf, pos) =>
        buf' ← array_write buf pos 0;
        itoa_reverse WORD_DIGITS buf' 0 (pos - 1)
    end.

(** ** The simulations' arguments *)

(** "PC_SHM_NAME_" and "/PC_MESSAGE_Q_NAME_" *)
Definition shm_prefix : list Z := [80;67;95;83;72;77;95;78;65;77;69;95].
Definition mq_prefix : list Z := [47;80;67;95;77;69;83;83;65;71;69;95;81;95;78;65;77;69;95].

(** The arrays [shared_mem_name], [core_str], [id_str] and [time_str]. *)
Record sim_buffers := SimBuffers {
  shared_mem_name : list Z;
  core_str : list Z;
  id_str : list Z;
  time_str : list Z
}.

(** [sprintf(shared_mem_name, SHARED_MEM_NAME_PATTERN, id)]. *)
Definition sim_name (prefix : list Z) (id : Z) (name : list Z) : outcome (list Z) :=
  store_string name (prefix ++ print_d id).

(** The three numbers as texts; [None] would be an [itoa] that does not end. *)
Definition sim_texts (id target_core seconds_to_run : Z) (b : sim_buffers)
    : outcome (option (list Z * list Z * list Z)) :=
  core ← itoa (u32 target_core) (core_str b) 10;
  idt ← itoa (u32 id) (id_str b) 10;
  time ← itoa (u32 seconds_to_run) (time_str b) 10;
  Ok (c ← core; i ← idt; t ← time; Some (c, i, t)).

(** The name and the texts, in the order the program writes them. *)
Definition sim_arguments (prefix : list Z) (id target_core seconds_to_run : Z) (b : sim_buffers)
    : outcome (option sim_buffers) :=
  name ← sim_name prefix id (shared_mem_name b);
  texts ← sim_texts id target_core seconds_to_run b;
  Ok ('(c, i, t) ← texts; Some (SimBuffers name c i t)).

Definition shm_sim_arguments := sim_arguments shm_prefix.
Definition mq_sim_arguments := sim_arguments mq_prefix.

(** ** Proofs *)

(** The digit loop writes the digits, least significant first. *)
Lemma itoa_digits_ok fuel n base pre post :
  2 ≤ base → 0 ≤ n < base ^ Z.of_nat fuel →
  let ds := digit_char <$> digits_rev fuel base n in
  (length ds ≤ length post)%nat →
  itoa_digits fuel n base (pre ++ post) (Z.of_nat (length pre)) =
    Ok (Some (pre ++ ds ++ drop (length ds) post, Z.of_nat (length pre + length ds))).
Proof.
  intros Hb. revert n pre post. induction fuel as [|f IH]; intros n pre post Hn ds Hl.
  - assert (n = 0) as -> by (simpl in Hn; lia). cbn. by rewrite Nat.add_0_r.
  - cbn [itoa_digits digits_rev] in *. unfold ds in *. clear ds.
    destruct (Z.eqb_spec n 0) as [->|Hne]; [cbn; by rewrite Nat.add_0_r|].
    destruct post as [|x post]; [simpl in Hl; lia|]. cbn [fmap list_fmap length] in Hl.
    unfold u32_rem, u32_div. rewrite (proj2 (Z.eqb_neq base 0)) by lia. simpl_bind.
    rewrite array_write_ok by (rewrite length_app; simpl; lia). simpl_bind.
    rewrite Nat2Z.id, insert_app_r_alt, Nat.sub_diag by lia. cbn [insert list_insert].
    rewrite Nat2Z.inj_succ, Z.pow_succ_r in Hn by lia.
    specialize (IH (n / base) (pre ++ [digit_char (n mod base)]) post).
    rewrite length_app, <-app_assoc in IH. cbn [length app] in IH.
    replace (Z.of_nat (length pre) + 1) with (Z.of_nat (length pre + 1)) by lia.
    rewrite IH; [|split; [apply Z.div_pos; lia|apply Z.div_lt_upper_bound; lia]|simpl; lia].
    cbn [fmap list_fmap length]. rewrite <-app_assoc. cbn [app drop].
    do 3 f_equal. lia.
Qed.

(** Out of room, it writes past the array. *)
Lemma itoa_digits_overflow fuel n base pre post :
  2 ≤ base → 0 ≤ n < base ^ Z.of_nat fuel →
  (length post < length (digits_rev fuel base n))%nat →
  itoa_digits fuel n base (pre ++ post) (Z.of_nat (length pre)) = Fault OutOfBounds.
Proof.
  intros Hb. revert n pre post. induction fuel as [|f IH]; intros n pre post Hn Hl; [simpl in Hl; lia|].
  cbn [itoa_digits digits_rev] in *. destruct (Z.eqb_spec n 0) as [->|Hne]; [simpl in Hl; lia|].
  unfold u32_rem, u32_div. rewrite (proj2 (Z.eqb_neq base 0)) by lia. simpl_bind.
  destruct post as [|x post].
  { unfold array_write. rewrite app_nil_r, (proj2 (Z.leb_le _ _)), (proj2 (Z.ltb_ge _ _)) by lia. done. }
  rewrite array_write_ok by (rewrite length_app; simpl; lia). simpl_bind.
  rewrite Nat2Z.id, insert_app_r_alt, Nat.sub_diag by lia. cbn [insert list_insert].
  rewrite Nat2Z.inj_succ, Z.pow_succ_r in Hn by lia.
  specialize (IH (n / base) (pre ++ [digit_char (n mod base)]) post).
  rewrite length_app, <-app_assoc in IH. cbn [length app] in IH.
  replace (Z.of_nat (length pre) + 1) with (Z.of_nat (length pre + 1)) by lia.
  apply IH; [split; [apply Z.div_pos; lia|apply Z.div_lt_upper_bound; lia]|simpl in Hl; lia].
Qed.

(** The second loop reverses what lies between its two ends. *)
Lemma itoa_reverse_ok fuel pre mid post :
  (length mid ≤ 2 * fuel + 1)%nat →
  itoa_reverse fuel (pre ++ mid ++ post) (Z.of_nat (length pre))
    (Z.of_nat (length pre) + Z.of_nat (length mid) - 1) = Ok (Some (pre ++ rev mid ++ post)).
Proof.
  revert pre mid post. induction fuel as [|f IH]; intros pre mid post Hl.
  - cbn [itoa_reverse]. rewrite (proj2 (Z.ltb_ge _ _)) by lia.
    destruct mid as [|x [|y mid]]; simpl in Hl; [done|done|lia].
  - cbn [itoa_reverse]. destruct mid as [|x mid]; [by rewrite (proj2 (Z.ltb_ge _ _)) by (simpl; lia)|].
    destruct mid as [|y mid _] using rev_ind; [by rewrite (proj2 (Z.ltb_ge _ _)) by (simpl; lia)|].
    simpl length in *. rewrite length_app in *. simpl length in *.
    rewrite (proj2 (Z.ltb_lt _ _)) by lia.
    set (lo := length pre). set (hi := (lo + S (length mid))%nat).
    replace (Z.of_nat lo + Z.of_nat (S (length mid + 1)) - 1) with (Z.of_nat hi) by lia.
    assert (R : ∀ l i (v : Z), l !! i = Some v → array_read l (Z.of_nat i) = Ok v).
    { intros l i v Hv. apply array_read_Ok. split; [lia|]. by rewrite Nat2Z.id. }
    assert (E : pre ++ (x :: mid ++ [y]) ++ post = pre ++ x :: mid ++ y :: post)
      by (simpl; by rewrite <-app_assoc).
    rewrite E. rewrite (R _ lo x) by (by apply list_lookup_middle).
    assert (E2 : ∀ u, pre ++ u :: mid ++ y :: post = (pre ++ u :: mid) ++ y :: post)
      by (intros; by rewrite <-app_assoc).
    assert (Hhi : ∀ u : Z, hi = length (pre ++ u :: mid)) by (intros; rewrite length_app; simpl; lia).
    simpl_bind. rewrite (R _ hi y) by (rewrite E2; by apply list_lookup_middle).
    simpl_bind. rewrite array_write_ok by (rewrite length_app; simpl; lia).
    simpl_bind. rewrite Nat2Z.id. unfold lo at 1.
    rewrite insert_app_r_alt, Nat.sub_diag by lia. cbn [insert list_insert].
    rewrite E2, array_write_ok by (rewrite <-E2, !length_app; simpl; rewrite length_app; simpl; lia).
    simpl_bind. rewrite Nat2Z.id, (Hhi y), insert_app_r_alt, Nat.sub_diag by lia.
    cbn [insert list_insert].
    specialize (IH (pre ++ [y]) mid (x :: post)). rewrite length_app in IH. simpl length in IH.
    rewrite <-!app_assoc. cbn [app]. rewrite <-!app_assoc in IH. cbn [app] in IH.
    replace (Z.of_nat (length pre) + 1) with (Z.of_nat (length pre + 1)) by lia.
    replace (Z.of_nat (length (pre ++ y :: mid)) - 1) with
      (Z.of_nat (length pre + 1) + Z.of_nat (length mid) - 1)
      by (rewrite length_app; simpl; lia).
    rewrite IH by lia. simpl. rewrite rev_app_distr. simpl. by rewrite <-!app_assoc.
Qed.

(** [itoa] stores the number's text: the reference is [store_string]. *)
Lemma itoa_store n base buf :
  2 ≤ base → 0 ≤ n < 4294967296 →
  itoa n buf base = (s ← store_string buf (digit_char <$> digits base n); Ok (Some s)).
Proof.
  intros Hb Hn. unfold itoa, digits. destruct (Z.eqb_spec n 0) as [->|Hne].
  - destruct buf as [|x [|y buf]]; [reflexivity|reflexivity|].
    rewrite array_write_ok by (simpl; lia). simpl_bind.
    rewrite array_write_ok by (simpl; lia). by rewrite store_string_ok by (simpl; lia).
  - pose proof (word_fuel base n Hb Hn) as Hf.
    set (ds := digits_rev WORD_DIGITS base n) in *.
    assert (Hds : (length ds ≤ 32)%nat) by apply digits_rev_max.
    assert (Hlen : length (digit_char <$> rev ds) = length ds) by (rewrite length_fmap; apply length_rev).
    assert (Hlen' : length (digit_char <$> ds) = length ds) by apply length_fmap.
    destruct (decide (length ds ≤ length buf)%nat) as [Hle|Hgt].
    + pose proof (itoa_digits_ok WORD_DIGITS n base [] buf Hb Hf) as E. cbn zeta in E. fold ds in E.
      rewrite Hlen' in E. simpl app in E. cbn [length Nat.add] in E. change (Z.of_nat 0) with 0 in E.
      rewrite E by done. simpl_bind.
      destruct (decide (length ds < length buf)%nat) as [Hlt|Hge].
      * rewrite array_write_ok by (rewrite length_app, length_drop, Hlen'; lia).
        simpl_bind. rewrite Nat2Z.id, <-Hlen', insert_app_r_alt, Nat.sub_diag by lia.
        destruct (drop (length (digit_char <$> ds)) buf) as [|c rest] eqn:Ed.
        { apply (f_equal length) in Ed. rewrite length_drop, Hlen' in Ed. simpl in Ed. lia. }
        cbn [insert list_insert]. rewrite Hlen'.
        pose proof (itoa_reverse_ok WORD_DIGITS [] (digit_char <$> ds) (0 :: rest)) as Er.
        rewrite Hlen' in Er. cbn [length app] in Er. change (Z.of_nat 0) with 0 in Er.
        rewrite Z.add_0_l in Er. rewrite Er by (unfold WORD_DIGITS; lia).
        rewrite store_string_ok by (rewrite Hlen; lia). simpl_bind.
        rewrite Hlen. change (digit_char <$> rev ds) with (map digit_char (rev ds)). rewrite map_rev. do 4 f_equal.
        rewrite Hlen' in Ed. replace (S (length ds)) with (length ds + 1)%nat by lia.
        by rewrite <-drop_drop, Ed.
      * unfold array_write. rewrite length_app, length_drop, Hlen', (proj2 (Z.ltb_ge _ _)) by lia.
        rewrite andb_false_r. by rewrite store_string_fault by (rewrite Hlen; lia).
    + change (itoa_digits WORD_DIGITS n base buf 0) with
        (itoa_digits WORD_DIGITS n base ([] ++ buf) (Z.of_nat (length (@nil Z)))).
      rewrite (itoa_digits_overflow WORD_DIGITS n base [] buf Hb Hf) by (fold ds; lia).
      by rewrite store_string_fault by (rewrite Hlen; lia).
Qed.

(** In base ten the digits are those of [%d]. *)
Lemma itoa_decimal n : 0 ≤ n → digit_char <$> digits 10 n = print_d n.
Proof.
  intros Hn. unfold print_d. rewrite (proj2 (Z.ltb_ge _ _)) by lia.
  apply list_fmap_ext. intros i d Hi.
  pose proof (Forall_lookup_1 _ _ _ _ (digits_range 10 n ltac:(lia) Hn) Hi) as Hd. simpl in Hd.
  unfold digit_char. rewrite (proj2 (Z.ltb_lt d 10)) by lia. apply Z.mod_small. lia.
Qed.

(** Base ten into a buffer: the text of [%d]. *)
Lemma itoa_ten n buf :
  0 ≤ n < 4294967296 → itoa n buf 10 = (s ← store_string buf (print_d n); Ok (Some s)).
Proof. intros Hn. rewrite itoa_store by lia. by rewrite itoa_decimal by lia. Qed.

Lemma print_d_unsigned_length n : 0 ≤ n < 4294967296 → (length (print_d n) ≤ 10)%nat.
Proof. intros Hn. apply print_d_length; [done|lia|]. change (10 ^ Z.of_nat 10) with 10000000000. lia. Qed.

Lemma u32_of_int z : INT_MIN ≤ z ≤ INT_MAX → u32 z = if z <? 0 then z + 4294967296 else z.
Proof.
  unfold INT_MIN, INT_MAX. intros Hz. destruct (Z.ltb_spec z 0); [|by apply u32_small; lia].
  unfold u32. symmetry. apply (Z.mod_unique z 4294967296 (-1)); lia.
Qed.

Lemma core_fits core : INT_MIN ≤ core ≤ INT_MAX → (length (print_d (u32 core)) < 4)%nat ↔ 0 ≤ core ≤ 999.
Proof.
  intros Hc. pose proof (u32_bounds core) as Hb.
  pose proof (print_d_length (u32 core) 3 Hb ltac:(lia)) as H.
  change (10 ^ Z.of_nat 3) with 1000 in H. rewrite (u32_of_int core Hc) in H |- *.
  unfold INT_MIN, INT_MAX in Hc. destruct (Z.ltb_spec core 0); lia.
Qed.

(** The length of an [int]'s text. *)
Lemma print_d_int_length z : INT_MIN ≤ z ≤ INT_MAX →
  (length (print_d z) ≤ 11)%nat ∧ ((length (print_d z) ≤ 10)%nat ↔ -1000000000 < z).
Proof.
  unfold INT_MIN, INT_MAX. intros Hz. destruct (Z.ltb_spec z 0) as [Hn|Hn].
  - unfold print_d. rewrite (proj2 (Z.ltb_lt _ _) Hn). cbn [length]. rewrite length_fmap.
    pose proof (digits_length 10 (- z) 10 ltac:(lia) ltac:(split; lia) ltac:(lia)) as H1.
    pose proof (digits_length 10 (- z) 9 ltac:(lia) ltac:(split; lia) ltac:(lia)) as H2.
    change (10 ^ Z.of_nat 10) with 10000000000 in H1. change (10 ^ Z.of_nat 9) with 1000000000 in H2. lia.
  - pose proof (print_d_unsigned_length z ltac:(lia)). lia.
Qed.

Record buffers_wf (b : sim_buffers) : Prop := {
  bw_name : length (shared_mem_name b) = 30%nat;
  bw_core : length (core_str b) = 4%nat;
  bw_id : length (id_str b) = 12%nat;
  bw_time : length (time_str b) = 12%nat
}.

Lemma store_string_cases buf s :
  if (length s <? length buf)%nat then ∃ r, store_string buf s = Ok r ∧ (Forall (λ c, c ≠ 0) s → c_string r = Ok s)
  else ¬ is_ok (store_string buf s).
Proof.
  unfold store_string. destruct (length s <? length buf)%nat; [|intros []].
  eexists. split; [done|]. apply c_string_app.
Qed.

(** The three numbers fit exactly when the core does. *)
Lemma sim_texts_cases id core secs b :
  INT_MIN ≤ core ≤ INT_MAX → buffers_wf b →
  if decide (0 ≤ core ≤ 999)
  then ∃ c i t, sim_texts id core secs b = Ok (Some (c, i, t)) ∧ c_string c = Ok (print_d core) ∧
    c_string i = Ok (print_d (u32 id)) ∧ c_string t = Ok (print_d (u32 secs))
  else ¬ is_ok (sim_texts id core secs b).
Proof.
  intros Hc [_ W2 W3 W4]. unfold sim_texts. rewrite !itoa_ten by apply u32_bounds.
  pose proof (store_string_cases (core_str b) (print_d (u32 core))) as S2.
  pose proof (store_string_cases (id_str b) (print_d (u32 id))) as S3.
  pose proof (store_string_cases (time_str b) (print_d (u32 secs))) as S4.
  rewrite W2 in S2. rewrite W3 in S3. rewrite W4 in S4. pose proof (core_fits core Hc) as Hcf.
  assert (L12 : ∀ z, (length (print_d (u32 z)) <? 12)%nat = true)
    by (intros z; apply Nat.ltb_lt; pose proof (print_d_unsigned_length _ (u32_bounds z)); lia).
  rewrite L12 in S3. rewrite L12 in S4. destruct S3 as (r3 & E3 & C3), S4 as (r4 & E4 & C4).
  case_decide as Hcore.
  - rewrite (proj2 (Nat.ltb_lt _ 4)) in S2 by (by apply Hcf). destruct S2 as (r2 & E2 & C2).
    rewrite E2. simpl_bind. rewrite E3. simpl_bind. rewrite E4. cbn [mbind outcome_bind option_bind].
    exists r2, r3, r4. split; [done|]. rewrite C2 by apply print_d_nonnul.
    split_and!; [by rewrite u32_small by lia|apply C3, print_d_nonnul|apply C4, print_d_nonnul].
  - intros Hok. apply Hcore, Hcf. apply bind_is_ok in Hok as (r2 & E2 & _). apply bind_Ok in E2 as (r2' & E2 & _).
    destruct (Nat.ltb_spec (length (print_d (u32 core))) 4); [done|]. by rewrite E2 in S2.
Qed.

(** The name fits in its thirty characters exactly when it is short enough. *)
Lemma sim_name_cases prefix id b :
  buffers_wf b → Forall (λ c, c ≠ 0) prefix →
  if decide (length prefix + length (print_d id) < 30)%nat
  then ∃ name, sim_name prefix id (shared_mem_name b) = Ok name ∧ c_string name = Ok (prefix ++ print_d id)
  else ¬ is_ok (sim_name prefix id (shared_mem_name b)).
Proof.
  intros [W1 _ _ _] Hpre. unfold sim_name. pose proof (store_string_cases (shared_mem_name b) (prefix ++ print_d id)) as S1.
  rewrite W1, length_app in S1. case_decide as H.
  - rewrite (proj2 (Nat.ltb_lt _ _) H) in S1. destruct S1 as (r & E & C). exists r. split; [done|]. apply C.
    apply Forall_app. split; [done|apply print_d_nonnul].
  - by rewrite (proj2 (Nat.ltb_ge _ _)) in S1 by lia.
Qed.

(** The four texts fit exactly when the name and the core do. *)
Lemma sim_arguments_cases prefix id core secs b :
  INT_MIN ≤ core ≤ INT_MAX → buffers_wf b → Forall (λ c, c ≠ 0) prefix →
  if decide ((length prefix + length (print_d id) < 30)%nat ∧ 0 ≤ core ≤ 999)
  then ∃ b', sim_arguments prefix id core secs b = Ok (Some b') ∧
    c_string (shared_mem_name b') = Ok (prefix ++ print_d id) ∧
    c_string (core_str b') = Ok (print_d core) ∧
    c_string (id_str b') = Ok (print_d (u32 id)) ∧ c_string (time_str b') = Ok (print_d (u32 secs))
  else ¬ is_ok (sim_arguments prefix id core secs b).
Proof.
  intros Hc Hw Hpre. unfold sim_arguments.
  pose proof (sim_name_cases prefix id b Hw Hpre) as Hn. pose proof (sim_texts_cases id core secs b Hc Hw) as Ht.
  destruct (decide ((length prefix + length (print_d id) < 30)%nat ∧ 0 ≤ core ≤ 999)) as [[Hname Hcore]|Hfit].
  - destruct (decide (length prefix + length (print_d id) < 30)%nat); [|done].
    destruct (decide (0 ≤ core ≤ 999)); [|done]. destruct Hn as (name & -> & Cn), Ht as (c & i & t & -> & Cc & Ci & Ct). simpl_bind. by eexists.
  - intros Hok. apply Hfit. apply bind_is_ok in Hok as (r1 & E1 & Hok). apply bind_is_ok in Hok as (r2 & E2 & _). split.
    + destruct (decide (length prefix + length (print_d id) < 30)%nat); [done|]. by rewrite E1 in Hn.
    + destruct (decide (0 ≤ core ≤ 999)); [done|]. by rewrite E2 in Ht.
Qed.
