(* ===== verification/MessageQueue.v ===== *)
(** * Producers and consumers on a POSIX message queue (Chapter14/MessageQueue)

    The worker threads of the two processes, their [work()], their deletion, and
    the kernel's queue between them.  The queue is an interface, [MqOps], of
    which only the documented behaviour [MqLaws] is used; [posix_mq] is an
    instance. *)
From S2P Require Import Prelude Semaphore Items.

(** ** The kernel's queue *)
Definition ETIMEDOUT : Z := 110.
Definition EMSGSIZE : Z := 90.
Definition EBADF : Z := 9.

(** The result of a timed call: done, -1 with an [errno], or still waiting. *)
Inductive mq_result (A : Type) := MqDone (a : A) | MqError (errno : Z) | MqBlocked.
Arguments MqDone {A} a.
Arguments MqError {A} errno.
Arguments MqBlocked {A}.

(** [mq_timedsend(mqd, msg, len, prio, &ts)] and
    [mq_timedreceive(mqd, buf, len, NULL, &ts)] at the time [now]. *)
Class MqOps (Q M : Type) := {
  mq_timedsend : timespec → timespec → Z → M → Z → Q → mq_result Q;
  mq_timedreceive : timespec → timespec → Z → Q → mq_result (M * Q)
}.

(** What mq_overview(7) promises of a queue all of whose messages have the
    same priority: first in, first out, and at most [maxmsg] of them; and a
    timed call does not wait past its deadline. *)
Class MqLaws (Q M : Type) `{MqOps Q M} (contents : Q → list M) (prio : Z) (maxmsg : nat) := {
  send_law now ts len m q q' :
    mq_timedsend now ts len m prio q = MqDone q' →
    contents q' = contents q ++ [m] ∧ (length (contents q') ≤ maxmsg)%nat;
  receive_law now ts len q m q' :
    mq_timedreceive now ts len q = MqDone (m, q') → contents q = m :: contents q';
  send_timely now ts len m q :
    ts_le ts now = true → mq_timedsend now ts len m prio q ≠ MqBlocked;
  receive_timely now ts len q :
    ts_le ts now = true → mq_timedreceive now ts len q ≠ MqBlocked
}.

(** ** Data *)
Definition WAIT_TIME : Z := 1.
Definition SEND_PRIORITY : Z := 5.
(** [sizeof(WorkItem)]: the id and 512 chars. *)
Definition SIZEOF_ITEM : Z := 516.

Record Producer := MkProducer {
  p_id : Z;
  p_next_item_id : Z;
  p_produced_count : Z;
  p_opened : bool;          (* m_mqd != (mqd_t)-1 *)
  p_stack : WorkItem;       (* where [work()] has its [item] *)
  p_rands : rands
}.

Record Consumer := MkConsumer { c_id : Z; c_consumed_count : Z; c_opened : bool }.

(** The constructors; [mqd] is the result of [mq_open]. *)
Definition Producer_ctor (id mqd : Z) (stack : WorkItem) (r : rands) : Producer :=
  MkProducer (u32 id) (u32 (ITEM_STARTING_ID_EACH_PRODUCER * u32 id)) 0 (negb (mqd =? -1)) stack r.
Definition Consumer_ctor (id mqd : Z) : Consumer := MkConsumer (u32 id) 0 (negb (mqd =? -1)).

Definition get_expire_time (now : timespec) : timespec := Timespec (tv_sec now + WAIT_TIME) (tv_nsec now).

Definition consume_item (c : Consumer) (item : WorkItem) : Consumer :=
  MkConsumer (c_id c) (u32 (c_consumed_count c + 1)) (c_opened c).

(** [Consumer::work()] up to its [mq_timedreceive]: until when to wait, or
    nothing to do. *)
Definition Consumer_work (now : timespec) (c : Consumer) : option timespec :=
  if c_opened c then Some (get_expire_time now) else None.

(** ... and after it, with the item unless it failed. *)
Definition Consumer_received (c : Consumer) (r : option WorkItem) : Consumer :=
  match r with Some item => consume_item c item | None => c end.

(** [Producer::work()] up to its [mq_timedsend]: the item, or nothing to do. *)
Definition Producer_work (p : Producer) : outcome (Producer * option WorkItem) :=
  if p_opened p then
    '(it, next, r) ← cook_item (p_next_item_id p) (p_stack p) (p_rands p);
    Ok (MkProducer (p_id p) next (p_produced_count p) true it r, Some it)
  else Ok (p, None).

(** ... and after it succeeded. *)
Definition Producer_sent (p : Producer) : Producer :=
  MkProducer (p_id p) (p_next_item_id p) (u32 (p_produced_count p + 1)) (p_opened p) (p_stack p)
    (p_rands p).

Inductive event :=
  | EvSent (it : WorkItem)
  | EvDropped (it : WorkItem) (errno : Z)       (* the send timed out or failed *)
  | EvReceived (it : WorkItem)
  | EvNothing (errno : Z)                       (* the receive timed out or failed *)
  | EvDefaultWork.                              (* ScheduledObject::work() *)

(** A thread is about to test [m_run], about to call [work()], about to make
    its call on the queue, inside that call, or has exited. *)
Inductive thread_pc :=
  | Checking
  | Calling
  | Sending (it : WorkItem) (ts : timespec)
  | InSend (it : WorkItem) (ts : timespec)
  | Receiving (ts : timespec)
  | InReceive (ts : timespec)
  | Exited.

Inductive worker := WProducer (p : Producer) | WConsumer (c : Consumer).

(** How far the deletion of a worker has come: not begun; [m_mqd] closed by
    ~Producer() or ~Consumer(); that destructor done, so that the object is a
    [ScheduledObject] and [work()] that class's; its thread joined. *)
Inductive life := Alive | Closed | Reduced | Deleted.

Record thread := Thread { t_run : bool; t_worker : worker; t_life : life; t_pc : thread_pc }.

(** ~Producer() and ~Consumer(): [mq_close(m_mqd)]; [m_mqd] keeps its value. *)
Definition Worker_dtor (th : thread) : thread := Thread (t_run th) (t_worker th) Closed (t_pc th).

(** ~ScheduledObject(), an action at a time: the object becomes one of the
    base class, [m_run = false], and [pthread_join], which waits. *)
Definition ScheduledObject_dtor (th : thread) : option thread :=
  match t_life th with
  | Closed => Some (Thread (t_run th) (t_worker th) Reduced (t_pc th))
  | Reduced =>
      if t_run th then Some (Thread false (t_worker th) Reduced (t_pc th))
      else match t_pc th with
           | Exited => Some (Thread false (t_worker th) Deleted Exited)
           | _ => None
           end
  | _ => None
  end.

(** The next action of [delete]. *)
Definition delete_step (th : thread) : option thread :=
  match t_life th with Alive => Some (Worker_dtor th) | _ => ScheduledObject_dtor th end.

Section System.
Context {Q : Type} `{MqOps Q WorkItem}.

Record system := System { s_now : timespec; s_mq : Q; s_threads : list thread }.

(** One action of a worker's loop: [None] while it is blocked or gone.  A call
    on a closed descriptor fails; one already in the kernel goes on. *)
Definition run (now : timespec) (th : thread) (q : Q) : outcome (option (Q * option event * thread)) :=
  let 'Thread m_run w l pc := th in
  match pc with
  | Checking => Ok (Some (q, None, Thread m_run w l (if m_run then Calling else Exited)))
  | Calling =>
      match l, w with
      | (Alive | Closed), WProducer p =>
          '(p', work) ← Producer_work p;
          Ok (Some (q, None, Thread m_run (WProducer p') l
            match work with Some it => Sending it (get_expire_time now) | None => Checking end))
      | (Alive | Closed), WConsumer c =>
          Ok (Some (q, None, Thread m_run w l
            match Consumer_work now c with Some ts => Receiving ts | None => Checking end))
      | _, _ => Ok (Some (q, Some EvDefaultWork, Thread m_run w l Checking))
      end
  | Sending it ts =>
      match l with
      | Alive => Ok (Some (q, None, Thread m_run w l (InSend it ts)))
      | _ => Ok (Some (q, Some (EvDropped it EBADF), Thread m_run w l Checking))
      end
  | InSend it ts =>
      match w with
      | WProducer p =>
          match mq_timedsend now ts SIZEOF_ITEM it SEND_PRIORITY q with
          | MqDone q' => Ok (Some (q', Some (EvSent it), Thread m_run (WProducer (Producer_sent p)) l Checking))
          | MqError e => Ok (Some (q, Some (EvDropped it e), Thread m_run w l Checking))
          | MqBlocked => Ok None
          end
      | WConsumer _ => Ok None
      end
  | Receiving ts =>
      match l with
      | Alive => Ok (Some (q, None, Thread m_run w l (InReceive ts)))
      | _ => Ok (Some (q, Some (EvNothing EBADF), Thread m_run w l Checking))
      end
  | InReceive ts =>
      match w with
      | WConsumer c =>
          match mq_timedreceive now ts (SIZEOF_ITEM + 1) q with
          | MqDone (it, q') =>
              Ok (Some (q', Some (EvReceived it), Thread m_run (WConsumer (Consumer_received c (Some it))) l Checking))
          | MqError e =>
              Ok (Some (q, Some (EvNothing e), Thread m_run (WConsumer (Consumer_received c None)) l Checking))
          | MqBlocked => Ok None
          end
      | WProducer _ => Ok None
      end
  | Exited => Ok None
  end.

Definition label : Type := nat * event.
Definition tagged (i : nat) (o : option event) : option label :=
  match o with Some e => Some (i, e) | None => None end.

Inductive mq_step : system → option label → system → Prop :=
  | step_run i s th q' ev th' :
      s_threads s !! i = Some th → run (s_now s) th (s_mq s) = Ok (Some (q', ev, th')) →
      mq_step s (tagged i ev)
        (System (s_now s) q' (<[i := th']> (s_threads s)))
  | step_delete i s th th' :
      s_threads s !! i = Some th → delete_step th = Some th' →
      mq_step s None (System (s_now s) (s_mq s) (<[i := th']> (s_threads s)))
  | step_tick s ts :
      ts_le (s_now s) ts = true → mq_step s None (System ts (s_mq s) (s_threads s)).

(** What happens next: a thread acts, the deletion of its object goes on, the
    clock advances. *)
Inductive choice := Act (i : nat) | Del (i : nat) | Tick (ts : timespec).

Definition choose (c : choice) (s : system) : option (option label * system) :=
  match c with
  | Act i =>
      match s_threads s !! i with
      | Some th =>
          match run (s_now s) th (s_mq s) with
          | Ok (Some (q', ev, th')) =>
              Some (tagged i ev, System (s_now s) q' (<[i := th']> (s_threads s)))
          | _ => None
          end
      | None => None
      end
  | Del i =>
      match s_threads s !! i ≫= delete_step with
      | Some th' => Some (None, System (s_now s) (s_mq s) (<[i := th']> (s_threads s)))
      | None => None
      end
  | Tick ts => if ts_le (s_now s) ts then Some (None, System ts (s_mq s) (s_threads s)) else None
  end.

(** The run of these choices, up to the first that is not possible. *)
Fixpoint run_threads (order : list choice) (s : system) : list label * system :=
  match order with
  | [] => ([], s)
  | c :: order' =>
      match choose c s with
      | Some (o, s1) => let '(tr, s') := run_threads order' s1 in (option_list o ++ tr, s')
      | None => ([], s)
      end
  end.

Lemma choose_step c s o s' : choose c s = Some (o, s') → mq_step s o s'.
Proof.
  destruct c as [i|i|ts]; simpl.
  - destruct (s_threads s !! i) as [th|] eqn:Hth; [|done].
    destruct (run _ _ _) as [[[[q' ev] th']|]|] eqn:Hr; [|done..]. intros [= <- <-]. by eapply step_run.
  - destruct (s_threads s !! i) as [th|] eqn:Hth; [|done]. simpl.
    destruct (delete_step th) as [th'|] eqn:Hd; [|done]. intros [= <- <-]. by eapply step_delete.
  - destruct (ts_le (s_now s) ts) eqn:E; [|done]. intros [= <- <-]. by apply step_tick.
Qed.

Lemma run_threads_exec order s : exec mq_step s (run_threads order s).1 (run_threads order s).2.
Proof.
  revert s. induction order as [|c order IH]; intros s; [constructor|]. cbn [run_threads].
  destruct (choose c s) as [[o s1]|] eqn:Hc; [|constructor]. specialize (IH s1).
  destruct (run_threads order s1) as [tr s']. eapply exec_trans; [|exact IH].
  by eapply exec_one, choose_step.
Qed.

Definition initial (now : timespec) (q : Q) (ws : list worker) : system :=
  System now q ((λ w, Thread true w Alive Checking) <$> ws).
End System.
Arguments system Q : clear implicits.

(** ** Specification *)
Definition sent_item (x : label) : option WorkItem := match x.2 with EvSent it => Some it | _ => None end.
Definition received_item (x : label) : option WorkItem :=
  match x.2 with EvReceived it => Some it | _ => None end.
Definition cooked_item (x : label) : option WorkItem :=
  match x.2 with EvSent it | EvDropped it _ => Some it | _ => None end.

Definition sent (tr : list label) : list WorkItem := omap sent_item tr.
Definition received (tr : list label) : list WorkItem := omap received_item tr.
(** What thread [i] made, sent or not, and what it sent. *)
Definition cooked_by (i : nat) (tr : list label) : list WorkItem :=
  omap cooked_item (filter (λ x : label, x.1 = i) tr).
Definition sent_by (i : nat) (tr : list label) : list WorkItem := sent (filter (λ x : label, x.1 = i) tr).
Definition received_by (i : nat) (tr : list label) : list WorkItem := received (filter (λ x : label, x.1 = i) tr).

(** A POSIX queue made with [maxmsg] and [msgsize]: its messages, oldest
    first. *)
Definition posix_mq (maxmsg : nat) (msgsize : Z) : MqOps (list WorkItem) WorkItem := {|
  mq_timedsend now ts len m prio q :=
    if msgsize <? len then MqError EMSGSIZE
    else if (length q <? maxmsg)%nat then MqDone (q ++ [m])
    else if ts_le ts now then MqError ETIMEDOUT else MqBlocked;
  mq_timedreceive now ts len q :=
    if len <? msgsize then MqError EMSGSIZE
    else match q with
         | m :: ms => MqDone (m, ms)
         | [] => if ts_le ts now then MqError ETIMEDOUT else MqBlocked
         end
|}.

(** ** Proofs *)
#[export] Instance posix_mq_laws maxmsg msgsize :
  @MqLaws _ _ (posix_mq maxmsg msgsize) (λ q, q) SEND_PRIORITY maxmsg.
Proof.
  split; intros now ts len; cbn [mq_timedsend mq_timedreceive posix_mq].
  - intros m q q'. destruct (msgsize <? len); [done|].
    destruct (Nat.ltb_spec (length q) maxmsg); [|by destruct (ts_le ts now)].
    intros [= <-]. split; [done|]. rewrite length_app. simpl. lia.
  - intros q m q'. destruct (len <? msgsize); [done|].
    destruct q; [by destruct (ts_le ts now)|]. by intros [= <- <-].
  - intros m q Hts. destruct (msgsize <? len); [done|]. destruct (_ <? _)%nat; [done|]. by rewrite Hts.
  - intros q Hts. destruct (len <? msgsize); [done|]. destruct q; [|done]. by rewrite Hts.
Qed.

Lemma omap_snoc {A B} (f : A → option B) l x :
  omap f (l ++ [x]) = omap f l ++ match f x with Some y => [y] | None => [] end.
Proof. rewrite omap_app. simpl. by destruct (f x). Qed.

Lemma filter_snoc (i j : nat) (tr : list label) ev :
  filter (λ x : label, x.1 = i) (tr ++ [(j, ev)]) =
  filter (λ x : label, x.1 = i) tr ++ (if decide (j = i) then [(j, ev)] else []).
Proof. by rewrite filter_app. Qed.

(** The cases of an action: by program point, life and answer of the queue. *)
Ltac run_cases th Hr :=
  destruct th as [r w l pc]; destruct pc as [| |it ts|it ts|ts|ts|]; simpl in Hr;
  [|destruct l, w|destruct l|destruct w|destruct l|destruct w|];
  try match type of Hr with
    | _ ≫= _ = Ok _ =>
        let p' := fresh "p'" in let o := fresh "work" in let E := fresh "Ework" in
        apply bind_Ok in Hr as ([p' o] & E & Hr)
    | context [mq_timedsend ?a ?b ?c ?d ?e ?f] => let E := fresh "Esend" in destruct (mq_timedsend a b c d e f) eqn:E
    | context [mq_timedreceive ?a ?b ?c ?d] =>
        let E := fresh "Erecv" in destruct (mq_timedreceive a b c d) as [[? ?]| |] eqn:E
    end; inv_ok.

Section Proofs.
Context {Q : Type} `{MqOps Q WorkItem}.
Context (contents : Q → list WorkItem) (maxmsg : nat).
Context {laws : MqLaws Q WorkItem contents SEND_PRIORITY maxmsg}.

(** ** The queue *)
Definition fifo_inv (q0 : list WorkItem) (tr : list label) (s : system Q) : Prop :=
  q0 ++ sent tr = received tr ++ contents (s_mq s) ∧ (length (contents (s_mq s)) ≤ maxmsg)%nat.

(** What an action does to the queue, by its label. *)
Lemma run_queue now th q q' ev th' :
  run now th q = Ok (Some (q', ev, th')) →
  match ev with
  | Some (EvSent it) => contents q' = contents q ++ [it] ∧ (length (contents q') ≤ maxmsg)%nat
  | Some (EvReceived it) => contents q = it :: contents q'
  | _ => q' = q
  end.
Proof.
  intros Hr. run_cases th Hr; try done; [by eapply send_law|by eapply receive_law].
Qed.

Lemma fifo_exec (q0 : Q) s tr s' :
  contents (s_mq s) = contents q0 → (length (contents q0) ≤ maxmsg)%nat →
  exec mq_step s tr s' → fifo_inv (contents q0) tr s'.
Proof.
  intros H0 Hl Hex.
  refine (exec_trace_invariant mq_step (λ tr s, fifo_inv (contents q0) tr s) s tr s' _ _ Hex).
  2: { split; [|by rewrite H0]. cbn [sent received omap list_omap]. by rewrite app_nil_r, H0. }
  clear - laws. intros tr s o s' [Hf Hb] Hs. destruct Hs as [i s th q' ev th' Hth Hr|i s th th' Hth Hd|s ts Hts].
  2, 3: by rewrite app_nil_r.
  pose proof (run_queue _ _ _ _ _ _ Hr) as Hq. unfold fifo_inv, sent, received. cbn [s_mq].
  destruct ev as [ev|]; [|change (option_list (tagged i None)) with (@nil label); rewrite app_nil_r; by subst].
  change (option_list (tagged i (Some ev))) with [(i, ev)].
  rewrite !omap_snoc. destruct ev as [it|it e|it|e|]; cbn [sent_item received_item snd].
  - destruct Hq as [-> Hlen]. split; [|done]. rewrite app_nil_r, app_assoc, (app_assoc (omap _ _)). f_equal.
    exact Hf.
  - rewrite !app_nil_r. by subst.
  - rewrite app_nil_r, <-app_assoc. cbn [app]. rewrite <-Hq. split; [done|].
    rewrite Hq in Hb. simpl in Hb. lia.
  - rewrite !app_nil_r. by subst.
  - rewrite !app_nil_r. by subst.
Qed.

(** ** A producer's and a consumer's books *)

(** A producer that has made [c] items and sent [k] of them. *)
Definition producer_at (base : Z) (c k : nat) (th : thread) : Prop :=
  ∃ p, t_worker th = WProducer p ∧ rand_ok (p_rands p) ∧ item_wf (p_stack p) ∧
    p_produced_count p = u32 (Z.of_nat k) ∧
    match t_pc th with
    | Sending it _ | InSend it _ =>
        id it = u32 (base + Z.of_nat c) ∧ p_next_item_id p = u32 (base + Z.of_nat (S c))
    | Receiving _ | InReceive _ => False
    | _ => p_next_item_id p = u32 (base + Z.of_nat c)
    end.

(** A consumer that has received [k] items. *)
Definition consumer_at (k : nat) (th : thread) : Prop :=
  ∃ c, t_worker th = WConsumer c ∧ c_consumed_count c = u32 (Z.of_nat k) ∧
    match t_pc th with Sending _ _ | InSend _ _ => False | _ => True end.

Definition producer_inv (base : Z) (i : nat) (tr : list label) (s : system Q) : Prop :=
  id <$> cooked_by i tr = item_ids base (length (cooked_by i tr)) ∧
  ∃ th, s_threads s !! i = Some th ∧ producer_at base (length (cooked_by i tr)) (length (sent_by i tr)) th.

Definition consumer_inv (i : nat) (tr : list label) (s : system Q) : Prop :=
  ∃ th, s_threads s !! i = Some th ∧ consumer_at (length (received_by i tr)) th.

(** [work()] makes the next item, if the queue could be opened. *)
Lemma mq_producer_work base c k p p' work r l ts :
  rand_ok (p_rands p) → item_wf (p_stack p) → p_produced_count p = u32 (Z.of_nat k) →
  p_next_item_id p = u32 (base + Z.of_nat c) → Producer_work p = Ok (p', work) →
  producer_at base c k (Thread r (WProducer p') l match work with Some it => Sending it ts | None => Checking end).
Proof.
  intros Hr Hs Hk Hn Hw. unfold Producer_work in Hw.
  destruct (p_opened p); [|injection Hw as <- <-; by exists p].
  destruct (cook_item_ok (p_next_item_id p) (p_stack p) (p_rands p) Hr Hs)
    as (it & rd & n & Ec & Hr' & Hs' & Hid & _).
  rewrite Ec in Hw. injection Hw as <- <-. eexists. split; [done|]. cbn.
  rewrite Hid, Hn, u32_add_l. split_and!; try done. f_equal. lia.
Qed.

(** What a producer's action adds to its books. *)
Lemma mq_producer_run base c k now th q q' ev th' :
  producer_at base c k th → run now th q = Ok (Some (q', ev, th')) →
  match ev with
  | Some (EvSent it) => id it = u32 (base + Z.of_nat c) ∧ producer_at base (S c) (S k) th'
  | Some (EvDropped it _) => id it = u32 (base + Z.of_nat c) ∧ producer_at base (S c) k th'
  | Some (EvReceived _) | Some (EvNothing _) => False
  | _ => producer_at base c k th'
  end.
Proof.
  intros (p0 & Ew & Hr & Hs & Hk & Hpc) Hrun.
  run_cases th Hrun; simplify_eq/=; try done; try (by exists p0); try (by destruct Hpc; split; [|exists p0]).
  - by destruct r; exists p0.
  - by eapply mq_producer_work.
  - by eapply mq_producer_work.
  - destruct Hpc as [Hid Hn]. split; [done|]. exists (Producer_sent p0). cbn. rewrite Hk, u32_add_l.
    split_and!; try done. f_equal. lia.
Qed.

Lemma mq_consumer_run k now th q q' ev th' :
  consumer_at k th → run now th q = Ok (Some (q', ev, th')) →
  match ev with Some (EvReceived it) => consumer_at (S k) th' | _ => consumer_at k th' end.
Proof.
  intros (c0 & Ew & Hk & Hpc) Hrun. run_cases th Hrun; simplify_eq/=; try done; try by exists c0.
  - by destruct r; exists c0.
  - exists c0. split_and!; [done..|]. unfold Consumer_work. by destruct (c_opened c0).
  - exists c0. split_and!; [done..|]. unfold Consumer_work. by destruct (c_opened c0).
  - eexists. split; [done|]. cbn. rewrite Hk, u32_add_l. split_and!; try done. f_equal. lia.
Qed.

(** Deleting a worker leaves what it was doing alone. *)
Lemma delete_step_keeps th th' :
  delete_step th = Some th' → t_worker th' = t_worker th ∧ t_pc th' = t_pc th.
Proof. destruct th as [[] w [] []]; simpl; by intros [= <-]. Qed.

(** What one more label adds to a thread's books. *)
Lemma books_other {A} (f : label → option A) i j o tr :
  i ≠ j → omap f (filter (λ x : label, x.1 = i) (tr ++ option_list (tagged j o))) = omap f (filter (λ x : label, x.1 = i) tr).
Proof.
  intros Hne. destruct o as [ev|]; [|by rewrite app_nil_r].
  change (option_list (tagged j (Some ev))) with [(j, ev)].
  by rewrite filter_snoc, decide_False, app_nil_r by done.
Qed.

Lemma books_own {A} (f : label → option A) i o tr :
  omap f (filter (λ x : label, x.1 = i) (tr ++ option_list (tagged i o))) =
  omap f (filter (λ x : label, x.1 = i) tr) ++
    match o with Some ev => match f (i, ev) with Some y => [y] | None => [] end | None => [] end.
Proof.
  destruct o as [ev|]; [|by rewrite !app_nil_r].
  change (option_list (tagged i (Some ev))) with [(i, ev)].
  by rewrite filter_snoc, decide_True, omap_snoc by done.
Qed.

(** Stopping and the clock leave a thread's work alone. *)
Lemma threads_insert (s : system Q) i j th th' :
  s_threads s !! j = Some th → s_threads s !! i = Some th' →
  ∀ new, <[j := new]> (s_threads s) !! i = if decide (i = j) then Some new else Some th'.
Proof.
  intros Hj Hi new. case_decide as E.
  - subst j. apply list_lookup_insert_eq. by eapply lookup_lt_Some.
  - by rewrite list_lookup_insert_ne.
Qed.

(** A thread [i] in the states [P n], where [n] is what the trace has of it:
    other threads' actions do not matter. *)
Lemma own_steps (P : list label → thread → Prop) i s tr o s' :
  (∀ th now q q' ev th', P tr th → run now th q = Ok (Some (q', ev, th')) →
     P (tr ++ option_list (tagged i ev)) th') →
  (∀ j ev th, j ≠ i → P tr th → P (tr ++ option_list (tagged j ev)) th) →
  (∀ th th', P tr th → delete_step th = Some th' → P tr th') →
  mq_step s o s' → (∃ th, s_threads s !! i = Some th ∧ P tr th) →
  ∃ th, s_threads s' !! i = Some th ∧ P (tr ++ option_list o) th.
Proof.
  intros Hown Hother Hdel Hs (th & Hi & HP).
  destruct Hs as [j s thj q' ev th' Hj Hrun|j s thj th' Hj Hd|s ts Hts]; cbn [s_threads];
    rewrite ?(threads_insert s i j thj th Hj Hi), ?app_nil_r.
  - case_decide as E; [subst j; simplify_eq; eauto|]. exists th. split; [done|]. by apply Hother.
  - case_decide as E; [subst j; simplify_eq; eauto|]. by exists th.
  - by exists th.
Qed.

Lemma producer_exec base i p s tr s' r l :
  s_threads s !! i = Some (Thread r (WProducer p) l Checking) →
  rand_ok (p_rands p) → item_wf (p_stack p) → p_next_item_id p = u32 base → p_produced_count p = 0 →
  exec mq_step s tr s' → producer_inv base i tr s'.
Proof.
  intros Hi Hr Hw Hn Hc Hex.
  set (P tr th := id <$> cooked_by i tr = item_ids base (length (cooked_by i tr)) ∧
    producer_at base (length (cooked_by i tr)) (length (sent_by i tr)) th).
  enough (∃ th, s_threads s' !! i = Some th ∧ P tr th) as (th & ? & ? & ?) by (split; eauto).
  refine (exec_trace_invariant mq_step (λ tr s, ∃ th, s_threads s !! i = Some th ∧ P tr th) s tr s' _ _ Hex).
  2: { exists (Thread r (WProducer p) l Checking). split; [done|]. split; [done|]. exists p. cbn. by rewrite Z.add_0_r. }
  clear. intros tr s o s' HP Hs. revert HP. apply (own_steps P); try done; subst P; clear; cbn beta.
  - intros th now q q' ev th' [Hids Hat] Hrun. pose proof (mq_producer_run _ _ _ _ _ _ _ _ _ Hat Hrun) as Hev.
    unfold cooked_by, sent_by, sent in *. rewrite !books_own.
    destruct ev as [[it|it e|it|e|]|]; cbn [cooked_item sent_item snd]; rewrite ?app_nil_r; try done;
      destruct Hev as [Hid Hat']; rewrite fmap_app, !length_app, Hids, ?Nat.add_1_r, item_ids_S;
      cbn [fmap list_fmap]; by rewrite Hid.
  - intros j ev th Hne. unfold cooked_by, sent_by, sent. by rewrite !books_other.
  - intros th th' [Hids (p & Hp)] Hd. apply delete_step_keeps in Hd as [Ew Epc]. split; [done|].
    exists p. by rewrite Ew, Epc.
Qed.

Lemma consumer_exec i c s tr s' r l :
  s_threads s !! i = Some (Thread r (WConsumer c) l Checking) → c_consumed_count c = 0 →
  exec mq_step s tr s' → consumer_inv i tr s'.
Proof.
  intros Hi Hc Hex.
  refine (exec_trace_invariant mq_step (consumer_inv i) s tr s' _ _ Hex).
  2: { exists (Thread r (WConsumer c) l Checking). split; [done|]. by exists c. }
  clear. intros tr s o s' HP Hs. revert HP.
  apply (own_steps (λ tr th, consumer_at (length (received_by i tr)) th)); try done; clear.
  - intros th now q q' ev th' Hat Hrun. pose proof (mq_consumer_run _ _ _ _ _ _ _ Hat Hrun) as Hev.
    unfold received_by, received in *. rewrite books_own.
    destruct ev as [[it|it e|it|e|]|]; cbn [received_item snd]; rewrite ?app_nil_r; try done.
    by rewrite length_app, Nat.add_1_r.
  - intros j ev th Hne. unfold received_by, received. by rewrite books_other.
  - intros th th' (c & Hp) Hd. apply delete_step_keeps in Hd as [Ew Epc]. exists c. by rewrite Ew, Epc.
Qed.
End Proofs.
