(* ===== verification/MqLife.v ===== *)
(** * Deleting a worker of the message queue

    What a thread does between the first action of [delete] on its object, the
    closing of its descriptor, and the last, its join; a thread that was
    stopped exits within two actions once its call's time is over. *)
From S2P Require Import Prelude Semaphore Items MessageQueue.

(** ** Specification *)
Definition in_call (th : thread) : bool :=
  match t_pc th with InSend _ _ | InReceive _ => true | _ => false end.

(** When the call a thread is in gives up. *)
Definition deadline (th : thread) : timespec :=
  match t_pc th with InSend _ ts | InReceive ts => ts | _ => Timespec 0 0 end.

Definition events_by (i : nat) (tr : list label) : list event := snd <$> filter (λ x : label, x.1 = i) tr.

(** Nothing went through the queue: the call failed on a closed descriptor, or
    the work was that of the base class. *)
Definition refused (ev : event) : Prop :=
  match ev with EvDropped _ e | EvNothing e => e = EBADF | EvDefaultWork => True | _ => False end.

(** The actions a stopped thread has left. *)
Definition actions_left (pc : thread_pc) : nat :=
  match pc with Exited => 0 | Checking => 1 | _ => 2 end.

(** ** Proofs *)
Lemma events_by_snoc i j o tr :
  events_by i (tr ++ option_list (tagged j o)) =
  events_by i tr ++ (if decide (j = i) then option_list o else []).
Proof.
  unfold events_by. rewrite filter_app, fmap_app. f_equal. destruct o as [ev|]; [|by case_decide].
  change (option_list (tagged j (Some ev))) with [(j, ev)]. cbn [filter list_filter fst]. by case_decide.
Qed.

Section Proofs.
Context {Q : Type} `{MqOps Q WorkItem}.

(** *** After the closing *)
Lemma closed_run now th (q q' : Q) ev th' :
  t_life th ≠ Alive → run now th q = Ok (Some (q', ev, th')) →
  t_life th' = t_life th ∧ in_call th' = false ∧
  match ev with Some e => in_call th = false → refused e | None => in_call th = false end.
Proof.
  intros Hl Hrun. run_cases th Hrun; simplify_eq/=; try done; try (by destruct r); first [by destruct work|unfold Consumer_work; by destruct (c_opened c)].
Qed.

Lemma delete_step_life th th' : delete_step th = Some th' → t_life th' ≠ Alive ∧ in_call th' = in_call th.
Proof. destruct th as [[] w [] []]; simpl; by intros [= <-]. Qed.

Lemma tail_refused l ev : Forall refused (tail l) → refused ev ∨ l = [] → Forall refused (tail (l ++ [ev])).
Proof. destruct l as [|e l]; [by constructor|]. intros Hl [Hev|?]; [|done]. apply Forall_app. auto. Qed.

Lemma closed_exec i th s tr (s' : system Q) :
  s_threads s !! i = Some th → t_life th ≠ Alive → exec mq_step s tr s' →
  Forall refused (if in_call th then tail (events_by i tr) else events_by i tr).
Proof.
  intros Hi Hl Hex.
  set (P tr th' := t_life th' ≠ Alive ∧ (in_call th' = true → in_call th = true ∧ events_by i tr = []) ∧
    Forall refused (if in_call th then tail (events_by i tr) else events_by i tr)).
  enough (∃ th', s_threads s' !! i = Some th' ∧ P tr th') as (? & _ & _ & _ & ?) by done.
  refine (exec_trace_invariant mq_step (λ tr s, ∃ th', s_threads s !! i = Some th' ∧ P tr th') s tr s' _ _ Hex).
  2: { exists th. split; [done|]. split; [done|]. split; [done|]. by destruct (in_call th); constructor. }
  clear. intros tr s o s' HP Hs. revert HP. apply (own_steps P); try done; subst P; clear; cbn beta.
  - intros th1 now q q' ev th1' (Hl & Hin & Hf) Hrun.
    destruct (closed_run _ _ _ _ _ _ Hl Hrun) as (El & Ec & Hev). rewrite El, Ec, events_by_snoc, decide_True by done.
    split; [done|]. split; [done|]. destruct ev as [e|]; simpl; [|by rewrite app_nil_r].
    destruct (in_call th1).
    + destruct (Hin eq_refl) as [-> ->]. by constructor.
    + specialize (Hev eq_refl). destruct (in_call th); [apply tail_refused; auto|]. apply Forall_app. auto.
  - intros j ev th1 Hne. by rewrite events_by_snoc, decide_False, app_nil_r by done.
  - intros th1 th1' (Hl & Hin & Hf) Hd. apply delete_step_life in Hd as [Hl' Ec]. by rewrite Ec.
Qed.

(** *** The join *)

(** A stopped thread's object is being destroyed; a joined one's is gone. *)
Definition life_ok (th : thread) : Prop :=
  match t_life th with
  | Alive | Closed => t_run th = true
  | Reduced => True
  | Deleted => t_run th = false ∧ t_pc th = Exited
  end.

(** A producer's calls are sends, a consumer's receives. *)
Definition calls_its_kind (th : thread) : Prop :=
  match t_worker th, t_pc th with
  | WProducer _, (Receiving _ | InReceive _) | WConsumer _, (Sending _ _ | InSend _ _) => False
  | _, _ => True
  end.

Definition thread_ok (th : thread) : Prop := life_ok th ∧ calls_its_kind th.

Lemma thread_ok_run now th (q q' : Q) ev th' :
  thread_ok th → run now th q = Ok (Some (q', ev, th')) → thread_ok th'.
Proof.
  intros [Hl Hk] Hrun. run_cases th Hrun; unfold thread_ok, life_ok, calls_its_kind in *; simplify_eq/=; repeat case_match; naive_solver.
Qed.

Lemma thread_ok_delete th th' : thread_ok th → delete_step th = Some th' → thread_ok th'.
Proof.
  unfold thread_ok, life_ok, calls_its_kind. destruct th as [[] w [] []]; simpl; intros Hl [= <-]; naive_solver.
Qed.

Lemma thread_ok_exec now (q : Q) ws tr s : exec mq_step (initial now q ws) tr s → Forall thread_ok (s_threads s).
Proof.
  intros Hex. refine (exec_trace_invariant mq_step (λ _ s, Forall thread_ok (s_threads s)) _ tr s _ _ Hex).
  - clear. intros _ s o s' Hf Hs.
    destruct Hs as [i s th q' ev th' Hth Hr|i s th th' Hth Hd|s ts Hts]; cbn [s_threads]; [| |done];
      apply Forall_insert; try done; pose proof (Forall_lookup_1 _ _ _ _ Hf Hth) as Hok;
      [by eapply thread_ok_run|by eapply thread_ok_delete].
  - cbn [initial s_threads]. apply Forall_fmap, Forall_true. by intros [p|c].
Qed.

Context (contents : Q → list WorkItem) (maxmsg : nat).
Context {laws : MqLaws Q WorkItem contents SEND_PRIORITY maxmsg}.

Lemma stopped_acts now w pc (q : Q) :
  let th := Thread false w Reduced pc in
  calls_its_kind th → ts_le (deadline th) now = true → pc ≠ Exited →
  ∃ q' ev w' pc', run now th q = Ok (Some (q', ev, Thread false w' Reduced pc')) ∧
    (actions_left pc' < actions_left pc)%nat ∧ (pc' = Checking ∨ pc' = Exited).
Proof.
  intros th Hk Hd Hpc. subst th. destruct pc as [| |it ts|it ts|ts|ts|]; cbn in *; try done.
  - eexists _, _, _, _. split; [done|]. split; [cbn; lia|by right].
  - eexists _, _, _, _. split; [done|]. split; [cbn; lia|by left].
  - eexists _, _, _, _. split; [done|]. split; [cbn; lia|by left].
  - destruct w; [|done]. pose proof (send_timely now ts SIZEOF_ITEM it q Hd) as Ht.
    destruct (mq_timedsend _ _ _ _ _ _); [| |done]; eexists _, _, _, _; (split; [done|]); (split; [cbn; lia|by left]).
  - eexists _, _, _, _. split; [done|]. split; [cbn; lia|by left].
  - destruct w; [done|]. pose proof (receive_timely now ts (SIZEOF_ITEM + 1) q Hd) as Ht.
    destruct (mq_timedreceive _ _ _ _) as [[]| |]; [| |done]; eexists _, _, _, _; (split; [done|]);
      (split; [cbn; lia|by left]).
Qed.

(** So it exits, in two actions of its own. *)
Lemma stopped_exits w pc s i :
  let th := Thread false w Reduced pc in
  s_threads s !! i = Some th → calls_its_kind th → ts_le (deadline th) (s_now s) = true →
  ∃ n w', (n ≤ 2)%nat ∧
    s_threads (run_threads (replicate n (Act i)) s).2 !! i = Some (Thread false w' Reduced Exited).
Proof.
  intros th Hi Hk Hd. subst th.
  assert (pc = Exited ∨ pc ≠ Exited) as [->|Hpc] by (destruct pc; (by left) || (by right)); [by exists 0%nat, w; split; [lia|]|].
  destruct (stopped_acts (s_now s) w pc (s_mq s) Hk Hd Hpc) as (q1 & ev & w1 & pc1 & E1 & Hlt & Hpc1).
  set (s1 := System (s_now s) q1 (<[i := Thread false w1 Reduced pc1]> (s_threads s))).
  assert (Hi1 : s_threads s1 !! i = Some (Thread false w1 Reduced pc1))
    by (apply list_lookup_insert_eq; by eapply lookup_lt_Some).
  destruct Hpc1 as [->| ->].
  - exists 2%nat, w1. split; [lia|]. cbn [replicate run_threads choose]. rewrite Hi, E1. fold s1. rewrite Hi1. cbn [run].
    apply list_lookup_insert_eq. cbn [s1 s_threads]. rewrite length_insert. by eapply lookup_lt_Some.
  - exists 1%nat, w1. split; [lia|]. cbn [replicate run_threads choose]. rewrite Hi, E1. exact Hi1.
Qed.
End Proofs.
