(* ===== verification/MqProps.v ===== *)
(** * Properties of the workers on a message queue (Chapter14/MessageQueue)

    The order of what goes through the queue, the threads' books, and what the
    deletion of a worker does, with witnesses. *)
From S2P Require Import Prelude Semaphore Items MessageQueue MqLife.

Section Mq.
Context {Q : Type} `{MqOps Q WorkItem}.

(** Any number of producers and consumers on one message queue: at every
    moment the items sent are, in order, those received and those waiting, of
    which there are never more than the queue holds; so nothing that was sent
    is lost, duplicated or reordered. *)
Lemma mq_delivers_in_order (contents : Q → list WorkItem) (maxmsg : nat)
    `{!MqLaws Q WorkItem contents SEND_PRIORITY maxmsg} now q ws tr s :
  contents q = [] → exec mq_step (initial now q ws) tr s →
  sent tr = received tr ++ contents (s_mq s) ∧ (length (contents (s_mq s)) ≤ maxmsg)%nat.
Proof.
  intros Hq Hex. destruct (fifo_exec contents maxmsg q (initial now q ws) tr s eq_refl ltac:(rewrite Hq; simpl; lia) Hex) as [Hf Hl].
  rewrite Hq in Hf. done.
Qed.

(** The books of the threads: whatever happens, the items a producer made
    bear consecutive ids from 300000 times its own, sent or dropped (so a
    time-out leaves a gap), and its count is that of the items it sent; a
    consumer's count is that of the items it received. *)
Lemma mq_worker_books now q ws tr (s : system Q) i w :
  ws !! i = Some w → exec mq_step (initial now q ws) tr s →
  match w with
  | WProducer p =>
      ∀ pid mqd stack r, p = Producer_ctor pid mqd stack r → rand_ok r → item_wf stack →
      ∃ th p', s_threads s !! i = Some th ∧ t_worker th = WProducer p' ∧
        id <$> cooked_by i tr =
          item_ids (ITEM_STARTING_ID_EACH_PRODUCER * u32 pid) (length (cooked_by i tr)) ∧
        p_produced_count p' = u32 (Z.of_nat (length (sent_by i tr)))
  | WConsumer c =>
      ∀ cid mqd, c = Consumer_ctor cid mqd →
      ∃ th c', s_threads s !! i = Some th ∧ t_worker th = WConsumer c' ∧
        c_consumed_count c' = u32 (Z.of_nat (length (received_by i tr)))
  end.
Proof.
  intros Hi Hex.
  assert (Ht : s_threads (initial now q ws) !! i = Some (Thread true w Alive Checking))
    by (cbn [initial s_threads]; by rewrite list_lookup_fmap, Hi).
  destruct w as [p|c].
  - intros pid mqd stack r -> Hr Hw.
    destruct (producer_exec (ITEM_STARTING_ID_EACH_PRODUCER * u32 pid) i
      (Producer_ctor pid mqd stack r) _ tr s true Alive Ht Hr Hw eq_refl eq_refl Hex)
      as (Hids & th & Hi' & p' & Ew & _ & _ & Hcnt & _).
    by exists th, p'.
  - intros cid mqd ->.
    destruct (consumer_exec i (Consumer_ctor cid mqd) _ tr s true Alive Ht eq_refl Hex) as (th & Hi' & c' & Ew & Hcnt & _).
    by exists th, c'.
Qed.

(** C20. The destructor of a worker closes its descriptor before it stops the
    thread: from then on nothing goes through the queue but what the call
    under way may still do; every other item the thread makes is lost, and
    every other call it makes fails, with EBADF, or is the base class's work. *)
Theorem mq_deletion_cuts_the_worker_off i th s tr (s' : system Q) :
  s_threads s !! i = Some th → t_life th ≠ Alive → exec mq_step s tr s' →
  Forall refused (if in_call th then tail (events_by i tr) else events_by i tr).
Proof. apply closed_exec. Qed.

(** The destructor's join ends: in every reachable state in which the
    thread was stopped, from the time on at which its call gives up, two
    actions of its own bring it to its exit, whatever the queue holds, and the
    join then returns; and a joined thread never acts again. *)
Lemma mq_deletion_ends (contents : Q → list WorkItem) (maxmsg : nat)
    `{!MqLaws Q WorkItem contents SEND_PRIORITY maxmsg} now q ws tr (s : system Q) i th :
  exec mq_step (initial now q ws) tr s → s_threads s !! i = Some th → t_run th = false →
  (t_life th = Deleted → ∀ t q', run t th q' = Ok None) ∧
  (t_life th ≠ Deleted → ∀ t, ts_le (deadline th) t = true →
   ∃ n th' th'', (n ≤ 2)%nat ∧
     s_threads (run_threads (replicate n (Act i)) (System t (s_mq s) (s_threads s))).2 !! i = Some th' ∧
     delete_step th' = Some th'' ∧ t_life th'' = Deleted).
Proof.
  intros Hex Hi Hr. pose proof (Forall_lookup_1 _ _ _ _ (thread_ok_exec _ _ _ _ _ Hex) Hi) as [Hl Hk].
  destruct th as [run w l pc]. simpl in Hr. subst run. unfold life_ok in Hl. cbn in Hl. split.
  - cbn. intros ->. by destruct Hl as [_ ->].
  - cbn [t_life]. intros Hd t Ht. destruct l; try done.
    destruct (stopped_exits contents maxmsg w pc (System t (s_mq s) (s_threads s)) i Hi Hk Ht) as (n & w' & Hn & E).
    by exists n, (Thread false w' Reduced Exited), (Thread false w' Deleted Exited).
Qed.
End Mq.

(** A producer and a consumer on a queue of ten: two items go through. *)
#[local] Instance demo_mq : MqOps (list WorkItem) WorkItem := posix_mq 10 516.
Definition ones : rands := λ _, 1.
Definition zero_item : WorkItem := MkWorkItem 0 (replicate 512 0).
Definition demo_workers : list worker :=
  [WProducer (Producer_ctor 7 3 zero_item ones); WConsumer (Consumer_ctor 7 3)].
Definition demo_order : list choice := Act <$> [0; 0; 0; 0; 1; 1; 1; 1; 0; 0]%nat.
Definition demo_mq_run := run_threads demo_order (initial (Timespec 5 0) ([] : list WorkItem) demo_workers).

Lemma demo_mq_exec : exec mq_step (initial (Timespec 5 0) ([] : list WorkItem) demo_workers) demo_mq_run.1 demo_mq_run.2.
Proof. apply run_threads_exec. Qed.

Lemma mq_delivers_in_order_witness :
  sent demo_mq_run.1 = received demo_mq_run.1 ++ s_mq demo_mq_run.2 ∧ (length (s_mq demo_mq_run.2) ≤ 10)%nat ∧
  id <$> received demo_mq_run.1 = [2100000].
Proof.
  destruct (mq_delivers_in_order (λ q : list WorkItem, q) 10 (Timespec 5 0) [] demo_workers
    demo_mq_run.1 demo_mq_run.2 eq_refl demo_mq_exec) as [H1 H2].
  split; [exact H1|]. split; [exact H2|]. vm_compute. reflexivity.
Defined.

(** The producer is deleted while it has an item to send: the queue is empty,
    the item is lost, and the base class works once before it is stopped. *)
Definition demo_deletion : list choice :=
  [Act 0; Act 0; Act 0; Act 0; Act 0; Act 0; Del 0; Act 0; Del 0; Act 0; Act 0; Del 0; Act 0]%nat.
Definition demo_deleted (n : nat) : list label * system (list WorkItem) :=
  run_threads (take n demo_deletion) (initial (Timespec 5 0) [] demo_workers).
Definition demo_tail : list label * system (list WorkItem) :=
  run_threads (drop 7 demo_deletion) (demo_deleted 7).2.

Lemma mq_deletion_cuts_the_worker_off_witness :
  Forall refused (events_by 0 demo_tail.1) ∧
  (id <$> cooked_by 0 demo_tail.1) = [2100001] ∧ length demo_tail.1 = 2%nat ∧
  length (s_mq demo_tail.2) = 1%nat.
Proof.
  destruct (s_threads (demo_deleted 7).2 !! 0%nat) as [th|] eqn:E; [|exfalso; revert E; by vm_compute].
  pose proof (mq_deletion_cuts_the_worker_off 0 th (demo_deleted 7).2 demo_tail.1 demo_tail.2 E) as P.
  vm_compute in E. injection E as <-. split; [apply P; [done|apply run_threads_exec]|]. vm_compute. done.
Defined.

Lemma mq_deletion_ends_witness :
  ∃ n th' th'', (n ≤ 2)%nat ∧
    s_threads (run_threads (replicate n (Act 0))
      (System (Timespec 5 0) (s_mq (demo_deleted 12).2) (s_threads (demo_deleted 12).2))).2 !! 0%nat = Some th' ∧
    delete_step th' = Some th'' ∧ t_life th'' = Deleted.
Proof.
  destruct (s_threads (demo_deleted 12).2 !! 0%nat) as [th|] eqn:E; [|exfalso; revert E; by vm_compute].
  destruct (mq_deletion_ends (λ q : list WorkItem, q) 10 (Timespec 5 0) [] demo_workers (demo_deleted 12).1
    (demo_deleted 12).2 0 th) as [_ P]; [apply run_threads_exec|done|vm_compute in E; by injection E as <-|].
  vm_compute in E. injection E as <-. by apply (P ltac:(done) (Timespec 5 0)).
Defined.

