(* ===== verification/MqChildren.v ===== *)
(** * The processes on a message queue (Chapter14/MessageQueue)

    The child processes of a simulation an action at a time: their [main]
    (Sim/ProducerSim.cpp, Sim/ConsumerSim.cpp), which constructs a worker, sleeps
    and deletes it, and the worker's thread, which the first thing the
    constructor does sets going.  The constructor initialises [m_mqd] with -1
    before it opens the queue, and the count last. *)
From S2P Require Import Prelude Semaphore Items MessageQueue MqLife.

(** ** Data *)

(** Where [main] is: about to construct the [ScheduledObject], whose
    constructor starts the thread; about to make it a [Producer] or [Consumer];
    about to initialise [m_mqd]; about to call [mq_open]; about to set the
    count to 0; about to sleep; asleep; in [delete], as far as the thread's
    [t_life] says; past it. *)
Inductive main_pc :=
  | AtNew | AtEnter | AtGuard | AtOpen | AtCount
  | AtSleep | AsleepTill (ts : timespec) | AtDelete | AtExit.
#[export] Instance main_pc_eq_dec : EqDecision main_pc.
Proof. solve_decision. Defined.

(** Where the thread is in [ScheduledObject::run]: at its start, in [sleep(2)],
    in the loop. *)
Inductive wake_pc := JustStarted | SleepingTill (wake : timespec) | Awake.

(** [mc_built] is the worker as the constructor leaves it, with the answer of
    [mq_open]. *)
Record mq_process := MqChild {
  mc_built : worker;
  mc_seconds : Z;
  mc_main : main_pc;
  mc_wake : wake_pc;
  mc_thread : thread
}.

(** The worker before [mq_open]. *)
Definition unopened (w : worker) : worker :=
  match w with
  | WProducer p => WProducer (MkProducer (p_id p) (p_next_item_id p) (p_produced_count p) false (p_stack p) (p_rands p))
  | WConsumer c => WConsumer (MkConsumer (c_id c) (c_consumed_count c) false)
  end.

Definition mq_child_start (w : worker) (secs : Z) : mq_process :=
  MqChild w secs AtNew JustStarted (Thread true (unopened w) Alive Checking).

Definition with_main (m : main_pc) (c : mq_process) : mq_process :=
  MqChild (mc_built c) (mc_seconds c) m (mc_wake c) (mc_thread c).
Definition with_wake (k : wake_pc) (c : mq_process) : mq_process :=
  MqChild (mc_built c) (mc_seconds c) (mc_main c) k (mc_thread c).
Definition with_thread (th : thread) (c : mq_process) : mq_process :=
  MqChild (mc_built c) (mc_seconds c) (mc_main c) (mc_wake c) th.

Definition START_SECONDS : Z := 2.

(** ** Actions *)

(** The next action of [main]; [None] while it sleeps or waits in
    [pthread_join], and at its end. *)
Definition mq_main (now : timespec) (c : mq_process) : option mq_process :=
  let th := mc_thread c in
  match mc_main c with
  | AtNew => Some (with_main AtEnter c)
  | AtEnter => Some (with_main AtGuard c)
  | AtGuard => Some (with_main AtOpen c)
  | AtOpen => Some (with_main AtCount (with_thread (Thread (t_run th) (mc_built c) (t_life th) (t_pc th)) c))
  | AtCount => Some (with_main AtSleep c)
  | AtSleep => Some (with_main (AsleepTill (later now (u32 (mc_seconds c)))) c)
  | AsleepTill ts => if ts_le ts now then Some (with_main AtDelete c) else None
  | AtDelete =>
      match delete_step th with
      | Some th' => Some (with_main (match t_life th' with Deleted => AtExit | _ => AtDelete end) (with_thread th' c))
      | None => None
      end
  | AtExit => None
  end.

Section Children.
Context {Q : Type} `{MqOps Q WorkItem}.

(** An action of the thread in its loop. *)
Definition mq_loop (now : timespec) (c : mq_process) (q : Q) : outcome (option (Q * option event * mq_process)) :=
  let th := mc_thread c in
  match mc_main c, t_pc th with
  | AtEnter, Calling =>    (* ScheduledObject::work() *)
      Ok (Some (q, Some EvDefaultWork, with_thread (Thread (t_run th) (t_worker th) (t_life th) Checking) c))
  | AtGuard, Calling => Fault Uninitialised    (* work() reads m_mqd *)
  | m, _ =>
      r ← run now th q;
      match m, r with
      | AtCount, Some (_, Some (EvSent _ | EvReceived _), _) => Fault Uninitialised    (* the count *)
      | _, Some (q', ev, th') => Ok (Some (q', ev, with_thread th' c))
      | _, None => Ok None
      end
  end.

(** The next action of the worker's thread, once there is one. *)
Definition mq_thread_run (now : timespec) (c : mq_process) (q : Q) : outcome (option (Q * option event * mq_process)) :=
  match mc_main c with
  | AtNew => Ok None
  | _ =>
      match mc_wake c with
      | JustStarted => Ok (Some (q, None, with_wake (SleepingTill (later now START_SECONDS)) c))
      | SleepingTill wake => if ts_le wake now then Ok (Some (q, None, with_wake Awake c)) else Ok None
      | Awake => mq_loop now c q
      end
  end.

Record mq_life := MqLive { ml_now : timespec; ml_mq : Q; ml_children : list mq_process }.

Inductive mq_life_step : mq_life → option label → mq_life → Prop :=
  | mq_life_main now q cs i c c' :
      cs !! i = Some c → mq_main now c = Some c' → mq_life_step (MqLive now q cs) None (MqLive now q (<[i := c']> cs))
  | mq_life_thread now q cs i c q' ev c' :
      cs !! i = Some c → mq_thread_run now c q = Ok (Some (q', ev, c')) →
      mq_life_step (MqLive now q cs) (tagged i ev) (MqLive now q' (<[i := c']> cs))
  | mq_life_clock now now' q cs : ts_le now now' = true → mq_life_step (MqLive now q cs) None (MqLive now' q cs).

Definition mq_life_start (now : timespec) (q : Q) (ws : list (worker * Z)) : mq_life :=
  MqLive now q ((λ '(w, secs), mq_child_start w secs) <$> ws).

(** ** Runs *)
Inductive mq_choice := MainTurn (i : nat) | ThreadTurn (i : nat) | ClockTurn (ts : timespec).
Definition mq_choose (x : mq_choice) (s : mq_life) : option (option label * mq_life) :=
  let '(MqLive now q cs) := s in
  match x with
  | MainTurn i =>
      match cs !! i ≫= mq_main now with Some c' => Some (None, MqLive now q (<[i := c']> cs)) | None => None end
  | ThreadTurn i =>
      match cs !! i with
      | Some c =>
          match mq_thread_run now c q with
          | Ok (Some (q', ev, c')) => Some (tagged i ev, MqLive now q' (<[i := c']> cs))
          | _ => None
          end
      | None => None
      end
  | ClockTurn ts => if ts_le now ts then Some (None, MqLive ts q cs) else None
  end.

Fixpoint mq_life_run (xs : list mq_choice) (s : mq_life) : list label * mq_life :=
  match xs with
  | [] => ([], s)
  | x :: xs' =>
      match mq_choose x s with
      | Some (o, s1) => let '(tr, s') := mq_life_run xs' s1 in (option_list o ++ tr, s')
      | None => ([], s)
      end
  end.

Lemma mq_choose_step x s o s' : mq_choose x s = Some (o, s') → mq_life_step s o s'.
Proof.
  destruct s as [now q cs], x as [i|i|ts]; simpl.
  - destruct (cs !! i) as [c|] eqn:Hi; [|done]. simpl. destruct (mq_main now c) as [c'|] eqn:E; [|done].
    intros [= <- <-]. by eapply mq_life_main.
  - destruct (cs !! i) as [c|] eqn:Hi; [|done]. destruct (mq_thread_run now c q) as [[[[q' ev] c']|]|] eqn:E; [|done..].
    intros [= <- <-]. by eapply mq_life_thread.
  - destruct (ts_le now ts) eqn:E; [|done]. intros [= <- <-]. by apply mq_life_clock.
Qed.

Lemma mq_life_run_exec xs s : exec mq_life_step s (mq_life_run xs s).1 (mq_life_run xs s).2.
Proof.
  revert s. induction xs as [|x xs IH]; intros s; [constructor|]. cbn [mq_life_run].
  destruct (mq_choose x s) as [[o s1]|] eqn:Hx; [|constructor]. specialize (IH s1).
  destruct (mq_life_run xs s1) as [tr s']. eapply exec_trans; [|exact IH]. by eapply exec_one, mq_choose_step.
Qed.
End Children.
Arguments mq_life Q : clear implicits.
