(* ===== verification/MqChildInv.v ===== *)
(** * The processes on a message queue: invariant and projection

    What the children of [MqChildren] do to the queue is an execution of the
    worker threads of [MessageQueue], whenever their constructors get on; and
    from every state all of them can end. *)
From S2P Require Import Prelude Semaphore Items MessageQueue MqLife MqChildren.

(** ** Specification *)

(** The queue has been opened. *)
Definition opened (m : main_pc) : bool :=
  match m with AtNew | AtEnter | AtGuard | AtOpen => false | _ => true end.

(** The thread as one of [MessageQueue]: that of a worker which has not begun,
    until it has opened the queue. *)
Definition mq_thread (c : mq_process) : thread :=
  if opened (mc_main c) then mc_thread c else Thread true (mc_built c) Alive Checking.
Definition life_system {Q} (s : mq_life Q) : system Q := System (ml_now s) (ml_mq s) (mq_thread <$> ml_children s).

(** What the base class's [work()] prints aside. *)
Definition worked (x : label) : Prop := x.2 ≠ EvDefaultWork.
#[export] Instance worked_dec x : Decision (worked x).
Proof. unfold worked. destruct x as [i []]; (by left) || (right; naive_solver). Defined.
Definition on_queue (tr : list label) : list label := filter worked tr.

Lemma on_queue_app tr1 tr2 : on_queue (tr1 ++ tr2) = on_queue tr1 ++ on_queue tr2.
Proof. apply filter_app. Qed.

(** It is all that [sent], [received] and [cooked_by] look at. *)
Lemma omap_on_queue {A} (f : label → option A) tr :
  (∀ i, f (i, EvDefaultWork) = None) → omap f (on_queue tr) = omap f tr.
Proof.
  intros Hf. unfold on_queue. induction tr as [|[i ev] tr IH]; [done|]. rewrite filter_cons.
  case_decide as E.
  - change ((i, ev) :: filter worked tr) with ([(i, ev)] ++ filter worked tr). change ((i, ev) :: tr) with ([(i, ev)] ++ tr).
    by rewrite !omap_app, IH.
  - rewrite IH. change ((i, ev) :: tr) with ([(i, ev)] ++ tr). rewrite omap_app. simpl.
    destruct ev; try (exfalso; by apply E). by rewrite Hf.
Qed.

Lemma filter_on_queue i tr : filter (λ x : label, x.1 = i) (on_queue tr) = on_queue (filter (λ x : label, x.1 = i) tr).
Proof. unfold on_queue. rewrite !list_filter_filter. apply list_filter_iff. naive_solver. Qed.

Lemma on_queue_books tr tr' : on_queue tr' = on_queue tr →
  sent tr' = sent tr ∧ received tr' = received tr ∧ ∀ i, cooked_by i tr' = cooked_by i tr ∧ sent_by i tr' = sent_by i tr.
Proof.
  intros E. unfold sent_by, cooked_by, sent, received.
  split_and!; [by rewrite <-(omap_on_queue _ tr), <-E, omap_on_queue|by rewrite <-(omap_on_queue _ tr), <-E, omap_on_queue|].
  intros i. assert (Ei : on_queue (filter (λ x : label, x.1 = i) tr') = on_queue (filter (λ x : label, x.1 = i) tr))
    by by rewrite <-!filter_on_queue, E.
  split; rewrite <-(omap_on_queue _ (filter _ tr)), <-Ei, omap_on_queue; done.
Qed.

(** An item goes through the queue, and the count goes up. *)
Definition goes_through (ev : option event) : Prop :=
  match ev with Some (EvSent _ | EvReceived _) => True | _ => False end.

(** ** The invariant of a process *)
Definition same_kind (w w' : worker) : Prop :=
  match w, w' with WProducer _, WProducer _ | WConsumer _, WConsumer _ => True | _, _ => False end.

(** A producer has random numbers and a stack to make its items from. *)
Definition worker_good (w : worker) : Prop :=
  match w with WProducer p => rand_ok (p_rands p) ∧ item_wf (p_stack p) | WConsumer _ => True end.

Record mq_child_ok (c : mq_process) : Prop := {
  mo_thread : thread_ok (mc_thread c);
  mo_good : worker_good (t_worker (mc_thread c)) ∧ worker_good (mc_built c);
  mo_kind : same_kind (t_worker (mc_thread c)) (mc_built c);
  mo_early : opened (mc_main c) = false →
    t_worker (mc_thread c) = unopened (mc_built c) ∧ (t_pc (mc_thread c) = Checking ∨ t_pc (mc_thread c) = Calling);
  mo_alive : match mc_main c with
             | AtDelete => t_life (mc_thread c) ≠ Deleted
             | AtExit => t_life (mc_thread c) = Deleted
             | _ => t_life (mc_thread c) = Alive
             end;
  mo_asleep : mc_wake c ≠ Awake → t_pc (mc_thread c) = Checking;
  mo_new : mc_main c = AtNew → mc_wake c = JustStarted
}.

Lemma mq_child_start_ok w secs : worker_good w → mq_child_ok (mq_child_start w secs).
Proof. intros Hg. split; cbn; try done; by destruct w; auto. Qed.

Lemma exited_at_end c : mq_child_ok c → mc_main c = AtExit → t_pc (mc_thread c) = Exited.
Proof.
  intros [[Hl _] _ _ _ Ha _ _] E. rewrite E in Ha. unfold life_ok in Hl. rewrite Ha in Hl. by destruct Hl.
Qed.

(** ** Actions of [main] *)
Lemma unopened_kind w : same_kind (unopened w) w.
Proof. by destruct w. Qed.

Lemma main_ok now c c' :
  mq_child_ok c → mq_main now c = Some c' → mq_child_ok c'.
Proof.
  intros [Ht Hg Hk He Ha Hw Hn] Hm. destruct c as [b secs m k [r w l pc]]. unfold mq_main in Hm.
  cbn [mc_built mc_seconds mc_main mc_wake mc_thread t_run t_worker t_life t_pc] in *. pose proof Ht as [Hl Hc].
  destruct m; try (injection Hm as <-; split; cbn; try done; by auto).
  - injection Hm as <-. destruct (He eq_refl) as [-> Hpc]. split; cbn; try done; [|by destruct Hg|by destruct b].
    split; [done|]. destruct Hpc as [-> | ->]; by destruct b.
  - destruct (ts_le ts now); [|done]. injection Hm as <-. split; cbn; try done. by rewrite Ha.
  - destruct (delete_step _) as [th'|] eqn:Ed; [|done]. injection Hm as <-.
    pose proof (thread_ok_delete _ _ Ht Ed) as Ht'. destruct (delete_step_keeps _ _ Ed) as [Ew Epc]. cbn [t_worker t_pc] in Ew, Epc.
    split; cbn; try done.
    + by rewrite Ew.
    + by rewrite Ew.
    + by destruct (t_life th').
    + by destruct (t_life th') eqn:El.
    + by rewrite Epc.
    + by destruct (t_life th').
  - done.
Qed.

(** ... on the queue: nothing, or the loop of a worker that has opened it gets
    to where its thread is, or a step of its deletion. *)
Lemma main_projects now c c' :
  mq_child_ok c → mq_main now c = Some c' →
  mq_thread c' = mq_thread c ∨ delete_step (mq_thread c) = Some (mq_thread c') ∨
  mq_thread c = Thread true (mc_built c) Alive Checking ∧ mq_thread c' = Thread true (mc_built c) Alive Calling.
Proof.
  intros [Ht Hg Hk He Ha Hw Hn] Hm. destruct c as [b secs m k [r w l pc]]. unfold mq_main in Hm.
  cbn [mc_built mc_seconds mc_main mc_wake mc_thread t_run t_worker t_life t_pc] in *. destruct Ht as [Hl Hc].
  unfold life_ok in Hl. cbn in Hl. destruct m; try (injection Hm as <-; by left).
  - injection Hm as <-. destruct (He eq_refl) as [-> Hpc]. subst l. subst r. unfold mq_thread. cbn.
    destruct Hpc as [-> | ->]; [by left|by right; right].
  - destruct (ts_le ts now); [|done]. injection Hm as <-. by left.
  - destruct (delete_step _) as [th'|] eqn:Ed; [|done]. injection Hm as <-. right. left. unfold mq_thread. cbn.
    by destruct (t_life th').
  - done.
Qed.

Section Threads.
Context {Q : Type} `{MqOps Q WorkItem}.

Lemma run_keeps_kind now th (q q' : Q) ev th' :
  run now th q = Ok (Some (q', ev, th')) → same_kind (t_worker th') (t_worker th) ∧ t_life th' = t_life th ∧ t_pc th ≠ Exited.
Proof.
  intros Hrun. run_cases th Hrun; simplify_eq/=; try done; try (by destruct w).
  all: unfold Producer_work in *; repeat case_match; by simplify_eq/=.
Qed.

Lemma same_kind_trans w1 w2 w3 : same_kind w1 w2 → same_kind w2 w3 → same_kind w1 w3.
Proof. by destruct w1, w2, w3. Qed.

Lemma run_keeps_good now th (q q' : Q) ev th' :
  worker_good (t_worker th) → run now th q = Ok (Some (q', ev, th')) → worker_good (t_worker th').
Proof.
  intros Hg Hrun. run_cases th Hrun; simplify_eq/=; try done.
  all: unfold Producer_work in *; destruct (p_opened p); [|by simplify_eq/=];
    destruct Hg as [Hr Hs]; destruct (cook_item_ok (p_next_item_id p) (p_stack p) (p_rands p) Hr Hs)
      as (it & rd & n & Ec & Hr' & Hs' & _); rewrite Ec in *; by simplify_eq/=.
Qed.

(** The only fault of [run] would be in making an item. *)
Lemma run_good now th (q : Q) f : worker_good (t_worker th) → run now th q ≠ Fault f.
Proof.
  intros Hg Hrun. destruct th as [r w l pc]; destruct pc; simpl in Hrun; try done;
    [|by destruct l|destruct w; [|done]; by destruct (mq_timedsend _ _ _ _ _ _)|by destruct l|
      destruct w; [done|]; by destruct (mq_timedreceive _ _ _ _) as [[]| |]].
  destruct l, w as [p|c]; try done; unfold Producer_work in Hrun; destruct (p_opened p); try done; destruct Hg as [Hr Hs];
    destruct (cook_item_ok (p_next_item_id p) (p_stack p) (p_rands p) Hr Hs) as (it & rd & n & Ec & _); by rewrite Ec in Hrun.
Qed.

(** An action of an opened worker is one of [run]. *)
Lemma opened_ok c now (q q' : Q) ev th' :
  mq_child_ok c → mc_wake c = Awake → opened (mc_main c) = true → run now (mc_thread c) q = Ok (Some (q', ev, th')) →
  mq_child_ok (with_thread th' c).
Proof.
  intros [Ht [Hg Hb] Hk He Ha Hw Hn] Ew Eo Hrun. destruct (run_keeps_kind _ _ _ _ _ _ Hrun) as (Hk' & El & _).
  split; cbn.
  - by eapply thread_ok_run.
  - split; [by eapply run_keeps_good|done].
  - by eapply same_kind_trans.
  - by rewrite Eo.
  - by rewrite El.
  - by rewrite Ew.
  - done.
Qed.

(** Before the loop. *)
Lemma thread_run_cases now c (q : Q) :
  match mc_main c with AtNew => mq_thread_run now c q = Ok None | _ =>
    match mc_wake c with
    | Awake => mq_thread_run now c q = mq_loop now c q
    | _ => ∃ r, mq_thread_run now c q = Ok r ∧ ∀ q' ev c', r = Some (q', ev, c') →
        q' = q ∧ ev = None ∧ ∃ k, c' = with_wake k c
    end
  end.
Proof.
  unfold mq_thread_run. destruct (mc_main c), (mc_wake c) as [|wake|]; try done.
  all: try (eexists; split; [done|]; intros ??? [= <- <- <-]; split_and!; [done..|by eexists]).
  all: destruct (ts_le wake now); (eexists; split; [done|]); try done; intros ??? [= <- <- <-]; split_and!; [done..|by eexists].
Qed.

(** In the loop, an action is nothing to the queue, or one of [run]. *)
Lemma loop_steps now c (q q' : Q) ev c' :
  mq_child_ok c → mc_wake c = Awake → mq_loop now c q = Ok (Some (q', ev, c')) →
  mq_child_ok c' ∧
  ((mq_thread c' = mq_thread c ∧ q' = q ∧ (ev = None ∨ ev = Some EvDefaultWork)) ∨
   run now (mq_thread c) q = Ok (Some (q', ev, mq_thread c'))).
Proof.
  intros Hok Ew Hrun. pose proof Hok as [Ht Hg Hk He Ha Hw Hn]. unfold mq_loop in Hrun.
  destruct (opened (mc_main c)) eqn:Eo.
  - assert (Hr : ∃ q1 ev1 th1, run now (mc_thread c) q = Ok (Some (q1, ev1, th1)) ∧ (q', ev, c') = (q1, ev1, with_thread th1 c)).
    { destruct (run now (mc_thread c) q) as [[[[q1 ev1] th1]|]|]; [|by destruct (mc_main c)..].
      exists q1, ev1, th1. split; [done|].
      destruct (mc_main c); try done; cbn in Hrun; try (by injection Hrun as -> -> ->). destruct ev1 as [[]|]; by simplify_eq. }
    destruct Hr as (q1 & ev1 & th1 & Erun & E). injection E as -> -> ->.
    split; [by eapply opened_ok|]. right. unfold mq_thread. cbn. by rewrite Eo.
  - destruct (He eq_refl) as [Et Hpc]. destruct c as [b secs m k [r w l pc]]. cbn in *. subst w k.
    assert (l = Alive) as -> by by destruct m. destruct Ht as [Hl Hc]. unfold life_ok in Hl. cbn in Hl. subst r.
    assert (Hr : ∃ pc', (q', c') = (q, MqChild b secs m Awake (Thread true (unopened b) Alive pc')) ∧
      (ev = None ∨ ev = Some EvDefaultWork) ∧ (pc' = Checking ∨ pc' = Calling)).
    { destruct Hpc as [-> | ->], m, b as [[]|[]]; try done; cbn in Hrun; simpl_bind in Hrun; cbn in Hrun;
        injection Hrun as <- <- <-; eexists; (split; [done|]); auto. }
    destruct Hr as (pc' & E & Hev & Hpc'). injection E as -> ->. split; [|left; unfold mq_thread; cbn; by rewrite Eo].
    split; cbn; try done. split; [done|]. by destruct Hpc' as [-> | ->], b.
Qed.

Lemma thread_steps now c (q q' : Q) ev c' :
  mq_child_ok c → mq_thread_run now c q = Ok (Some (q', ev, c')) →
  mq_child_ok c' ∧
  ((mq_thread c' = mq_thread c ∧ q' = q ∧ (ev = None ∨ ev = Some EvDefaultWork)) ∨
   run now (mq_thread c) q = Ok (Some (q', ev, mq_thread c'))).
Proof.
  intros Hok Hrun. pose proof (thread_run_cases now c q) as Hc.
  assert (Hne : mc_main c ≠ AtNew) by (intros E; by rewrite E, Hrun in Hc).
  destruct (mc_wake c) as [|wake|] eqn:Ew.
  3: { apply loop_steps; [done..|]. rewrite <-Hrun. symmetry. by destruct (mc_main c). }
  all: assert (Hr : ∃ r, mq_thread_run now c q = Ok r ∧ ∀ q' ev c', r = Some (q', ev, c') →
    q' = q ∧ ev = None ∧ ∃ k, c' = with_wake k c) by (by destruct (mc_main c)).
  all: destruct Hr as (r & Er & Hr); rewrite Er in Hrun; injection Hrun as ->; destruct (Hr _ _ _ eq_refl) as (-> & -> & k & ->).
  all: split; [|left; split_and!; [done..|by left]]; destruct Hok as [Ht Hg Hk He Ha Hw Hn]; split; cbn; try done.
  all: intros _; apply Hw; by rewrite Ew.
Qed.

(** What counts comes from a call in the kernel. *)
Lemma run_through now th (q q' : Q) ev th' :
  run now th q = Ok (Some (q', ev, th')) → goes_through ev → in_call th = true.
Proof. intros Hrun Hev. run_cases th Hrun; by simplify_eq/=. Qed.

(** Undefined behaviour: [work()] with [m_mqd] not yet initialised, or a count
    not yet initialised that goes up. *)
Lemma thread_faults now c (q : Q) f :
  mq_child_ok c → mq_thread_run now c q = Fault f →
  f = Uninitialised ∧ mc_wake c = Awake ∧
  (mc_main c = AtGuard ∧ t_pc (mc_thread c) = Calling ∨ mc_main c = AtCount ∧ in_call (mc_thread c) = true).
Proof.
  intros [_ [Hg _] _ He Ha _ _] Hrun. pose proof (λ f, run_good now (mc_thread c) q f Hg) as Hno.
  pose proof (thread_run_cases now c q) as Hc. rewrite Hrun in Hc.
  assert (mc_main c ≠ AtNew ∧ mc_wake c = Awake) as [Hne Ew].
  { destruct (mc_main c), (mc_wake c) as [|wake|]; try done; by destruct Hc as (? & ? & _). }
  assert (Hl : mq_loop now c q = Fault f) by (rewrite Ew in Hc; by destruct (mc_main c)). clear Hrun Hc.
  unfold mq_loop in Hl. destruct (run now (mc_thread c) q) as [[[[q1 ev1] th1]|]|f'] eqn:E; [| |by destruct (Hno f')]; clear Hno.
  - assert (Hm : mc_main c = AtGuard ∧ t_pc (mc_thread c) = Calling ∧ f = Uninitialised ∨
      mc_main c = AtCount ∧ f = Uninitialised ∧ goes_through ev1).
    { destruct (mc_main c), (t_pc (mc_thread c)); try done; simpl_bind in Hl; try done; try (left; by simplify_eq);
        right; destruct ev1 as [[]|]; try done; by simplify_eq. }
    destruct Hm as [(Em & Ep & ->)|(Em & -> & Hev)]; (split_and!; [done..|]); [by left|right; split; [done|]].
    by eapply run_through.
  - destruct (mc_main c), (t_pc (mc_thread c)) eqn:Ep; cbn in Hl; try done;
      injection Hl as <-; split_and!; try done; by left.
Qed.

(** ** Executions *)
Definition mq_life_ok (s : mq_life Q) : Prop := Forall mq_child_ok (ml_children s).

(** To the queue, the step of a process is a step of its thread or none. *)
Lemma mq_life_step_projects s o s' :
  mq_life_ok s → mq_life_step s o s' →
  mq_life_ok s' ∧ ∃ tr, exec mq_step (life_system s) tr (life_system s') ∧ on_queue tr = on_queue (option_list o).
Proof.
  intros Hok Hst. destruct Hst as [now q cs i c c' Hi Hm|now q cs i c q' ev c' Hi Hrun|now now' q cs Hts].
  3: { split; [done|]. exists (option_list None). split; [|done]. by apply exec_one, step_tick. }
  all: pose proof (Forall_lookup_1 _ _ _ _ Hok Hi) as Hc.
  all: assert (Ei : (mq_thread <$> cs) !! i = Some (mq_thread c)) by (by rewrite list_lookup_fmap, Hi).
  all: unfold life_system; cbn [ml_now ml_mq ml_children]; rewrite list_fmap_insert.
  - split; [apply Forall_insert; [done|by eapply main_ok]|]. exists (option_list None). split; [|done].
    destruct (main_projects now c c' Hc Hm) as [->|[Hd|[E E']]].
    + rewrite list_insert_id by done. constructor.
    + apply exec_one. by eapply step_delete.
    + assert (Hrun : run now (mq_thread c) q = Ok (Some (q, None, mq_thread c'))) by by rewrite E, E'.
      exact (exec_one _ _ None _ (step_run i (System now q (mq_thread <$> cs)) _ _ None _ Ei Hrun)).
  - destruct (thread_steps now c q q' ev c' Hc Hrun) as [Hc' Hcase]. split; [by apply Forall_insert|].
    destruct Hcase as [(-> & -> & Hev)|Hrun'].
    + rewrite list_insert_id by done. exists []. split; [constructor|]. by destruct Hev as [-> | ->].
    + exists (option_list (tagged i ev)). split; [|done]. apply exec_one. by eapply step_run.
Qed.

Lemma mq_life_exec_projects s tr s' :
  mq_life_ok s → exec mq_life_step s tr s' →
  mq_life_ok s' ∧ ∃ tr', exec mq_step (life_system s) tr' (life_system s') ∧ on_queue tr' = on_queue tr.
Proof.
  intros Hok Hex. induction Hex as [s|s tr s1 o s2 Hex IH Hst]; [split; [done|]; exists []; by split; [constructor|]|].
  destruct (IH Hok) as (Hok1 & tr1 & Hx1 & E1). destruct (mq_life_step_projects s1 o s2 Hok1 Hst) as (Hok2 & tr2 & Hx2 & E2).
  split; [done|]. exists (tr1 ++ tr2). split; [by eapply exec_trans|]. by rewrite !on_queue_app, E1, E2.
Qed.

Lemma mq_life_start_ok now (q : Q) ws :
  Forall worker_good ws.*1 → mq_life_ok (mq_life_start now q ws) ∧ life_system (mq_life_start now q ws) = initial now q ws.*1.
Proof.
  intros Hws. split.
  - unfold mq_life_ok, mq_life_start. cbn [ml_children]. apply Forall_fmap. rewrite Forall_fmap in Hws.
    eapply Forall_impl; [exact Hws|]. intros [w secs]. apply mq_child_start_ok.
  - unfold life_system, mq_life_start, initial. cbn [ml_now ml_mq ml_children]. f_equal. rewrite <-!list_fmap_compose.
    apply list_fmap_ext. by intros i [w secs] _.
Qed.

(** ** The end of every process *)
Section End.
Context (contents : Q → list WorkItem) (maxmsg : nat).
Context {laws : MqLaws Q WorkItem contents SEND_PRIORITY maxmsg}.

(** What a process has left to do. *)
Definition main_left (m : main_pc) : nat :=
  match m with
  | AtNew => 8 | AtEnter => 7 | AtGuard => 6 | AtOpen => 5 | AtCount => 4 | AtSleep => 3 | AsleepTill _ => 2
  | AtDelete => 1 | AtExit => 0
  end.
Definition life_left (l : life) (r : bool) : nat :=
  match l with Alive => 3 | Closed => 2 | Reduced => if r then 1 else 0 | Deleted => 0 end.
Definition wake_left (k : wake_pc) : nat := match k with JustStarted => 2 | SleepingTill _ => 1 | Awake => 0 end.
Definition child_left (c : mq_process) : nat :=
  10 * (main_left (mc_main c) + life_left (t_life (mc_thread c)) (t_run (mc_thread c))) + wake_left (mc_wake c) + actions_left (t_pc (mc_thread c)).

Lemma main_weighs now c c' : mq_main now c = Some c' → (child_left c' < child_left c)%nat.
Proof.
  unfold mq_main, child_left. destruct c as [b secs m k [r w l pc]].
  cbn [mc_built mc_seconds mc_main mc_wake mc_thread t_run t_worker t_life t_pc].
  destruct m as [| | | | | |ts| |]; try (intros [= <-]; cbn; lia).
  - destruct (ts_le ts now); [|done]. intros [= <-]. cbn. lia.
  - destruct (delete_step _) as [th'|] eqn:Ed; [|done]. intros [= <-].
    destruct l, r, pc; cbn in Ed; simplify_eq/=; lia.
Qed.

(** The thread of an object that was stopped. *)
Lemma stopped_thread_acts now c (q : Q) :
  mq_child_ok c → mc_main c = AtDelete → t_life (mc_thread c) = Reduced → t_run (mc_thread c) = false →
  t_pc (mc_thread c) ≠ Exited → ts_le (deadline (mc_thread c)) now = true →
  (∀ wake, mc_wake c = SleepingTill wake → ts_le wake now = true) →
  ∃ q' ev c', mq_thread_run now c q = Ok (Some (q', ev, c')) ∧ (child_left c' < child_left c)%nat.
Proof.
  intros Hok Em El Er Hpc Hd Hw. pose proof (mo_thread c Hok) as [_ Hk]. destruct c as [b secs m k [r w l pc]]. cbn in *. subst m l r.
  unfold mq_thread_run. cbn [mc_main mc_wake]. destruct k as [|wake|].
  - eexists _, _, _. split; [done|]. unfold child_left. cbn. lia.
  - rewrite (Hw wake eq_refl). eexists _, _, _. split; [done|]. unfold child_left. cbn. lia.
  - destruct (stopped_acts contents maxmsg now w pc q Hk Hd Hpc) as (q' & ev & w' & pc' & E & Hlt & _).
    exists q', ev, (MqChild b secs AtDelete Awake (Thread false w' Reduced pc')). split.
    + unfold mq_loop. cbn [mc_main mc_thread t_pc]. rewrite E. by destruct pc.
    + unfold child_left. cbn. lia.
Qed.

(** A process that is not at its end can always go on, after a while. *)
Lemma child_goes_on s i c :
  mq_life_ok s → ml_children s !! i = Some c → mc_main c ≠ AtExit →
  ∃ t q' tr c', exec mq_life_step s tr (MqLive t q' (<[i := c']> (ml_children s))) ∧ (child_left c' < child_left c)%nat.
Proof.
  intros Hok Hi Hne. destruct s as [now q cs]. cbn [ml_children] in *. pose proof (Forall_lookup_1 _ _ _ _ Hok Hi) as Hc.
  set (until := match mc_main c, mc_wake c with
    | AsleepTill ts, _ => ts | AtDelete, SleepingTill wake => wake | _, _ => now end).
  destruct (clock_reaches now (deadline (mc_thread c))) as (t1 & Ht1 & Hd1), (clock_reaches t1 until) as (t & Ht2 & Hu).
  pose proof (ts_le_trans _ _ _ Ht1 Ht2) as Ht. pose proof (ts_le_trans _ _ _ Hd1 Ht2) as Hd.
  assert (Htick : exec mq_life_step (MqLive now q cs) [] (MqLive t q cs)) by (apply (exec_one _ _ None); by apply mq_life_clock).
  assert (Hmain : (∃ c', mq_main t c = Some c') → ∃ t q' tr c',
    exec mq_life_step (MqLive now q cs) tr (MqLive t q' (<[i := c']> cs)) ∧ (child_left c' < child_left c)%nat).
  { intros [c' E]. exists t, q. eexists _, c'. split; [|by eapply main_weighs].
    eapply exec_trans; [exact Htick|]. by eapply exec_one, mq_life_main. }
  destruct (mc_main c) eqn:Em; unfold mq_main in Hmain; rewrite Em in Hmain; try done; try (apply Hmain; by eexists).
  { apply Hmain. unfold until in Hu. cbn in Hu. rewrite Hu. by eexists. }
  destruct (delete_step (mc_thread c)) as [th'|] eqn:Ed; [apply Hmain; by eexists|].
  assert (t_life (mc_thread c) = Reduced ∧ t_run (mc_thread c) = false ∧ t_pc (mc_thread c) ≠ Exited) as (El & Er & Hpc).
  { pose proof (mo_alive c Hc) as Ha. rewrite Em in Ha. destruct (mc_thread c) as [r w [] []]; cbn in *; by destruct r. }
  destruct (stopped_thread_acts t c q Hc Em El Er Hpc Hd) as (q' & ev & c' & E & Hlt).
  { intros wake Ew. unfold until in Hu. by rewrite Ew in Hu. }
  exists t, q'. eexists _, c'. split; [|done]. eapply exec_trans; [exact Htick|]. by eapply exec_one, mq_life_thread.
Qed.

Lemma mq_children_can_end s :
  mq_life_ok s → ∃ tr s', exec mq_life_step s tr s' ∧ mq_life_ok s' ∧ Forall (λ c, mc_main c = AtExit) (ml_children s').
Proof.
  remember (sum_list_with child_left (ml_children s)) as n eqn:En. revert s En.
  induction (Nat.lt_wf_0 n) as [n _ IH]. intros s -> Hok.
  destruct (decide (Exists (λ c, mc_main c ≠ AtExit) (ml_children s))) as [Hex|Hno].
  2: { exists [], s. split; [constructor|]. split; [done|]. apply Forall_lookup. intros i c Hi.
    destruct (decide (mc_main c = AtExit)) as [?|Hne]; [done|]. exfalso. apply Hno, Exists_exists. exists c. split; [|done].
    by eapply list_elem_of_lookup_2. }
  apply Exists_exists in Hex as (c & Hin & Hne). apply list_elem_of_lookup in Hin as [i Hi].
  destruct (child_goes_on s i c Hok Hi Hne) as (t & q' & tr & c' & Hx & Hlt).
  pose proof (sum_insert child_left _ i c c' Hi) as Hsum.
  destruct (mq_life_exec_projects _ _ _ Hok Hx) as [Hok' _].
  destruct (IH (sum_list_with child_left (<[i := c']> (ml_children s))) ltac:(lia) (MqLive t q' (<[i := c']> (ml_children s))) eq_refl Hok')
    as (tr' & s' & Hx' & Hok'' & Hend).
  exists (tr ++ tr'), s'. split_and!; [by eapply exec_trans|done..].
Qed.
End End.
End Threads.
