(* ===== verification/MqChildProps.v ===== *)
(** * Properties of the processes on a message queue (Chapter14/MessageQueue)

    What processes that are constructed, work, and are deleted at any moments do
    to the queue, what goes wrong while they are constructed, and that they can
    end, with witnesses. *)
From S2P Require Import Prelude Semaphore Items MessageQueue MqLife MqChildren MqChildInv MqProps.

Section Children.
Context {Q : Type} `{MqOps Q WorkItem}.

(** C19. Any number of processes on one message queue, empty at first, each constructing a
    worker, sleeping and deleting it while the worker's thread runs, in any
    interleaving and however long a constructor takes: what they do to the queue
    is what the threads of workers that were there from the start can do, the
    prints of the base class's [work()] aside; so the items sent are, in order,
    those received and those waiting, never more than the queue holds; and a
    process past its [delete] has a thread that has exited. *)
Theorem mq_children_work_as_threads (contents : Q → list WorkItem) (maxmsg : nat)
    `{!MqLaws Q WorkItem contents SEND_PRIORITY maxmsg} now q ws tr s :
  Forall worker_good ws.*1 → contents q = [] → exec mq_life_step (mq_life_start now q ws) tr s →
  (∃ tr', exec mq_step (initial now q ws.*1) tr' (life_system s) ∧ on_queue tr' = on_queue tr) ∧
  (sent tr = received tr ++ contents (ml_mq s) ∧ (length (contents (ml_mq s)) ≤ maxmsg)%nat) ∧
  Forall (λ c, mc_main c = AtExit → t_pc (mc_thread c) = Exited) (ml_children s).
Proof.
  intros Hws Hq Hex. destruct (mq_life_start_ok now q ws Hws) as [Hok E].
  destruct (mq_life_exec_projects _ _ _ Hok Hex) as (Hok' & tr' & Hx & Etr). rewrite E in Hx.
  split; [by exists tr'|]. split.
  - destruct (fifo_exec contents maxmsg q (initial now q ws.*1) tr' _ eq_refl ltac:(rewrite Hq; simpl; lia) Hx) as [Hf Hl].
    destruct (on_queue_books tr tr' Etr) as (Es & Er & _). by rewrite Hq, Es, Er in Hf.
  - eapply Forall_impl; [exact Hok'|]. intros c Hc. by apply exited_at_end.
Qed.

(** C39. Undefined behaviour of a thread of theirs has one of two causes, both in
    the constructor and only once it takes more than the two seconds the thread
    sleeps: [work()] reads [m_mqd] before it is initialised, or counts before
    the count is. *)
Theorem mq_children_fault_in_constructors now q ws tr (s : mq_life Q) i c f :
  Forall worker_good ws.*1 → exec mq_life_step (mq_life_start now q ws) tr s →
  ml_children s !! i = Some c → mq_thread_run (ml_now s) c (ml_mq s) = Fault f →
  f = Uninitialised ∧ mc_wake c = Awake ∧
  (mc_main c = AtGuard ∧ t_pc (mc_thread c) = Calling ∨ mc_main c = AtCount ∧ in_call (mc_thread c) = true).
Proof.
  intros Hws Hex Hi. destruct (mq_life_start_ok now q ws Hws) as [Hok _].
  destruct (mq_life_exec_projects _ _ _ Hok Hex) as (Hok' & _). apply thread_faults. by eapply Forall_lookup_1.
Qed.

(** C15. From every state they reach they can all go on to the end of their
    [main], with their threads gone, whatever the queue holds: no join waits for
    ever. *)
Theorem mq_children_can_always_end (contents : Q → list WorkItem) (maxmsg : nat)
    `{!MqLaws Q WorkItem contents SEND_PRIORITY maxmsg} now q ws tr s :
  Forall worker_good ws.*1 → exec mq_life_step (mq_life_start now q ws) tr s →
  ∃ tr' s', exec mq_life_step s tr' s' ∧
    Forall (λ c, mc_main c = AtExit ∧ t_pc (mc_thread c) = Exited) (ml_children s').
Proof.
  intros Hws Hex. destruct (mq_life_start_ok now q ws Hws) as [Hok _].
  destruct (mq_life_exec_projects _ _ _ Hok Hex) as (Hok' & _).
  destruct (mq_children_can_end contents maxmsg s Hok') as (tr' & s' & Hx & Hok'' & Hend). exists tr', s'. split; [done|].
  apply Forall_lookup. intros i c Hi. pose proof (Forall_lookup_1 _ _ _ _ Hend Hi) as Em. split; [done|].
  by eapply exited_at_end; [eapply Forall_lookup_1|].
Qed.
End Children.

(** A producer for three seconds and a consumer for five, on a queue of ten. *)
#[local] Instance demo_queue : MqOps (list WorkItem) WorkItem := posix_mq 10 516.
Definition demo_children : list (worker * Z) := zip demo_workers [3; 5].
Definition demo_mq_life : mq_life (list WorkItem) := mq_life_start (Timespec 5 0) [] demo_children.
Definition demo_mq_turns : list mq_choice :=
  (MainTurn <$> [0; 0; 0; 0; 0; 0; 1; 1; 1; 1; 1; 1]%nat) ++ [ThreadTurn 0; ThreadTurn 1; ClockTurn (Timespec 7 0)] ++
  (ThreadTurn <$> [0; 1; 0; 0; 0; 0; 1; 1; 1; 1; 0; 0; 0; 0]%nat) ++ [ClockTurn (Timespec 8 0)] ++
  [MainTurn 0; MainTurn 0; MainTurn 0; ThreadTurn 0; ThreadTurn 0; MainTurn 0; ThreadTurn 0; MainTurn 0].
Definition demo_mq_lived (n : nat) : list label * mq_life (list WorkItem) := mq_life_run (take n demo_mq_turns) demo_mq_life.

Lemma demo_children_good : Forall worker_good demo_children.*1.
Proof. repeat constructor; cbn; done. Qed.

(** The producer has come to its end; of its two items one was received. *)
Lemma mq_children_work_as_threads_witness :
  (∃ tr', exec mq_step (initial (Timespec 5 0) [] demo_workers) tr' (life_system (demo_mq_lived 38).2) ∧
     on_queue tr' = on_queue (demo_mq_lived 38).1) ∧
  sent (demo_mq_lived 38).1 = received (demo_mq_lived 38).1 ++ ml_mq (demo_mq_lived 38).2 ∧
  id <$> sent (demo_mq_lived 38).1 = [2100000; 2100001] ∧ id <$> received (demo_mq_lived 38).1 = [2100000] ∧
  mc_main <$> ml_children (demo_mq_lived 38).2 = [AtExit; AsleepTill (Timespec 10 0)].
Proof.
  destruct (mq_children_work_as_threads (λ q : list WorkItem, q) 10 (Timespec 5 0) [] demo_children
    (demo_mq_lived 38).1 (demo_mq_lived 38).2 demo_children_good eq_refl (mq_life_run_exec _ _)) as (H1 & [H2 _] & _).
  split; [exact H1|]. split; [exact H2|]. split_and!; vm_compute; reflexivity.
Defined.

(** A constructor of three seconds: the thread reads [m_mqd] too early. *)
Definition demo_slow : list mq_choice :=
  [MainTurn 0; MainTurn 0; ThreadTurn 0; ClockTurn (Timespec 8 0); ThreadTurn 0; ThreadTurn 0]%nat.
Definition demo_slow_run : list label * mq_life (list WorkItem) := mq_life_run demo_slow demo_mq_life.

Definition demo_slow_child : mq_process := nth 0 (ml_children demo_slow_run.2) (mq_child_start (WConsumer (Consumer_ctor 0 0)) 0).

Lemma mq_children_fault_in_constructors_witness :
  mq_thread_run (ml_now demo_slow_run.2) demo_slow_child (ml_mq demo_slow_run.2) = Fault Uninitialised ∧
  (mc_main demo_slow_child = AtGuard ∧ t_pc (mc_thread demo_slow_child) = Calling ∨
   mc_main demo_slow_child = AtCount ∧ in_call (mc_thread demo_slow_child) = true).
Proof.
  assert (Ef : mq_thread_run (ml_now demo_slow_run.2) demo_slow_child (ml_mq demo_slow_run.2) = Fault Uninitialised)
    by (vm_compute; reflexivity).
  split; [exact Ef|].
  by destruct (mq_children_fault_in_constructors (Timespec 5 0) [] demo_children demo_slow_run.1 demo_slow_run.2 0 demo_slow_child
    Uninitialised demo_children_good (mq_life_run_exec _ _) ltac:(vm_compute; reflexivity) Ef) as (_ & _ & H).
Defined.

(** From the moment at which the producer's second item is on its way. *)
Lemma mq_children_can_always_end_witness :
  ∃ tr' s', exec mq_life_step (demo_mq_lived 28).2 tr' s' ∧
    Forall (λ c, mc_main c = AtExit ∧ t_pc (mc_thread c) = Exited) (ml_children s').
Proof.
  apply (mq_children_can_always_end (λ q : list WorkItem, q) 10 (Timespec 5 0) [] demo_children (demo_mq_lived 28).1).
  - apply demo_children_good.
  - apply mq_life_run_exec.
Defined.
