(* ===== verification/Scheduler.v ===== *)
(** * Scheduling of the worker threads (Schedule/ScheduledObject.cpp)

    [ScheduledObject::set_scheduler], of which Chapter12 and both halves of
    Chapter14 have the same text: the first thing a worker's thread does.  The
    system's answers are a record, its calls an action list. *)
From stdpp Require Import gmap.
From S2P Require Import Prelude.

(** ** Data *)
Inductive sched_policy := SCHED_OTHER | SCHED_RR.

#[export] Instance sched_policy_eq_dec : EqDecision sched_policy.
Proof. solve_decision. Defined.

Definition NO_CORE : Z := 255.
(** The processors of a [cpu_set_t]; [CPU_SET] ignores any other number. *)
Definition CPU_SETSIZE : Z := 1024.

Record sched_answers := MkSched {
  priority_min : sched_policy → Z;
  priority_max : sched_policy → Z;
  sched_uid : Z
}.

Inductive sched_action :=
  | SetSchedParam (policy : sched_policy) (priority : Z)   (* pthread_setschedparam *)
  | SayNotRoot
  | SetAffinity (cpus : gset Z).                           (* pthread_setaffinity_np *)

(** ** Operations *)
Definition CPU_SET (core : Z) (mask : gset Z) : gset Z :=
  if (0 <=? core) && (core <? CPU_SETSIZE) then {[core]} ∪ mask else mask.

(** [thread_priority] between the two bounds, in the code's order. *)
Definition clamp_priority (lo hi priority : Z) : Z :=
  let priority := if hi <? priority then hi else priority in
  if priority <? lo then lo else priority.

(** [set_scheduler()] of an object with these three members. *)
Definition set_scheduler (a : sched_answers) (m_thread_priority : Z) (m_thread_policy : sched_policy)
    (m_which_core : Z) : list sched_action :=
  let priority := clamp_priority (priority_min a m_thread_policy) (priority_max a m_thread_policy)
                    m_thread_priority in
  (if bool_decide (m_thread_policy = SCHED_OTHER) then [SetSchedParam SCHED_OTHER priority]
   else if negb (sched_uid a =? 0) then [SayNotRoot]
   else [SetSchedParam m_thread_policy priority])
  ++ (if m_which_core =? NO_CORE then [] else [SetAffinity (CPU_SET m_which_core ∅)]).

(** ** Proofs *)
Lemma clamp_range lo hi p : lo ≤ hi → lo ≤ clamp_priority lo hi p ≤ hi ∧ (lo ≤ p ≤ hi → clamp_priority lo hi p = p).
Proof.
  intros H. unfold clamp_priority. destruct (Z.ltb_spec hi p); [destruct (Z.ltb_spec hi lo)|destruct (Z.ltb_spec p lo)]; lia.
Qed.

Lemma clamp_above lo hi p : lo ≤ hi → hi ≤ p → clamp_priority lo hi p = hi.
Proof.
  intros H Hp. unfold clamp_priority. destruct (Z.ltb_spec hi p); [destruct (Z.ltb_spec hi lo)|destruct (Z.ltb_spec p lo)]; lia.
Qed.

(** Every priority set is one the policy has, and only root sets a real-time
    one. *)
Lemma set_scheduler_legal a prio policy core policy' p :
  priority_min a policy ≤ priority_max a policy →
  SetSchedParam policy' p ∈ set_scheduler a prio policy core →
  policy' = policy ∧ priority_min a policy ≤ p ≤ priority_max a policy ∧
  (policy ≠ SCHED_OTHER → sched_uid a = 0).
Proof.
  intros Hr Hin. unfold set_scheduler in Hin. apply elem_of_app in Hin as [Hin|Hin].
  - case_bool_decide as E.
    + apply list_elem_of_singleton in Hin as [= -> ->]. subst. split; [done|]. split; [by apply clamp_range|done].
    + destruct (Z.eqb_spec (sched_uid a) 0) as [Hu|]; cbn in Hin.
      * apply list_elem_of_singleton in Hin as [= -> ->]. split; [done|]. split; [by apply clamp_range|done].
      * by apply list_elem_of_singleton in Hin.
  - destruct (core =? NO_CORE); [by apply not_elem_of_nil in Hin|]. by apply list_elem_of_singleton in Hin.
Qed.

(** A worker made for [core] runs on that core only. *)
Lemma set_scheduler_affinity a prio policy core cpus :
  0 ≤ core < CPU_SETSIZE →
  SetAffinity cpus ∈ set_scheduler a prio policy core ↔ core ≠ NO_CORE ∧ cpus = {[core]}.
Proof.
  intros Hc. unfold set_scheduler, CPU_SET. rewrite (proj2 (Z.leb_le _ _)), (proj2 (Z.ltb_lt _ _)) by lia.
  rewrite elem_of_app. cbn [andb]. rewrite (right_id_L ∅ (∪)). split.
  - intros [H|H].
    + case_bool_decide; [by apply list_elem_of_singleton in H|].
      destruct (negb _); by apply list_elem_of_singleton in H.
    + destruct (Z.eqb_spec core NO_CORE); [by apply not_elem_of_nil in H|].
      by apply list_elem_of_singleton in H as [= ->].
  - intros [Hn ->]. right. rewrite (proj2 (Z.eqb_neq _ _)) by done. by apply list_elem_of_singleton.
Qed.
