(* ===== verification/Getopt.v ===== *)
(** * Command lines

    [getopt] and [atoi] of the C library, as far as the programs use them, and
    the loop over the options that the main programs of Chapter14 repeat.  A command
    line is a list of C strings. *)
From S2P Require Import Prelude Digits.

(** ** [getopt] *)

(** Whether the option [c] is known, and whether it takes an argument (a colon
    follows it). *)
Fixpoint find_option (optstring : list Z) (c : Z) : option bool :=
  match optstring with
  | [] => None
  | d :: rest =>
      if (d =? c) && negb (c =? 58) then Some (bool_decide (head rest = Some 58)) else find_option rest c
  end.

(** The answers for one word of options: each option with its argument, '?'
    (63) for an unknown one; and the option whose argument is the next word. *)
Fixpoint option_word (optstring : list Z) (cs : list Z) : list (Z * list Z) * option Z :=
  match cs with
  | [] => ([], None)
  | c :: cs' =>
      match find_option optstring c with
      | Some true => match cs' with [] => ([], Some c) | _ => ([(c, cs')], None) end
      | Some false => let '(l, p) := option_word optstring cs' in ((c, []) :: l, p)
      | None => let '(l, p) := option_word optstring cs' in ((63, []) :: l, p)
      end
  end.

(** What successive calls return, up to the one that returns -1; words that
    are no options are passed over, and "--" ends the options. *)
Fixpoint getopt (optstring : list Z) (words : list (list Z)) : list (Z * list Z) :=
  match words with
  | [] => []
  | w :: words' =>
      match w with
      | dash :: c :: cs =>
          if dash =? 45 then
            if (c =? 45) && bool_decide (cs = []) then [] else
            let '(l, pending) := option_word optstring (c :: cs) in
            match pending with
            | None => l ++ getopt optstring words'
            | Some o => match words' with
                        | [] => l ++ [(63, [])]
                        | arg :: words'' => l ++ (o, arg) :: getopt optstring words''
                        end
            end
          else getopt optstring words'
      | _ => getopt optstring words'
      end
  end.

(** ** [atoi] *)
Definition is_space (c : Z) : bool := (c =? 32) || ((9 <=? c) && (c <=? 13)).
Definition is_digit (c : Z) : bool := (48 <=? c) && (c <=? 57).

Fixpoint skip_spaces (s : list Z) : list Z :=
  match s with c :: s' => if is_space c then skip_spaces s' else s | [] => [] end.

Fixpoint digits_value (s : list Z) (acc : Z) : Z :=
  match s with c :: s' => if is_digit c then digits_value s' (10 * acc + (c - 48)) else acc | [] => acc end.

(** A number that is no [int] is undefined behaviour. *)
Definition c_atoi (s : list Z) : outcome Z :=
  match skip_spaces s with
  | c :: s' =>
      if c =? 45 then int_of (- digits_value s' 0)
      else if c =? 43 then int_of (digits_value s' 0) else int_of (digits_value (c :: s') 0)
  | [] => Ok 0
  end.

(** ** The options of Chapter14 *)

(** "hc:n:t:" *)
Definition optoptions : list Z := [104; 99; 58; 110; 58; 116; 58].

Record sim_settings := MkSettings { st_id : Z; st_core : Z; st_seconds : Z }.
Definition default_sim_settings : sim_settings := MkSettings 0 0 10.

(** The loop over the options; [None] when the program prints its help and
    exits. *)
Fixpoint read_sim_options (opts : list (Z * list Z)) (s : sim_settings) : outcome (option sim_settings) :=
  match opts with
  | [] => Ok (Some s)
  | (opt, optarg) :: opts' =>
      if opt =? 104 then Ok None
      else if opt =? 99 then v ← c_atoi optarg; read_sim_options opts' (MkSettings (st_id s) v (st_seconds s))
      else if opt =? 110 then v ← c_atoi optarg; read_sim_options opts' (MkSettings v (st_core s) (st_seconds s))
      else if opt =? 116 then v ← c_atoi optarg; read_sim_options opts' (MkSettings (st_id s) (st_core s) v)
      else read_sim_options opts' s
  end.

(** The settings of a program called with [argv]. *)
Definition sim_command_line (argv : list (list Z)) : outcome (option sim_settings) :=
  read_sim_options (getopt optoptions (tail argv)) default_sim_settings.

(** ** Proofs *)
Lemma digits_value_app ds acc :
  Forall (λ d, 0 ≤ d < 10) ds →
  digits_value ((λ d, d + 48) <$> ds) acc = foldl (λ a d, 10 * a + d) acc ds.
Proof.
  intros Hd. revert acc. induction Hd as [|d ds H _ IH]; intros acc; [done|]. cbn [fmap list_fmap digits_value foldl].
  unfold is_digit. rewrite (proj2 (Z.leb_le _ _)), (proj2 (Z.leb_le _ _)) by lia. cbn [andb].
  rewrite IH. f_equal. lia.
Qed.

Lemma skip_spaces_digit c s : 48 ≤ c → skip_spaces (c :: s) = c :: s.
Proof.
  intros Hc. cbn [skip_spaces]. unfold is_space.
  rewrite (proj2 (Z.eqb_neq c 32)), (proj2 (Z.leb_gt c 13)) by lia. by rewrite andb_false_r.
Qed.

(** What [%d] prints is read back. *)
Lemma c_atoi_print_d n : 0 ≤ n < 4294967296 → c_atoi (print_d n) = int_of n.
Proof.
  intros Hn. pose proof (digits_range 10 n ltac:(lia) ltac:(lia)) as Hr. unfold print_d, c_atoi.
  rewrite (proj2 (Z.ltb_ge n 0)) by lia. pose proof (digits_nonempty 10 n) as Hne.
  pose proof (digits_value_app (digits 10 n) 0 Hr) as Ev. rewrite (Digits.digits_value 10 n) in Ev by (done || lia).
  destruct (digits 10 n) as [|d ds]; [simpl in Hne; lia|]. apply Forall_cons in Hr as [Hd _].
  cbn [fmap list_fmap] in *. rewrite skip_spaces_digit by lia.
  by rewrite (proj2 (Z.eqb_neq _ 45)), (proj2 (Z.eqb_neq _ 43)), Ev by lia.
Qed.

Lemma c_atoi_print_d_ok n : 0 ≤ n ≤ INT_MAX → c_atoi (print_d n) = Ok n.
Proof. intros Hn. rewrite c_atoi_print_d; [apply int_of_ok|]; unfold INT_MIN, INT_MAX in *; lia. Qed.

(** An option with its argument in the next word. *)
Lemma getopt_argument optstring c arg words :
  c ≠ 45 → find_option optstring c = Some true →
  getopt optstring ([45; c] :: arg :: words) = (c, arg) :: getopt optstring words.
Proof. intros Hc Hf. cbn [getopt]. rewrite (proj2 (Z.eqb_neq c 45) Hc). cbn. by rewrite Hf. Qed.

(** The command line [prog -c core -n id -t time]. *)
Definition child_argv (prog core idt time : list Z) : list (list Z) :=
  [prog; [45; 99]; core; [45; 110]; idt; [45; 116]; time].

Lemma child_command_line prog core idt time :
  sim_command_line (child_argv prog core idt time) =
  (c ← c_atoi core; i ← c_atoi idt; t ← c_atoi time; Ok (Some (MkSettings i c t))).
Proof.
  unfold sim_command_line, child_argv. cbn [tail]. rewrite !getopt_argument by done.
  cbn [getopt read_sim_options Z.eqb Pos.eqb st_id st_core st_seconds default_sim_settings].
  destruct (c_atoi core); [|done]. simpl_bind. destruct (c_atoi idt); [|done]. simpl_bind.
  by destruct (c_atoi time).
Qed.
