(* ===== verification/SimMain.v ===== *)
(** * Chapter 12: the simulation's main program

    [main] of Chapter12/Sim/ProducerConsumerSim.cpp: the options, a queue per
    core, the producers and consumers that share it, and their deletion at the
    end.  The command line and the answer of [sysconf] are arguments. *)
From S2P Require Import Prelude Digits Scheduler Getopt.

(** ** Data *)
Definition MAX_SYSTEM_CORES : nat := 32.
Definition MAX_PRIORITY : Z := 1000.

(** What a [Producer] or a [Consumer] is made from. *)
Record spawn := MkSpawn {
  sp_queue : Z;          (* the id of its queue *)
  sp_id : Z;
  sp_priority : Z;
  sp_policy : sched_policy;
  sp_core : Z
}.

(** Uninitialised elements of [policy_arr], [queue_arr] and of the arrays from
    [new] are [None]; a queue is its id. *)
Record sim := MkSim {
  policy_arr : list (option sched_policy);
  queue_arr : list (option Z);
  producer_arr : list (option spawn);
  consumer_arr : list (option spawn);
  cur_producer_id : Z;
  cur_consumer_id : Z
}.

(** The variables the options set. *)
Record settings := MkSettings {
  run_seconds : Z;
  producers_per_core : Z;
  consumers_per_core : Z;
  queue_size : Z
}.
Definition default_settings : settings := MkSettings 10 1 1 100.

(** "ht:p:c:s:" *)
Definition optoptions : list Z := [104; 116; 58; 112; 58; 99; 58; 115; 58].

(** The loop over what [getopt] returns; [None] when main returns at once. *)
Fixpoint read_options (opts : list (Z * list Z)) (c : settings) : outcome (option settings) :=
  match opts with
  | [] => Ok (Some c)
  | (opt, optarg) :: opts' =>
      if opt =? 104 then Ok None
      else if opt =? 116 then
        n ← c_atoi optarg;
        read_options opts' (MkSettings n (producers_per_core c) (consumers_per_core c) (queue_size c))
      else if opt =? 112 then
        n ← c_atoi optarg;
        read_options opts' (MkSettings (run_seconds c) n (consumers_per_core c) (queue_size c))
      else if opt =? 99 then
        n ← c_atoi optarg;
        read_options opts' (MkSettings (run_seconds c) (producers_per_core c) n (queue_size c))
      else if opt =? 115 then
        n ← c_atoi optarg;
        read_options opts' (MkSettings (run_seconds c) (producers_per_core c) (consumers_per_core c) n)
      else read_options opts' c
  end.

(** The settings of the program called with [argv]. *)
Definition command_line (argv : list (list Z)) : outcome (option settings) :=
  read_options (getopt optoptions (tail argv)) default_settings.

Definition read_init {A} (arr : list (option A)) (i : Z) : outcome A :=
  p ← array_read arr i;
  match p with Some x => Ok x | None => Fault Uninitialised end.

(** ** The loops *)

(** The queues and policies, [n] iterations from core [i]. *)
Fixpoint make_queues (n : nat) (i : Z) (pol : list (option sched_policy)) (qs : list (option Z))
    : outcome (list (option sched_policy) * list (option Z)) :=
  match n with
  | O => Ok (pol, qs)
  | S n' =>
      pol' ← array_write pol i (Some SCHED_OTHER);
      qs' ← array_write qs i (Some i);
      make_queues n' (i + 1) pol' qs'
  end.

(** The consumers, or the producers, of one core: [n] more, numbered from
    [cur_id]. *)
Fixpoint spawn_on_core (n : nat) (queue : Z) (pol : sched_policy) (core cur_id : Z)
    (arr : list (option spawn)) : outcome (list (option spawn) * Z) :=
  match n with
  | O => Ok (arr, cur_id)
  | S n' =>
      arr' ← array_write arr cur_id (Some (MkSpawn queue cur_id MAX_PRIORITY pol core));
      next ← int_add cur_id 1;
      spawn_on_core n' queue pol core next arr'
  end.

(** [queue_arr[cur_core]] and [policy_arr[cur_core]] are read by the inner
    loops only. *)
Definition spawn_group (n : nat) (core : Z) (pol : list (option sched_policy)) (qs : list (option Z))
    (cur_id : Z) (arr : list (option spawn)) : outcome (list (option spawn) * Z) :=
  match n with
  | O => Ok (arr, cur_id)
  | _ => q ← read_init qs core; p ← read_init pol core; spawn_on_core n q p core cur_id arr
  end.

Fixpoint spawn_all (n : nat) (core : Z) (cpc ppc : nat) (pol : list (option sched_policy))
    (qs : list (option Z)) (consumers : list (option spawn)) (cur_consumer_id : Z)
    (producers : list (option spawn)) (cur_producer_id : Z)
    : outcome (list (option spawn) * Z * list (option spawn) * Z) :=
  match n with
  | O => Ok (consumers, cur_consumer_id, producers, cur_producer_id)
  | S n' =>
      '(cs, cid) ← spawn_group cpc core pol qs cur_consumer_id consumers;
      '(ps, pid) ← spawn_group ppc core pol qs cur_producer_id producers;
      spawn_all n' (core + 1) cpc ppc pol qs cs cid ps pid
  end.

(** [new T*[n]]: an exception for a negative [n]; here a fault. *)
Definition new_array (n : Z) : outcome (list (option spawn)) :=
  if n <? 0 then Fault OutOfBounds else Ok (replicate (Z.to_nat n) None).

(** [main] from the end of the options to [sleep(run_seconds)]. *)
Definition set_up (num_cores producers_per_core consumers_per_core : Z) : outcome sim :=
  '(pol, qs) ← make_queues (Z.to_nat num_cores) 0 (replicate MAX_SYSTEM_CORES None)
                 (replicate MAX_SYSTEM_CORES None);
  pol' ← array_write pol 0 (Some SCHED_RR);
  np ← int_mul num_cores producers_per_core;
  producers ← new_array np;
  nc ← int_mul num_cores consumers_per_core;
  consumers ← new_array nc;
  '(cs, cid, ps, pid) ← spawn_all (Z.to_nat num_cores) 0 (Z.to_nat consumers_per_core)
                (Z.to_nat producers_per_core) pol' qs consumers 0 producers 0;
  Ok (MkSim pol' qs ps cs pid cid).

(** ** The end of the program *)

(** The loop [for(int i = 0; i < n; ++i) delete arr[i];], from [i] on with [n]
    iterations left: what it deletes, in order. *)
Fixpoint delete_elements {A} (n : nat) (i : Z) (arr : list (option A)) : outcome (list A) :=
  match n with
  | O => Ok []
  | S n' => x ← read_init arr i; rest ← delete_elements n' (i + 1) arr; Ok (x :: rest)
  end.

(** What an array was allocated by; [delete[]] and [delete] of it. *)
Inductive allocation := ByNew | ByNewArray.
Definition delete_array (a : allocation) : outcome unit :=
  match a with ByNewArray => Ok tt | ByNew => Fault MismatchedDelete end.
Definition delete_object (a : allocation) : outcome unit :=
  match a with ByNew => Ok tt | ByNewArray => Fault MismatchedDelete end.

(** After the sleep: the producers and consumers deleted, and the queues. *)
Definition tear_down (num_cores : Z) (s : sim) : outcome (list spawn * list spawn * list Z) :=
  ps ← delete_elements (Z.to_nat (cur_producer_id s)) 0 (producer_arr s);
  _ ← delete_array ByNewArray;
  cs ← delete_elements (Z.to_nat (cur_consumer_id s)) 0 (consumer_arr s);
  _ ← delete_object ByNewArray;
  qs ← delete_elements (Z.to_nat num_cores) 0 (queue_arr s);
  Ok (ps, cs, qs).

(** [main]: [None] when it only prints its help. *)
Definition main (num_cores : Z) (argv : list (list Z))
    : outcome (option (sim * (list spawn * list spawn * list Z))) :=
  o ← command_line argv;
  match o with
  | None => Ok None
  | Some c =>
      s ← set_up num_cores (producers_per_core c) (consumers_per_core c);
      deleted ← tear_down num_cores s;
      Ok (Some (s, deleted))
  end.

(** ** Specification *)

(** Worker [k] of a kind with [per] on each core. *)
Definition placed (per : nat) (k : nat) : spawn :=
  MkSpawn (Z.of_nat (k / per)) (Z.of_nat k) MAX_PRIORITY
    (if decide (k < per)%nat then SCHED_RR else SCHED_OTHER) (Z.of_nat (k / per)).

(** The ids of the workers that share a queue. *)
Definition users (queue : Z) (arr : list (option spawn)) : list Z :=
  omap (λ o, match o with
             | Some s => if sp_queue s =? queue then Some (sp_id s) else None
             | None => None
             end) arr.

(** The settings as a command line: [prog -t n -p n -c n -s n]. *)
Definition command_of (prog : list Z) (c : settings) : list (list Z) :=
  [prog; [45; 116]; print_d (run_seconds c); [45; 112]; print_d (producers_per_core c);
   [45; 99]; print_d (consumers_per_core c); [45; 115]; print_d (queue_size c)].

(** ** Proofs *)

(** The program reads the settings it is given. *)
Lemma command_line_of prog c :
  0 ≤ run_seconds c ≤ INT_MAX → 0 ≤ producers_per_core c ≤ INT_MAX →
  0 ≤ consumers_per_core c ≤ INT_MAX → 0 ≤ queue_size c ≤ INT_MAX →
  command_line (command_of prog c) = Ok (Some c).
Proof.
  intros Ht Hp Hc Hs. unfold command_line, command_of. cbn [tail]. rewrite !getopt_argument by done.
  cbn [getopt read_options Z.eqb Pos.eqb]. rewrite !c_atoi_print_d_ok by done. by destruct c.
Qed.

Definition core_policy (core : nat) : option sched_policy :=
  Some (if decide (core = 0)%nat then SCHED_RR else SCHED_OTHER).

Lemma make_queues_ok n i m f1 f2 pol qs :
  (i + n = m)%nat →
  progress f1 (λ _, Some SCHED_OTHER) i m pol → progress f2 (λ k, Some (Z.of_nat k)) i m qs →
  ∃ pol' qs', make_queues n (Z.of_nat i) pol qs = Ok (pol', qs') ∧
    progress f1 (λ _, Some SCHED_OTHER) m m pol' ∧ progress f2 (λ k, Some (Z.of_nat k)) m m qs' ∧
    length pol' = length pol.
Proof.
  revert i pol qs. induction n as [|n IH]; intros i pol qs Em H1 H2; cbn [make_queues].
  - rewrite Nat.add_0_r in Em. subst m. by exists pol, qs.
  - pose proof (progress_write_at _ _ _ _ _ H1 ltac:(lia)) as E1. cbn beta in E1. rewrite E1.
    simpl_bind.
    pose proof (progress_write_at _ _ _ _ _ H2 ltac:(lia)) as E2. cbn beta in E2. rewrite E2.
    simpl_bind. replace (Z.of_nat i + 1) with (Z.of_nat (S i)) by lia.
    destruct (IH (S i) (<[i:=Some SCHED_OTHER]> pol) (<[i:=Some (Z.of_nat i)]> qs)) as
      (pol' & qs' & E & Hp & Hq & Hl); [lia|by apply (progress_write f1 (λ _, Some SCHED_OTHER)); [|lia]
      |by apply (progress_write f2 (λ k, Some (Z.of_nat k))); [|lia]|].
    exists pol', qs'. by rewrite length_insert in Hl.
Qed.

Lemma spawn_on_core_ok n per core i m f arr :
  (core * per ≤ i)%nat → (i + n ≤ S core * per)%nat → (i + n ≤ m)%nat → Z.of_nat m ≤ INT_MAX →
  progress f (λ k, Some (placed per k)) i m arr →
  ∃ arr', spawn_on_core n (Z.of_nat core) (if decide (core = 0)%nat then SCHED_RR else SCHED_OTHER)
      (Z.of_nat core) (Z.of_nat i) arr = Ok (arr', Z.of_nat (i + n)) ∧
    progress f (λ k, Some (placed per k)) (i + n) m arr'.
Proof.
  revert i arr. induction n as [|n IH]; intros i arr H1 H2 Hm Hmax Hp; cbn [spawn_on_core].
  - rewrite Nat.add_0_r. by exists arr.
  - pose proof (progress_write_at _ _ _ _ _ Hp ltac:(lia)) as E. cbn beta in E.
    assert (Ed : (i / per = core)%nat)
      by (symmetry; apply (Nat.div_unique i per core (i - core * per)); lia).
    assert (Ec : placed per i = MkSpawn (Z.of_nat core) (Z.of_nat i) MAX_PRIORITY
      (if decide (core = 0)%nat then SCHED_RR else SCHED_OTHER) (Z.of_nat core)).
    { unfold placed. rewrite Ed. f_equal. destruct (decide (core = 0)%nat) as [->|].
      - by rewrite decide_True by lia.
      - rewrite decide_False; [done|]. destruct core; [done|]. nia. }
    rewrite <-Ec, E. simpl_bind. unfold int_add.
    rewrite int_of_ok by (unfold INT_MIN, INT_MAX in *; lia). simpl_bind.
    replace (Z.of_nat i + 1) with (Z.of_nat (S i)) by lia.
    replace (i + S n)%nat with (S i + n)%nat in * by lia.
    apply IH; try lia. by apply (progress_write f (λ k, Some (placed per k))); [|lia].
Qed.

Lemma read_init_ok {A} (arr : list (option A)) i x :
  arr !! i = Some (Some x) → read_init arr (Z.of_nat i) = Ok x.
Proof.
  intros Hx. unfold read_init.
  rewrite (proj2 (array_read_Ok arr (Z.of_nat i) (Some x))); [done|]. split; [lia|]. by rewrite Nat2Z.id.
Qed.

Lemma spawn_group_ok per core m f pol qs arr :
  pol !! core = Some (core_policy core) → qs !! core = Some (Some (Z.of_nat core)) →
  (S core * per ≤ m)%nat → Z.of_nat m ≤ INT_MAX →
  progress f (λ k, Some (placed per k)) (core * per) m arr →
  ∃ arr', spawn_group per (Z.of_nat core) pol qs (Z.of_nat (core * per)) arr =
      Ok (arr', Z.of_nat (S core * per)) ∧
    progress f (λ k, Some (placed per k)) (S core * per) m arr'.
Proof.
  intros Hpol Hq Hm Hmax Hp. unfold spawn_group.
  destruct (spawn_on_core_ok per per core (core * per) m f arr) as (arr' & E & Hp'); [lia|lia|lia|done|done|].
  replace (core * per + per)%nat with (S core * per)%nat in * by lia.
  destruct per as [|per']; [exists arr; split; [by rewrite !Nat.mul_0_r|by rewrite Nat.mul_0_r in *]|].
  rewrite (read_init_ok qs core _ Hq). simpl_bind.
  rewrite (read_init_ok pol core _ Hpol). simpl_bind. by exists arr'.
Qed.

Lemma spawn_all_ok n core cpc ppc f g pol qs cs ps c :
  (core + n = c)%nat → Z.of_nat (c * cpc) ≤ INT_MAX → Z.of_nat (c * ppc) ≤ INT_MAX →
  (∀ k, (k < c)%nat → pol !! k = Some (core_policy k)) →
  (∀ k, (k < c)%nat → qs !! k = Some (Some (Z.of_nat k))) →
  progress f (λ k, Some (placed cpc k)) (core * cpc) (c * cpc) cs →
  progress g (λ k, Some (placed ppc k)) (core * ppc) (c * ppc) ps →
  ∃ cs' ps', spawn_all n (Z.of_nat core) cpc ppc pol qs cs (Z.of_nat (core * cpc)) ps
      (Z.of_nat (core * ppc)) = Ok (cs', Z.of_nat (c * cpc), ps', Z.of_nat (c * ppc)) ∧
    progress f (λ k, Some (placed cpc k)) (c * cpc) (c * cpc) cs' ∧
    progress g (λ k, Some (placed ppc k)) (c * ppc) (c * ppc) ps'.
Proof.
  revert core cs ps. induction n as [|n IH]; intros core cs ps Ec Hc Hp Hpol Hq Hcs Hps; cbn [spawn_all].
  - rewrite Nat.add_0_r in Ec. subst c. by exists cs, ps.
  - destruct (spawn_group_ok cpc core (c * cpc) f pol qs cs) as (cs1 & E1 & H1);
      [apply Hpol; lia|apply Hq; lia|nia|done|done|].
    destruct (spawn_group_ok ppc core (c * ppc) g pol qs ps) as (ps1 & E2 & H2);
      [apply Hpol; lia|apply Hq; lia|nia|done|done|].
    rewrite E1. simpl_bind. rewrite E2. simpl_bind.
    replace (Z.of_nat core + 1) with (Z.of_nat (S core)) by lia.
    by apply IH; try lia.
Qed.

(** Writes keep an array's length. *)
Lemma spawn_group_length n core pol qs id arr arr' next :
  spawn_group n core pol qs id arr = Ok (arr', next) → length arr' = length arr.
Proof.
  assert (L : ∀ n q p core id arr arr' next,
    spawn_on_core n q p core id arr = Ok (arr', next) → length arr' = length arr).
  { clear. induction n as [|n IH]; intros q p core id arr arr' next E; cbn [spawn_on_core] in E; [by inv_ok|].
    apply bind_Ok in E as (arr1 & E1 & E). apply bind_Ok in E as (id1 & _ & E).
    apply array_write_Ok in E1 as [_ ->]. rewrite (IH _ _ _ _ _ _ _ E). apply length_insert. }
  unfold spawn_group. intros E. destruct n; [by inv_ok|].
  apply bind_Ok in E as (q & _ & E). apply bind_Ok in E as (p & _ & E). by apply L in E.
Qed.

Lemma spawn_all_length n core cpc ppc pol qs cs cid ps pid cs' cid' ps' pid' :
  spawn_all n core cpc ppc pol qs cs cid ps pid = Ok (cs', cid', ps', pid') →
  length cs' = length cs ∧ length ps' = length ps.
Proof.
  revert core cs cid ps pid. induction n as [|n IH]; intros core cs cid ps pid E; cbn [spawn_all] in E;
    [by injection E as <- _ <- _|].
  apply bind_Ok in E as ([cs1 cid1] & E1 & E). apply bind_Ok in E as ([ps1 pid1] & E2 & E).
  apply spawn_group_length in E1, E2. apply IH in E. lia.
Qed.

Lemma progress_all {A} (f g : nat → A) m arr :
  progress f g m m arr → length arr = m → arr = g <$> seq 0 m.
Proof.
  intros Hp Hl. apply list_eq_same_length with m; [by rewrite length_fmap, length_seq|done|].
  intros i x y Hi Hx Hy. rewrite list_lookup_fmap, lookup_seq_lt in Hy by done. simpl in Hy.
  rewrite (progress_done _ _ _ _ _ Hp Hi) in Hx. congruence.
Qed.

Lemma set_up_ok c p q :
  (0 < c ≤ 32)%nat → Z.of_nat (c * p) ≤ INT_MAX → Z.of_nat (c * q) ≤ INT_MAX →
  ∃ s, set_up (Z.of_nat c) (Z.of_nat p) (Z.of_nat q) = Ok s ∧
    producer_arr s = (λ k, Some (placed p k)) <$> seq 0 (c * p) ∧
    consumer_arr s = (λ k, Some (placed q k)) <$> seq 0 (c * q) ∧
    cur_producer_id s = Z.of_nat (c * p) ∧ cur_consumer_id s = Z.of_nat (c * q) ∧
    ∀ k, (k < c)%nat → queue_arr s !! k = Some (Some (Z.of_nat k)).
Proof.
  intros Hc Hp Hq. unfold set_up. rewrite !Nat2Z.id.
  pose proof (progress_start (λ _, Some SCHED_OTHER) (replicate MAX_SYSTEM_CORES None) None) as P1.
  pose proof (progress_start (λ k, Some (Z.of_nat k)) (replicate MAX_SYSTEM_CORES None) None) as P2.
  rewrite length_replicate in P1. rewrite length_replicate in P2. unfold MAX_SYSTEM_CORES in *.
  destruct (make_queues_ok c 0 c _ _ _ _ eq_refl (progress_mono _ _ _ _ c _ P1 (proj2 Hc))
    (progress_mono _ _ _ _ c _ P2 (proj2 Hc))) as (pol & qs & E & Hpol & Hqs & Hl).
  change (Z.of_nat 0) with 0 in E. rewrite E. simpl_bind.
  rewrite array_write_ok by (rewrite Hl, length_replicate; lia). simpl_bind.
  unfold int_mul. rewrite <-!Nat2Z.inj_mul, !int_of_ok by (unfold INT_MIN; lia). simpl_bind.
  unfold new_array. rewrite (proj2 (Z.ltb_ge _ _)), (proj2 (Z.ltb_ge _ _)) by lia. rewrite !Nat2Z.id.
  simpl_bind. change (Z.to_nat 0) with 0%nat.
  assert (HP : ∀ per, progress (λ _, None) (λ k, Some (placed per k)) 0 (c * per) (replicate (c * per) None)).
  { intros per k Hk. apply lookup_replicate. by rewrite decide_False by lia. }
  assert (Hpol' : ∀ k, (k < c)%nat → <[0%nat:=Some SCHED_RR]> pol !! k = Some (core_policy k)).
  { intros k Hk. unfold core_policy. destruct (decide (k = 0)%nat) as [->|Hne].
    - apply list_lookup_insert_eq. rewrite Hl, length_replicate. lia.
    - rewrite list_lookup_insert_ne by done. by apply (progress_done _ _ _ _ _ Hpol). }
  assert (Hqs' : ∀ k, (k < c)%nat → qs !! k = Some (Some (Z.of_nat k)))
    by (intros k Hk; by apply (progress_done _ _ _ _ _ Hqs)).
  destruct (spawn_all_ok c 0 q p (λ _, None) (λ _, None) (<[0%nat:=Some SCHED_RR]> pol) qs _ _ c
    eq_refl Hq Hp Hpol' Hqs' (HP q) (HP p)) as (cs & ps & Es & Hcs & Hps).
  change (Z.of_nat (0 * q)) with 0 in Es. change (Z.of_nat (0 * p)) with 0 in Es.
  change (Z.of_nat 0) with 0 in Es. rewrite Es. simpl_bind.
  destruct (spawn_all_length _ _ _ _ _ _ _ _ _ _ _ _ _ _ Es) as [L1 L2]. rewrite !length_replicate in L1, L2.
  eexists. split; [done|]. cbn [producer_arr consumer_arr queue_arr cur_producer_id cur_consumer_id].
  split_and!; [by eapply progress_all|by eapply progress_all|done|done|].
  intros k Hk. by apply (progress_done _ _ _ _ _ Hqs).
Qed.

(** Too many cores for [policy_arr] and [queue_arr]. *)
Lemma make_queues_overflow n i pol qs :
  (length pol < i + n)%nat → (i ≤ length pol)%nat → ¬ is_ok (make_queues n (Z.of_nat i) pol qs).
Proof.
  revert i pol qs. induction n as [|n IH]; intros i pol qs Hn Hi; [lia|]. cbn [make_queues].
  rewrite bind_is_ok. intros (pol1 & E & Hok). apply array_write_Ok in E as [Hlt ->].
  apply bind_is_ok in Hok as (qs1 & _ & Hok). replace (Z.of_nat i + 1) with (Z.of_nat (S i)) in Hok by lia.
  revert Hok. apply IH; rewrite length_insert; lia.
Qed.

Lemma omap_of_fmap {A B C} (f : B → option C) (g : A → B) (l : list A) : omap f (g <$> l) = omap (λ x, f (g x)) l.
Proof. induction l as [|x l IH]; [done|]. simpl. by destruct (f (g x)); [f_equal|]. Qed.

(** The users of queue [k] are its core's [per] workers. *)
Lemma users_placed per c k :
  (k < c)%nat →
  users (Z.of_nat k) ((λ j, Some (placed per j)) <$> seq 0 (c * per)) = Z.of_nat <$> seq (k * per) per.
Proof.
  intros Hk. unfold users. rewrite omap_of_fmap. cbn [placed sp_queue sp_id].
  replace (c * per)%nat with (k * per + (per + (c - S k) * per))%nat by nia.
  rewrite !seq_app, !omap_app. cbn [Nat.add].
  assert (N : ∀ s n, (∀ j, (s ≤ j < s + n)%nat → (j / per ≠ k)%nat) →
    omap (λ j, if Z.of_nat (j / per) =? Z.of_nat k then Some (Z.of_nat j) else None) (seq s n) = []).
  { intros s n. revert s. induction n as [|n IH]; intros s Hs; [done|]. cbn [seq omap list_omap].
    rewrite (proj2 (Z.eqb_neq _ _)) by (pose proof (Hs s ltac:(lia)); lia). apply IH.
    intros j Hj. apply Hs. lia. }
  assert (Y : ∀ s n, (∀ j, (s ≤ j < s + n)%nat → (j / per = k)%nat) →
    omap (λ j, if Z.of_nat (j / per) =? Z.of_nat k then Some (Z.of_nat j) else None) (seq s n) =
      Z.of_nat <$> seq s n).
  { intros s n. revert s. induction n as [|n IH]; intros s Hs; [done|]. cbn [seq omap list_omap fmap list_fmap].
    rewrite (proj2 (Z.eqb_eq _ _)) by (by rewrite (Hs s ltac:(lia))). f_equal. apply IH.
    intros j Hj. apply Hs. lia. }
  rewrite N, Y, N; [by rewrite app_nil_r| | |]; intros j Hj.
  - intros E. destruct (decide (per = 0)%nat) as [->|Hper]; [lia|].
    pose proof (Nat.div_mod_eq j per) as D. rewrite E, Nat.mul_comm in D.
    pose proof (Nat.mod_upper_bound j per Hper). lia.
  - symmetry. apply (Nat.div_unique j per k (j - k * per)); lia.
  - intros E. pose proof (Nat.div_mod_eq j per) as D. rewrite E, Nat.mul_comm in D. lia.
Qed.

(** The loop deletes the elements it finds. *)
Lemma delete_elements_ok {A} (g : nat → A) n i arr :
  (∀ k, (k < n)%nat → arr !! (i + k)%nat = Some (Some (g (i + k)%nat))) →
  delete_elements n (Z.of_nat i) arr = Ok (g <$> seq i n).
Proof.
  revert i. induction n as [|n IH]; intros i Ha; [done|]. cbn [delete_elements].
  pose proof (Ha 0%nat ltac:(lia)) as H0. rewrite Nat.add_0_r in H0.
  rewrite (read_init_ok arr i _ H0). simpl_bind.
  replace (Z.of_nat i + 1) with (Z.of_nat (S i)) by lia. rewrite IH; [done|].
  intros k Hk. specialize (Ha (S k) ltac:(lia)). by rewrite Nat.add_succ_r in Ha.
Qed.

Lemma delete_all_elements {A} (g : nat → A) n :
  delete_elements n 0 ((λ k, Some (g k)) <$> seq 0 n) = Ok (g <$> seq 0 n).
Proof.
  apply (delete_elements_ok g n 0). intros k Hk. by rewrite list_lookup_fmap, lookup_seq_lt by done.
Qed.

Lemma tear_down_faults c p q s :
  producer_arr s = (λ k, Some (placed p k)) <$> seq 0 (c * p) → cur_producer_id s = Z.of_nat (c * p) →
  consumer_arr s = (λ k, Some (placed q k)) <$> seq 0 (c * q) → cur_consumer_id s = Z.of_nat (c * q) →
  tear_down (Z.of_nat c) s = Fault MismatchedDelete.
Proof.
  intros Ep Ip Ec Ic. unfold tear_down. rewrite Ep, Ip, Ec, Ic, !Nat2Z.id, !delete_all_elements. done.
Qed.
