(* ===== verification/SimProps.v ===== *)
(** * Properties of the simulations (Chapters 12 and 14)

    [itoa] and the arguments of the child processes, and the queues and threads
    of the main program, with witnesses. *)
From S2P Require Import Prelude Digits SharedMem Scheduler SimMain.

(** ** [itoa] and the arguments *)

(** [itoa] ends and stores the digits of [n] in the base, most significant
    first, with a NUL after them, leaving the rest of the array alone; it
    writes past the array exactly when they do not fit.  Digits read back
    give [n]. *)
Lemma itoa_stores_the_number n base buf :
  2 ≤ base → 0 ≤ n < 4294967296 →
  itoa n buf base = (s ← store_string buf (digit_char <$> digits base n); Ok (Some s)) ∧
  foldl (λ a d, base * a + d) 0 (digits base n) = n ∧
  (base ≤ 36 → Forall (λ c, 48 ≤ c ≤ 57 ∨ 65 ≤ c ≤ 90) (digit_char <$> digits base n)).
Proof.
  intros Hb Hn. split_and!; [by apply itoa_store|by apply digits_value|].
  intros H36. apply Forall_fmap. eapply Forall_impl; [apply (digits_range base n Hb); lia|].
  intros d Hd. cbn beta in Hd. unfold digit_char, compose. destruct (Z.ltb_spec d 10); rewrite Z.mod_small by lia; lia.
Qed.

Lemma itoa_stores_the_number_witness :
  itoa 255 [1;1;1;1] 16 = (s ← store_string [1;1;1;1] (digit_char <$> digits 16 255); Ok (Some s)) ∧
  foldl (λ a d, 16 * a + d) 0 (digits 16 255) = 255 ∧
  (16 ≤ 36 → Forall (λ c, 48 ≤ c ≤ 57 ∨ 65 ≤ c ≤ 90) (digit_char <$> digits 16 255)).
Proof. apply (itoa_stores_the_number 255 16 [1;1;1;1]); lia. Defined.

(** The simulations hand on their arguments exactly when the core is
    between 0 and 999 (its buffer has four characters) and, with message
    queues, the id above minus a billion (or the name overflows); the children
    then read the same decimal numbers, a negative id as its unsigned value. *)
Lemma sim_arguments_fit id core secs b :
  INT_MIN ≤ id ≤ INT_MAX → INT_MIN ≤ core ≤ INT_MAX → buffers_wf b →
  (is_ok (shm_sim_arguments id core secs b) ↔ 0 ≤ core ≤ 999) ∧
  (is_ok (mq_sim_arguments id core secs b) ↔ 0 ≤ core ≤ 999 ∧ -1000000000 < id) ∧
  (0 ≤ core ≤ 999 → ∃ b', shm_sim_arguments id core secs b = Ok (Some b') ∧
     c_string (shared_mem_name b') = Ok (shm_prefix ++ print_d id) ∧
     c_string (core_str b') = Ok (print_d core) ∧
     c_string (id_str b') = Ok (print_d (u32 id)) ∧ c_string (time_str b') = Ok (print_d (u32 secs))).
Proof.
  intros Hid Hc Hw. destruct (print_d_int_length id Hid) as [H11 H10].
  assert (Hs : Forall (λ c, c ≠ 0) shm_prefix) by (repeat constructor; lia).
  assert (Hm : Forall (λ c, c ≠ 0) mq_prefix) by (repeat constructor; lia).
  pose proof (sim_arguments_cases shm_prefix id core secs b Hc Hw Hs) as Ps.
  pose proof (sim_arguments_cases mq_prefix id core secs b Hc Hw Hm) as Pm.
  change (length shm_prefix) with 12%nat in Ps. change (length mq_prefix) with 19%nat in Pm.
  unfold shm_sim_arguments, mq_sim_arguments. split_and!.
  - clear Pm. case_decide as Hd; [destruct Ps as (b' & -> & _); split; [intros _; apply Hd|done]|].
    split; [done|]. intros Hcore. exfalso. apply Hd. split; [lia|done].
  - clear Ps. case_decide as Hd.
    + destruct Pm as (b' & -> & _). split; [intros _|done]. destruct Hd as [Hn Hcore].
      split; [done|]. apply H10. lia.
    + split; [done|]. intros [Hcore Hlow]. exfalso. apply Hd. split; [|done].
      apply H10 in Hlow. lia.
  - intros Hcore. rewrite decide_True in Ps by (split; [lia|done]). exact Ps.
Qed.

Definition demo_buffers : sim_buffers :=
  SimBuffers (replicate 30 1) (replicate 4 1) (replicate 12 1) (replicate 12 1).

(** ** The main program *)

(** On up to 32 cores the simulation gives each core a queue, shared by
    exactly the core's own producers and consumers, numbered in order, in real
    time on core 0 only; by default that is one producer and one consumer to
    a queue, all that the queue's guarantees cover. *)
Lemma main_gives_each_core_a_queue c p q :
  (0 < c ≤ 32)%nat → Z.of_nat (c * p) ≤ INT_MAX → Z.of_nat (c * q) ≤ INT_MAX →
  ∃ s, set_up (Z.of_nat c) (Z.of_nat p) (Z.of_nat q) = Ok s ∧
    producer_arr s = (λ k, Some (placed p k)) <$> seq 0 (c * p) ∧
    consumer_arr s = (λ k, Some (placed q k)) <$> seq 0 (c * q) ∧
    ∀ k, (k < c)%nat → queue_arr s !! k = Some (Some (Z.of_nat k)) ∧
      users (Z.of_nat k) (producer_arr s) = Z.of_nat <$> seq (k * p) p ∧
      users (Z.of_nat k) (consumer_arr s) = Z.of_nat <$> seq (k * q) q.
Proof.
  intros Hc Hp Hq. destruct (set_up_ok c p q Hc Hp Hq) as (s & E & Ep & Ec & _ & _ & Hqs).
  exists s. split_and!; [done|done|done|]. intros k Hk. rewrite Ep, Ec, !users_placed by done.
  split_and!; [by apply Hqs|done|done].
Qed.

(** On more cores it writes past [policy_arr]. *)
Lemma set_up_overflows_beyond_32_cores c p q : 32 < c → ¬ is_ok (set_up c p q).
Proof.
  intros Hc Hok. unfold set_up in Hok. apply bind_is_ok in Hok as ([pol qs] & E & _).
  apply (make_queues_overflow (Z.to_nat c) 0 (replicate MAX_SYSTEM_CORES None) (replicate MAX_SYSTEM_CORES None));
    [rewrite length_replicate; unfold MAX_SYSTEM_CORES; lia|lia|].
  change (Z.of_nat 0) with 0. by rewrite E.
Qed.

(** A run of the simulation that does not only print its help never ends
    in a defined way: on up to 32 cores, with any options that ask for workers
    an [int] can count, it deletes each producer and each consumer once, in
    order, but then the array [consumer_arr] from [new[]] with [delete]; on
    more cores it has written past [policy_arr] before. *)
Lemma main_ends_in_a_mismatched_delete c argv cfg :
  command_line argv = Ok (Some cfg) →
  0 < c → 0 ≤ producers_per_core cfg → 0 ≤ consumers_per_core cfg →
  c * producers_per_core cfg ≤ INT_MAX → c * consumers_per_core cfg ≤ INT_MAX →
  (c ≤ 32 → ∃ s, set_up c (producers_per_core cfg) (consumers_per_core cfg) = Ok s ∧
     delete_elements (Z.to_nat (cur_producer_id s)) 0 (producer_arr s) =
       Ok (placed (Z.to_nat (producers_per_core cfg)) <$> seq 0 (Z.to_nat (c * producers_per_core cfg))) ∧
     delete_elements (Z.to_nat (cur_consumer_id s)) 0 (consumer_arr s) =
       Ok (placed (Z.to_nat (consumers_per_core cfg)) <$> seq 0 (Z.to_nat (c * consumers_per_core cfg))) ∧
     main c argv = Fault MismatchedDelete) ∧
  (32 < c → ¬ is_ok (main c argv)).
Proof.
  intros E Hc Hp Hq HP HQ. unfold main. rewrite E. simpl_bind. split; intros Hc32.
  - destruct (set_up_ok (Z.to_nat c) (Z.to_nat (producers_per_core cfg)) (Z.to_nat (consumers_per_core cfg)))
      as (s & Es & Ep & Ec & Ip & Ic & _); [lia..|].
    rewrite !Z2Nat.id in Es by lia. exists s. rewrite Es. simpl_bind.
    split_and!; [done|by rewrite Ip, Ep, Nat2Z.id, delete_all_elements, Z2Nat.inj_mul by lia
      |by rewrite Ic, Ec, Nat2Z.id, delete_all_elements, Z2Nat.inj_mul by lia|].
    pose proof (tear_down_faults _ _ _ _ Ep Ip Ec Ic) as F. rewrite Z2Nat.id in F by lia. by rewrite F.
  - intros Hok. apply bind_is_ok in Hok as (s & Es & _).
    apply (set_up_overflows_beyond_32_cores c (producers_per_core cfg) (consumers_per_core cfg) Hc32). by rewrite Es.
Qed.

(** Two cores, two producers on each, and an option it does not know:
    [sim -p2 -x]. *)
Definition two_producers : list (list Z) := [[115; 105; 109]; [45; 112; 50]; [45; 120]].

Lemma main_ends_in_a_mismatched_delete_witness :
  main 2 two_producers = Fault MismatchedDelete.
Proof.
  destruct (main_ends_in_a_mismatched_delete 2 two_producers (MkSettings 10 2 1 100) eq_refl)
    as [F _]; [first [done|by apply Z.leb_le]..|].
  destruct (F ltac:(by apply Z.leb_le)) as (s & _ & _ & _ & E). exact E.
Defined.

(** The thread of a worker of main runs on the worker's core only; on core 0
    it asks for real time, which only root gets, at the highest priority. *)
Lemma worker_scheduling a per k :
  priority_min a SCHED_RR ≤ priority_max a SCHED_RR ≤ MAX_PRIORITY →
  priority_min a SCHED_OTHER ≤ priority_max a SCHED_OTHER ≤ MAX_PRIORITY →
  (k / per < 32)%nat →
  let w := placed per k in
  set_scheduler a (sp_priority w) (sp_policy w) (sp_core w) =
    [if decide (k < per)%nat
     then if sched_uid a =? 0 then SetSchedParam SCHED_RR (priority_max a SCHED_RR) else SayNotRoot
     else SetSchedParam SCHED_OTHER (priority_max a SCHED_OTHER);
     SetAffinity {[Z.of_nat (k / per)]}].
Proof.
  intros Hr Ho Hk. cbv zeta. unfold set_scheduler, placed. cbn [sp_priority sp_policy sp_core].
  rewrite (proj2 (Z.eqb_neq (Z.of_nat (k / per)) NO_CORE)) by (unfold NO_CORE; lia). unfold CPU_SET, CPU_SETSIZE.
  rewrite (proj2 (Z.leb_le _ _)), (proj2 (Z.ltb_lt _ _)) by lia. cbn [andb]. rewrite (right_id_L ∅ (∪)).
  destruct (decide (k < per)%nat); rewrite clamp_above by lia; [|done]. by destruct (sched_uid a =? 0).
Qed.
