(* ===== verification/WorkerLoop.v ===== *)
(** * The thread of a worker object

    [ScheduledObject::run] of the programs whose workers share a queue
    (Chapter12, Chapter14/SharedMemory): worker objects while they are
    constructed, at work, deleted, and the loop of their threads on a queue of
    either kind. *)
From S2P Require Import Prelude Semaphore Queue QueueSystem QueueInv Items Workers SimMain.

(** ** Worker objects *)

(** How much of the object there is: nothing; the [ScheduledObject], whose
    constructor starts the thread; that and the class of the object, its
    members not yet assigned; all of it; the [ScheduledObject] again, once
    ~Producer() or ~Consumer() has returned; that with [m_run] false; nothing,
    its thread joined. *)
Inductive stage := Unborn | Based | Derived | Whole | Reduced | Halted | Joined.

#[export] Instance stage_eq_dec : EqDecision stage.
Proof. solve_decision. Defined.

(** Where the thread is in [ScheduledObject::run]: about to call
    [set_scheduler] and [sleep(2)], asleep, about to test [m_run] (or in
    [work()], or gone: its phase says which), about to call [work()]. *)
Inductive loop_pc := Starting | Sleeping (wake : timespec) | Looping | Calling.

(** It wakes up. *)
Lemma wake_reached now l : ∃ ts, ts_le now ts = true ∧ ∀ wake, l = Sleeping wake → ts_le wake ts = true.
Proof.
  destruct (clock_reaches_if now (match l with Sleeping wake => Some wake | _ => None end)) as (ts & H1 & H2).
  exists ts. split; [done|]. intros wake ->. by apply H2.
Qed.

Record object := Object {
  o_spawn : spawn;
  o_stage : stage;
  o_loop : loop_pc;
  o_thread : thread worker WorkItem
}.

Definition with_stage (st : stage) (o : object) : object := Object (o_spawn o) st (o_loop o) (o_thread o).
Definition with_loop (l : loop_pc) (o : object) : object := Object (o_spawn o) (o_stage o) l (o_thread o).
Definition with_thread (th : thread worker WorkItem) (o : object) : object :=
  Object (o_spawn o) (o_stage o) (o_loop o) th.

Definition START_DELAY : Z := 2.

(** ** The loop, on a queue of any kind *)
Section Loop.
Context {Q : Type}.

(** What a thread does to the queue. *)
Context (act : timespec → thread worker WorkItem → Q → outcome (option (Q * option (event WorkItem) * thread worker WorkItem))).

(** An action inside [work()]. *)
Definition thread_run (now : timespec) (o : object) (q : option Q)
    : outcome (option (option Q * option (event WorkItem) * object)) :=
  match q with
  | Some q =>
      r ← act now (o_thread o) q;
      match r with
      | Some (q', ev, th') => Ok (Some (Some q', ev, with_thread th' o))
      | None => Ok None
      end
  | None => Fault DeadBlock
  end.

(** One action of [ScheduledObject::run] on the object's queue, which is [None]
    while there is none. *)
Definition object_run (now : timespec) (o : object) (q : option Q)
    : outcome (option (option Q * option (event WorkItem) * object)) :=
  let '(Thread m_run s ph) := o_thread o in
  match o_stage o, o_loop o with
  | (Unborn | Joined), _ => Ok None
  | _, Starting => Ok (Some (q, None, with_loop (Sleeping (later now START_DELAY)) o))
  | _, Sleeping wake => if ts_le wake now then Ok (Some (q, None, with_loop Looping o)) else Ok None
  | _, Looping =>
      match ph with
      | Checking =>
          Ok (Some (q, None, if m_run then with_loop Calling o else with_thread (Thread m_run s Exited) o))
      | Working _ => thread_run now o q
      | Exited => Ok None
      end
  | Derived, Calling => Fault Uninitialised
  | Whole, Calling =>
      '(s', r) ← start s;
      Ok (Some (q, None, with_loop Looping (with_thread (Thread m_run s' (Working (enter r))) o)))
  | (Based | Reduced | Halted), Calling => Ok (Some (q, None, with_loop Looping o))   (* ScheduledObject::work() *)
  end.
End Loop.

(** [m_run = false]. *)
Definition halt (o : object) : object := with_stage Halted (with_thread (stop (o_thread o)) o).

(** No constructor takes longer than its thread sleeps. *)
Definition prompt_object (now : timespec) (o : object) : Prop :=
  match o_stage o with
  | Based | Derived =>
      match o_loop o with
      | Starting => True
      | Sleeping wake => ts_le wake now = false
      | _ => False
      end
  | _ => True
  end.
#[export] Instance prompt_object_dec now o : Decision (prompt_object now o).
Proof. unfold prompt_object. destruct (o_stage o), (o_loop o); apply _. Defined.

(** ** The interface to the queue *)

(** What the loop promises of [m_run] and of its own tests, whatever its queue. *)
Class LoopAct {Q : Type}
    (act : timespec → thread worker WorkItem → Q → outcome (option (Q * option (event WorkItem) * thread worker WorkItem))) := {
  act_keeps_run now th q q' ev th' :
    act now th q = Ok (Some (q', ev, th')) →
    t_run th' = t_run th ∧ (t_phase th' = Exited → t_phase th = Checking ∧ t_run th = false);
  act_starts now s q :
    act now (Thread true s Checking) q =
      '(s', r) ← start s; Ok (Some (q, None, Thread true s' (Working (enter r))));
  act_exits now s q : act now (Thread false s Checking) q = Ok (Some (q, None, Thread false s Exited))
}.

#[export] Instance run_loop_act : LoopAct (Q := Queue WorkItem) run.
Proof.
  split; [|done..]. intros now th q q' ev th'.
  destruct th as [r s [|o|]]; cbn [run]; intros Hr; [| |done].
  - destruct r; [|by injection Hr as <- <- <-]. apply bind_Ok in Hr as ([s' x] & _ & Hr). by injection Hr as <- <- <-.
  - destruct o as [t pc|pc]; apply bind_Ok in Hr as ([[[q1 e] [pc'|b]]|] & _ & Hr); [| | done| | |done];
      by injection Hr as <- <- <-.
Qed.

(** ** What the object, its thread and [m_run] have to do with each other *)
Definition coherent (o : object) : Prop :=
  (o_loop o ≠ Looping → t_phase (o_thread o) = Checking) ∧
  (t_phase (o_thread o) = Exited → t_run (o_thread o) = false) ∧
  match o_stage o with
  | Unborn => t_run (o_thread o) = true ∧ t_phase (o_thread o) = Checking ∧ o_loop o = Starting
  | Based | Derived => t_run (o_thread o) = true ∧ t_phase (o_thread o) = Checking
  | Whole | Reduced => t_run (o_thread o) = true
  | Halted => t_run (o_thread o) = false
  | Joined => t_run (o_thread o) = false ∧ t_phase (o_thread o) = Exited
  end.

(** How far a stopped thread outside [work()] is from its exit. *)
Definition halt_rank (o : object) : nat :=
  match t_phase (o_thread o) with
  | Exited => 0
  | _ => match o_loop o with Starting => 3 | Sleeping _ | Calling => 2 | Looping => 1 end
  end.

Section Actions.
Context {Q : Type}
  (act : timespec → thread worker WorkItem → Q → outcome (option (Q * option (event WorkItem) * thread worker WorkItem)))
  `{!LoopAct act}.

(** An action leaves queue and thread alone, or is the thread's action on its
    queue. *)
Lemma object_run_cases now o q q' ev o' :
  coherent o → prompt_object now o → (o_stage o ≠ Unborn → is_Some q) →
  object_run act now o q = Ok (Some (q', ev, o')) →
  o_spawn o' = o_spawn o ∧ o_stage o' = o_stage o ∧ o_stage o ≠ Unborn ∧ coherent o' ∧ is_Some q' ∧
  ((q' = q ∧ ev = None ∧ o_thread o' = o_thread o) ∨
   ∃ q0 q1, q = Some q0 ∧ q' = Some q1 ∧ act now (o_thread o) q0 = Ok (Some (q1, ev, o_thread o'))).
Proof.
  intros (Hl & Hx & Hst) Hp Hq Hr. destruct o as [sp st l [r s ph]]. cbn [o_stage o_loop o_thread t_run t_phase] in *.
  assert (Hq' : st ≠ Unborn → ∃ q0, q = Some q0) by (intros H; destruct (Hq H) as [q0 ->]; by exists q0).
  assert (Hne : st ≠ Unborn) by (intros ->; done). destruct (Hq' Hne) as [q0 ->]. clear Hq Hq'.
  assert (Hsame : ∀ l' : loop_pc, (l' ≠ Looping → ph = Checking) → coherent (Object sp st l' (Thread r s ph)))
    by (intros l' H; destruct st; done || by split_and!).
  destruct l as [|wake| |].
  - destruct st; try done; injection Hr as <- <- <-; split_and!; try done; auto; by apply Hsame; auto.
  - destruct st; try done; cbn [object_run o_thread o_stage o_loop] in Hr; destruct (ts_le wake now) eqn:E; try done;
      try (cbn in Hp; congruence); injection Hr as <- <- <-; split_and!; try done; auto; by apply Hsame; auto.
  - destruct ph as [|op|]; [|clear Hsame|by destruct st].
    { destruct st; try done; cbn [object_run o_thread o_stage o_loop] in Hr; injection Hr as <- <- <-.
      all: destruct r; [split_and!; try done; first [by apply Hsame|by left]|].
      all: try (by destruct Hst). all: try done.
      all: split_and!; try done. all: right; exists q0, q0; split_and!; [done|done|apply act_exits]. }
    destruct st; try done; cbn [object_run o_thread o_stage o_loop] in Hr.
    all: cbn [thread_run] in Hr; apply bind_Ok in Hr as ([[[q1 e] th']|] & Er & Hr); [|done];
      injection Hr as <- <- <-; destruct (act_keeps_run _ _ _ _ _ _ Er) as [Ek Ee]; cbn [t_run t_phase] in Ek, Ee;
      split_and!; try done; [|right; by exists q0, q1];
      unfold coherent; cbn [with_thread o_loop o_stage o_thread]; rewrite Ek; split_and!; try done;
      intros H; by destruct (Ee H).
  - destruct st; try done; cbn [object_run o_thread o_stage o_loop] in Hr.
    all: try (injection Hr as <- <- <-; split_and!; try done; auto; by apply Hsame).
    apply bind_Ok in Hr as ([s' x] & Es & Hr). injection Hr as <- <- <-. rewrite (Hl ltac:(done)), Hst.
    split_and!; try done. right. exists q0, q0. split_and!; try done. rewrite act_starts. by rewrite Es.
Qed.

(** An action that faults is one of the thread on its queue. *)
Lemma object_run_fault now o q f :
  coherent o → prompt_object now o → (o_stage o ≠ Unborn → is_Some q) → object_run act now o q = Fault f →
  ∃ q0, q = Some q0 ∧ act now (o_thread o) q0 = Fault f.
Proof.
  intros (Hl & Hx & Hst) Hp Hq Hr. destruct o as [sp st l [r s ph]]. cbn [o_stage o_loop o_thread t_run t_phase] in *.
  assert (Hne : st ≠ Unborn) by (intros ->; done). destruct (Hq Hne) as [q0 ->]. exists q0. split; [done|].
  destruct l as [|wake| |].
  - by destruct st.
  - by destruct st; cbn [object_run o_thread o_stage o_loop] in Hr; destruct (ts_le wake now).
  - destruct ph as [|op|]; [by destruct st|clear Hq|by destruct st].
    destruct st; try done; cbn [object_run o_thread o_stage o_loop thread_run] in Hr;
      (destruct (act now (Thread r s (Working op)) q0) as [[[[q1 e] th']|]|] eqn:E; [done|done|]; by injection Hr as ->).
  - destruct st; try done. cbn [object_run o_thread o_stage o_loop] in Hr. rewrite (Hl ltac:(done)), Hst, act_starts.
    destruct (start s) as [[s' x]|] eqn:E; [done|]. by injection Hr as ->.
Qed.

(** Inside [work()] the loop is the thread's action. *)
Lemma object_run_working now o q :
  coherent o → op_of (o_thread o) ≠ None →
  object_run act now o q = thread_run act now o q ∧ o_stage o ≠ Unborn ∧ o_stage o ≠ Joined ∧ prompt_object now o.
Proof.
  intros (Hl & _ & Hst) Hop. destruct o as [sp st l [r s ph]]. cbn [o_loop o_thread o_stage t_run t_phase] in *.
  destruct ph as [|op|]; [done| |done]. assert (l = Looping) as -> by (destruct l; [by discriminate Hl..|done|by discriminate Hl]).
  destruct st; cbn in Hst; try (by destruct Hst as (_ & ? & _)); try (by destruct Hst); by split_and!.
Qed.

(** A stopped thread outside [work()] goes on to its exit, if it is awake. *)
Lemma halted_acts now o q :
  coherent o → o_stage o = Halted → t_phase (o_thread o) = Checking →
  (∀ wake, o_loop o = Sleeping wake → ts_le wake now = true) →
  ∃ o', object_run act now o q = Ok (Some (q, None, o')) ∧ o_spawn o' = o_spawn o ∧ coherent o' ∧
    o_stage o' = Halted ∧ op_of (o_thread o') = None ∧ (halt_rank o' < halt_rank o)%nat.
Proof.
  intros (Hl & Hx & Hst) Es Ep Hw. destruct o as [sp st l [r s ph]]. cbn [o_stage o_loop o_thread t_run t_phase] in *.
  subst st ph. cbn in Hst. subst r.
  destruct l as [|wake| |]; eexists; (split; [cbn; rewrite ?(Hw _ eq_refl); done|]); split_and!; try done; cbn; lia.
Qed.
End Actions.
