(* ===== verification/ShmLife.v ===== *)
(** * The processes that share the queue, from construction to munmap
    (Chapter14/SharedMemory)

    The child processes of a simulation once they have mapped the region: the
    statements of their [main] (Sim/ProducerSim.cpp, Sim/ConsumerSim.cpp) an
    action at a time, interleaved with the thread of the worker each of them
    makes and deletes. *)
From S2P Require Import Prelude Semaphore Items Queue QueueSystem QueueInv Workers.
From S2P Require Import ShmQueue ShmSystem SimMain WorkerLoop.

(** ** Data *)

(** The statements of [main] from [new Producer] or [new Consumer] on, and the
    actions some of them go on with. *)
Inductive child_statement :=
  | ChildNew | ChildDerive | ChildComplete
  | ChildSleep (secs : Z) | ChildSleepUntil (ts : timespec)
  | ChildDelete | ChildHalt | ChildJoin
  | ChildUnmap.

Record child := Child {
  cd_worker : object;
  cd_mapped : bool;      (* the region is mapped *)
  cd_main : list child_statement
}.

Definition child_start (sp : spawn) (w : worker) (secs : Z) : child :=
  Child (Object sp Unborn Starting (Thread true w Checking)) true [ChildNew; ChildSleep secs; ChildDelete; ChildUnmap].

(** The processes on a region, whose bytes outlive their mappings. *)
Record shm_life := ShmLife {
  sl_now : timespec;
  sl_queue : ShmQueue;
  sl_children : list child
}.

(** ** Actions *)

(** The next action of [main]; [None] while it sleeps or waits in
    [pthread_join], and once it has nothing more to do with the queue. *)
Definition child_main (now : timespec) (c : child) : option child :=
  match cd_main c with
  | [] => None
  | st :: rest =>
      let o := cd_worker c in
      let next o' := Some (Child o' (cd_mapped c) rest) in
      match st with
      | ChildNew => Some (Child (with_stage Based o) (cd_mapped c) (ChildDerive :: ChildComplete :: rest))
      | ChildDerive => next (with_stage Derived o)
      | ChildComplete => next (with_stage Whole o)
      | ChildSleep secs => Some (Child o (cd_mapped c) (ChildSleepUntil (later now (u32 secs)) :: rest))
      | ChildSleepUntil ts => if ts_le ts now then next o else None
      | ChildDelete => Some (Child (with_stage Reduced o) (cd_mapped c) (ChildHalt :: ChildJoin :: rest))
      | ChildHalt => next (halt o)
      | ChildJoin => match t_phase (o_thread o) with Exited => next (with_stage Joined o) | _ => None end
      | ChildUnmap => Some (Child o false rest)
      end
  end.

(** The next action of the worker's thread on the bytes, if they are mapped. *)
Definition child_run (now : timespec) (c : child) (q : ShmQueue)
    : outcome (option (option ShmQueue * option (event WorkItem) * object)) :=
  object_run shm_run now (cd_worker c) (if cd_mapped c then Some q else None).

Inductive life_step : shm_life → option (label WorkItem) → shm_life → Prop :=
  | life_main now q cs i c c' :
      cs !! i = Some c → child_main now c = Some c' → life_step (ShmLife now q cs) None (ShmLife now q (<[i := c']> cs))
  | life_worker now q cs i c q' ev o' :
      cs !! i = Some c → child_run now c q = Ok (Some (q', ev, o')) →
      life_step (ShmLife now q cs) (tag i ev)
        (ShmLife now (default q q') (<[i := Child o' (cd_mapped c) (cd_main c)]> cs))
  | life_clock now now' q cs : ts_le now now' = true → life_step (ShmLife now q cs) None (ShmLife now' q cs).

Definition child_fault (s : shm_life) : Prop :=
  ∃ i c f, sl_children s !! i = Some c ∧ child_run (sl_now s) c (sl_queue s) = Fault f.

(** No constructor takes longer than its thread sleeps. *)
Definition prompt_life (s : shm_life) : Prop := Forall (λ c, prompt_object (sl_now s) (cd_worker c)) (sl_children s).
#[export] Instance prompt_life_dec s : Decision (prompt_life s).
Proof. unfold prompt_life. apply _. Defined.

Definition prompt_life_step (s : shm_life) (o : option (label WorkItem)) (s' : shm_life) : Prop :=
  life_step s o s' ∧ prompt_life s'.

(** Children with these workers, on a queue just made in [region]. *)
Definition life_start (now : timespec) (region : list Z) (size qid : Z) (ws : list (spawn * worker * Z)) : shm_life :=
  ShmLife now (ShmQueue_ctor region size qid) ((λ '(sp, w, secs), child_start sp w secs) <$> ws).

(** ** Runs *)
Inductive life_choice := ChildMain (i : nat) | ChildAct (i : nat) | LifeClock (ts : timespec).
Definition life_choose (c : life_choice) (s : shm_life) : option (option (label WorkItem) * shm_life) :=
  let '(ShmLife now q cs) := s in
  match c with
  | ChildMain i =>
      match cs !! i with
      | Some c => match child_main now c with Some c' => Some (None, ShmLife now q (<[i := c']> cs)) | None => None end
      | None => None
      end
  | ChildAct i =>
      match cs !! i with
      | Some c =>
          match child_run now c q with
          | Ok (Some (q', ev, o')) =>
              Some (tag i ev, ShmLife now (default q q') (<[i := Child o' (cd_mapped c) (cd_main c)]> cs))
          | _ => None
          end
      | None => None
      end
  | LifeClock ts => if ts_le now ts then Some (None, ShmLife ts q cs) else None
  end.

Fixpoint life_run (cs : list life_choice) (s : shm_life) : list (label WorkItem) * shm_life :=
  match cs with
  | [] => ([], s)
  | c :: cs' =>
      match life_choose c s with
      | Some (o, s1) =>
          if bool_decide (prompt_life s1) then let '(tr, s') := life_run cs' s1 in (option_list o ++ tr, s') else ([], s)
      | None => ([], s)
      end
  end.

Lemma life_choice_step c s o s' : life_choose c s = Some (o, s') → life_step s o s'.
Proof.
  destruct s as [now q cs], c as [i|i|ts]; simpl.
  - destruct (cs !! i) as [c|] eqn:Hi; [|done]. destruct (child_main now c) as [c'|] eqn:E; [|done]. intros [= <- <-].
    by eapply life_main.
  - destruct (cs !! i) as [c|] eqn:Hi; [|done]. destruct (child_run now c q) as [[[[q' ev] o']|]|] eqn:E; [|done..].
    intros [= <- <-]. by eapply life_worker.
  - destruct (ts_le now ts) eqn:E; [|done]. intros [= <- <-]. by constructor.
Qed.

Lemma life_run_exec cs s : exec prompt_life_step s (life_run cs s).1 (life_run cs s).2.
Proof.
  revert s. induction cs as [|c cs IH]; intros s; [constructor|]. cbn [life_run].
  destruct (life_choose c s) as [[o s1]|] eqn:Hc; [|constructor]. case_bool_decide as Hp; [|constructor].
  specialize (IH s1). destruct (life_run cs s1) as [tr s']. eapply exec_trans; [|exact IH].
  apply exec_one. split; [by eapply life_choice_step|done].
Qed.

(** ** Specification *)

(** What the processes do to the queue: a system of [ShmSystem]. *)
Definition life_threads (s : shm_life) : list (thread worker WorkItem) := (λ c, o_thread (cd_worker c)) <$> sl_children s.
Definition life_sys (s : shm_life) : shm_system worker := ShmSys (sl_now s) (sl_queue s) (life_threads s).

(** What is left of [main] fits how much there is of the worker. *)
Definition child_at (st : stage) (mapped : bool) (l : list child_statement) : Prop :=
  match st, l with
  | Unborn, [ChildNew; ChildSleep _; ChildDelete; ChildUnmap]
  | Based, [ChildDerive; ChildComplete; ChildSleep _; ChildDelete; ChildUnmap]
  | Derived, [ChildComplete; ChildSleep _; ChildDelete; ChildUnmap]
  | Whole, ([ChildSleep _; ChildDelete; ChildUnmap] | [ChildSleepUntil _; ChildDelete; ChildUnmap] | [ChildDelete; ChildUnmap])
  | Reduced, [ChildHalt; ChildJoin; ChildUnmap]
  | Halted, [ChildJoin; ChildUnmap]
  | Joined, [ChildUnmap] => mapped = true
  | Joined, [] => mapped = false
  | _, _ => False
  end.

Definition child_ok (c : child) : Prop :=
  coherent (cd_worker c) ∧ child_at (o_stage (cd_worker c)) (cd_mapped c) (cd_main c).

(** ** Proofs *)
#[export] Instance shm_run_loop_act : LoopAct (Q := ShmQueue) shm_run.
Proof.
  split; [|done..]. intros now th q q' ev th'.
  destruct th as [r s [|o|]]; cbn [shm_run]; intros Hr; [| |done].
  - destruct r; [|by injection Hr as <- <- <-]. apply bind_Ok in Hr as ([s' x] & _ & Hr). by injection Hr as <- <- <-.
  - destruct o as [t pc|pc]; apply bind_Ok in Hr as ([[[q1 e] [pc'|b]]|] & _ & Hr); [| | done| | |done];
      by injection Hr as <- <- <-.
Qed.

Lemma child_unmapped c : child_ok c → cd_mapped c = false → o_stage (cd_worker c) = Joined.
Proof.
  intros [_ Ha] Hm. unfold child_at in Ha. rewrite Hm in Ha.
  destruct (o_stage (cd_worker c)); [..|done]; exfalso; by repeat (case_match; try done).
Qed.

Lemma unmapped_idle now c q : child_ok c → cd_mapped c = false → child_run now c q = Ok None.
Proof.
  intros Hok Hm. pose proof (child_unmapped c Hok Hm) as Est. unfold child_run, object_run.
  destruct (o_thread (cd_worker c)). by rewrite Est.
Qed.

(** The thread's actions are those of [shm_run], or nothing to the queue. *)
Lemma child_run_cases now c q q' ev o' :
  child_ok c → prompt_object now (cd_worker c) → child_run now c q = Ok (Some (q', ev, o')) →
  child_ok (Child o' (cd_mapped c) (cd_main c)) ∧
  ((default q q' = q ∧ ev = None ∧ o_thread o' = o_thread (cd_worker c)) ∨
   shm_run now (o_thread (cd_worker c)) q = Ok (Some (default q q', ev, o_thread o'))).
Proof.
  intros Hok Hp Hr. destruct (cd_mapped c) eqn:Hm; [|by rewrite unmapped_idle in Hr].
  destruct Hok as [Hco Ha]. unfold child_run in Hr. rewrite Hm in Hr.
  destruct (object_run_cases shm_run _ _ _ _ _ _ Hco Hp ltac:(by eexists) Hr) as (_ & Est & _ & Hco' & [q1 ->] & Hcase).
  split; [split; [done|]; cbn [cd_worker cd_mapped cd_main]; by rewrite Est, <-Hm|]. cbn [default].
  destruct Hcase as [([= ->] & -> & Et)|(q0 & q2 & [= <-] & [= <-] & Hrun)]; [left|right]; done.
Qed.

Lemma child_run_fault now c q f :
  child_ok c → prompt_object now (cd_worker c) → child_run now c q = Fault f →
  shm_run now (o_thread (cd_worker c)) q = Fault f.
Proof.
  intros Hok Hp Hr. destruct (cd_mapped c) eqn:Hm; [|by rewrite unmapped_idle in Hr].
  unfold child_run in Hr. rewrite Hm in Hr. destruct Hok as [Hco _].
  by destruct (object_run_fault shm_run _ _ _ _ Hco Hp ltac:(by eexists) Hr) as (q0 & [= <-] & ?).
Qed.

(** A statement of [main] leaves the thread alone or stops it. *)
Lemma child_main_ok now c c' :
  child_ok c → child_main now c = Some c' →
  child_ok c' ∧ (o_thread (cd_worker c') = o_thread (cd_worker c) ∨
                 o_thread (cd_worker c') = stop (o_thread (cd_worker c))).
Proof.
  destruct c as [[sp st l [r s ph]] m main]. unfold child_ok, child_main. cbn [cd_worker cd_mapped cd_main o_stage o_thread].
  intros [(H1 & H2 & H3) Ha] E. unfold child_at in Ha. cbn [o_loop o_stage o_thread t_run t_phase] in *.
  destruct st; repeat (case_match; try done); simplify_eq;
    (split; [split; [|done]|]); unfold coherent; cbn in *; try (by left); try (by right); naive_solver.
Qed.

Lemma life_threads_insert now q cs i c c' :
  cs !! i = Some c → life_sys (ShmLife now q (<[i := c']> cs)) =
    ShmSys now q (<[i := o_thread (cd_worker c')]> (life_threads (ShmLife now q cs))).
Proof. intros _. unfold life_sys, life_threads. cbn. by rewrite list_fmap_insert. Qed.

Lemma life_thread s i c : sl_children s !! i = Some c → h_threads (life_sys s) !! i = Some (o_thread (cd_worker c)).
Proof. intros Hi. unfold life_sys, life_threads. cbn. by rewrite list_lookup_fmap, Hi. Qed.

Record life_inv (s : shm_life) : Prop := {
  lv_children : Forall child_ok (sl_children s);
  lv_prompt : prompt_life s
}.

(** Every step is a step of the system, or does nothing to it. *)
Lemma life_step_sys s o s' :
  life_inv s → prompt_life_step s o s' → exec shm_step (life_sys s) (option_list o) (life_sys s') ∧ life_inv s'.
Proof.
  intros [Hok Hp] [Hst Hp'].
  assert (Hgoal : exec shm_step (life_sys s) (option_list o) (life_sys s') ∧ Forall child_ok (sl_children s')).
  2: { by destruct Hgoal. }
  destruct Hst as [now q cs i c c' Hi Hm|now q cs i c q' ev o' Hi Hr|now now' q cs Hts].
  - pose proof (Forall_lookup_1 _ _ _ _ Hok Hi) as Hc. destruct (child_main_ok now c c' Hc Hm) as [Hc' Hth].
    split; [|by apply Forall_insert]. rewrite (life_threads_insert now q cs i c c' Hi). destruct Hth as [-> | ->].
    + rewrite list_insert_id by (by apply (life_thread (ShmLife now q cs))). constructor.
    + apply (exec_one shm_step _ None), shm_step_stop. by apply (life_thread (ShmLife now q cs)).
  - pose proof (Forall_lookup_1 _ _ _ _ Hok Hi) as Hc. pose proof (Forall_lookup_1 _ _ _ _ Hp Hi) as Hpc.
    destruct (child_run_cases now c q q' ev o' Hc Hpc Hr) as [Hc' Hcase].
    split; [|by apply Forall_insert]. rewrite (life_threads_insert now _ cs i c _ Hi). cbn [cd_worker].
    destruct Hcase as [(-> & -> & ->)|Hrun].
    + rewrite list_insert_id by (by apply (life_thread (ShmLife now q cs))). constructor.
    + apply exec_one. eapply shm_step_run; [by apply (life_thread (ShmLife now q cs))|done].
  - split; [|done]. by apply (exec_one shm_step _ None), shm_step_tick.
Qed.

Lemma life_exec_sys s tr s' :
  life_inv s → exec prompt_life_step s tr s' → exec shm_step (life_sys s) tr (life_sys s') ∧ life_inv s'.
Proof.
  intros Hi Hex. induction Hex as [s|s tr s1 o s2 Hex IH Hst]; [by split; [constructor|]|].
  destruct (IH Hi) as [Hx Hi1]. destruct (life_step_sys _ _ _ Hi1 Hst) as [Hx2 Hi2]. split; [|done].
  by eapply exec_trans.
Qed.

Lemma life_start_ok now region size qid ws :
  life_inv (life_start now region size qid ws) ∧
  life_sys (life_start now region size qid ws) = shm_initial now region size qid ((λ '(_, w, _), w) <$> ws).
Proof.
  unfold life_start, life_sys, life_threads, shm_initial. cbn [sl_now sl_queue sl_children]. split.
  - split; cbn [sl_now sl_children prompt_life]; apply Forall_fmap, Forall_true; intros [[sp w] secs]; [|done].
    by split_and!.
  - f_equal. rewrite <-!list_fmap_compose. apply list_fmap_ext. by intros _ [[sp w] secs] _.
Qed.
