(* ===== verification/ShmEnd.v ===== *)
(** * The processes that share the queue can always end
    (Chapter14/SharedMemory)

    From every state of the children of [ShmLife] each can go on to the end of
    its [main]: no join waits for ever. *)
From S2P Require Import Prelude Semaphore Items Queue QueueSystem QueueInv QueueLife QueueFinish Workers.
From S2P Require Import ShmQueue ShmSystem SimMain WorkerLoop ShmLife.

(** ** States with room in the counters *)
Definition life_room (s : shm_life) : Prop := room (abs_sys (life_sys s)).

Record good_life (s : shm_life) : Prop := {
  gl_life : life_inv s;
  gl_shm : shm_inv shm_worker_ok (life_sys s);
  gl_room : life_room s
}.

(** No worker is under construction. *)
Definition settled_child (c : child) : Prop := o_stage (cd_worker c) ≠ Based ∧ o_stage (cd_worker c) ≠ Derived.
#[export] Instance settled_child_dec c : Decision (settled_child c).
Proof. unfold settled_child. apply _. Defined.
Definition settled_life (s : shm_life) : Prop := Forall settled_child (sl_children s).
#[export] Instance settled_life_dec s : Decision (settled_life s).
Proof. unfold settled_life. apply _. Defined.

Lemma good_life_step s o s' : good_life s → prompt_life_step s o s' → life_room s' → good_life s'.
Proof.
  intros [Hi Hsh _] Hst Hr. destruct (life_step_sys _ _ _ Hi Hst) as [Hx Hi'].
  split; [done| |done]. by destruct (shm_exec_abs shm_worker_ok _ _ _ Hsh Hx).
Qed.

Lemma good_healthy s : good_life s → healthy shm_worker_ok (abs_sys (life_sys s)).
Proof. intros [_ [Hw Hq Hc Hf] Hr]. by split. Qed.

(** The threads and the clock go on, no [main] moves. *)
Definition mains_same (s s' : shm_life) : Prop :=
  (λ c, (cd_main c, cd_mapped c, o_stage (cd_worker c))) <$> sl_children s' =
  (λ c, (cd_main c, cd_mapped c, o_stage (cd_worker c))) <$> sl_children s.
Definition goes_on (s s' : shm_life) : Prop :=
  (∃ tr, exec prompt_life_step s tr s') ∧ good_life s' ∧ mains_same s s'.

Lemma goes_on_refl s : good_life s → goes_on s s.
Proof. intros H. split_and!; [|done..]. exists []. constructor. Qed.

Lemma goes_on_trans s1 s2 s3 : goes_on s1 s2 → goes_on s2 s3 → goes_on s1 s3.
Proof.
  intros ([tr1 E1] & _ & M1) ([tr2 E2] & G2 & M2). split_and!; [|done|by unfold mains_same in *; rewrite M2].
  exists (tr1 ++ tr2). by eapply exec_trans.
Qed.

Lemma goes_on_settled s s' : goes_on s s' → settled_life s → settled_life s'.
Proof.
  intros (_ & _ & M) Hs. apply Forall_lookup. intros i c' Hi. assert (E := f_equal (.!! i) M). cbn in E.
  rewrite !list_lookup_fmap, Hi in E. destruct (sl_children s !! i) as [c|] eqn:Hc; [|done]. injection E as _ _ E.
  pose proof (Forall_lookup_1 _ _ _ _ Hs Hc) as Hset. unfold settled_child in *. by rewrite E.
Qed.

Lemma goes_on_child s s' i c : goes_on s s' → sl_children s !! i = Some c →
  ∃ c', sl_children s' !! i = Some c' ∧ cd_main c' = cd_main c ∧ cd_mapped c' = cd_mapped c ∧
    o_stage (cd_worker c') = o_stage (cd_worker c).
Proof.
  intros (_ & _ & M) Hc. assert (E := f_equal (.!! i) M). cbn in E. rewrite !list_lookup_fmap, Hc in E.
  destruct (sl_children s' !! i) as [c'|] eqn:Hc'; [|done]. injection E as E1 E2 E3. by exists c'.
Qed.

Lemma settled_prompt now c : settled_child c → prompt_object now (cd_worker c).
Proof. intros [H1 H2]. unfold prompt_object. by destruct (o_stage (cd_worker c)). Qed.

Lemma tick_goes_on s ts : good_life s → settled_life s → ts_le (sl_now s) ts = true →
  goes_on s (ShmLife ts (sl_queue s) (sl_children s)).
Proof.
  intros Hg Hs Hts. destruct s as [now q cs]. cbn [sl_now sl_queue sl_children] in *.
  assert (Hst : prompt_life_step (ShmLife now q cs) None (ShmLife ts q cs)).
  { split; [by apply life_clock|]. eapply Forall_impl; [exact Hs|]. intros c. apply settled_prompt. }
  split; [exists (option_list None); by apply exec_one|]. split; [|done]. eapply good_life_step; [done..|]. apply Hg.
Qed.

(** A thread's action goes on, if it leaves room and the stage alone. *)
Lemma act_goes_on s i c q' ev o' :
  good_life s → sl_children s !! i = Some c → child_run (sl_now s) c (sl_queue s) = Ok (Some (q', ev, o')) →
  o_stage o' = o_stage (cd_worker c) → prompt_object (sl_now s) o' →
  let s' := ShmLife (sl_now s) (default (sl_queue s) q') (<[i := Child o' (cd_mapped c) (cd_main c)]> (sl_children s)) in
  life_room s' → goes_on s s'.
Proof.
  intros Hg Hi Hrun Hst Hp s' Hr. destruct s as [now q cs]. cbn [sl_now sl_queue sl_children] in *.
  assert (Hstep : prompt_life_step (ShmLife now q cs) (tag i ev) s').
  { split; [by eapply life_worker|]. apply Forall_insert; [apply (lv_prompt _ (gl_life _ Hg))|done]. }
  split; [exists (option_list (tag i ev)); by apply exec_one|]. split; [by eapply good_life_step|].
  unfold mains_same, s'. cbn [sl_children]. rewrite list_fmap_insert. cbn [cd_main cd_mapped cd_worker]. rewrite Hst.
  apply list_insert_id. by rewrite list_lookup_fmap, Hi.
Qed.

(** The system under a replaced worker. *)
Lemma abs_sys_insert now q cs i c c' :
  cs !! i = Some c → abs_sys (life_sys (ShmLife now q (<[i := c']> cs))) =
    System now (abs q) (<[i := o_thread (cd_worker c')]> (life_threads (ShmLife now q cs))).
Proof. intros Hi. unfold abs_sys. by rewrite (life_threads_insert now q cs i c c' Hi). Qed.

(** What the threads can do inside their calls on Chapter12's queue, those of
    the processes can do. *)
Lemma calls_lift_life s tr a :
  good_life s → settled_life s → exec call_step (abs_sys (life_sys s)) tr a →
  ∃ s', goes_on s s' ∧ abs_sys (life_sys s') = a.
Proof.
  intros Hg Hs Hex.
  refine (exec_invariant call_step (λ a, ∃ s', goes_on s s' ∧ abs_sys (life_sys s') = a) _ _ _ _ _ Hex).
  2: { exists s. split; [by apply goes_on_refl|done]. }
  clear - Hs. intros a o a' (s1 & H1 & Ea) Hst. assert (Hg1 : good_life s1) by apply H1.
  destruct Hst as [now q ths j th q' ev th' Hj Hop Hrun|now now' q ths Ht]; injection Ea as <- <- <-.
  - cbn [abs_sys life_sys s_now s_queue s_threads h_now h_queue h_threads] in *.
    unfold life_threads in Hj. rewrite list_lookup_fmap in Hj. apply fmap_Some in Hj as (c & Hc & ->).
    pose proof (Forall_lookup_1 _ _ _ _ (lv_children _ (gl_life _ Hg1)) Hc) as Hok.
    assert (Hco : coherent (cd_worker c)) by apply Hok.
    destruct (object_run_working shm_run (sl_now s1) (cd_worker c) (Some (sl_queue s1)) Hco Hop) as (Er & _ & Hnj & Hpo).
    assert (Hm : cd_mapped c = true).
    { destruct (cd_mapped c) eqn:Em; [done|]. exfalso. by apply Hnj, child_unmapped. }
    destruct (shm_inv_thread shm_worker_ok _ j _ (gl_shm _ Hg1) (life_thread s1 j c Hc)) as [E Hw].
    cbn [life_sys h_now h_queue] in E. rewrite Hrun in E.
    destruct (shm_run (sl_now s1) (o_thread (cd_worker c)) (sl_queue s1)) as [[[[q1 ev1] th1]|]|] eqn:Es; [|done..].
    injection E as -> -> ->.
    assert (Hcr : child_run (sl_now s1) c (sl_queue s1) = Ok (Some (Some q1, ev1, with_thread th1 (cd_worker c)))).
    { unfold child_run. rewrite Hm, Er. cbn [thread_run]. by rewrite Es. }
    assert (Ea : abs_sys (life_sys (ShmLife (sl_now s1) q1
      (<[j := Child (with_thread th1 (cd_worker c)) (cd_mapped c) (cd_main c)]> (sl_children s1)))) =
      System (sl_now s1) (abs q1) (<[j := th1]> (life_threads s1))) by (by rewrite (abs_sys_insert _ _ _ _ c)).
    eexists. split; [eapply goes_on_trans; [exact H1|]|exact Ea].
    apply (act_goes_on s1 j c (Some q1) ev1); try done.
    pose proof (run_room _ _ _ j _ _ _ _ (life_thread s1 j c Hc) (or_introl Hop) Hrun (gl_room _ Hg1)) as Hroom.
    cbn [life_sys h_threads] in Hroom. rewrite <-Ea in Hroom. exact Hroom.
  - exists (ShmLife now' (sl_queue s1) (sl_children s1)). split; [|done]. eapply goes_on_trans; [exact H1|].
    apply tick_goes_on; [done|by eapply goes_on_settled|done].
Qed.

(** ** A stopped thread *)
Lemma finish_child_call s i c :
  good_life s → settled_life s → sl_children s !! i = Some c → op_of (o_thread (cd_worker c)) ≠ None →
  ∃ s' c', goes_on s s' ∧ sl_children s' !! i = Some c' ∧ op_of (o_thread (cd_worker c')) = None.
Proof.
  intros Hg Hs Hi Hop.
  destruct (finish_call shm_worker_ok _ (abs_sys (life_sys s)) i _ (le_n _) (good_healthy s Hg) (life_thread s i c Hi) Hop)
    as (tr & a & th & Hx & Hth & Eop).
  destruct (calls_lift_life s tr a Hg Hs Hx) as (s' & Hgo & <-).
  destruct (goes_on_child s s' i c Hgo Hi) as (c' & Hi' & _). exists s', c'. split; [done|]. split; [done|].
  cbn [abs_sys s_threads] in Hth. rewrite (life_thread s' i c' Hi') in Hth. by injection Hth as ->.
Qed.

Definition child_exits (s : shm_life) (i : nat) : Prop :=
  ∃ s' c', goes_on s s' ∧ sl_children s' !! i = Some c' ∧ t_phase (o_thread (cd_worker c')) = Exited.

Lemma child_exits_later s s' i : goes_on s s' → child_exits s' i → child_exits s i.
Proof. intros H (s2 & c2 & H2 & Hi2 & E2). exists s2, c2. split_and!; [by eapply goes_on_trans|done..]. Qed.

Lemma halted_child_exits n s i c :
  (halt_rank (cd_worker c) ≤ n)%nat → good_life s → settled_life s → sl_children s !! i = Some c →
  o_stage (cd_worker c) = Halted → op_of (o_thread (cd_worker c)) = None → child_exits s i.
Proof.
  revert s c. induction n as [|n IH]; intros s c Hn Hg Hs Hi Hst Hop;
    (destruct (t_phase (o_thread (cd_worker c))) as [|op|] eqn:Ep; [|by unfold op_of in Hop; rewrite Ep in Hop|
      exists s, c; split_and!; [by apply goes_on_refl|done..]]).
  { exfalso. unfold halt_rank in Hn. rewrite Ep in Hn. destruct (o_loop (cd_worker c)); lia. }
  destruct (wake_reached (sl_now s) (o_loop (cd_worker c))) as (ts & Hts & Hw).
  pose proof (tick_goes_on s ts Hg Hs Hts) as H1. eapply child_exits_later; [exact H1|].
  set (s1 := ShmLife ts (sl_queue s) (sl_children s)) in *. assert (Hg1 : good_life s1) by apply H1.
  pose proof (Forall_lookup_1 _ _ _ _ (lv_children _ (gl_life _ Hg1)) Hi) as Hok.
  assert (Hco : coherent (cd_worker c)) by apply Hok.
  assert (Hm : cd_mapped c = true).
  { destruct (cd_mapped c) eqn:Em; [done|]. pose proof (child_unmapped c Hok Em). congruence. }
  destruct (halted_acts shm_run ts (cd_worker c) (Some (sl_queue s)) Hco Hst Ep Hw) as (o' & Hrun & _ & _ & Hst' & Hop' & Hlt).
  assert (Hcr : child_run (sl_now s1) c (sl_queue s1) = Ok (Some (Some (sl_queue s1), None, o')))
    by (unfold child_run; by rewrite Hm).
  assert (H2 := act_goes_on s1 i c _ None o' Hg1 Hi Hcr ltac:(congruence)).
  specialize (H2 ltac:(unfold prompt_object; by rewrite Hst')). cbn zeta in H2. cbn [default] in H2.
  eapply child_exits_later; [apply H2|].
  - pose proof (room_quiet _ _ _ i _ (o_thread o') (life_thread s1 i c Hi) Hop Hop' (gl_room _ Hg1)) as Hroom.
    unfold life_room. rewrite (abs_sys_insert _ _ _ _ c) by done. exact Hroom.
  - apply (IH _ (Child o' (cd_mapped c) (cd_main c))); try done; [cbn; lia| | |].
    + apply H2. pose proof (room_quiet _ _ _ i _ (o_thread o') (life_thread s1 i c Hi) Hop Hop' (gl_room _ Hg1)) as Hroom.
      unfold life_room. rewrite (abs_sys_insert _ _ _ _ c) by done. exact Hroom.
    + apply Forall_insert; [done|]. split; cbn; congruence.
    + apply list_lookup_insert_eq. by eapply lookup_lt_Some.
Qed.

Lemma stopped_child_exits s i c :
  good_life s → settled_life s → sl_children s !! i = Some c → o_stage (cd_worker c) = Halted → child_exits s i.
Proof.
  intros Hg Hs Hi Hst.
  assert (∃ s1 c1, goes_on s s1 ∧ sl_children s1 !! i = Some c1 ∧ op_of (o_thread (cd_worker c1)) = None)
    as (s1 & c1 & H1 & Hi1 & Hop1).
  { destruct (op_of (o_thread (cd_worker c))) as [op|] eqn:Eop; [|exists s, c; split_and!; [by apply goes_on_refl|done..]].
    apply (finish_child_call s i c); try done. by rewrite Eop. }
  eapply child_exits_later; [exact H1|].
  destruct (goes_on_child s s1 i c H1 Hi) as (c1' & Hi1' & _ & _ & Est). rewrite Hi1 in Hi1'. injection Hi1' as <-.
  apply (halted_child_exits _ s1 i c1 (le_n _)); try done; [apply H1|by eapply goes_on_settled|congruence].
Qed.

(** ** [main] *)
Definition child_weight (st : child_statement) : nat :=
  match st with ChildNew | ChildDelete => 3 | ChildSleep _ => 2 | _ => 1 end.
Definition left_of (c : child) : nat := sum_list_with child_weight (cd_main c).

Lemma child_main_weight now c c' : child_main now c = Some c' → (left_of c' < left_of c)%nat.
Proof.
  unfold child_main, left_of. destruct c as [o m [|st rest]]; cbn; [done|]. intros E.
  destruct st; cbn in *; repeat (case_match; try done); simplify_eq; cbn; lia.
Qed.

Lemma main_steps s i c c' :
  good_life s → sl_children s !! i = Some c → child_main (sl_now s) c = Some c' →
  let s' := ShmLife (sl_now s) (sl_queue s) (<[i := c']> (sl_children s)) in
  prompt_life_step s None s' ∧ good_life s'.
Proof.
  intros Hg Hi Hm s'. destruct s as [now q cs]. cbn [sl_now sl_queue sl_children] in *.
  destruct (gl_life _ Hg) as [Hok Hp]. pose proof (Forall_lookup_1 _ _ _ _ Hok Hi) as Hc.
  pose proof (Forall_lookup_1 _ _ _ _ Hp Hi) as Hpc. cbn [sl_now] in Hpc.
  destruct (child_main_ok now c c' Hc Hm) as [Hc' Hth].
  assert (Hpc' : prompt_object now (cd_worker c')).
  { destruct Hc as [(Hl & _ & Hst) Ha]. destruct c as [[sp st l th] m main].
    unfold child_main in Hm. unfold child_at in Ha. cbn in *.
    destruct st; repeat (case_match; try done); simplify_eq; try done; unfold prompt_object in *; cbn in *; try done.
    by destruct Hst as (_ & _ & ->). }
  assert (Hstep : prompt_life_step (ShmLife now q cs) None s') by (split; [by eapply life_main|by apply Forall_insert]).
  split; [done|]. eapply good_life_step; [done..|]. unfold life_room, s'. rewrite (abs_sys_insert _ _ _ _ c) by done.
  pose proof (life_thread (ShmLife now q cs) i c Hi) as Hl. cbn [life_sys h_threads] in Hl.
  destruct (gl_room _ Hg) as [R1 R2]. unfold room in *. cbn [abs_sys life_sys s_queue s_threads h_queue h_threads] in *.
  rewrite !(zsum_insert _ _ _ _ _ Hl).
  assert (E : ∀ f, count_op f (o_thread (cd_worker c')) = count_op f (o_thread (cd_worker c)))
    by (intros f; destruct Hth as [-> | ->]; [done|by destruct (o_thread (cd_worker c))]).
  rewrite !E. cbn [sl_queue] in *. lia.
Qed.

(** Some [main] that is not at its end has a next statement, after what it has
    to wait for. *)
Lemma some_main_goes_on s :
  good_life s → Exists (λ c, cd_main c ≠ []) (sl_children s) →
  ∃ s1 i c c', goes_on s s1 ∧ sl_children s1 !! i = Some c ∧ child_main (sl_now s1) c = Some c'.
Proof.
  intros Hg Hex.
  destruct (decide (settled_life s)) as [Hs|Hns].
  - apply Exists_exists in Hex as (c & Hin & Hne). apply list_elem_of_lookup in Hin as [i Hi].
    pose proof (Forall_lookup_1 _ _ _ _ (lv_children _ (gl_life _ Hg)) Hi) as [_ Ha].
    assert (Hnow : (∃ c', child_main (sl_now s) c = Some c') →
      ∃ s1 i c c', goes_on s s1 ∧ sl_children s1 !! i = Some c ∧ child_main (sl_now s1) c = Some c').
    { intros [c' E]. exists s, i, c, c'. split; [by apply goes_on_refl|done]. }
    destruct (cd_main c) as [|st rest] eqn:Em; [done|]. unfold child_main in Hnow. rewrite Em in Hnow.
    destruct st as [| | | |ts| | | |]; try (apply Hnow; by eexists).
    + destruct (clock_reaches (sl_now s) ts) as (t & Ht & Hts).
      exists (ShmLife t (sl_queue s) (sl_children s)), i, c. eexists. split; [by apply tick_goes_on|]. split; [done|].
      unfold child_main. cbn [sl_now]. rewrite Em, Hts. done.
    + assert (Est : o_stage (cd_worker c) = Halted).
      { unfold child_at in Ha. destruct (o_stage (cd_worker c)); try done; by repeat (case_match; try done). }
      destruct (stopped_child_exits s i c Hg Hs Hi Est) as (s1 & c1 & Hgo & Hi1 & Ex).
      destruct (goes_on_child s s1 i c Hgo Hi) as (c1' & Hi1' & Em1 & _). rewrite Hi1 in Hi1'. injection Hi1' as <-.
      exists s1, i, c1. eexists. split; [done|]. split; [done|]. unfold child_main. rewrite Em1, Em, Ex. done.
  - apply not_Forall_Exists in Hns; [|apply _]. apply Exists_exists in Hns as (c & Hin & Hu).
    apply list_elem_of_lookup in Hin as [i Hi].
    pose proof (Forall_lookup_1 _ _ _ _ (lv_children _ (gl_life _ Hg)) Hi) as [_ Ha].
    exists s, i, c. destruct c as [[sp st l th] m main]. unfold settled_child, child_at in *. cbn in *.
    unfold child_main. cbn. destruct st; try (exfalso; by apply Hu);
      repeat (case_match; try done); eexists; (split; [by apply goes_on_refl|done]).
Qed.

Lemma children_can_end s :
  good_life s → ∃ tr s', exec prompt_life_step s tr s' ∧ good_life s' ∧ Forall (λ c, cd_main c = []) (sl_children s').
Proof.
  remember (sum_list_with left_of (sl_children s)) as n eqn:En.
  assert (Hn : (sum_list_with left_of (sl_children s) ≤ n)%nat) by lia. clear En.
  revert s Hn. induction n as [|n IH]; intros s Hn Hg;
    (destruct (decide (Forall (λ c, cd_main c = []) (sl_children s))) as [Hend|Hnot];
      [by exists [], s; split_and!; [constructor|..]|]);
    apply not_Forall_Exists in Hnot; try apply _;
    destruct (some_main_goes_on s Hg Hnot) as (s1 & i & c & c' & ([tr1 E1] & Hg1 & M) & Hi & Hm);
    pose proof (child_main_weight _ _ _ Hm) as Hw;
    assert (Esum : sum_list_with left_of (sl_children s1) = sum_list_with left_of (sl_children s)).
  all: try (assert (E : ∀ l, sum_list_with left_of l = sum_list_with (λ x, sum_list_with child_weight x.1.1)
      ((λ c, (cd_main c, cd_mapped c, o_stage (cd_worker c))) <$> l)) by (clear; induction l as [|c l IHl]; [done|]; cbn; by rewrite IHl);
    by rewrite !E, M).
  all: destruct (main_steps s1 i c c' Hg1 Hi Hm) as [Hst Hg2].
  - pose proof (sum_list_with_in c left_of (sl_children s1) ltac:(by eapply list_elem_of_lookup_2)). lia.
  - pose proof (sum_insert left_of _ i c c' Hi) as Hsum.
    destruct (IH (ShmLife (sl_now s1) (sl_queue s1) (<[i := c']> (sl_children s1)))) as (tr & s' & Hx & Hg' & Hall);
      [cbn [sl_children]; lia|done|].
    exists (tr1 ++ option_list None ++ tr), s'. split_and!; [|done..].
    eapply exec_trans; [exact E1|]. eapply exec_trans; [|exact Hx]. by apply exec_one.
Qed.
