(* ===== verification/ShmLifeProps.v ===== *)
(** * Properties of the processes that share the queue
    (Chapter14/SharedMemory)

    What the workers of the child processes do from their construction to
    [munmap], with a witness: a whole run of both children. *)
From S2P Require Import Prelude Semaphore Items Queue QueueSystem QueueInv QueueFifo QueueLife QueueFinish Workers.
From S2P Require Import QueueProps ShmQueue ShmSystem ShmProps Scheduler SimMain WorkerLoop ShmLife ShmEnd.

(** ** A run of both children *)

(** The spawn only has numbers for [set_scheduler]. *)
Definition demo_spawn : spawn := MkSpawn 0 7 1000 SCHED_OTHER 1.
Definition demo_life : shm_life :=
  life_start epoch sim_region QUEUE_SIZE 7
    [(demo_spawn, WProducer (Producer_ctor 7 blank_item sim_rands), 3); (demo_spawn, WConsumer (Consumer_ctor 7), 5)].

(** Both make their worker; the producer pushes an item and starts on the next,
    which the deletion lets it push; the consumer pops both, the second with
    its last call; each unmaps the region. *)
Definition demo_life_turns : list life_choice :=
  ChildMain 0 :: ChildAct 0 :: repeat (ChildMain 0) 3 ++ repeat (ChildMain 1) 4 ++ ChildAct 1 :: LifeClock (Timespec 2 0) ::
  repeat (ChildAct 0) 16 ++ repeat (ChildAct 1) 16 ++ LifeClock (Timespec 3 0) :: repeat (ChildMain 0) 3 ++
  repeat (ChildAct 0) 8 ++ repeat (ChildMain 0) 2 ++ LifeClock (Timespec 5 0) :: repeat (ChildMain 1) 3 ++
  repeat (ChildAct 1) 10 ++ repeat (ChildMain 1) 2.
Definition demo_life_run : list (label WorkItem) * shm_life := life_run demo_life_turns demo_life.

(** ** The properties *)
Definition workers_of (ws : list (spawn * worker * Z)) : list worker := (λ '(_, w, _), w) <$> ws.

(** C10. Processes that share a queue, each constructing its worker, sleeping,
    deleting the worker and unmapping the region while the workers' threads run,
    as long as every worker is constructed within the two seconds its thread
    sleeps: what they do is an execution of worker threads on the shared queue;
    no thread has undefined behaviour (none touches the region once its process
    has unmapped it) while the counters fit; a process that has unmapped it has
    joined its thread; when all have, the queue's counters, which the parent
    reports, are the numbers of items pushed and popped; and with one producer
    and one consumer the consumer has received exactly the producer's first
    items, whole and in order. *)
Theorem children_share_the_queue now region size qid ws tr s :
  0 < size ≤ MAX_QUEUE_SIZE → (sizeof_Queue + Z.to_nat size * ITEM_SIZE ≤ length region)%nat →
  Forall shm_worker_ok (workers_of ws) →
  exec prompt_life_step (life_start now region size qid ws) tr s →
  exec shm_step (shm_initial now region size qid (workers_of ws)) tr (life_sys s) ∧
  (counters_fit (abs (sl_queue s)) → ¬ child_fault s) ∧
  (∀ i c, sl_children s !! i = Some c → cd_mapped c = false → t_phase (o_thread (cd_worker c)) = Exited) ∧
  (Forall (λ c, cd_mapped c = false) (sl_children s) →
   sm_pushed_count (sl_queue s) = len (pushed (events tr)) ∧ sm_popped_count (sl_queue s) = len (popped (events tr)) ∧
   sm_cur_count (sl_queue s) = sm_pushed_count (sl_queue s) - sm_popped_count (sl_queue s)) ∧
  (∀ pid junk r cid, workers_of ws = [WProducer (Producer_ctor pid junk r); WConsumer (Consumer_ctor cid)] →
   let got := popped (events tr) in
   id <$> got = item_ids (ITEM_STARTING_ID_EACH_PRODUCER * u32 pid) (length got) ∧
   Forall (λ it, ∃ n, cooked it n) got ∧ len got ≤ len (pushed_by 0 tr) ≤ len got + size).
Proof.
  intros Hs Hr Hws Hex. destruct (life_start_ok now region size qid ws) as [Hi Es].
  destruct (life_exec_sys _ _ _ Hi Hex) as [Hx [Hok Hp]]. rewrite Es in Hx. fold (workers_of ws) in Hx.
  pose proof (shm_initial_inv shm_worker_ok now region size qid _ Hs Hr Hws) as Hi0.
  destruct (shm_exec_abs shm_worker_ok _ _ _ Hi0 Hx) as [Ha Hi'].
  pose (arr := m_arr (abs (ShmQueue_ctor region size qid))).
  assert (Harr : Z.of_nat (length arr) = size).
  { subst arr. cbn [abs m_arr ShmQueue_ctor sm_size]. rewrite length_fmap, length_seq. lia. }
  assert (Hexit : ∀ i c, sl_children s !! i = Some c → cd_mapped c = false → t_phase (o_thread (cd_worker c)) = Exited).
  { intros i c Hc Hm. pose proof (Forall_lookup_1 _ _ _ _ Hok Hc) as Hcok. pose proof (child_unmapped c Hcok Hm) as Est.
    destruct Hcok as [(_ & _ & Hst) _]. rewrite Est in Hst. apply Hst. }
  split_and!; [done| |done| |].
  - intros Hc (i & c & f & Hci & Hf). pose proof (Forall_lookup_1 _ _ _ _ Hok Hci) as Hcok.
    pose proof (child_run_fault _ c _ f Hcok (Forall_lookup_1 _ _ _ _ Hp Hci) Hf) as Hrun.
    apply (inv_no_fault shm_worker_ok (abs_sys (life_sys s))); [apply Hi'..|exact Hc|].
    apply (shm_fault_abs shm_worker_ok); [done|]. eexists i, _, f. split; [by apply life_thread|done].
  - intros Hun. destruct (queue_report_counts now arr size qid (workers_of ws) tr (abs_sys (life_sys s)) Hs Harr Ha) as (H1 & H2 & H3 & _).
    + unfold quiescent. apply Forall_fmap, Forall_lookup. intros i c Hc. cbn.
      unfold op_of. by rewrite (Hexit i c Hc (Forall_lookup_1 _ _ _ _ Hun Hc)).
    + by split_and!.
  - intros pid junk r cid Ews. rewrite Ews in Ha, Hws. apply Forall_cons in Hws as [([Hrand Hitem] & _) _].
    by apply (consumer_gets_producer_stream now arr size qid pid cid junk r tr (abs_sys (life_sys s))).
Qed.

Lemma children_share_the_queue_witness :
  let r := demo_life_run in
  (cd_mapped <$> sl_children r.2) = [false; false] ∧ id <$> popped (events r.1) = [2100000; 2100001] ∧
  sm_pushed_count (sl_queue r.2) = 2 ∧ len (popped (events r.1)) = 2 ∧ ¬ child_fault r.2 ∧
  id <$> popped (events r.1) = item_ids (ITEM_STARTING_ID_EACH_PRODUCER * u32 7) (length (popped (events r.1))).
Proof.
  cbv zeta.
  assert (E1 : (cd_mapped <$> sl_children demo_life_run.2) = [false; false]) by (vm_compute; reflexivity).
  assert (E2 : id <$> popped (events demo_life_run.1) = [2100000; 2100001]) by (vm_compute; reflexivity).
  assert (E3 : counters_fit (abs (sl_queue demo_life_run.2))) by (vm_compute; split; reflexivity).
  assert (E4 : len (popped (events demo_life_run.1)) = 2) by (vm_compute; reflexivity).
  assert (E5 : sm_pushed_count (sl_queue demo_life_run.2) = 2) by (vm_compute; reflexivity).
  destruct (children_share_the_queue epoch sim_region QUEUE_SIZE 7
    [(demo_spawn, WProducer (Producer_ctor 7 blank_item sim_rands), 3); (demo_spawn, WConsumer (Consumer_ctor 7), 5)]
    demo_life_run.1 demo_life_run.2) as (_ & Hno & _ & _ & Hgot).
  - unfold QUEUE_SIZE, MAX_QUEUE_SIZE. lia.
  - apply Nat.leb_le. vm_compute. reflexivity.
  - apply (sim_workers_ok 7).
  - apply life_run_exec.
  - split_and!; [done..|by apply Hno|]. by apply (Hgot 7 blank_item sim_rands 7).
Defined.

(** C14. From every state those processes reach with their workers constructed
    in time, and with room in the counters for the calls under way, they can all go on to the end of their [main]: no join
    waits for ever, whoever holds the queue's lock and however full or empty
    the queue is, and in the end every worker's thread has exited and every
    process has unmapped the region. *)
Theorem children_can_always_end now region size qid ws tr s :
  0 < size ≤ MAX_QUEUE_SIZE → (sizeof_Queue + Z.to_nat size * ITEM_SIZE ≤ length region)%nat →
  Forall shm_worker_ok (workers_of ws) →
  exec prompt_life_step (life_start now region size qid ws) tr s → life_room s →
  ∃ tr' s', exec prompt_life_step s tr' s' ∧
    Forall (λ c, cd_main c = [] ∧ cd_mapped c = false ∧ t_phase (o_thread (cd_worker c)) = Exited) (sl_children s').
Proof.
  intros Hs Hr Hws Hex Hroom. destruct (life_start_ok now region size qid ws) as [Hi Es].
  destruct (life_exec_sys _ _ _ Hi Hex) as [Hx Hi']. rewrite Es in Hx. fold (workers_of ws) in Hx.
  destruct (shm_exec_abs shm_worker_ok _ _ _ (shm_initial_inv shm_worker_ok now region size qid _ Hs Hr Hws) Hx) as [_ Hsh].
  destruct (children_can_end s) as (tr' & s' & He & Hg & Hend); [by split|]. exists tr', s'. split; [done|].
  apply Forall_lookup. intros i c Hc. pose proof (Forall_lookup_1 _ _ _ _ Hend Hc) as Em.
  destruct (Forall_lookup_1 _ _ _ _ (lv_children _ (gl_life _ Hg)) Hc) as [(_ & _ & Hst) Ha].
  unfold child_at in Ha. rewrite Em in Ha. destruct (o_stage (cd_worker c)); try done. by destruct Hst.
Qed.

(** Both workers are at work, the producer's item is in the queue. *)
Definition demo_working : list (label WorkItem) * shm_life := life_run (take 30 demo_life_turns) demo_life.

Lemma children_can_always_end_witness :
  ∃ tr' s', exec prompt_life_step demo_working.2 tr' s' ∧
    Forall (λ c, cd_main c = [] ∧ cd_mapped c = false ∧ t_phase (o_thread (cd_worker c)) = Exited) (sl_children s').
Proof.
  apply (children_can_always_end epoch sim_region QUEUE_SIZE 7
    [(demo_spawn, WProducer (Producer_ctor 7 blank_item sim_rands), 3); (demo_spawn, WConsumer (Consumer_ctor 7), 5)]
    demo_working.1).
  - unfold QUEUE_SIZE, MAX_QUEUE_SIZE. lia.
  - apply Nat.leb_le. vm_compute. reflexivity.
  - apply (sim_workers_ok 7).
  - apply life_run_exec.
  - vm_compute. split; reflexivity.
Defined.
