(* ===== verification/SimThreads.v ===== *)
(** * Chapter 12: the simulation as a whole

    The main program of Chapter12/Sim/ProducerConsumerSim.cpp together with
    the threads it starts: the worker objects and their threads, of
    [WorkerLoop]; the queues of the cores; and the statements of [main] one
    action at a time, interleaved with the threads. *)
From S2P Require Import Prelude Semaphore Queue QueueSystem Items Workers Scheduler Getopt SimMain WorkerLoop.

(** ** The main program *)
Inductive kind := AProducer | AConsumer.
#[export] Instance kind_eq_dec : EqDecision kind.
Proof. solve_decision. Defined.

(** The statements of [main], and the actions some of them go on with. *)
Inductive statement :=
  | NewQueue (id : nat)
  | New (k : kind) (i : nat) | Derive (k : kind) (i : nat) | Complete (k : kind) (i : nat)
  | Sleep (secs : Z) | SleepUntil (ts : timespec)
  | Delete (k : kind) (i : nat) | Halt (k : kind) (i : nat) | Join (k : kind) (i : nat)
  | DeleteArray (a : allocation) | DeleteObject (a : allocation)
  | DeleteQueue (id : nat).

Record program := Program {
  g_now : timespec;
  g_queues : list (option (Queue WorkItem));
  g_producers : list object;
  g_consumers : list object;
  g_main : list statement
}.

Definition objects (k : kind) (p : program) : list object :=
  match k with AProducer => g_producers p | AConsumer => g_consumers p end.
Definition set_objects (k : kind) (os : list object) (p : program) : program :=
  match k with
  | AProducer => Program (g_now p) (g_queues p) os (g_consumers p) (g_main p)
  | AConsumer => Program (g_now p) (g_queues p) (g_producers p) os (g_main p)
  end.
Definition set_queues (qs : list (option (Queue WorkItem))) (p : program) : program :=
  Program (g_now p) qs (g_producers p) (g_consumers p) (g_main p).
Definition set_main (l : list statement) (p : program) : program :=
  Program (g_now p) (g_queues p) (g_producers p) (g_consumers p) l.
Definition set_now (now : timespec) (p : program) : program :=
  Program now (g_queues p) (g_producers p) (g_consumers p) (g_main p).

Section Program.
(** The size of the queues, and what is in their memory to begin with. *)
Context (size : Z) (slots : nat → list WorkItem).

Definition fresh_queue (id : nat) : Queue WorkItem := Queue_ctor (slots id) size (Z.of_nat id).

Definition on_object (k : kind) (i : nat) (f : object → object) (p : program) : outcome (option program) :=
  match objects k p !! i with
  | Some o => Ok (Some (set_objects k (<[i := f o]> (objects k p)) p))
  | None => Fault OutOfBounds
  end.

(** The next action of [main]; [None] while it sleeps or waits in
    [pthread_join], and when it has returned. *)
Definition main_run (p : program) : outcome (option program) :=
  match g_main p with
  | [] => Ok None
  | st :: rest =>
      let p' := set_main rest p in
      match st with
      | NewQueue id => Ok (Some (set_queues (<[id := Some (fresh_queue id)]> (g_queues p)) p'))
      | New k i => on_object k i (with_stage Based) (set_main (Derive k i :: Complete k i :: rest) p)
      | Derive k i => on_object k i (with_stage Derived) p'
      | Complete k i => on_object k i (with_stage Whole) p'
      | Sleep secs => Ok (Some (set_main (SleepUntil (later (g_now p) (u32 secs)) :: rest) p))
      | SleepUntil ts => if ts_le ts (g_now p) then Ok (Some p') else Ok None
      | Delete k i => on_object k i (with_stage Reduced) (set_main (Halt k i :: Join k i :: rest) p)
      | Halt k i => on_object k i halt p'
      | Join k i =>
          match objects k p !! i with
          | Some o =>
              match t_phase (o_thread o) with Exited => on_object k i (with_stage Joined) p' | _ => Ok None end
          | None => Fault OutOfBounds
          end
      | DeleteArray a => _ ← delete_array a; Ok (Some p')
      | DeleteObject a => _ ← delete_object a; Ok (Some p')
      | DeleteQueue id => Ok (Some (set_queues (<[id := None]> (g_queues p)) p'))
      end
  end.

(** ** Steps *)
Definition label : Type := kind * nat * event WorkItem.

Definition queue_index (o : object) : nat := Z.to_nat (sp_queue (o_spawn o)).
Definition queue_of (o : object) (p : program) : option (Queue WorkItem) :=
  g_queues p !! queue_index o ≫= λ q, q.

(** Object [i] of kind [k] acts. *)
Definition object_act (k : kind) (i : nat) (p : program) : outcome (option (option label * program)) :=
  match objects k p !! i with
  | None => Ok None
  | Some o =>
      r ← object_run run (g_now p) o (queue_of o p);
      match r with
      | Some (q', ev, o') =>
          Ok (Some (match ev with Some e => Some (k, i, e) | None => None end,
            set_queues (<[queue_index o := q']> (g_queues p)) (set_objects k (<[i := o']> (objects k p)) p)))
      | None => Ok None
      end
  end.

Inductive prog_step : program → option label → program → Prop :=
  | step_main p p' : main_run p = Ok (Some p') → prog_step p None p'
  | step_object k i p o p' : object_act k i p = Ok (Some (o, p')) → prog_step p o p'
  | step_clock p ts : ts_le (g_now p) ts = true → prog_step p None (set_now ts p).

Definition object_fault (p : program) : Prop := ∃ k i f, object_act k i p = Fault f.

Definition prompt (p : program) : Prop :=
  Forall (prompt_object (g_now p)) (g_producers p) ∧ Forall (prompt_object (g_now p)) (g_consumers p).
#[export] Instance prompt_dec p : Decision (prompt p).
Proof. unfold prompt. apply _. Defined.

Definition prompt_step (p : program) (o : option label) (p' : program) : Prop := prog_step p o p' ∧ prompt p'.

(** What happens next, for runs. *)
Inductive choice := Main | Act (k : kind) (i : nat) | Clock (ts : timespec).
Definition choose (c : choice) (p : program) : option (option label * program) :=
  match c with
  | Main => match main_run p with Ok (Some p') => Some (None, p') | _ => None end
  | Act k i => match object_act k i p with Ok (Some x) => Some x | _ => None end
  | Clock ts => if ts_le (g_now p) ts then Some (None, set_now ts p) else None
  end.

(** The run of these choices, up to the first that is not possible or leads to
    a state that is not [ok]. *)
Fixpoint run_program (ok : program → bool) (cs : list choice) (p : program) : list label * program :=
  match cs with
  | [] => ([], p)
  | c :: cs' =>
      match choose c p with
      | Some (o, p1) =>
          if ok p1 then let '(tr, p') := run_program ok cs' p1 in (option_list o ++ tr, p') else ([], p)
      | None => ([], p)
      end
  end.

Lemma choice_step c p o p' : choose c p = Some (o, p') → prog_step p o p'.
Proof.
  destruct c as [|k i|ts]; simpl.
  - destruct (main_run p) as [[p1|]|] eqn:E; [|done..]. intros [= <- <-]. by constructor.
  - destruct (object_act k i p) as [[[o1 p1]|]|] eqn:E; [|done..]. intros [= <- <-]. by eapply step_object.
  - destruct (ts_le (g_now p) ts) eqn:E; [|done]. intros [= <- <-]. by constructor.
Qed.

Lemma run_program_exec ok cs p :
  exec (λ p o p', prog_step p o p' ∧ ok p' = true) p (run_program ok cs p).1 (run_program ok cs p).2.
Proof.
  revert p. induction cs as [|c cs IH]; intros p; [constructor|]. cbn [run_program].
  destruct (choose c p) as [[o p1]|] eqn:Hc; [|constructor]. destruct (ok p1) eqn:Hok; [|constructor].
  specialize (IH p1). destruct (run_program ok cs p1) as [tr p']. eapply exec_trans; [|exact IH].
  apply exec_one. split; [by eapply choice_step|done].
Qed.
End Program.

(** ** The program at its start *)

(** The statements of [main] after its options. *)
Definition main_statements (num_cores ppc cpc : nat) (run_seconds : Z) : list statement :=
  (NewQueue <$> seq 0 num_cores) ++
  concat ((λ core, (New AConsumer <$> seq (core * cpc) cpc) ++ (New AProducer <$> seq (core * ppc) ppc))
            <$> seq 0 num_cores) ++
  Sleep run_seconds ::
  (Delete AProducer <$> seq 0 (num_cores * ppc)) ++ DeleteArray ByNewArray :: Sleep 10 ::
  (Delete AConsumer <$> seq 0 (num_cores * cpc)) ++ DeleteObject ByNewArray ::
  (DeleteQueue <$> seq 0 num_cores).

Section Boot.
(** The memory of the producers' saved items, and their random numbers. *)
Context (saved : nat → WorkItem) (draws : nat → rands).

Definition producer_object (s : spawn) : object :=
  Object s Unborn Starting
    (Thread true (WProducer (Producer_ctor (sp_id s) (saved (Z.to_nat (sp_id s))) (draws (Z.to_nat (sp_id s))))) Checking).
Definition consumer_object (s : spawn) : object :=
  Object s Unborn Starting (Thread true (WConsumer (Consumer_ctor (sp_id s))) Checking).

(** The program called with [argv], with the objects that [set_up] makes;
    [None] when it only prints its help. *)
Definition boot (now : timespec) (num_cores : Z) (argv : list (list Z)) : outcome (option (settings * program)) :=
  o ← command_line argv;
  match o with
  | None => Ok None
  | Some c =>
      s ← set_up num_cores (producers_per_core c) (consumers_per_core c);
      Ok (Some (c, Program now (replicate (Z.to_nat num_cores) None)
        (producer_object <$> omap (λ x, x) (producer_arr s)) (consumer_object <$> omap (λ x, x) (consumer_arr s))
        (main_statements (Z.to_nat num_cores) (Z.to_nat (producers_per_core c)) (Z.to_nat (consumers_per_core c))
          (run_seconds c))))
  end.
End Boot.
