(* ===== verification/SimCores.v ===== *)
(** * The simulation core by core

    What the whole program of [SimThreads] does to the queue of one core and to
    the threads on it is an execution of [QueueSystem], as long as every worker
    is constructed before its thread wakes up; and its main program finds every
    object in the state its statements expect. *)
From S2P Require Import Prelude Semaphore Queue QueueSystem Items Workers Scheduler SimMain WorkerLoop SimThreads.

(** ** Slices of the arrays: the [n] elements of core [k] *)
Definition slice {A} (n k : nat) (l : list A) : list A := take n (drop (k * n) l).

Lemma slice_lookup {A} n k (l : list A) j : (j < n)%nat → slice n k l !! j = l !! (k * n + j)%nat.
Proof. intros Hj. unfold slice. by rewrite lookup_take_lt, lookup_drop. Qed.

Lemma slice_length {A} n k (l : list A) : (S k * n ≤ length l)%nat → length (slice n k l) = n.
Proof. intros Hl. unfold slice. rewrite length_take, length_drop. lia. Qed.

Lemma slice_insert {A} n k (l : list A) i x :
  (n ≠ 0)%nat → slice n k (<[i := x]> l) = if decide (i / n = k)%nat then <[(i mod n)%nat := x]> (slice n k l) else slice n k l.
Proof.
  intros Hn. pose proof (Nat.div_mod_eq i n) as Ed. pose proof (Nat.mod_upper_bound i n Hn) as Hm.
  unfold slice. rewrite drop_insert. case_decide as E1; [rewrite take_insert; case_decide as E2|].
  - assert (i / n = k)%nat as <- by (symmetry; apply (Nat.div_unique i n k (i - k * n)); lia).
    rewrite decide_True by done. f_equal. lia.
  - rewrite decide_False; [done|]. intros <-. lia.
  - rewrite decide_False; [done|]. intros <-. lia.
Qed.

Lemma slice_fmap {A B} (f : A → B) n k l : f <$> slice n k l = slice n k (f <$> l).
Proof. unfold slice. by rewrite fmap_take, fmap_drop. Qed.

Section Cores.
Context (size : Z) (slots : nat → list WorkItem) (cores ppc cpc : nat).

(** ** The system of a core *)
Definition per (k : kind) : nat := match k with AProducer => ppc | AConsumer => cpc end.

Definition core_threads (core : nat) (p : program) : list (thread worker WorkItem) :=
  (o_thread <$> slice ppc core (g_producers p)) ++ (o_thread <$> slice cpc core (g_consumers p)).
Definition core_queue (core : nat) (p : program) : Queue WorkItem :=
  default (fresh_queue size slots core) (g_queues p !! core ≫= λ q, q).
Definition core_system (core : nat) (p : program) : system worker WorkItem :=
  System (g_now p) (core_queue core p) (core_threads core p).

(** The index of a worker among the threads of its core. *)
Definition local_index (k : kind) (i : nat) : nat :=
  match k with AProducer => i mod ppc | AConsumer => ppc + i mod cpc end.
Definition core_label (core : nat) (x : label) : option (QueueSystem.label WorkItem) :=
  let '(k, i, ev) := x in
  if decide (i / per k = core)%nat then Some (local_index k i, ev) else None.
Definition core_trace (core : nat) (tr : list label) : list (QueueSystem.label WorkItem) :=
  omap (core_label core) tr.

(** ** What main expects *)
Definition stages : Type := kind → nat → stage.
Definition update (k : kind) (i : nat) (st : stage) (σ : stages) : stages :=
  λ k' i', if decide (k' = k ∧ i' = i) then st else σ k' i'.

Definition settled (σ : stages) : Prop := ∀ k i, σ k i ≠ Based ∧ σ k i ≠ Derived.

(** The statements from here on, with the queues [ρ] made and the objects in
    the stages [σ]. *)
Fixpoint fits (l : list statement) (ρ : nat → Prop) (σ : stages) : Prop :=
  match l with
  | [] => False
  | NewQueue id :: l' => (id < cores)%nat ∧ ¬ ρ id ∧ fits l' (λ j, j = id ∨ ρ j) σ
  | New k i :: l' =>
      (i < cores * per k)%nat ∧ ρ (i / per k)%nat ∧ σ k i = Unborn ∧ fits l' ρ (update k i Whole σ)
  | Derive k i :: l' => (i < cores * per k)%nat ∧ σ k i = Based ∧ fits l' ρ (update k i Derived σ)
  | Complete k i :: l' => (i < cores * per k)%nat ∧ σ k i = Derived ∧ fits l' ρ (update k i Whole σ)
  | (Sleep _ | SleepUntil _) :: l' => settled σ ∧ fits l' ρ σ
  | Delete k i :: l' => (i < cores * per k)%nat ∧ settled σ ∧ σ k i = Whole ∧ fits l' ρ (update k i Joined σ)
  | Halt k i :: l' => (i < cores * per k)%nat ∧ σ k i = Reduced ∧ fits l' ρ (update k i Halted σ)
  | Join k i :: l' => (i < cores * per k)%nat ∧ settled σ ∧ σ k i = Halted ∧ fits l' ρ (update k i Joined σ)
  | DeleteArray a :: l' => a = ByNewArray ∧ fits l' ρ σ
  | DeleteObject a :: _ => a = ByNewArray ∧ ∀ k i, (i < cores * per k)%nat → σ k i = Joined
  | DeleteQueue _ :: _ => False
  end.

(** ** The invariant *)
Definition made (p : program) (core : nat) : Prop := is_Some (g_queues p !! core ≫= λ q, q).
Definition stages_of (p : program) : stages := λ k i, from_option o_stage Unborn (objects k p !! i).

Record prog_inv (p : program) : Prop := {
  pi_queues : length (g_queues p) = cores;
  pi_length : ∀ k, length (objects k p) = (cores * per k)%nat;
  pi_object : ∀ k i o, objects k p !! i = Some o →
    queue_index o = (i / per k)%nat ∧ coherent o ∧ (o_stage o ≠ Unborn → made p (queue_index o));
  pi_main : fits (g_main p) (made p) (stages_of p)
}.

(** ** What main expects, as a property of stages *)
Lemma update_ext k i st σ σ' : (∀ k i, σ k i = σ' k i) → ∀ k' i', update k i st σ k' i' = update k i st σ' k' i'.
Proof. intros E k' i'. unfold update. by case_decide. Qed.

Lemma fits_ext l (ρ ρ' : nat → Prop) (σ σ' : stages) :
  (∀ j, ρ j ↔ ρ' j) → (∀ k i, σ k i = σ' k i) → fits l ρ σ → fits l ρ' σ'.
Proof.
  revert ρ ρ' σ σ'. induction l as [|st l IH]; intros ρ ρ' σ σ' Hρ Hσ; [done|].
  assert (Hs : settled σ → settled σ') by (intros H k i; by rewrite <-Hσ).
  destruct st; cbn [fits]; intros Hf; try done; rewrite <-?Hσ, <-?Hρ; repeat (destruct Hf as [? Hf]);
    repeat (split; [by auto|]); try (eapply IH; [done|by apply update_ext|done]).
  - eapply IH; [|done..]. intros j. cbn beta. by rewrite Hρ.
  - by eapply IH.
  - by eapply IH.
  - by eapply IH.
  - intros k i Hi. rewrite <-Hσ. by apply Hf.
Qed.

Lemma update_update k i st st' σ k' i' : update k i st (update k i st' σ) k' i' = update k i st σ k' i'.
Proof. unfold update. by case_decide. Qed.
Lemma update_same k i st σ : update k i st σ k i = st.
Proof. unfold update. by rewrite decide_True. Qed.

(** ** The system of a core under an update *)
Lemma in_core k i : (i < cores * per k)%nat → per k ≠ 0%nat ∧ (i / per k < cores)%nat.
Proof. intros Hi. assert (per k ≠ 0%nat) by (intros E; rewrite E in Hi; lia). split; [done|]. apply Nat.Div0.div_lt_upper_bound. lia. Qed.

Definition sized (p : program) : Prop := ∀ k, length (objects k p) = (cores * per k)%nat.

Lemma core_lookup p k i o :
  sized p → objects k p !! i = Some o →
  core_threads (i / per k) p !! local_index k i = Some (o_thread o).
Proof.
  intros Hl Hi. pose proof (lookup_lt_Some _ _ _ Hi) as Hlt. rewrite Hl in Hlt.
  destruct (in_core k i Hlt) as [Hn Hc]. pose proof (Nat.div_mod_eq i (per k)) as Ed.
  pose proof (Nat.mod_upper_bound i (per k) Hn) as Hm. unfold core_threads.
  pose proof (slice_length ppc (i / per k) (g_producers p)) as Hsl. rewrite (Hl AProducer : length (g_producers p) = _) in Hsl.
  destruct k; cbn [per local_index objects] in *.
  - rewrite lookup_app_l by (rewrite length_fmap, Hsl by nia; done).
    rewrite list_lookup_fmap, slice_lookup by done. replace (i / ppc * ppc + i mod ppc)%nat with i by lia.
    by rewrite Hi.
  - rewrite lookup_app_r by (rewrite length_fmap, Hsl by nia; lia).
    rewrite length_fmap, Hsl by nia. replace (ppc + i mod cpc - ppc)%nat with (i mod cpc)%nat by lia.
    rewrite list_lookup_fmap, slice_lookup by done. replace (i / cpc * cpc + i mod cpc)%nat with i by lia.
    by rewrite Hi.
Qed.

Lemma core_threads_insert core p k i o' :
  sized p → (core < cores)%nat → (i < cores * per k)%nat →
  core_threads core (set_objects k (<[i := o']> (objects k p)) p) =
    if decide (i / per k = core)%nat then <[local_index k i := o_thread o']> (core_threads core p)
    else core_threads core p.
Proof.
  intros Hl Hc Hi. destruct (in_core k i Hi) as [Hn _].
  pose proof (slice_length ppc core (g_producers p)) as Hsl. rewrite (Hl AProducer : length (g_producers p) = _) in Hsl. cbn [per] in Hsl.
  unfold core_threads. destruct k; cbn [set_objects g_producers g_consumers objects per local_index] in *;
    rewrite slice_insert by done; case_decide; try done; rewrite list_fmap_insert.
  - pose proof (Nat.mod_upper_bound i ppc Hn). rewrite insert_app_l; [done|].
    rewrite length_fmap, Hsl by nia. done.
  - rewrite insert_app_r_alt; rewrite length_fmap, Hsl by nia; [|lia]. do 2 f_equal. lia.
Qed.

(** One object, and its queue, replaced. *)
Lemma core_update core p k i o o' q' :
  sized p → (core < cores)%nat → length (g_queues p) = cores →
  objects k p !! i = Some o → queue_index o = (i / per k)%nat →
  core_system core (set_queues (<[queue_index o := q']> (g_queues p)) (set_objects k (<[i := o']> (objects k p)) p)) =
    if decide (i / per k = core)%nat
    then System (g_now p) (default (fresh_queue size slots core) q') (<[local_index k i := o_thread o']> (core_threads core p))
    else core_system core p.
Proof.
  intros Hl Hc Hq Hi Hx. pose proof (lookup_lt_Some _ _ _ Hi) as Hlt. rewrite Hl in Hlt.
  pose proof (core_threads_insert core p k i o' Hl Hc Hlt) as Et. unfold core_system.
  replace (core_threads core (set_queues _ _)) with (core_threads core (set_objects k (<[i := o']> (objects k p)) p))
    by (by destruct k).
  rewrite Et, Hx. destruct (in_core k i Hlt) as [_ Hlc]. case_decide as E.
  - subst core. unfold core_queue. cbn [set_queues g_queues g_now]. rewrite list_lookup_insert_eq by lia.
    by destruct k, q'.
  - unfold core_queue. cbn [set_queues g_queues g_now]. rewrite list_lookup_insert_ne by done. by destruct k.
Qed.

(** One object replaced by one with the same thread. *)
Lemma core_same core p k i o o' :
  sized p → (core < cores)%nat → objects k p !! i = Some o → o_thread o' = o_thread o →
  core_system core (set_objects k (<[i := o']> (objects k p)) p) = core_system core p.
Proof.
  intros Hl Hc Hi Ho. pose proof (lookup_lt_Some _ _ _ Hi) as Hlt. rewrite Hl in Hlt.
  unfold core_system. rewrite core_threads_insert by done.
  replace (core_queue core (set_objects k _ p)) with (core_queue core p) by (by destruct k).
  replace (g_now (set_objects k _ p)) with (g_now p) by (by destruct k). f_equal. case_decide as E; [|done].
  subst core. apply list_insert_id. rewrite Ho. by apply core_lookup.
Qed.

(** ** The invariant under an update *)
Lemma stages_insert p k i o o' :
  objects k p !! i = Some o →
  ∀ k' i', stages_of (set_objects k (<[i := o']> (objects k p)) p) k' i' = update k i (o_stage o') (stages_of p) k' i'.
Proof.
  intros Hi k' i'. unfold stages_of, update. destruct (decide (k' = k)) as [->|Hk].
  - replace (objects k (set_objects k _ p)) with (<[i := o']> (objects k p)) by (by destruct k).
    destruct (decide (i' = i)) as [->|Hne].
    + rewrite list_lookup_insert_eq by (by eapply lookup_lt_Some). by rewrite decide_True.
    + rewrite list_lookup_insert_ne by done. rewrite decide_False; [done|]. by intros [].
  - rewrite decide_False by (by intros []). by destruct k, k'.
Qed.

Lemma inv_sized p : prog_inv p → sized p.
Proof. intros H k. by apply pi_length. Qed.

Lemma prog_update p k i o o' l :
  prog_inv p → objects k p !! i = Some o → o_spawn o' = o_spawn o → coherent o' →
  (o_stage o' ≠ Unborn → made p (queue_index o)) →
  fits l (made p) (update k i (o_stage o') (stages_of p)) →
  prog_inv (set_main l (set_objects k (<[i := o']> (objects k p)) p)).
Proof.
  intros [Hq Hl Ho _] Hi Hs Hco Hm Hf. split.
  - by destruct k.
  - intros k'. rewrite <-Hl. destruct (decide (k' = k)) as [->|]; [|by destruct k, k'].
    destruct k; cbn [set_objects set_main objects g_producers g_consumers]; apply length_insert.
  - intros k' i' x Hx. assert (Em : made (set_main l (set_objects k (<[i := o']> (objects k p)) p)) = made p) by (by destruct k).
    rewrite Em. destruct (decide (k' = k)) as [->|].
    + replace (objects k _) with (<[i := o']> (objects k p)) in Hx by (by destruct k).
      destruct (decide (i' = i)) as [->|].
      * rewrite list_lookup_insert_eq in Hx by (by eapply lookup_lt_Some). injection Hx as <-.
        destruct (Ho k i o Hi) as [Ei _]. unfold queue_index in *. rewrite Hs. by split_and!.
      * rewrite list_lookup_insert_ne in Hx by done. by apply Ho.
    + apply Ho. by destruct k, k'.
  - eapply fits_ext; [| |exact Hf].
    + by destruct k.
    + intros k' i'. rewrite <-(stages_insert p k i o o' Hi). by destruct k, k'.
Qed.

Lemma inv_queue p x q :
  prog_inv p → made p x → prog_inv (set_queues (<[x := Some q]> (g_queues p)) p).
Proof.
  intros [Hq Hl Ho Hf] Hx.
  assert (Em : ∀ j, made p j ↔ made (set_queues (<[x := Some q]> (g_queues p)) p) j).
  { intros j. unfold made. cbn [set_queues g_queues]. destruct (decide (j = x)) as [->|].
    - rewrite list_lookup_insert_eq; [split; [by eexists|done]|].
      destruct Hx as [y Hx]. apply lookup_lt_is_Some. destruct (g_queues p !! x); [by eexists|done].
    - by rewrite list_lookup_insert_ne. }
  split; [cbn; by rewrite length_insert|intros k; rewrite <-Hl; by destruct k| |].
  - intros k i o Hi. assert (Hi' : objects k p !! i = Some o) by (by destruct k).
    destruct (Ho k i o Hi') as (E1 & E2 & E3). split_and!; try done. intros H. rewrite <-Em. by apply E3.
  - eapply fits_ext; [exact Em| |exact Hf]. intros k i. by destruct k.
Qed.

(** ** Steps *)
Definition core_steps (p : program) (o : option label) (p' : program) : Prop :=
  ∀ core, (core < cores)%nat →
    exec sys_step (core_system core p) (option_list (o ≫= core_label core)) (core_system core p').

Lemma queue_of_made o p : is_Some (queue_of o p) ↔ made p (queue_index o).
Proof. done. Qed.

Lemma object_act_step k i p o p' :
  prog_inv p → prompt p → object_act k i p = Ok (Some (o, p')) → prog_inv p' ∧ core_steps p o p'.
Proof.
  intros Hinv Hp Ha. unfold object_act in Ha. destruct (objects k p !! i) as [ob|] eqn:Hi; [|done].
  apply bind_Ok in Ha as ([[[q' ev] ob']|] & Hr & Ha); [|done]. injection Ha as <- <-.
  destruct (pi_object p Hinv k i ob Hi) as (Ex & Hco & Hm).
  assert (Hpo : prompt_object (g_now p) ob)
    by (destruct Hp, k; cbn [objects] in Hi; eapply Forall_lookup_1; [|exact Hi| |exact Hi]; done).
  destruct (object_run_cases run _ _ _ _ _ _ Hco Hpo Hm Hr) as (Es & Est & Hb & Hco' & [q1 ->] & Hcase).
  assert (Hlt := lookup_lt_Some _ _ _ Hi). rewrite (inv_sized p Hinv) in Hlt.
  destruct (in_core k i Hlt) as [_ Hc]. split.
  - assert (Hinv' : prog_inv (set_main (g_main p) (set_objects k (<[i := ob']> (objects k p)) p))).
    { apply (prog_update p k i ob); try done; [intros _; by apply Hm|].
      eapply fits_ext; [done| |apply Hinv]. intros k' i'. unfold update. case_decide as E; [|done].
      destruct E as [-> ->]. unfold stages_of. by rewrite Hi, Est. }
    replace (set_main (g_main p) _) with (set_objects k (<[i := ob']> (objects k p)) p) in Hinv' by (by destruct k).
    pose proof (inv_queue _ (queue_index ob) q1 Hinv') as Hq.
    replace (g_queues (set_objects k _ p)) with (g_queues p) in Hq by (by destruct k).
    apply Hq. specialize (Hm Hb). unfold made. by destruct k.
  - intros core Hcore. rewrite (core_update core p k i ob ob' (Some q1)) by eauto using inv_sized, pi_queues.
    destruct (decide (i / per k = core)%nat) as [<-|Hne].
    + destruct Hcase as [(Eq & -> & Et)|(q0 & q2 & Eq & [= <-] & Hrun)].
      * cbn [option_list mbind option_bind]. rewrite Et, list_insert_id by (by apply core_lookup; [by apply inv_sized|]).
        replace (default _ _) with (core_queue (i / per k) p); [constructor|].
        unfold core_queue. rewrite <-Ex. unfold queue_of in Eq. by rewrite <-Eq.
      * assert (Hq : core_queue (i / per k) p = q0) by (unfold core_queue; rewrite <-Ex; unfold queue_of in Eq; by rewrite Eq).
        replace (option_list _) with (option_list (tag (local_index k i) ev)).
        { apply exec_one. unfold core_system. cbn [default]. eapply step_run; [by apply core_lookup; [by apply inv_sized|]|].
          by rewrite Hq. }
        destruct ev as [e|]; [|done]. cbn. by rewrite decide_True.
    + replace (option_list _) with (@nil (QueueSystem.label WorkItem)); [constructor|].
      destruct ev as [e|]; [|done]. cbn. by rewrite decide_False.
Qed.

Lemma inv_object p k i :
  prog_inv p → (i < cores * per k)%nat →
  ∃ o, objects k p !! i = Some o ∧ stages_of p k i = o_stage o ∧ coherent o ∧ queue_index o = (i / per k)%nat ∧
    (o_stage o ≠ Unborn → made p (queue_index o)).
Proof.
  intros Hinv Hi. rewrite <-(inv_sized p Hinv) in Hi. apply lookup_lt_is_Some in Hi as [o Ho].
  destruct (pi_object p Hinv k i o Ho) as (? & ? & ?). exists o. unfold stages_of. by rewrite Ho.
Qed.

(** A statement that leaves objects and queues alone. *)
Lemma inv_main p l : prog_inv p → fits l (made p) (stages_of p) → prog_inv (set_main l p).
Proof. intros [Hq Hl Ho Hf] Hf'. by split; [done|intros []; apply (Hl AProducer) || apply (Hl AConsumer)|intros []; apply (Ho AProducer) || apply (Ho AConsumer)|]. Qed.

(** What a statement of main does to a core: nothing, or it stops a thread. *)
Definition core_quiet (p p' : program) : Prop :=
  ∀ core, (core < cores)%nat → core_system core p' = core_system core p ∨
    ∃ j th, core_threads core p !! j = Some th ∧
      core_system core p' = System (g_now p) (core_queue core p) (<[j := stop th]> (core_threads core p)).

Lemma core_quiet_steps p p' : core_quiet p p' → core_steps p None p'.
Proof.
  intros Hq core Hc. destruct (Hq core Hc) as [->|(j & th & Hj & ->)]; [constructor|].
  apply (exec_one sys_step _ None). by eapply step_stop.
Qed.

Lemma core_quiet_same p p' : (∀ core, (core < cores)%nat → core_system core p' = core_system core p) → core_quiet p p'.
Proof. intros E core Hc. left. by apply E. Qed.

(** A statement that changes how much there is of an object. *)
Lemma stage_step p k i o o' l p' :
  prog_inv p → objects k p !! i = Some o → o_spawn o' = o_spawn o → coherent o' → o_thread o' = o_thread o →
  made p (queue_index o) → fits l (made p) (update k i (o_stage o') (stages_of p)) →
  p' = set_main l (set_objects k (<[i := o']> (objects k p)) p) → prog_inv p' ∧ core_quiet p p'.
Proof.
  intros Hinv Hi Hs Hco Ht Hm Hf ->. split; [by apply (prog_update p k i o)|].
  apply core_quiet_same. intros core Hc. replace (core_system core (set_main l _))
    with (core_system core (set_objects k (<[i := o']> (objects k p)) p)) by (by destruct k).
  apply (core_same core p k i o); try done. by apply inv_sized.
Qed.

Lemma on_object_eq k i f p l o :
  objects k p !! i = Some o →
  on_object k i f (set_main l p) = Ok (Some (set_main l (set_objects k (<[i := f o]> (objects k p)) p))).
Proof. intros Hi. unfold on_object. destruct k; cbn [objects] in *; cbn [set_main g_producers g_consumers]; by rewrite Hi. Qed.

Lemma halt_step p k i o rest :
  prog_inv p → objects k p !! i = Some o → o_stage o = Reduced → fits rest (made p) (update k i Halted (stages_of p)) →
  let p' := set_main rest (set_objects k (<[i := halt o]> (objects k p)) p) in prog_inv p' ∧ core_quiet p p'.
Proof.
  intros Hinv Hi Hst Hf. cbv zeta. destruct (pi_object p Hinv k i o Hi) as (Ex & Hco & Hm).
  rewrite Hst in Hm. assert (Hlt := lookup_lt_Some _ _ _ Hi). rewrite (inv_sized p Hinv) in Hlt.
  split; [apply (prog_update p k i o); try done|].
  - destruct Hco as (H1 & H2 & H3). rewrite Hst in H3. destruct o as [sp st l [r s ph]]. by split_and!.
  - intros _. by apply Hm.
  - intros core Hc. replace (core_system core (set_main rest _))
      with (core_system core (set_objects k (<[i := halt o]> (objects k p)) p)) by (by destruct k).
    unfold core_system. rewrite core_threads_insert by (by eauto using inv_sized).
    replace (core_queue core (set_objects k _ p)) with (core_queue core p) by (by destruct k).
    replace (g_now (set_objects k _ p)) with (g_now p) by (by destruct k). case_decide as E; [|by left].
    subst core. right. exists (local_index k i), (o_thread o). split; [|done].
    by apply core_lookup; [by apply inv_sized|].
Qed.

Lemma new_queue_step p id rest :
  prog_inv p → (id < cores)%nat → ¬ made p id → fits rest (λ j, j = id ∨ made p j) (stages_of p) →
  let p' := set_queues (<[id := Some (fresh_queue size slots id)]> (g_queues p)) (set_main rest p) in
  prog_inv p' ∧ core_quiet p p'.
Proof.
  intros Hinv Hid Hn Hf p'.
  assert (Em : ∀ j, (j = id ∨ made p j) ↔ made p' j).
  { intros j. unfold made. cbn [p' set_queues set_main g_queues]. destruct (decide (j = id)) as [->|Hj].
    - rewrite list_lookup_insert_eq by (by rewrite (pi_queues p Hinv)). naive_solver.
    - rewrite list_lookup_insert_ne by done. naive_solver. }
  split; [destruct Hinv as [Hq Hl Ho _]; split|].
  - cbn. by rewrite length_insert.
  - intros k. rewrite <-Hl. by destruct k.
  - intros k i o Hi. destruct (Ho k i o) as (E1 & E2 & E3); [by destruct k|]. split_and!; try done.
    intros H. apply Em. right. by apply E3.
  - eapply fits_ext; [exact Em| |exact Hf]. intros k i. by destruct k.
  - apply core_quiet_same. intros core Hc. unfold core_system. f_equal. unfold core_queue.
    cbn [p' set_queues set_main g_queues]. destruct (decide (core = id)) as [->|Hne].
    + rewrite list_lookup_insert_eq by (by rewrite (pi_queues p Hinv)). unfold made in Hn. cbn.
      destruct (g_queues p !! id ≫= _) as [q|] eqn:E; [|done]. exfalso. apply Hn. by eexists.
    + by rewrite list_lookup_insert_ne.
Qed.

Lemma main_run_step p p' :
  prog_inv p → main_run size slots p = Ok (Some p') → prog_inv p' ∧ core_quiet p p'.
Proof.
  intros Hinv Hr. pose proof (pi_main p Hinv) as Hf. unfold main_run in Hr.
  destruct (g_main p) as [|st rest]; [done|]. destruct st; cbn [fits] in Hf.
  - destruct Hf as (Hid & Hn & Hf). injection Hr as <-. by apply new_queue_step.
  - destruct Hf as (Hi & Hq & Hst & Hf). destruct (inv_object p k i Hinv Hi) as (o & Ho & Es & Hco & Ex & _).
    rewrite (on_object_eq _ _ _ _ _ _ Ho) in Hr. injection Hr as <-. rewrite Es in Hst.
    eapply (stage_step p k i o (with_stage Based o)); try done; [|by rewrite Ex|].
    + destruct Hco as (H1 & H2 & H3). rewrite Hst in H3. destruct H3 as (? & ? & _). by split_and!.
    + cbn [fits with_stage o_stage]. rewrite !update_same. split_and!; try done.
      eapply fits_ext; [done| |exact Hf]. intros k' i'. by rewrite !update_update.
  - destruct Hf as (Hi & Hst & Hf). destruct (inv_object p k i Hinv Hi) as (o & Ho & Es & Hco & Ex & Hm).
    rewrite (on_object_eq _ _ _ _ _ _ Ho) in Hr. injection Hr as <-. rewrite Es in Hst. rewrite Hst in Hm.
    eapply (stage_step p k i o (with_stage Derived o)); try done; [|by apply Hm].
    destruct Hco as (H1 & H2 & H3). rewrite Hst in H3. by split_and!.
  - destruct Hf as (Hi & Hst & Hf). destruct (inv_object p k i Hinv Hi) as (o & Ho & Es & Hco & Ex & Hm).
    rewrite (on_object_eq _ _ _ _ _ _ Ho) in Hr. injection Hr as <-. rewrite Es in Hst. rewrite Hst in Hm.
    eapply (stage_step p k i o (with_stage Whole o)); try done; [|by apply Hm].
    destruct Hco as (H1 & H2 & H3). rewrite Hst in H3. destruct H3. by split_and!.
  - destruct Hf as [Hs Hf]. injection Hr as <-. split; [by apply inv_main|by apply core_quiet_same].
  - destruct Hf as [Hs Hf]. destruct (ts_le ts (g_now p)); [|done]. injection Hr as <-.
    split; [by apply inv_main|by apply core_quiet_same].
  - destruct Hf as (Hi & Hs & Hst & Hf). destruct (inv_object p k i Hinv Hi) as (o & Ho & Es & Hco & Ex & Hm).
    rewrite (on_object_eq _ _ _ _ _ _ Ho) in Hr. injection Hr as <-. rewrite Es in Hst. rewrite Hst in Hm.
    eapply (stage_step p k i o (with_stage Reduced o)); try done; [|by apply Hm|].
    + destruct Hco as (H1 & H2 & H3). rewrite Hst in H3. by split_and!.
    + cbn [fits with_stage o_stage]. rewrite !update_same. split_and!; try done.
      * intros k' i'. unfold update. repeat case_decide; try done; apply Hs.
      * eapply fits_ext; [done| |exact Hf]. intros k' i'. by rewrite !update_update.
  - destruct Hf as (Hi & Hst & Hf). destruct (inv_object p k i Hinv Hi) as (o & Ho & Es & Hco & Ex & Hm).
    rewrite (on_object_eq _ _ _ _ _ _ Ho) in Hr. injection Hr as <-. rewrite Es in Hst. by apply halt_step.
  - destruct Hf as (Hi & Hs & Hst & Hf). destruct (inv_object p k i Hinv Hi) as (o & Ho & Es & Hco & Ex & Hm).
    rewrite Ho in Hr. destruct (t_phase (o_thread o)) eqn:Eph; [done..|].
    rewrite (on_object_eq _ _ _ _ _ _ Ho) in Hr. injection Hr as <-. rewrite Es in Hst. rewrite Hst in Hm.
    eapply (stage_step p k i o (with_stage Joined o)); try done; [|by apply Hm].
    destruct Hco as (H1 & H2 & H3). rewrite Hst in H3. by split_and!.
  - destruct Hf as [-> Hf]. injection Hr as <-. split; [by apply inv_main|by apply core_quiet_same].
  - destruct Hf as [-> _]. done.
  - done.
Qed.

(** Nor does it make a constructor late. *)
Lemma prompt_insert k i o' l p :
  prompt p → prompt_object (g_now p) o' → prompt (set_main l (set_objects k (<[i := o']> (objects k p)) p)).
Proof. intros [H1 H2] Ho. destruct k; split; cbn; try done; by apply Forall_insert. Qed.

Lemma prompt_lookup p k i o : prompt p → objects k p !! i = Some o → prompt_object (g_now p) o.
Proof. intros [H1 H2] Hi. destruct k; cbn [objects] in Hi; eapply Forall_lookup_1; [|exact Hi| |exact Hi]; done. Qed.

Lemma main_run_prompt p p' :
  prog_inv p → prompt p → main_run size slots p = Ok (Some p') → prompt p'.
Proof.
  intros Hinv Hp Hr. pose proof (pi_main p Hinv) as Hf. unfold main_run in Hr.
  destruct (g_main p) as [|st rest]; [done|].
  assert (Hon : ∀ k i f l, (∀ o, objects k p !! i = Some o → prompt_object (g_now p) (f o)) →
    on_object k i f (set_main l p) = Ok (Some p') → prompt p').
  { intros k i f l Hfo Ho. unfold on_object in Ho. replace (objects k (set_main l p)) with (objects k p) in Ho by (by destruct k).
    destruct (objects k p !! i) as [o|] eqn:Hi; [|done]. injection Ho as <-.
    replace (set_objects k _ (set_main l p)) with (set_main l (set_objects k (<[i := f o]> (objects k p)) p)) by (by destruct k).
    apply prompt_insert; [done|by apply Hfo]. }
  destruct st; cbn [fits] in Hf; try (injection Hr as <-; exact Hp); try (eapply Hon; [|exact Hr]; intros o Ho; try done).
  - destruct Hf as (_ & _ & Hst & _). destruct (pi_object p Hinv k i o Ho) as (_ & (_ & _ & Hco) & _).
    unfold stages_of in Hst. rewrite Ho in Hst. cbn in Hst. rewrite Hst in Hco. destruct Hco as (_ & _ & El).
    unfold prompt_object. cbn. by rewrite El.
  - destruct Hf as (_ & Hst & _). pose proof (prompt_lookup p k i o Hp Ho) as Hpo.
    unfold stages_of in Hst. rewrite Ho in Hst. cbn in Hst. unfold prompt_object in *. cbn. by rewrite Hst in Hpo.
  - destruct (ts_le ts (g_now p)); [|done]. injection Hr as <-. exact Hp.
  - destruct (objects k p !! i) as [o|]; [|done]. destruct (t_phase (o_thread o)); [done..|].
    eapply Hon; [|exact Hr]. done.
  - apply bind_Ok in Hr as (? & _ & Hr). by injection Hr as <-.
  - apply bind_Ok in Hr as (? & _ & Hr). by injection Hr as <-.
Qed.

(** Main faults at its mismatched [delete] only, when all threads are gone. *)
Lemma main_run_fault p f :
  prog_inv p → main_run size slots p = Fault f →
  f = MismatchedDelete ∧ ∀ k i o, objects k p !! i = Some o → o_stage o = Joined ∧ t_phase (o_thread o) = Exited.
Proof.
  intros Hinv Hr. pose proof (pi_main p Hinv) as Hf. unfold main_run in Hr.
  destruct (g_main p) as [|st rest]; [done|].
  assert (Hon : ∀ k i g l, (i < cores * per k)%nat → on_object k i g (set_main l p) ≠ Fault f).
  { intros k i g l Hi. destruct (inv_object p k i Hinv Hi) as (o & Ho & _). by rewrite (on_object_eq k i g p l o Ho). }
  destruct st; cbn [fits] in Hf; try done; try (by destruct Hf as [Hi _]; apply Hon in Hr).
  - by destruct (ts_le ts (g_now p)).
  - destruct Hf as (Hi & _). destruct (inv_object p k i Hinv Hi) as (o & Ho & _). rewrite Ho in Hr.
    destruct (t_phase (o_thread o)); [done..|]. by apply Hon in Hr.
  - by destruct Hf as [-> _].
  - destruct Hf as [-> Hj]. injection Hr as <-. split; [done|]. intros k i o Ho.
    assert (Hlt := lookup_lt_Some _ _ _ Ho). rewrite (inv_sized p Hinv) in Hlt. specialize (Hj k i Hlt).
    unfold stages_of in Hj. rewrite Ho in Hj. cbn in Hj. split; [done|].
    destruct (pi_object p Hinv k i o Ho) as (_ & (_ & _ & Hco) & _). rewrite Hj in Hco. apply Hco.
Qed.

(** ** Executions *)
Lemma prompt_step_inv p o p' :
  prog_inv p → prompt p → prompt_step size slots p o p' → prog_inv p' ∧ core_steps p o p'.
Proof.
  intros Hinv Hp [Hs _]. destruct Hs as [p p' Hr|k i p o p' Ha|p ts Hts].
  - destruct (main_run_step p p' Hinv Hr) as [Hinv' Hq]. split; [done|by apply core_quiet_steps].
  - by eapply object_act_step.
  - split; [|intros core Hc; apply (exec_one sys_step _ None), step_tick; done].
    destruct Hinv as [Hq Hl Ho Hf]. by split.
Qed.

Lemma prompt_exec p tr p' :
  prog_inv p → prompt p → exec (prompt_step size slots) p tr p' →
  prog_inv p' ∧ prompt p' ∧
  ∀ core, (core < cores)%nat → exec sys_step (core_system core p) (core_trace core tr) (core_system core p').
Proof.
  intros Hinv Hp. induction 1 as [p|p tr p1 o p2 Hex IH Hs]; [split_and!; [done..|constructor]|].
  destruct (IH Hinv Hp) as (Hinv1 & Hp1 & Hc1). destruct (prompt_step_inv p1 o p2 Hinv1 Hp1 Hs) as [Hinv2 Hc2].
  split_and!; [done|apply Hs|]. intros core Hc. unfold core_trace. rewrite omap_app.
  replace (omap (core_label core) (option_list o)) with (option_list (o ≫= core_label core)).
  - eapply exec_trans; [by apply Hc1|by apply Hc2].
  - destruct o as [x|]; [|done]. simpl. by destruct (core_label core x).
Qed.

End Cores.
