(* ===== verification/SimBoot.v ===== *)
(** * The simulation at its start

    The statements of [main] fit the objects [set_up] makes, and the system of
    each core is one of [QueueSystem] at its beginning. *)
From S2P Require Import Prelude Semaphore Queue QueueSystem Items Workers Scheduler Getopt SimMain WorkerLoop SimThreads SimCores.

Section Statements.
Context (cores ppc cpc : nat).
Abbreviation per := (per ppc cpc).
Abbreviation fits := (fits cores ppc cpc).

(** Objects [a] to [a + n - 1] of kind [k] in the stage [st]. *)
Definition all_in (k : kind) (a n : nat) (st : stage) (σ : stages) : stages :=
  λ k' i', if decide (k' = k ∧ a ≤ i' < a + n)%nat then st else σ k' i'.

Lemma all_in_0 k a st σ k' i' : all_in k a 0 st σ k' i' = σ k' i'.
Proof. unfold all_in. rewrite decide_False; [done|]. lia. Qed.

Lemma all_in_S k a n st σ k' i' : all_in k (S a) n st (update k a st σ) k' i' = all_in k a (S n) st σ k' i'.
Proof. unfold all_in, update. repeat case_decide; try done; intuition (congruence || lia). Qed.

Lemma fits_new_queues n a l ρ σ :
  (a + n ≤ cores)%nat → (∀ j, (a ≤ j < a + n)%nat → ¬ ρ j) → fits l (λ j, (a ≤ j < a + n)%nat ∨ ρ j) σ →
  fits ((NewQueue <$> seq a n) ++ l) ρ σ.
Proof.
  revert a ρ. induction n as [|n IH]; intros a ρ Hn Hρ Hf.
  - eapply fits_ext; [|done|exact Hf]. intros j. split; [intros [?|?]; [lia|done]|by right].
  - split; [lia|]. split; [apply Hρ; lia|]. apply IH; [lia| |].
    + intros j Hj [->|H]; [lia|]. apply (Hρ j); [lia|done].
    + eapply fits_ext; [|done|exact Hf]. intros j. split; [|intuition (congruence || lia)].
      intros [?|?]; [|by auto]. destruct (decide (j = a)); [by auto|left; lia].
Qed.

Lemma fits_new k n a l ρ σ :
  (a + n ≤ cores * per k)%nat → (∀ i, (a ≤ i < a + n)%nat → ρ (i / per k)%nat ∧ σ k i = Unborn) →
  fits l ρ (all_in k a n Whole σ) → fits ((New k <$> seq a n) ++ l) ρ σ.
Proof.
  revert a σ. induction n as [|n IH]; intros a σ Hn Hσ Hf.
  - eapply fits_ext; [done| |exact Hf]. apply all_in_0.
  - destruct (Hσ a ltac:(lia)) as [Hq Hs]. split; [lia|]. split; [done|]. split; [done|]. apply IH; [lia| |].
    + intros i Hi. unfold update. rewrite decide_False by lia. apply Hσ. lia.
    + eapply fits_ext; [done| |exact Hf]. intros k' i'. by rewrite all_in_S.
Qed.

Lemma fits_delete k n a l ρ σ :
  (a + n ≤ cores * per k)%nat → settled σ → (∀ i, (a ≤ i < a + n)%nat → σ k i = Whole) →
  fits l ρ (all_in k a n Joined σ) → fits ((Delete k <$> seq a n) ++ l) ρ σ.
Proof.
  revert a σ. induction n as [|n IH]; intros a σ Hn Hs Hσ Hf.
  - eapply fits_ext; [done| |exact Hf]. apply all_in_0.
  - split; [lia|]. split; [done|]. split; [apply Hσ; lia|]. apply IH; [lia| | |].
    + intros k' i'. unfold update. case_decide; [done|apply Hs].
    + intros i Hi. unfold update. rewrite decide_False by lia. apply Hσ. lia.
    + eapply fits_ext; [done| |exact Hf]. intros k' i'. by rewrite all_in_S.
Qed.

(** All objects of the first [n] cores. *)
Definition spawned (n : nat) : stages := λ k i, if decide (i < n * per k)%nat then Whole else Unborn.

Lemma fits_cores n core l (ρ : nat → Prop) :
  (core + n ≤ cores)%nat → (∀ j, (j < cores)%nat → ρ j) → fits l ρ (spawned (core + n)) →
  fits (concat ((λ core, (New AConsumer <$> seq (core * cpc) cpc) ++ (New AProducer <$> seq (core * ppc) ppc))
    <$> seq core n) ++ l) ρ (spawned core).
Proof.
  revert core. induction n as [|n IH]; intros core Hn Hρ Hf; [by rewrite Nat.add_0_r in Hf|].
  cbn [seq fmap list_fmap concat]. rewrite <-!app_assoc.
  assert (Hq : ∀ k i, (core * per k ≤ i < core * per k + per k)%nat → (i / per k = core)%nat).
  { intros k i Hi. symmetry. apply (Nat.div_unique i (per k) core (i - core * per k)); lia. }
  apply fits_new; [cbn; nia| |apply fits_new; [cbn; nia| |]].
  - intros i Hi. rewrite (Hq AConsumer i Hi). split; [apply Hρ; lia|].
    unfold spawned. rewrite decide_False; [done|]. cbn. lia.
  - intros i Hi. rewrite (Hq AProducer i Hi). split; [apply Hρ; lia|].
    unfold all_in, spawned. rewrite decide_False by naive_solver. rewrite decide_False; [done|]. cbn. lia.
  - replace (core + S n)%nat with (S core + n)%nat in Hf by lia. apply (IH (S core)) in Hf; [|lia|done].
    eapply fits_ext; [done| |exact Hf]. intros k i. unfold all_in, spawned.
    destruct k; cbn [SimCores.per]; repeat case_decide; try done; intuition (congruence || lia).
Qed.

Lemma main_statements_fit secs (σ : stages) :
  (∀ k i, σ k i = Unborn) → fits (main_statements cores ppc cpc secs) (λ _, False) σ.
Proof.
  intros Hσ. unfold main_statements.
  assert (Hset : settled (spawned cores)) by (intros k i; unfold spawned; by case_decide).
  apply fits_new_queues; [lia|naive_solver|].
  eapply (fits_ext _ _ _ _ (λ j, j < cores)%nat _ (spawned 0)); [lia| |].
  { intros k i. by rewrite Hσ. }
  apply fits_cores; [lia|done|]. cbn [SimCores.fits Nat.add]. split; [done|].
  apply fits_delete; [cbn; lia|done|intros i Hi; unfold spawned; cbn; by rewrite decide_True by lia|].
  cbn [SimCores.fits]. split; [done|]. split; [intros k i; unfold all_in; case_decide; [done|apply Hset]|].
  apply fits_delete; [cbn; lia|intros k i; unfold all_in; case_decide; [done|apply Hset]| |].
  - intros i Hi. unfold all_in, spawned. rewrite decide_False by naive_solver. cbn. by rewrite decide_True by lia.
  - split; [done|]. intros k i Hi. unfold all_in, spawned. destruct k; cbn [SimCores.per] in Hi;
      repeat case_decide; try done; intuition (congruence || lia).
Qed.
End Statements.

Section Boot.
Context (saved : nat → WorkItem) (draws : nat → rands).

(** Worker [i] of a kind as the simulation makes it. *)
Definition worker_of (k : kind) (i : nat) : worker :=
  match k with
  | AProducer => WProducer (Producer_ctor (Z.of_nat i) (saved i) (draws i))
  | AConsumer => WConsumer (Consumer_ctor (Z.of_nat i))
  end.

(** The program, ready to run, with its numbers of cores and of workers. *)
Definition start (now : timespec) (cores ppc cpc : nat) (secs : Z) : program :=
  Program now (replicate cores None)
    ((λ i, Object (placed ppc i) Unborn Starting (Thread true (worker_of AProducer i) Checking)) <$> seq 0 (cores * ppc))
    ((λ i, Object (placed cpc i) Unborn Starting (Thread true (worker_of AConsumer i) Checking)) <$> seq 0 (cores * cpc))
    (main_statements cores ppc cpc secs).

Lemma boot_starts now cores argv cfg :
  command_line argv = Ok (Some cfg) → (0 < cores ≤ 32)%nat →
  0 ≤ producers_per_core cfg → 0 ≤ consumers_per_core cfg →
  Z.of_nat cores * producers_per_core cfg ≤ INT_MAX → Z.of_nat cores * consumers_per_core cfg ≤ INT_MAX →
  boot saved draws now (Z.of_nat cores) argv =
    Ok (Some (cfg, start now cores (Z.to_nat (producers_per_core cfg)) (Z.to_nat (consumers_per_core cfg)) (run_seconds cfg))).
Proof.
  intros E Hc Hp Hq HP HQ. unfold boot. rewrite E. simpl_bind.
  destruct (set_up_ok cores (Z.to_nat (producers_per_core cfg)) (Z.to_nat (consumers_per_core cfg)))
    as (s & Es & Ep & Ec & _); [lia..|].
  rewrite !Z2Nat.id in Es by done. rewrite Es. simpl_bind. rewrite Ep, Ec, Nat2Z.id.
  assert (Eo : ∀ (f : spawn → object) (n : nat) (l : list nat), f <$> omap (λ x, x) ((λ k, Some (placed n k)) <$> l) =
    (λ i, f (placed n i)) <$> l) by (intros f n l; induction l as [|i l IH]; [done|]; cbn; by rewrite IH).
  rewrite !Eo. unfold start. do 4 f_equal. apply list_fmap_ext. intros _ i _.
  unfold producer_object. cbn [placed sp_id worker_of]. by rewrite Nat2Z.id.
Qed.

Lemma slice_seq n k m : (S k * n ≤ m)%nat → slice n k (seq 0 m) = seq (k * n) n.
Proof.
  intros Hm. unfold slice. rewrite drop_seq, take_seq. f_equal. lia.
Qed.

Context (size : Z) (slots : nat → list WorkItem).

Lemma boot_inv now cores ppc cpc secs :
  prog_inv cores ppc cpc (start now cores ppc cpc secs) ∧ prompt (start now cores ppc cpc secs).
Proof.
  split; [split|].
  - apply length_replicate.
  - intros []; cbn; by rewrite length_fmap, length_seq.
  - intros k i o Ho. destruct k; cbn in Ho; rewrite list_lookup_fmap in Ho;
      apply fmap_Some in Ho as (j & Hj & ->); apply lookup_seq in Hj as [-> _];
      (split; [unfold queue_index; cbn; apply Nat2Z.id|by split_and!]).
  - eapply fits_ext; [| |apply (main_statements_fit cores ppc cpc secs (λ _ _, Unborn)); done].
    + intros j. unfold made. cbn. destruct (replicate cores None !! j) as [q|] eqn:E; cbn.
      * apply lookup_replicate in E as [-> _]. split; [done|by intros []].
      * split; [done|by intros []].
    + intros k i. unfold stages_of. destruct k; cbn; rewrite list_lookup_fmap; by destruct (seq _ _ !! i).
  - split; apply Forall_fmap, Forall_true; done.
Qed.

Lemma start_core now cores ppc cpc secs core :
  (core < cores)%nat →
  core_system size slots ppc cpc core (start now cores ppc cpc secs) =
    initial now (fresh_queue size slots core)
      ((worker_of AProducer <$> seq (core * ppc) ppc) ++ (worker_of AConsumer <$> seq (core * cpc) cpc)).
Proof.
  intros Hc. unfold core_system, initial. f_equal.
  - unfold core_queue. cbn. by rewrite lookup_replicate_2.
  - unfold core_threads. cbn [start g_producers g_consumers]. rewrite <-!slice_fmap, !slice_seq by nia.
    by rewrite fmap_app, <-!list_fmap_compose.
Qed.
End Boot.

(** ** From the command line *)
Lemma new_array_nonneg n arr : new_array n = Ok arr → 0 ≤ n.
Proof. unfold new_array. destruct (Z.ltb_spec n 0); [done|]. by intros _. Qed.

Lemma boot_Ok saved draws now cores argv cfg p :
  (0 < cores)%nat → boot saved draws now (Z.of_nat cores) argv = Ok (Some (cfg, p)) →
  (cores ≤ 32)%nat ∧
  p = start saved draws now cores (Z.to_nat (producers_per_core cfg)) (Z.to_nat (consumers_per_core cfg)) (run_seconds cfg).
Proof.
  intros Hc Hb. assert (Hb' := Hb). unfold boot in Hb. apply bind_Ok in Hb as ([c|] & Ecl & Hb); [|done].
  apply bind_Ok in Hb as (s & Es & Hb). injection Hb as -> _.
  assert (H32 : (cores ≤ 32)%nat).
  { apply Nat.nlt_ge. intros Hlt. unfold set_up in Es. apply bind_Ok in Es as ([pol qs] & E & _).
    apply (make_queues_overflow (Z.to_nat (Z.of_nat cores)) 0 (replicate MAX_SYSTEM_CORES None) (replicate MAX_SYSTEM_CORES None));
      [rewrite length_replicate; unfold MAX_SYSTEM_CORES; lia|lia|].
    change (Z.of_nat 0) with 0. by rewrite E. }
  assert (Hn : 0 ≤ producers_per_core cfg ∧ 0 ≤ consumers_per_core cfg ∧
    Z.of_nat cores * producers_per_core cfg ≤ INT_MAX ∧ Z.of_nat cores * consumers_per_core cfg ≤ INT_MAX).
  { unfold set_up in Es. apply bind_Ok in Es as ([pol qs] & _ & Es). apply bind_Ok in Es as (pol' & _ & Es).
    apply bind_Ok in Es as (np & Enp & Es). apply bind_Ok in Es as (ps & Eps & Es).
    apply bind_Ok in Es as (nc & Enc & Es). apply bind_Ok in Es as (cs & Ecs & _).
    apply new_array_nonneg in Eps, Ecs. unfold int_mul in Enp, Enc.
    apply int_of_Ok in Enp as [-> ?], Enc as [-> ?]. split_and!; nia. }
  destruct Hn as (? & ? & ? & ?). rewrite (boot_starts saved draws now cores argv cfg) in Hb' by (done || lia).
  split; [done|]. by injection Hb' as <-.
Qed.
