(* ===== verification/SimEnd.v ===== *)
(** * The simulation can always end

    From every state of the program [main] can reach its last statement that
    C++ defines: a sleeping [main] wakes up, and a stopped thread can finish
    the call it is in, whoever holds the queue's lock, and exit. *)
From S2P Require Import Prelude Semaphore Queue QueueSystem QueueInv QueueLife QueueFinish Items.
From S2P Require Import Workers Scheduler SimMain WorkerLoop SimThreads SimCores.

Section End.
Context (size : Z) (slots : nat → list WorkItem) (cores ppc cpc : nat).
Abbreviation per := (per ppc cpc).
Abbreviation core_system := (core_system size slots ppc cpc).
Abbreviation core_queue := (core_queue size slots).
Abbreviation core_threads := (core_threads ppc cpc).
Abbreviation local_index := (local_index ppc cpc).
Abbreviation prompt_step := (prompt_step size slots).

Record good (p : program) : Prop := {
  gd_inv : prog_inv cores ppc cpc p;
  gd_prompt : prompt p;
  gd_core : ∀ core, (core < cores)%nat →
    sys_inv (core_system core p) ∧ clients worker_ok (core_threads core p) ∧ room (core_system core p)
}.

Lemma good_step p o p' :
  good p → prompt_step p o p' → (∀ core, (core < cores)%nat → room (core_system core p')) → good p'.
Proof.
  intros [Hinv Hp Hc] Hs Hr. destruct (prompt_step_inv size slots cores ppc cpc p o p' Hinv Hp Hs) as [Hinv' Hsteps].
  split; [done|apply Hs|]. intros core Hcore. destruct (Hc core Hcore) as (Hi & Hcl & _). split_and!; [| |by apply Hr].
  - eapply (exec_invariant sys_step sys_inv); [intros ???; apply step_inv|exact Hi|by apply Hsteps].
  - apply (exec_invariant sys_step (λ s, clients worker_ok (s_threads s)) _ _ (core_system core p')
      (λ s o s', step_clients worker_ok s o s')) with (2 := Hsteps core Hcore). exact Hcl.
Qed.

(** Threads and clock take the program from [p] to [p'], main standing still. *)
Definition continues (p p' : program) : Prop :=
  (∃ tr, exec prompt_step p tr p') ∧ good p' ∧ g_main p' = g_main p ∧ ∀ k i, stages_of p' k i = stages_of p k i.

Lemma continues_refl p : good p → continues p p.
Proof. intros H. split_and!; [|done..]. exists []. constructor. Qed.

Lemma continues_trans p1 p2 p3 : continues p1 p2 → continues p2 p3 → continues p1 p3.
Proof.
  intros ([tr1 E1] & _ & M1 & S1) ([tr2 E2] & G2 & M2 & S2). split_and!; [|done|congruence|].
  - exists (tr1 ++ tr2). by eapply exec_trans.
  - intros k i. by rewrite S2, S1.
Qed.

Lemma tick_continues p ts :
  good p → settled (stages_of p) → ts_le (g_now p) ts = true → continues p (set_now ts p).
Proof.
  intros Hg Hs Hts.
  assert (Hp : prompt (set_now ts p)).
  { assert (HF : ∀ k, Forall (prompt_object ts) (objects k p)).
    { intros k. apply Forall_lookup. intros i o Hi. unfold prompt_object. specialize (Hs k i).
      unfold stages_of in Hs. rewrite Hi in Hs. cbn in Hs. destruct (o_stage o); naive_solver. }
    split; [apply (HF AProducer)|apply (HF AConsumer)]. }
  assert (Hst : prompt_step p None (set_now ts p)) by (split; [by constructor|done]).
  split_and!; [exists []; by apply (exec_one prompt_step _ None)| |done|done].
  eapply good_step; [done..|]. intros core Hc. apply (gd_core p Hg core Hc).
Qed.

Lemma act_continues p k i o p' ev :
  good p → objects k p !! i = Some o → object_act k i p = Ok (Some (ev, p')) →
  prompt p' → (∀ core, (core < cores)%nat → room (core_system core p')) →
  g_main p' = g_main p → (∀ k i, stages_of p' k i = stages_of p k i) → continues p p'.
Proof.
  intros Hg Hi Ha Hp Hr Hm Hs. assert (Hst : prompt_step p ev p') by (split; [by eapply step_object|done]).
  split_and!; [exists (option_list ev); by apply exec_one|by eapply good_step|done..].
Qed.

(** An object replaced by one in the same stage. *)
Lemma replaced_stages p k i o o' q' :
  objects k p !! i = Some o → o_stage o' = o_stage o →
  ∀ k' i', stages_of (set_queues q' (set_objects k (<[i := o']> (objects k p)) p)) k' i' = stages_of p k' i'.
Proof.
  intros Hi Es k' i'. transitivity (stages_of (set_objects k (<[i := o']> (objects k p)) p) k' i'); [by destruct k, k'|].
  rewrite (stages_insert p k i o o' Hi). unfold update. case_decide as E; [|done]. destruct E as [-> ->].
  unfold stages_of. by rewrite Hi, Es.
Qed.

Lemma replaced_lookup p k i o' q' k' i' :
  objects k' (set_queues q' (set_objects k (<[i := o']> (objects k p)) p)) !! i' =
  if decide (k' = k ∧ i' = i) then (if decide (i < length (objects k p))%nat then Some o' else None) else objects k' p !! i'.
Proof.
  replace (objects k' (set_queues _ _)) with (if decide (k' = k) then <[i := o']> (objects k p) else objects k' p)
    by (by destruct k, k').
  destruct (decide (k' = k)) as [->|Hne]; [|by rewrite decide_False by (by intros [])].
  destruct (decide (i' = i)) as [->|Hi].
  - rewrite (decide_True (P := k = k ∧ i = i)) by done. case_decide; [by apply list_lookup_insert_eq|].
    apply lookup_ge_None. rewrite length_insert. lia.
  - by rewrite list_lookup_insert_ne, decide_False by (done || by intros []).
Qed.

Lemma replaced_prompt p k i o' q' :
  prompt p → prompt_object (g_now p) o' → prompt (set_queues q' (set_objects k (<[i := o']> (objects k p)) p)).
Proof. intros [H1 H2] Ho. destruct k; split; cbn; try done; by apply Forall_insert. Qed.

(** ** A thread inside [work()] *)
Lemma good_object p k i o :
  good p → objects k p !! i = Some o →
  (i / per k < cores)%nat ∧ queue_index o = (i / per k)%nat ∧ coherent o ∧
  (o_stage o ≠ Unborn → queue_of o p = Some (core_queue (i / per k) p)) ∧
  core_threads (i / per k) p !! local_index k i = Some (o_thread o).
Proof.
  intros [Hinv _ _] Hi. destruct (pi_object _ _ _ p Hinv k i o Hi) as (Ex & Hco & Hm).
  assert (Hlt := lookup_lt_Some _ _ _ Hi). rewrite (inv_sized _ _ _ p Hinv) in Hlt.
  destruct (in_core _ _ _ k i Hlt) as [_ Hc]. split_and!; try done.
  - intros H. destruct (Hm H) as [q Hq]. unfold queue_of, SimCores.core_queue. rewrite Ex in *. by rewrite Hq.
  - apply (core_lookup cores); [by apply (inv_sized cores)|done].
Qed.

Lemma work_step p k i o q' ev th' :
  good p → objects k p !! i = Some o → op_of (o_thread o) ≠ None →
  run (g_now p) (o_thread o) (core_queue (i / per k) p) = Ok (Some (q', ev, th')) →
  let p' := set_queues (<[queue_index o := Some q']> (g_queues p)) (set_objects k (<[i := with_thread th' o]> (objects k p)) p) in
  continues p p' ∧ core_system (i / per k) p' = System (g_now p) q' (<[local_index k i := th']> (core_threads (i / per k) p)).
Proof.
  intros Hg Hi Hop Hrun p'. destruct (good_object p k i o Hg Hi) as (Hc & Ex & Hco & Hq & Hl).
  destruct (object_run_working run (g_now p) o (queue_of o p) Hco Hop) as (Er & Hne & _ & Hpo).
  assert (Hcore : ∀ core, (core < cores)%nat → core_system core p' =
    if decide (i / per k = core)%nat then System (g_now p) q' (<[local_index k i := th']> (core_threads core p))
    else core_system core p).
  { intros core Hcore. unfold p'. rewrite (core_update size slots cores ppc cpc core p k i o); try done.
    - by apply (inv_sized cores), Hg.
    - by apply (pi_queues cores ppc cpc), Hg. }
  assert (Ek : core_system (i / per k) p' = System (g_now p) q' (<[local_index k i := th']> (core_threads (i / per k) p)))
    by (by rewrite Hcore, decide_True by done).
  split; [|done]. eapply (act_continues p k i o p'); [done..| | | | |].
  - unfold object_act. rewrite Hi, Er, (Hq Hne). cbn [thread_run]. rewrite Hrun. done.
  - apply replaced_prompt; [apply Hg|]. exact Hpo.
  - intros core Hco'. rewrite Hcore by done. case_decide as E; [subst core|by apply (gd_core p Hg core Hco')].
    eapply run_room; [done|by left|done|]. apply (gd_core p Hg _ Hc).
  - by destruct k.
  - by apply replaced_stages with (o := o).
Qed.

(** The thread with an index on a core belongs to an object. *)
Lemma core_object p core j th :
  good p → (core < cores)%nat → core_threads core p !! j = Some th →
  ∃ k i o, objects k p !! i = Some o ∧ (i / per k)%nat = core ∧ local_index k i = j ∧ o_thread o = th.
Proof.
  intros [Hinv _ _] Hc Hj. unfold SimCores.core_threads in Hj.
  pose proof (slice_length ppc core (g_producers p)) as Hsl.
  rewrite (inv_sized cores ppc cpc p Hinv AProducer : length (g_producers p) = _) in Hsl. cbn [SimCores.per] in Hsl.
  specialize (Hsl ltac:(nia)).
  assert (Hs : ∀ n (l : list object) j, (o_thread <$> slice n core l) !! j = Some th →
    (j < n)%nat ∧ ∃ o, l !! (core * n + j)%nat = Some o ∧ o_thread o = th).
  { intros n l j' E. rewrite list_lookup_fmap in E. apply fmap_Some in E as (o & E & ->).
    assert (j' < n)%nat by (apply lookup_lt_Some in E; unfold slice in E; rewrite length_take in E; lia).
    rewrite slice_lookup in E by done. split; [done|]. by exists o. }
  assert (Hdiv : ∀ n j, (j < n)%nat → ((core * n + j) / n = core ∧ (core * n + j) mod n = j)%nat).
  { intros n j' Hj'. split; [symmetry; apply (Nat.div_unique _ n core j'); lia|symmetry; apply (Nat.mod_unique _ n core j'); lia]. }
  destruct (decide (j < ppc)%nat) as [Hlt|Hge].
  - rewrite lookup_app_l in Hj by (by rewrite length_fmap, Hsl). apply Hs in Hj as (_ & o & Ho & Et).
    destruct (Hdiv ppc j Hlt) as [E1 E2]. by exists AProducer, (core * ppc + j)%nat, o.
  - rewrite lookup_app_r in Hj by (rewrite length_fmap, Hsl; lia). rewrite length_fmap, Hsl in Hj.
    apply Hs in Hj as (Hlt & o & Ho & Et). destruct (Hdiv cpc (j - ppc)%nat Hlt) as [E1 E2].
    exists AConsumer, (core * cpc + (j - ppc))%nat, o. split_and!; try done. cbn. rewrite E2. lia.
Qed.

(** What the threads of a core can do inside their calls, the program can do. *)
Lemma calls_lift core p tr s :
  good p → settled (stages_of p) → (core < cores)%nat → exec call_step (core_system core p) tr s →
  ∃ p', continues p p' ∧ core_system core p' = s.
Proof.
  intros Hg Hs Hc Hex.
  refine (exec_invariant call_step (λ s, ∃ p', continues p p' ∧ core_system core p' = s) _ _ _ _ _ Hex).
  2: { exists p. split; [by apply continues_refl|done]. }
  clear - Hs Hc. intros s o s' (p1 & H1 & Es) Hst. assert (Hg1 : good p1) by apply H1.
  destruct Hst as [now q ths j th q' ev th' Hj Hop Hrun|now now' q ths Ht]; injection Es as <- <- <-.
  - destruct (core_object p1 core j th Hg1 Hc Hj) as (k & i & o & Ho & <- & <- & <-).
    destruct (work_step p1 k i o q' ev th' Hg1 Ho Hop Hrun) as [H2 E2]. eexists. split; [by eapply continues_trans|exact E2].
  - exists (set_now now' p1). split; [|done]. eapply continues_trans; [exact H1|]. apply tick_continues; [done| |done].
    intros k i. destruct H1 as (_ & _ & _ & ->). apply Hs.
Qed.

(** A thread inside [work()] can finish its call. *)
Lemma finish_work p k i o :
  good p → settled (stages_of p) → objects k p !! i = Some o → op_of (o_thread o) ≠ None →
  ∃ p' o', continues p p' ∧ objects k p' !! i = Some o' ∧ op_of (o_thread o') = None.
Proof.
  intros Hg Hs Hi Hop. destruct (good_object p k i o Hg Hi) as (Hc & _ & _ & _ & Hl).
  destruct (gd_core p Hg _ Hc) as (H1 & H2 & H3).
  destruct (finish_call worker_ok _ (core_system (i / per k) p) _ _ (le_n _) (Build_healthy worker_ok _ H1 H2 H3) Hl Hop)
    as (tr & s & th & Hx & Hth & Eop).
  destruct (calls_lift _ p tr s Hg Hs Hc Hx) as (p' & Hct & <-). assert (Hg' : good p') by apply Hct.
  assert (Hlt := lookup_lt_Some _ _ _ Hi). rewrite (inv_sized _ _ _ p (gd_inv p Hg)) in Hlt.
  destruct (inv_object _ _ _ p' k i (gd_inv p' Hg') Hlt) as (o' & Ho' & _). exists p', o'. split; [done|]. split; [done|].
  destruct (good_object p' k i o' Hg' Ho') as (_ & _ & _ & _ & Hl'). cbn [SimCores.core_system s_threads] in Hth.
  rewrite Hth in Hl'. by injection Hl' as <-.
Qed.

(** ** A stopped thread *)

(** An action outside [work()]. *)
Lemma quiet_step p k i o o' :
  good p → objects k p !! i = Some o → o_stage o = Halted → op_of (o_thread o) = None →
  object_run run (g_now p) o (queue_of o p) = Ok (Some (queue_of o p, None, o')) →
  o_stage o' = Halted → op_of (o_thread o') = None →
  ∃ p', continues p p' ∧ objects k p' !! i = Some o' ∧ g_now p' = g_now p.
Proof.
  intros Hg Hi Hst Hop Hrun Hst' Hop'. destruct (good_object p k i o Hg Hi) as (Hc & Ex & Hco & Hq & Hl).
  rewrite Hst in Hq. specialize (Hq ltac:(done)).
  set (p' := set_queues (<[queue_index o := queue_of o p]> (g_queues p)) (set_objects k (<[i := o']> (objects k p)) p)).
  exists p'. assert (Hcore : ∀ core, (core < cores)%nat → core_system core p' =
    if decide (i / per k = core)%nat then System (g_now p) (core_queue core p) (<[local_index k i := o_thread o']> (core_threads core p))
    else core_system core p).
  { intros core Hcore. unfold p'. rewrite (core_update size slots cores ppc cpc core p k i o); try done.
    - case_decide as E; [|done]. subst core. by rewrite Hq.
    - by apply (inv_sized cores), Hg.
    - by apply (pi_queues cores ppc cpc), Hg. }
  split_and!; [|unfold p'; rewrite replaced_lookup, decide_True, decide_True by (done || by eapply lookup_lt_Some); done
    |by destruct k].
  eapply (act_continues p k i o p' None); [done..| | | | |].
  - unfold object_act. rewrite Hi, Hrun. done.
  - apply replaced_prompt; [apply Hg|]. unfold prompt_object. by rewrite Hst'.
  - intros core Hcore'. rewrite Hcore by done. case_decide as E; [subst core|by apply (gd_core p Hg core Hcore')].
    destruct (gd_core p Hg _ Hc) as (_ & _ & Hr). destruct Hr as [R1 R2]. unfold room in *.
    cbn [SimCores.core_system s_queue s_threads] in *. rewrite !(zsum_insert _ _ _ _ _ Hl).
    unfold count_op in *. rewrite Hop, Hop'. lia.
  - by destruct k.
  - apply replaced_stages with (o := o); [done|]. by rewrite Hst'.
Qed.

Definition exits (p : program) (k : kind) (i : nat) : Prop :=
  ∃ p' o', continues p p' ∧ objects k p' !! i = Some o' ∧ t_phase (o_thread o') = Exited.

Lemma exits_later p p' k i : continues p p' → exits p' k i → exits p k i.
Proof. intros H (p2 & o2 & H2 & Hi2 & E2). exists p2, o2. split_and!; [by eapply continues_trans|done..]. Qed.

(** Once out of [work()], a stopped thread exits. *)
Lemma halted_exits n p k i o :
  (halt_rank o ≤ n)%nat → good p → settled (stages_of p) → objects k p !! i = Some o → o_stage o = Halted →
  op_of (o_thread o) = None → exits p k i.
Proof.
  revert p o. induction n as [|n IH]; intros p o Hn Hg Hs Hi Hst Hop;
    (destruct (t_phase (o_thread o)) as [|op|] eqn:Ep; [|by unfold op_of in Hop; rewrite Ep in Hop|
      exists p, o; split_and!; [by apply continues_refl|done..]]).
  { exfalso. unfold halt_rank in Hn. rewrite Ep in Hn. destruct (o_loop o); lia. }
  destruct (wake_reached (g_now p) (o_loop o)) as (ts & Hts & Hw).
  pose proof (tick_continues p ts Hg Hs Hts) as H1. eapply exits_later; [exact H1|]. set (p1 := set_now ts p) in *.
  assert (Hg1 : good p1) by apply H1. assert (Hi1 : objects k p1 !! i = Some o) by (by destruct k).
  destruct (good_object p1 k i o Hg1 Hi1) as (_ & _ & Hco & _).
  destruct (halted_acts run ts o (queue_of o p1) Hco Hst Ep Hw) as (o' & Hrun & _ & _ & Hst' & Hop' & Hlt).
  destruct (quiet_step p1 k i o o' Hg1 Hi1 Hst Hop Hrun Hst' Hop') as (p2 & H2 & Hi2 & _).
  eapply exits_later; [exact H2|]. apply (IH p2 o'); [lia|apply H2| |done..].
  intros k' i'. destruct H2 as (_ & _ & _ & ->). destruct H1 as (_ & _ & _ & ->). apply Hs.
Qed.

Lemma stopped_worker_exits p k i o :
  good p → settled (stages_of p) → objects k p !! i = Some o → o_stage o = Halted → exits p k i.
Proof.
  intros Hg Hs Hi Hst.
  assert (∃ p1 o1, continues p p1 ∧ objects k p1 !! i = Some o1 ∧ op_of (o_thread o1) = None) as (p1 & o1 & H1 & Hi1 & Hop1).
  { destruct (op_of (o_thread o)) as [op|] eqn:Eop; [|exists p, o; split_and!; [by apply continues_refl|done..]].
    apply (finish_work p k i o); try done. by rewrite Eop. }
  eapply exits_later; [exact H1|]. destruct H1 as (_ & Hg1 & _ & Est).
  apply (halted_exits _ p1 k i o1 (le_n _)); try done; [by intros k' i'; rewrite Est|].
  specialize (Est k i). unfold stages_of in Est. rewrite Hi, Hi1 in Est. cbn in Est. congruence.
Qed.

(** ** Main *)
Definition weight (st : statement) : nat :=
  match st with New _ _ | Delete _ _ => 3 | Sleep _ => 2 | _ => 1 end.
Definition total (l : list statement) : nat := sum_list (weight <$> l).

Lemma main_weight p p' : main_run size slots p = Ok (Some p') → (total (g_main p') < total (g_main p))%nat.
Proof.
  unfold main_run, total. destruct (g_main p) as [|st rest]; [done|]. intros Hr.
  assert (Hon : ∀ k i f l, on_object k i f (set_main l p) = Ok (Some p') → g_main p' = l).
  { intros k i f l Ho. unfold on_object in Ho. destruct (objects k (set_main l p) !! i); [|done]. injection Ho as <-. by destruct k. }
  destruct st; try (apply Hon in Hr; rewrite Hr; cbn; lia); try (injection Hr as <-; cbn; lia).
  - destruct (ts_le _ _); [|done]. injection Hr as <-. cbn. lia.
  - destruct (objects k p !! i) as [o|]; [|done]. destruct (t_phase _); [done..|]. apply Hon in Hr. rewrite Hr. cbn. lia.
  - apply bind_Ok in Hr as (? & _ & Hr). injection Hr as <-. cbn. lia.
  - apply bind_Ok in Hr as (? & _ & Hr). injection Hr as <-. cbn. lia.
Qed.

Lemma main_step_good p p' : good p → main_run size slots p = Ok (Some p') → good p' ∧ prompt_step p None p'.
Proof.
  intros Hg Hr. destruct (main_run_step size slots cores ppc cpc p p' (gd_inv p Hg) Hr) as [_ Hq].
  assert (Hs : prompt_step p None p').
  { split; [by constructor|]. eapply main_run_prompt; [apply Hg|apply Hg|exact Hr]. }
  split; [|done]. eapply good_step; [done..|]. intros core Hc.
  destruct (gd_core p Hg core Hc) as (_ & _ & Hroom). destruct (Hq core Hc) as [->|(j & th & Hj & ->)]; [done|].
  destruct Hroom as [R1 R2]. unfold room in *. cbn [SimCores.core_system s_queue s_threads] in *.
  rewrite !(zsum_insert _ _ _ _ _ Hj).
  assert (E : ∀ f, count_op f (stop th) = count_op f th) by (by destruct th). rewrite !E. lia.
Qed.

(** Main's next statement, after what it has to wait for. *)
Lemma main_goes_on p :
  good p →
  (∃ a l, g_main p = DeleteObject a :: l) ∨
  ∃ p1 p', continues p p1 ∧ main_run size slots p1 = Ok (Some p').
Proof.
  intros Hg. pose proof (pi_main _ _ _ p (gd_inv p Hg)) as Hf. destruct (g_main p) as [|st rest] eqn:Em; [done|].
  assert (Hat : ∀ k i f l, (i < cores * per k)%nat → ∃ p', on_object k i f (set_main l p) = Ok (Some p')).
  { intros k i f l Hi. destruct (inv_object _ _ _ p k i (gd_inv p Hg) Hi) as (o & Ho & _).
    rewrite (on_object_eq k i f p l o Ho). by eexists. }
  assert (Hnow : (∃ p', main_run size slots p = Ok (Some p')) → ∃ p1 p', continues p p1 ∧ main_run size slots p1 = Ok (Some p')).
  { intros [p' E]. exists p, p'. split; [by apply continues_refl|done]. }
  unfold main_run in Hnow. rewrite Em in Hnow. destruct st; cbn [fits] in Hf.
  1: right; apply Hnow; by eexists.
  1, 2, 3, 6, 7: right; apply Hnow, Hat; apply Hf.
  - right. apply Hnow. by eexists.
  - right. destruct Hf as [Hs _].
    destruct (clock_reaches (g_now p) ts) as (t & Ht & Hts).
    exists (set_now t p). eexists. split; [by apply tick_continues|]. unfold main_run. cbn [set_now g_main g_now].
    rewrite Em, Hts. done.
  - right. destruct Hf as (Hi & Hs & Hst & _). destruct (inv_object _ _ _ p k i (gd_inv p Hg) Hi) as (o & Ho & Es & _).
    rewrite Es in Hst. destruct (stopped_worker_exits p k i o Hg Hs Ho Hst) as (p1 & o1 & Hc & Hi1 & Ex).
    exists p1. assert (Em1 : g_main p1 = Join k i :: rest) by (destruct Hc as (_ & _ & -> & _); exact Em).
    unfold main_run. rewrite Em1, Hi1, Ex. rewrite (on_object_eq k i _ p1 rest o1 Hi1). by eexists.
  - right. destruct Hf as [-> _]. apply Hnow. by eexists.
  - left. by eexists _, _.
  - done.
Qed.

Lemma main_can_end p :
  good p → ∃ tr p', exec prompt_step p tr p' ∧ good p' ∧ main_run size slots p' = Fault MismatchedDelete.
Proof.
  remember (total (g_main p)) as n eqn:En. assert (Hn : (total (g_main p) ≤ n)%nat) by lia. clear En.
  revert p Hn. induction n as [|n IH]; intros p Hn Hg.
  all: destruct (main_goes_on p Hg) as [(a & l & Em)|(p1 & p2 & Hc & Hr)].
  1, 3: exists [], p; split_and!; [constructor|done|]; pose proof (pi_main _ _ _ p (gd_inv p Hg)) as Hf;
    unfold main_run; rewrite Em in *; destruct Hf as [-> _]; done.
  all: pose proof (main_weight p1 p2 Hr) as Hw; destruct Hc as ([tr1 E1] & Hg1 & Em & _); rewrite Em in Hw.
  { lia. }
  destruct (main_step_good p1 p2 Hg1 Hr) as [Hg2 Hs2]. destruct (IH p2) as (tr & p' & He & Hg' & Hend); [lia|done|].
  exists (tr1 ++ option_list None ++ tr), p'. split_and!; [|done..].
  eapply exec_trans; [exact E1|]. eapply exec_trans; [|exact He]. by apply exec_one.
Qed.
End End.
