(* ===== verification/SimRunProps.v ===== *)
(** * Properties of the simulation as a whole (Chapter 12)

    The program of [SimThreads], started from a command line: what its cores
    do, where it can fault, and that it can always end, with witnesses. *)
From S2P Require Import Prelude Semaphore Queue QueueSystem QueueInv QueueFifo QueueLife QueueFinish Items Workers.
From S2P Require Import Scheduler Getopt SimMain QueueProps WorkerLoop SimThreads SimCores SimBoot SimEnd.

Section Simulation.
Context (saved : nat → WorkItem) (draws : nat → rands) (slots : nat → list WorkItem).
Context (now : timespec) (cores : nat) (argv : list (list Z)) (cfg : settings) (p : program).
Context (cores_pos : (0 < cores)%nat).
Context (booted : boot saved draws now (Z.of_nat cores) argv = Ok (Some (cfg, p))).
Context (size_ok : 0 < queue_size cfg ≤ MAX_QUEUE_SIZE).
Context (slots_ok : ∀ core, Z.of_nat (length (slots core)) = queue_size cfg).
Context (memory_ok : ∀ i, rand_ok (draws i) ∧ item_wf (saved i)).

Abbreviation ppc := (Z.to_nat (producers_per_core cfg)).
Abbreviation cpc := (Z.to_nat (consumers_per_core cfg)).
Abbreviation size := (queue_size cfg).

(** The workers of a core, and its queue, at the start. *)
Definition core_workers (core : nat) : list worker :=
  (worker_of saved draws AProducer <$> seq (core * ppc) ppc) ++ (worker_of saved draws AConsumer <$> seq (core * cpc) cpc).

Lemma workers_ok core : Forall worker_ok (core_workers core).
Proof.
  apply Forall_app. split; apply Forall_fmap, Forall_true; intros i; [|done]. by destruct (memory_ok i).
Qed.

Lemma core_producer core j : (j < ppc)%nat →
  core_workers core !! j = Some (worker_of saved draws AProducer (core * ppc + j)).
Proof.
  intros Hj. unfold core_workers. rewrite lookup_app_l by (by rewrite length_fmap, length_seq).
  rewrite list_lookup_fmap, lookup_seq_lt by done. done.
Qed.

Lemma booted_start : p = start saved draws now cores ppc cpc (run_seconds cfg).
Proof. by apply boot_Ok in booted as [_ ?]. Qed.

Lemma booted_good : good size slots cores ppc cpc p.
Proof.
  rewrite booted_start. destruct (boot_inv saved draws now cores ppc cpc (run_seconds cfg)) as [Hi Hp].
  split; [done..|]. intros core Hc. pose proof (start_core saved draws size slots now cores ppc cpc (run_seconds cfg) core Hc) as E.
  unfold core_threads. assert (Et := f_equal s_threads E). cbn [core_system s_threads] in Et. unfold core_threads in Et.
  rewrite E, Et. split_and!.
  - by apply initial_inv.
  - apply (initial_clients worker_ok now (fresh_queue size slots core)), workers_ok.
  - unfold room. cbn [initial s_queue s_threads fresh_queue Queue_ctor m_pushed_count m_popped_count].
    rewrite !zsum_zero; [unfold INT_MAX; lia|..]; apply Forall_fmap, Forall_true; done.
Qed.

Lemma core_run tr p' core :
  exec (prompt_step size slots) p tr p' → (core < cores)%nat →
  exec sys_step (initial now (fresh_queue size slots core) (core_workers core)) (core_trace ppc cpc core tr)
    (core_system size slots ppc cpc core p').
Proof.
  intros Hex Hc. destruct booted_good as [Hi Hp _].
  destruct (prompt_exec size slots cores ppc cpc p tr p' Hi Hp Hex) as (_ & _ & Hcore). specialize (Hcore core Hc).
  rewrite booted_start in Hcore. by rewrite start_core in Hcore.
Qed.

Lemma reached_good tr p' :
  exec (prompt_step size slots) p tr p' →
  prog_inv cores ppc cpc p' ∧ prompt p' ∧ ∀ core, (core < cores)%nat →
    sys_inv (core_system size slots ppc cpc core p') ∧ clients worker_ok (core_threads ppc cpc core p').
Proof.
  intros Hex. destruct booted_good as [Hi Hp _].
  destruct (prompt_exec size slots cores ppc cpc p tr p' Hi Hp Hex) as (Hi' & Hp' & _). split_and!; [done..|].
  intros core Hc. pose proof (core_run tr p' core Hex Hc) as Hr. split.
  - eapply (reachable_inv now (slots core) size); [done..|by eexists].
  - eapply (reachable_clients worker_ok _ _ _ (core_system size slots ppc cpc core p')); [apply workers_ok|by eexists].
Qed.

(** C2. The whole simulation, main program and threads, as long as every worker
    is constructed within the two seconds its thread sleeps: what it does on a
    core is an execution of the core's own queue with the core's own producers
    and consumers; each producer's items enter that queue in the order it made
    them, none lost and none repeated; and with one worker of each kind the
    consumer receives exactly the first items of the producer, in order and
    whole. *)
Theorem simulation_runs_a_queue_per_core tr p' core :
  exec (prompt_step size slots) p tr p' → (core < cores)%nat →
  let own := core_trace ppc cpc core tr in
  let got := popped (events own) in
  exec sys_step (initial now (fresh_queue size slots core) (core_workers core)) own (core_system size slots ppc cpc core p') ∧
  (∀ j, (j < ppc)%nat → let its := pushed_by j own in
     id <$> its = item_ids (ITEM_STARTING_ID_EACH_PRODUCER * u32 (Z.of_nat (core * ppc + j))) (length its) ∧
     Forall (λ it, ∃ n, cooked it n) its) ∧
  (producers_per_core cfg = 1 → consumers_per_core cfg = 1 →
   id <$> got = item_ids (ITEM_STARTING_ID_EACH_PRODUCER * Z.of_nat core) (length got) ∧
   Forall (λ it, ∃ n, cooked it n) got ∧ len got ≤ len (pushed_by 0 own) ≤ len got + size).
Proof.
  intros Hex Hc own got. pose proof (core_run tr p' core Hex Hc) as Hr. split; [done|]. split.
  - intros j Hj. destruct (memory_ok (core * ppc + j)) as [Hd Hs].
    destruct (producer_stream now _ _ j (Z.of_nat (core * ppc + j)) (saved (core * ppc + j)) (draws (core * ppc + j)) _ _
      (workers_ok core) (core_producer core j Hj) Hr) as (? & ? & _). done.
  - intros E1 E2. unfold core_workers in Hr. rewrite E1, E2 in Hr. change (Z.to_nat 1) with 1%nat in Hr.
    rewrite Nat.mul_1_r in Hr. cbn [seq fmap list_fmap app worker_of] in Hr. subst got own. rewrite E1, E2.
    destruct (memory_ok core) as [Hd Hs].
    pose proof (consumer_gets_producer_stream now (slots core) size (Z.of_nat core) (Z.of_nat core) (Z.of_nat core)
      (saved core) (draws core) _ _ size_ok (slots_ok core) Hd Hs Hr) as Hg. cbv zeta in Hg.
    apply boot_Ok in booted as [H32 _]; [|done]. rewrite (u32_small (Z.of_nat core)) in Hg by lia. exact Hg.
Qed.

(** C3. As long as every worker is constructed within those two seconds and the
    queues' counters fit, no thread of the simulation has undefined behaviour;
    main has none but its [delete] of an array, and when it gets there every
    worker has been joined, its thread gone: so the queues hold what was
    pushed and not popped, and are in nobody's hands. *)
Theorem simulation_faults_at_the_end_only tr p' :
  exec (prompt_step size slots) p tr p' →
  ((∀ core, (core < cores)%nat → counters_fit (core_queue size slots core p')) → ¬ object_fault p') ∧
  (∀ f, main_run size slots p' = Fault f →
     f = MismatchedDelete ∧
     (∀ k i o, objects k p' !! i = Some o → o_stage o = Joined ∧ t_phase (o_thread o) = Exited) ∧
     ∀ core, (core < cores)%nat →
       let q := core_queue size slots core p' in
       m_pushed_count q = len (pushed (events (core_trace ppc cpc core tr))) ∧
       m_popped_count q = len (popped (events (core_trace ppc cpc core tr))) ∧
       m_cur_count q = m_pushed_count q - m_popped_count q ∧ sem_value (m_lock q) = 1).
Proof.
  intros Hex. destruct (reached_good tr p' Hex) as (Hi & Hp & Hcore). split.
  - intros Hfit (k & i & f & Hf). unfold object_act in Hf. destruct (objects k p' !! i) as [o|] eqn:Ho; [|done].
    destruct (pi_object _ _ _ p' Hi k i o Ho) as (Ex & Hco & Hm).
    destruct (object_run run (g_now p') o (queue_of o p')) as [[[[q1 ev] o1]|]|f'] eqn:Er; [done|done|].
    destruct (object_run_fault run _ _ _ _ Hco (prompt_lookup p' k i o Hp Ho) Hm Er) as (q0 & Eq & Hrun).
    assert (Hlt := lookup_lt_Some _ _ _ Ho). rewrite (inv_sized _ _ _ p' Hi) in Hlt.
    destruct (in_core _ _ _ k i Hlt) as [_ Hc]. destruct (Hcore _ Hc) as [Hinv Hcl].
    assert (Eq' : core_queue size slots (i / per ppc cpc k) p' = q0)
      by (unfold core_queue; rewrite <-Ex; unfold queue_of in Eq; by rewrite Eq).
    apply (inv_no_fault worker_ok _ Hinv Hcl (Hfit _ Hc)). eexists _, _, f'. split.
    + apply (core_lookup cores); [by apply (inv_sized cores)|exact Ho].
    + cbn [core_system s_now s_queue]. by rewrite Eq'.
  - intros f Hf. destruct (main_run_fault size slots cores ppc cpc p' f Hi Hf) as [-> Hj].
    split; [done|]. split; [done|]. intros core Hc.
    pose proof (core_run tr p' core Hex Hc) as Hr.
    destruct (queue_report_counts now (slots core) size (Z.of_nat core) (core_workers core) _ _ size_ok (slots_ok core) Hr)
      as (H1 & H2 & H3 & _ & _ & H4); [|by split_and!].
    unfold quiescent. cbn [core_system s_threads]. unfold core_threads.
    apply Forall_app. split; apply Forall_fmap; unfold slice; apply Forall_take, Forall_drop, Forall_lookup;
      intros i o Ho; cbn; unfold op_of; by destruct (Hj AProducer i o Ho) as [_ ->] || by destruct (Hj AConsumer i o Ho) as [_ ->].
Qed.

(** C4. In every state it reaches with its workers constructed in time, and
    with room in the counters for the calls under way, the simulation can go on to that end: main never waits for
    ever, whatever the threads are doing, and a stopped worker can finish its
    call and exit even if the queue stays full or empty. *)
Theorem simulation_can_always_end tr p' :
  exec (prompt_step size slots) p tr p' →
  (∀ core, (core < cores)%nat → room (core_system size slots ppc cpc core p')) →
  ∃ tr' p'', exec (prompt_step size slots) p' tr' p'' ∧ main_run size slots p'' = Fault MismatchedDelete.
Proof.
  intros Hex Hroom. destruct (reached_good tr p' Hex) as (Hi & Hp & Hcore).
  destruct (main_can_end size slots cores ppc cpc p') as (tr' & p'' & He & _ & Hend); [|by exists tr', p''].
  split; [done..|]. intros core Hc. destruct (Hcore core Hc). split_and!; [done..|by apply Hroom].
Qed.
End Simulation.

(** ** A constructor that is late *)
Section Late.
Context (size : Z) (slots : nat → list WorkItem).

Lemma new_queues_run n a l now qs ps cs :
  ∃ qs', exec (prog_step size slots) (Program now qs ps cs ((NewQueue <$> seq a n) ++ l)) [] (Program now qs' ps cs l).
Proof.
  revert a qs. induction n as [|n IH]; intros a qs; [exists qs; constructor|].
  destruct (IH (S a) (<[a := Some (fresh_queue size slots a)]> qs)) as [qs' E]. exists qs'.
  eapply (exec_trans _ _ [] _ []); [|exact E]. by eapply (exec_one _ _ None), step_main.
Qed.

Lemma late_object_faults now qs ps cs s w rest :
  ∃ p', exec (prog_step size slots)
      (Program now qs ps (Object s Unborn Starting (Thread true w Checking) :: cs) (New AConsumer 0 :: rest)) [] p' ∧
    object_fault p' ∧ ¬ prompt p' ∧ g_now p' = later now START_DELAY.
Proof.
  assert (Ht : ts_le now (later now START_DELAY) = true).
  { unfold ts_le, later. cbn [tv_sec tv_nsec]. apply orb_true_iff. left. unfold START_DELAY. lia. }
  assert (Hr : ts_le (later now START_DELAY) (later now START_DELAY) = true).
  { unfold ts_le. apply orb_true_iff. right. lia. }
  eexists. split.
  - eapply (exec_trans _ _ [] _ []); [by eapply (exec_one _ _ None), step_main|].
    eapply (exec_trans _ _ [] _ []); [by eapply (exec_one _ _ None), (step_object _ _ AConsumer 0)|].
    eapply (exec_trans _ _ [] _ []); [by eapply (exec_one _ _ None), step_main|].
    eapply (exec_trans _ _ [] _ []); [by eapply (exec_one _ _ None), (step_clock _ _ _ (later now START_DELAY))|].
    eapply (exec_trans _ _ [] _ []).
    { eapply (exec_one _ _ None), (step_object _ _ AConsumer 0). cbn. rewrite Hr. cbn. reflexivity. }
    eapply (exec_one _ _ None), (step_object _ _ AConsumer 0). cbn. reflexivity.
  - split; [by exists AConsumer, 0%nat, Uninitialised|]. split; [|done].
    by intros [_ Hf]; apply Forall_cons in Hf as [? _].
Qed.
End Late.

(** C40. The two seconds are all that keeps the simulation from it: whatever it
    is started with, if the constructor of its first consumer takes longer than
    that (the clock may do so), the thread that [ScheduledObject]'s constructor
    has started calls [work()] of an object whose queue is not assigned yet. *)
Theorem late_constructor_faults saved draws size slots now cores argv cfg p :
  (0 < cores)%nat → boot saved draws now (Z.of_nat cores) argv = Ok (Some (cfg, p)) → 0 < consumers_per_core cfg →
  ∃ p', exec (prog_step size slots) p [] p' ∧ object_fault p' ∧ ¬ prompt p' ∧ g_now p' = later now START_DELAY.
Proof.
  intros Hc Hb Hn. apply boot_Ok in Hb as [_ ->]; [|done]. destruct cores as [|c]; [lia|].
  destruct (Z.to_nat (consumers_per_core cfg)) as [|n] eqn:En; [lia|].
  assert (Em : ∃ rest, main_statements (S c) (Z.to_nat (producers_per_core cfg)) (S n) (run_seconds cfg) =
    (NewQueue <$> seq 0 (S c)) ++ New AConsumer 0 :: rest) by (eexists; reflexivity).
  destruct Em as [rest Em]. unfold start. rewrite Em.
  edestruct (new_queues_run size slots (S c) 0 (New AConsumer 0 :: rest) now) as [qs E].
  edestruct (late_object_faults size slots now qs) as (p' & Hex & Hf).
  exists p'. split; [|exact Hf]. eapply (exec_trans _ _ [] _ []); [exact E|exact Hex].
Qed.

(** ** Witnesses: [sim -s 1] on one core *)
Definition solo_argv : list (list Z) := [[115; 105; 109]; [45; 115]; [49]].
Definition solo_saved (i : nat) : WorkItem := zero_item.
Definition solo_draws (i : nat) : rands := threes.
Definition solo_slots (core : nat) : list WorkItem := [junk_item].
Definition solo_settings : settings := MkSettings 10 1 1 1.
Definition solo_start : program := start solo_saved solo_draws epoch 1 1 1 10.

Definition solo_run (cs : list choice) : list label * program :=
  run_program 1 solo_slots (λ p, bool_decide (prompt p)) cs solo_start.

(** Both workers are made; the producer pushes one item, which the consumer
    pops; main stops the producer, which pushes a second item and exits ... *)
Definition solo_delivery : list choice :=
  repeat Main 5 ++ Act AConsumer 0 :: repeat Main 3 ++ Act AProducer 0 :: Clock (Timespec 2 0) ::
  repeat (Act AProducer 0) 14 ++ repeat (Act AConsumer 0) 16 ++ Clock (Timespec 10 0) :: repeat Main 3 ++
  repeat (Act AProducer 0) 10.
(** ... main joins it, and ten seconds later the consumer, which pops it. *)
Definition solo_whole : list choice :=
  solo_delivery ++ repeat Main 3 ++ Clock (Timespec 20 0) :: repeat Main 3 ++ repeat (Act AConsumer 0) 10 ++ [Main].

Lemma solo_booted : boot solo_saved solo_draws epoch (Z.of_nat 1) solo_argv = Ok (Some (solo_settings, solo_start)).
Proof. vm_compute. reflexivity. Qed.

Lemma solo_exec cs : exec (prompt_step 1 solo_slots) solo_start (solo_run cs).1 (solo_run cs).2.
Proof.
  pose proof (run_program_exec 1 solo_slots (λ p, bool_decide (prompt p)) cs solo_start) as H. unfold solo_run.
  induction H as [|p tr p' o p'' _ IH [Hs Hb]]; [constructor|].
  econstructor; [exact IH|]. split; [done|]. by apply bool_decide_eq_true in Hb.
Qed.

Lemma solo_memory (i : nat) : rand_ok (solo_draws i) ∧ item_wf (solo_saved i).
Proof. split; [apply threes_ok|done]. Qed.

Lemma solo_size : 0 < queue_size solo_settings ≤ MAX_QUEUE_SIZE.
Proof. unfold MAX_QUEUE_SIZE. cbn. lia. Qed.

Lemma simulation_runs_a_queue_per_core_witness :
  id <$> popped (events (core_trace 1 1 0 (solo_run solo_whole).1)) = [0; 1] ∧
  id <$> popped (events (core_trace 1 1 0 (solo_run solo_whole).1)) = item_ids (ITEM_STARTING_ID_EACH_PRODUCER * 0) 2.
Proof.
  split; [vm_compute; reflexivity|].
  destruct (simulation_runs_a_queue_per_core solo_saved solo_draws solo_slots epoch 1 solo_argv solo_settings solo_start
    ltac:(lia) solo_booted solo_size ltac:(done) solo_memory _ _ 0%nat (solo_exec solo_whole) ltac:(lia)) as (_ & _ & H).
  destruct (H eq_refl eq_refl) as [E _]. exact E.
Defined.

Lemma simulation_faults_at_the_end_only_witness :
  main_run 1 solo_slots (solo_run solo_whole).2 = Fault MismatchedDelete ∧
  ¬ object_fault (solo_run solo_delivery).2 ∧
  m_pushed_count (core_queue 1 solo_slots 0 (solo_run solo_whole).2) = 2 ∧
  m_popped_count (core_queue 1 solo_slots 0 (solo_run solo_whole).2) = 2.
Proof.
  assert (E : main_run 1 solo_slots (solo_run solo_whole).2 = Fault MismatchedDelete) by (vm_compute; reflexivity).
  split; [exact E|].
  destruct (simulation_faults_at_the_end_only solo_saved solo_draws solo_slots epoch 1 solo_argv solo_settings solo_start
    ltac:(lia) solo_booted solo_size ltac:(done) solo_memory _ _ (solo_exec solo_delivery)) as [Hno _].
  destruct (simulation_faults_at_the_end_only solo_saved solo_draws solo_slots epoch 1 solo_argv solo_settings solo_start
    ltac:(lia) solo_booted solo_size ltac:(done) solo_memory _ _ (solo_exec solo_whole)) as [_ Hend].
  split.
  - apply Hno. intros core Hc. assert (core = 0%nat) as -> by lia. vm_compute. by split.
  - destruct (Hend _ E) as (_ & _ & Hq). destruct (Hq 0%nat ltac:(lia)) as (-> & -> & _).
    split; vm_compute; reflexivity.
Defined.

Lemma simulation_can_always_end_witness :
  ∃ tr' p'', exec (prompt_step 1 solo_slots) (solo_run solo_delivery).2 tr' p'' ∧ main_run 1 solo_slots p'' = Fault MismatchedDelete.
Proof.
  apply (simulation_can_always_end solo_saved solo_draws solo_slots epoch 1 solo_argv solo_settings solo_start
    ltac:(lia) solo_booted solo_size ltac:(done) solo_memory _ _ (solo_exec solo_delivery)).
  intros core Hc. assert (core = 0%nat) as -> by lia. vm_compute. by split.
Defined.

Lemma late_constructor_faults_witness :
  ∃ p', exec (prog_step 1 solo_slots) solo_start [] p' ∧ object_fault p' ∧ ¬ prompt p' ∧ g_now p' = Timespec 2 0.
Proof. apply (late_constructor_faults solo_saved solo_draws 1 solo_slots epoch 1 solo_argv solo_settings); [lia|apply solo_booted|done]. Defined.
