(* ===== verification/Process.v ===== *)
(** * Processes and the kernel objects they share

    A program as the sequence of its system calls, each continuing with the
    kernel's answer, and the kernel as a step relation: named objects (shared
    memory and message queues), each process's descriptors, mappings, worker
    threads and children, fork, exec and wait.  Chapter14's simulations are
    such programs. *)
From stdpp Require Import gmap.
From S2P Require Import Prelude Scheduler.

(** ** Programs *)
Inductive space := Shm | Mq.
#[export] Instance space_eq_dec : EqDecision space.
Proof. solve_decision. Defined.
#[export] Instance space_countable : Countable space.
Proof.
  refine (inj_countable' (λ s, match s with Shm => true | Mq => false end)
                         (λ b, if (b : bool) then Shm else Mq) _). by intros [].
Defined.

Inductive worker_kind := ProducerKind | ConsumerKind.

(** What a worker is made on: a queue in memory, or one it opens by name. *)
Inductive target := AtAddress (addr : Z) | ByName (n : list Z).

Record worker_args := WorkerArgs {
  wa_kind : worker_kind;
  wa_target : target;
  wa_id : Z;
  wa_priority : Z;
  wa_policy : sched_policy;
  wa_core : Z
}.

#[export] Instance target_eq_dec : EqDecision target.
Proof. solve_decision. Defined.
#[export] Instance worker_kind_eq_dec : EqDecision worker_kind.
Proof. solve_decision. Defined.
#[export] Instance worker_args_eq_dec : EqDecision worker_args.
Proof. solve_decision. Defined.

(** The calls; the four after [Unlink] are operations on objects whose effect
    on other processes matters: placing a queue in memory, its report, a
    worker with its thread, and the worker's deletion. *)
Inductive syscall :=
  | Open (s : space) (n : list Z) (create : bool)   (* shm_open (truncating), mq_open *)
  | Ftruncate (fd size : Z)
  | Mmap (fd len : Z)
  | Munmap (addr len : Z)
  | Close (fd : Z)
  | Unlink (s : space) (n : list Z)
  | NewQueue (addr size id : Z)
  | ReportQueue (addr : Z)
  | NewWorker (w : worker_args)
  | DeleteWorker (h : Z)
  | Sleep (seconds : Z)
  | Fork
  | Execl (path : list Z) (argv : list (list Z))
  | Waitpid (pid : Z).

Inductive prog :=
  | Exit (status : Z)
  | Crash (f : fault)
  | Diverge
  | Call (c : syscall) (k : Z → prog).

(** Going on with the result of a computation of the program's own. *)
Definition check {A} (o : outcome A) (k : A → prog) : prog :=
  match o with Ok a => k a | Fault f => Crash f end.

(** ** The kernel *)
Abbreviation oid := positive.
Abbreviation pid := Z.
Abbreviation namespace := (gmap (space * list Z) oid).

(** The size of a memory object and the queue placed in it: its size and id. *)
Record object := Object { ob_size : Z; ob_queue : option (Z * Z) }.
Abbreviation objects := (gmap oid object).

Record local := Local {
  l_fds : gmap Z oid;
  l_maps : gmap Z oid;
  l_workers : gmap Z (worker_args * option oid);   (* with the object each works on *)
  l_kids : gset pid
}.
Definition no_local : local := Local ∅ ∅ ∅ ∅.

Definition add_fd fd o (l : local) : local := Local (<[fd := o]> (l_fds l)) (l_maps l) (l_workers l) (l_kids l).
Definition del_fd fd (l : local) : local := Local (delete fd (l_fds l)) (l_maps l) (l_workers l) (l_kids l).
Definition add_map addr o (l : local) : local := Local (l_fds l) (<[addr := o]> (l_maps l)) (l_workers l) (l_kids l).
Definition del_map addr (l : local) : local := Local (l_fds l) (delete addr (l_maps l)) (l_workers l) (l_kids l).
Definition add_worker h w (l : local) : local := Local (l_fds l) (l_maps l) (<[h := w]> (l_workers l)) (l_kids l).
Definition del_worker h (l : local) : local := Local (l_fds l) (l_maps l) (delete h (l_workers l)) (l_kids l).
Definition add_kid j (l : local) : local := Local (l_fds l) (l_maps l) (l_workers l) ({[j]} ∪ l_kids l).
Definition del_kid j (l : local) : local := Local (l_fds l) (l_maps l) (l_workers l) (l_kids l ∖ {[j]}).

(** A forked process has its parent's descriptors and mappings, but only the
    thread that forked; exec gives up all three. *)
Definition forked (l : local) : local := Local (l_fds l) (l_maps l) ∅ ∅.
Definition execed (l : local) : local := Local ∅ ∅ ∅ (l_kids l).

(** [sizeof(Queue<WorkItem>)] and [sizeof(WorkItem)]. *)
Definition queue_bytes (size : Z) : Z := 120 + size * 516.

(** The calls that concern one process and the objects: answer and effect. *)
Inductive sys (names : namespace) (objs : objects) (l : local)
    : syscall → Z → namespace → objects → local → Prop :=
  | sys_open s n create o fd :
      names !! (s, n) = Some o → 0 ≤ fd → l_fds l !! fd = None →
      sys names objs l (Open s n create) fd names
        (if create then match s with Shm => <[o := Object 0 None]> objs | Mq => objs end else objs) (add_fd fd o l)
  | sys_create s n o fd :
      names !! (s, n) = None → objs !! o = None → 0 ≤ fd → l_fds l !! fd = None →
      sys names objs l (Open s n true) fd (<[(s, n) := o]> names) (<[o := Object 0 None]> objs) (add_fd fd o l)
  | sys_open_error s n create : sys names objs l (Open s n create) (-1) names objs l
  | sys_truncate fd size o ob :
      l_fds l !! fd = Some o → objs !! o = Some ob →
      sys names objs l (Ftruncate fd size) 0 names (<[o := Object size (ob_queue ob)]> objs) l
  | sys_truncate_error fd size : sys names objs l (Ftruncate fd size) (-1) names objs l
  | sys_mmap fd len o addr :
      l_fds l !! fd = Some o → 0 < addr → l_maps l !! addr = None →
      sys names objs l (Mmap fd len) addr names objs (add_map addr o l)
  | sys_mmap_error fd len : sys names objs l (Mmap fd len) (-1) names objs l
  | sys_munmap addr len : sys names objs l (Munmap addr len) 0 names objs (del_map addr l)
  | sys_close fd : sys names objs l (Close fd) 0 names objs (del_fd fd l)
  | sys_unlink s n o : names !! (s, n) = Some o → sys names objs l (Unlink s n) 0 (delete (s, n) names) objs l
  | sys_unlink_error s n : sys names objs l (Unlink s n) (-1) names objs l
  | sys_queue addr size qid o ob :
      l_maps l !! addr = Some o → objs !! o = Some ob → queue_bytes size ≤ ob_size ob →
      sys names objs l (NewQueue addr size qid) 0 names (<[o := Object (ob_size ob) (Some (size, qid))]> objs) l
  | sys_report addr o : l_maps l !! addr = Some o → sys names objs l (ReportQueue addr) 0 names objs l
  | sys_worker_at w addr o h :
      wa_target w = AtAddress addr → l_maps l !! addr = Some o → l_workers l !! h = None →
      sys names objs l (NewWorker w) h names objs (add_worker h (w, Some o) l)
  | sys_worker_named w n o h :
      wa_target w = ByName n → names !! (Mq, n) = Some o → l_workers l !! h = None →
      sys names objs l (NewWorker w) h names objs (add_worker h (w, Some o) l)
  | sys_worker_error w n h :
      wa_target w = ByName n → l_workers l !! h = None →
      sys names objs l (NewWorker w) h names objs (add_worker h (w, None) l)
  | sys_delete_worker h : sys names objs l (DeleteWorker h) 0 names objs (del_worker h l)
  | sys_sleep n : sys names objs l (Sleep n) 0 names objs l.

(** The memory accesses that kill a process. *)
Definition bad_access (objs : objects) (l : local) (c : syscall) : Prop :=
  match c with
  | NewQueue addr size _ =>
      match l_maps l !! addr with
      | None => True
      | Some o => match objs !! o with Some ob => ob_size ob < queue_bytes size | None => True end
      end
  | ReportQueue addr => l_maps l !! addr = None
  | NewWorker w => match wa_target w with AtAddress addr => l_maps l !! addr = None | ByName _ => False end
  | _ => False
  end.

Record process := Process { pr_prog : prog; pr_local : local; pr_parent : option pid }.

Definition dead (p : process) : Prop :=
  match pr_prog p with Exit _ | Crash _ => True | _ => False end.

#[export] Instance dead_decision p : Decision (dead p).
Proof. unfold dead. destruct (pr_prog p); apply _. Defined.

Record kernel := Kernel { k_names : namespace; k_objs : objects; k_procs : gmap pid process }.

Section Steps.
(** The program in a file, started with its arguments. *)
Context (program : list Z → list (list Z) → option prog).

Inductive kernel_step : kernel → option unit → kernel → Prop :=
  | step_call names objs procs i c k l par r names' objs' l' :
      procs !! i = Some (Process (Call c k) l par) → sys names objs l c r names' objs' l' →
      kernel_step (Kernel names objs procs) None (Kernel names' objs' (<[i := Process (k r) l' par]> procs))
  | step_crash names objs procs i c k l par :
      procs !! i = Some (Process (Call c k) l par) → bad_access objs l c →
      kernel_step (Kernel names objs procs) None (Kernel names objs (<[i := Process (Crash OutOfBounds) l par]> procs))
  | step_fork names objs procs i k l par j :
      procs !! i = Some (Process (Call Fork k) l par) → 0 < j → procs !! j = None →
      kernel_step (Kernel names objs procs) None
        (Kernel names objs (<[j := Process (k 0) (forked l) (Some i)]> (<[i := Process (k j) (add_kid j l) par]> procs)))
  | step_fork_error names objs procs i k l par :
      procs !! i = Some (Process (Call Fork k) l par) →
      kernel_step (Kernel names objs procs) None (Kernel names objs (<[i := Process (k (-1)) l par]> procs))
  | step_exec names objs procs i path argv k l par p :
      procs !! i = Some (Process (Call (Execl path argv) k) l par) → program path argv = Some p →
      kernel_step (Kernel names objs procs) None (Kernel names objs (<[i := Process p (execed l) par]> procs))
  | step_exec_error names objs procs i path argv k l par :
      procs !! i = Some (Process (Call (Execl path argv) k) l par) →
      kernel_step (Kernel names objs procs) None (Kernel names objs (<[i := Process (k (-1)) l par]> procs))
  | step_wait names objs procs i j k l par q :
      procs !! i = Some (Process (Call (Waitpid j) k) l par) → j ∈ l_kids l → procs !! j = Some q → dead q →
      kernel_step (Kernel names objs procs) None (Kernel names objs (<[i := Process (k j) (del_kid j l) par]> procs))
  | step_wait_error names objs procs i j k l par :
      procs !! i = Some (Process (Call (Waitpid j) k) l par) → j ∉ l_kids l →
      kernel_step (Kernel names objs procs) None (Kernel names objs (<[i := Process (k (-1)) l par]> procs)).
End Steps.

(** One process, with what there was in the kernel before it. *)
Definition booted (names : namespace) (objs : objects) (i : pid) (p : prog) : kernel :=
  Kernel names objs {[i := Process p no_local None]}.
