(* ===== verification/SimProcs.v ===== *)
(** * Chapter 14: the main programs of the simulations

    [main] of Sim/ProducerConsumerSim.cpp, Sim/ProducerSim.cpp and
    Sim/ConsumerSim.cpp, with shared memory and with message queues, as
    programs of [Process].  The bytes of their character arrays before they
    are written are parameters; what they print is left out. *)
From S2P Require Import Prelude Digits SharedMem Scheduler Getopt Process.
From S2P Require ShmQueue.

(** ** The children *)

(** "ProducerSim" and "ConsumerSim" *)
Definition producer_sim : list Z := [80;114;111;100;117;99;101;114;83;105;109].
Definition consumer_sim : list Z := [67;111;110;115;117;109;101;114;83;105;109].

(** The third argument of the workers. *)
Definition WORKER_PRIORITY : Z := 1000.

(** [target_core == 0 ? SCHED_RR : SCHED_OTHER]. *)
Definition core_policy (core : Z) : sched_policy := if core =? 0 then SCHED_RR else SCHED_OTHER.

Definition sim_worker (kind : worker_kind) (t : target) (s : sim_settings) : worker_args :=
  WorkerArgs kind t (u32 (st_id s)) WORKER_PRIORITY (core_policy (st_core s)) (st_core s).

(** The name made from the id in the array [buf]. *)
Definition sim_object (prefix buf : list Z) (id : Z) : outcome (list Z) :=
  name ← sim_name prefix id buf; c_string name.

(** SharedMemory/Sim/ProducerSim.cpp and ConsumerSim.cpp, which differ in the
    worker and in the status [map_status] for a failed mapping. *)
Definition shm_child (kind : worker_kind) (map_status : Z) (buf : list Z) (argv : list (list Z)) : prog :=
  check (sim_command_line argv) (λ o,
  match o with
  | None => Exit 0
  | Some s =>
      check (sim_object shm_prefix buf (st_id s)) (λ name,
      Call (Open Shm name false) (λ shm_fd,
      if shm_fd =? -1 then Exit (-1) else
      Call (Mmap shm_fd ShmQueue.SHARED_MEM_SIZE) (λ queue,
      if queue =? -1 then Exit map_status else
      Call (NewWorker (sim_worker kind (AtAddress queue) s)) (λ worker,
      Call (Sleep (u32 (st_seconds s))) (λ _,
      Call (DeleteWorker worker) (λ _,
      Call (Munmap queue ShmQueue.SHARED_MEM_SIZE) (λ _,
      Call (Unlink Shm name) (λ _, Exit 0))))))))
  end).

Definition shm_producer_main := shm_child ProducerKind (-1).
Definition shm_consumer_main := shm_child ConsumerKind (-2).

(** MessageQueue/Sim/ProducerSim.cpp and ConsumerSim.cpp. *)
Definition mq_child (kind : worker_kind) (buf : list Z) (argv : list (list Z)) : prog :=
  check (sim_command_line argv) (λ o,
  match o with
  | None => Exit 0
  | Some s =>
      check (sim_object mq_prefix buf (st_id s)) (λ name,
      Call (NewWorker (sim_worker kind (ByName name) s)) (λ worker,
      Call (Sleep (u32 (st_seconds s))) (λ _,
      Call (DeleteWorker worker) (λ _, Exit 0))))
  end).

Definition mq_producer_main := mq_child ProducerKind.
Definition mq_consumer_main := mq_child ConsumerKind.

(** ** The parents *)

(** From the second [fork] on: the waiting, and [cleanup]. *)
Definition wait_children (producer_pid consumer_pid : Z) (cleanup : prog) : prog :=
  let wait_consumer := if 0 <? consumer_pid then Call (Waitpid consumer_pid) (λ _, cleanup) else cleanup in
  if 0 <? producer_pid then Call (Waitpid producer_pid) (λ _, wait_consumer) else wait_consumer.

Definition fork_consumer (core idt time : list Z) (producer_pid : Z) (cleanup : prog) : prog :=
  Call Fork (λ consumer_pid,
  if consumer_pid =? 0 then
    Call (Execl consumer_sim (child_argv consumer_sim core idt time)) (λ _,
    wait_children producer_pid consumer_pid cleanup)
  else if consumer_pid <? 0 then Exit (-2)
  else wait_children producer_pid consumer_pid cleanup).

Definition fork_children (core idt time : list Z) (cleanup : prog) : prog :=
  Call Fork (λ producer_pid,
  if producer_pid =? 0 then
    Call (Execl producer_sim (child_argv producer_sim core idt time)) (λ _,
    fork_consumer core idt time producer_pid cleanup)
  else if producer_pid <? 0 then Exit (-2)
  else fork_consumer core idt time producer_pid cleanup).

(** The three texts for the children, then the children. *)
Definition start_children (b : sim_buffers) (s : sim_settings) (cleanup : prog) : prog :=
  check (sim_texts (st_id s) (st_core s) (st_seconds s) b) (λ texts,
  match texts with
  | None => Diverge
  | Some (core, idt, time) =>
      check (core ← c_string core; idt ← c_string idt; time ← c_string time; Ok (core, idt, time))
        (λ '(core, idt, time), fork_children core idt time cleanup)
  end).

(** SharedMemory/Sim/ProducerConsumerSim.cpp, after [mmap], [ftruncate],
    [shm_open] and from its start. *)
Definition shm_cleanup (name : list Z) (addr : Z) : prog :=
  Call (ReportQueue addr) (λ _,
  Call (Munmap addr ShmQueue.SHARED_MEM_SIZE) (λ _,
  Call (Unlink Shm name) (λ _, Exit 0))).

Definition shm_mapped (b : sim_buffers) (s : sim_settings) (name : list Z) (addr : Z) : prog :=
  Call (NewQueue addr ShmQueue.QUEUE_SIZE (st_id s)) (λ _, start_children b s (shm_cleanup name addr)).

Definition shm_truncated (b : sim_buffers) (s : sim_settings) (name : list Z) (shm_fd : Z) : prog :=
  Call (Mmap shm_fd ShmQueue.SHARED_MEM_SIZE) (shm_mapped b s name).

Definition shm_opened (b : sim_buffers) (s : sim_settings) (name : list Z) (shm_fd : Z) : prog :=
  if shm_fd =? -1 then Exit (-1) else
  Call (Ftruncate shm_fd ShmQueue.SHARED_MEM_SIZE) (λ _, shm_truncated b s name shm_fd).

Definition shm_sim_main (b : sim_buffers) (argv : list (list Z)) : prog :=
  check (sim_command_line argv) (λ o,
  match o with
  | None => Exit 0
  | Some s =>
      check (sim_object shm_prefix (shared_mem_name b) (st_id s)) (λ name,
      Call (Open Shm name true) (shm_opened b s name))
  end).

(** MessageQueue/Sim/ProducerConsumerSim.cpp. *)
Definition mq_cleanup (name : list Z) (mqd : Z) : prog :=
  Call (Close mqd) (λ _, Call (Unlink Mq name) (λ _, Exit 0)).

Definition mq_opened (b : sim_buffers) (s : sim_settings) (name : list Z) (mqd : Z) : prog :=
  if mqd =? -1 then Exit (-1) else start_children b s (mq_cleanup name mqd).

Definition mq_sim_main (b : sim_buffers) (argv : list (list Z)) : prog :=
  check (sim_command_line argv) (λ o,
  match o with
  | None => Exit 0
  | Some s =>
      check (sim_object mq_prefix (shared_mem_name b) (st_id s)) (λ name,
      Call (Open Mq name true) (mq_opened b s name))
  end).

(** What the two names run: the arrays of the new process hold [buf]. *)
Definition shm_programs (buf path : list Z) (argv : list (list Z)) : option prog :=
  if decide (path = producer_sim) then Some (shm_producer_main buf argv)
  else if decide (path = consumer_sim) then Some (shm_consumer_main buf argv) else None.

Definition mq_programs (buf path : list Z) (argv : list (list Z)) : option prog :=
  if decide (path = producer_sim) then Some (mq_producer_main buf argv)
  else if decide (path = consumer_sim) then Some (mq_consumer_main buf argv) else None.
