(* ===== verification/ProcLogic.v ===== *)
(** * Reasoning about processes that share one object

    [ok l p]: a program [p] with kernel state [l] that opens, maps and unlinks
    only the one object and leaves its contents to the workers; the invariant
    of any number of such processes, and its preservation by every step of
    [Process]. *)
From stdpp Require Import gmap.
From S2P Require Import Prelude Scheduler Process.

Section Sharing.
(** The name, the object behind it, the workers that may be made, and the
    programs that may be executed. *)
Context (s : space) (nm : list Z) (o : oid) (good : worker_args → Prop).
Context (program : list Z → list (list Z) → option prog) (execs : list Z → list (list Z) → Prop).

(** A worker is to be made on a mapping of the object or on its name. *)
Definition on_target (maps : gmap Z oid) (w : worker_args) (x : option oid) : Prop :=
  match wa_target w with
  | AtAddress addr => s = Shm ∧ maps !! addr = Some o ∧ x = Some o
  | ByName n => s = Mq ∧ n = nm ∧ (x = None ∨ x = Some o)
  end.

Fixpoint ok (l : local) (p : prog) {struct p} : Prop :=
  match p with
  | Exit status => status = 0 → l_kids l = ∅
  | Crash _ | Diverge => True
  | Call c k =>
      match c with
      | Open s' n create => s' = s ∧ n = nm ∧ create = false ∧ ok l (k (-1)) ∧
                            ∀ fd, 0 ≤ fd → ok (add_fd fd o l) (k fd)
      | Ftruncate _ _ | NewQueue _ _ _ => False
      | Mmap _ _ => ok l (k (-1)) ∧ ∀ addr, 0 < addr → l_maps l !! addr = None → ok (add_map addr o l) (k addr)
      | Munmap addr _ => map_Forall (λ _ w, wa_target w.1 ≠ AtAddress addr) (l_workers l) ∧ ok (del_map addr l) (k 0)
      | Close fd => ok (del_fd fd l) (k 0)
      | Unlink s' n => s' = s ∧ n = nm ∧ ∀ r, ok l (k r)
      | ReportQueue _ | Sleep _ => ok l (k 0)
      | NewWorker w =>
          good w ∧ (∃ x, on_target (l_maps l) w x) ∧
          ∀ h x, l_workers l !! h = None → ok (add_worker h (w, x) l) (k h)
      | DeleteWorker h => ok (del_worker h l) (k 0)
      | Fork => ok l (k (-1)) ∧ (∀ j, 0 < j → ok (add_kid j l) (k j)) ∧ ok (forked l) (k 0)
      | Execl path argv => l_kids l = ∅ ∧ execs path argv ∧ ok l (k (-1))
      | Waitpid j => ∀ r, ok (del_kid j l) (k r)
      end
  end.

Record local_wf (l : local) : Prop := {
  lw_fds : map_Forall (λ _ o', o' = o) (l_fds l);
  lw_maps : map_Forall (λ _ o', o' = o) (l_maps l);
  lw_workers : map_Forall (λ _ w, good w.1 ∧ on_target (l_maps l) w.1 w.2) (l_workers l)
}.

Definition process_ok (p : process) : Prop := ok (pr_local p) (pr_prog p) ∧ local_wf (pr_local p).

(** Every child is dead or still to be waited for by its parent. *)
Definition kids_linked (procs : gmap pid process) : Prop :=
  ∀ j q i, procs !! j = Some q → pr_parent q = Some i →
  ∃ p, procs !! i = Some p ∧ (j ∈ l_kids (pr_local p) ∨ dead q).

Context (names0 : namespace) (objs0 : objects).

Record sharing (k : kernel) : Prop := {
  sh_names : k_names k = names0 ∨ k_names k = delete (s, nm) names0;
  sh_objs : k_objs k = objs0;
  sh_procs : map_Forall (λ _, process_ok) (k_procs k);
  sh_kids : kids_linked (k_procs k)
}.

(** A process that exits with 0 has waited for its children. *)
Lemma sharing_waits k i j p q :
  sharing k → k_procs k !! i = Some p → pr_prog p = Exit 0 →
  k_procs k !! j = Some q → pr_parent q = Some i → dead q.
Proof using Type.
  clear program. intros [_ _ Hp Hk] Hi He Hj Hpar. destruct (Hk j q i Hj Hpar) as (p' & Hi' & Hin). simplify_eq.
  destruct (Hp i p Hi) as [Hok _]. rewrite He in Hok. cbn in Hok. rewrite Hok in Hin by done. set_solver.
Qed.
Context (named : names0 !! (s, nm) = Some o).
Context (execs_ok : ∀ path argv p, execs path argv → program path argv = Some p → ok no_local p).

(** ** Descriptors, mappings and workers *)
Lemma no_local_wf : local_wf no_local.
Proof. split; apply map_Forall_empty. Qed.

Lemma forked_wf l : local_wf l → local_wf (forked l).
Proof. intros []. split; [done..|]. apply map_Forall_empty. Qed.

Lemma execed_no_kids l : l_kids l = ∅ → execed l = no_local.
Proof. intros E. unfold execed. by rewrite E. Qed.

Lemma add_map_wf addr l : local_wf l → l_maps l !! addr = None → local_wf (add_map addr o l).
Proof.
  intros [F M W] Ha. split; cbn; [done|by apply map_Forall_insert_2|].
  intros h w Hw. destruct (W h w Hw) as [Hg Ht]. split; [done|]. unfold on_target in *.
  destruct (wa_target w.1) as [a|n]; [|done]. destruct Ht as (Hs & Ht & Hx). split_and!; [done| |done].
  rewrite lookup_insert_ne; [done|]. by intros ->; rewrite Ha in Ht.
Qed.

Lemma del_map_wf addr l :
  local_wf l → map_Forall (λ _ w, wa_target w.1 ≠ AtAddress addr) (l_workers l) → local_wf (del_map addr l).
Proof.
  intros [F M W] Hn. split; cbn; [done|by apply map_Forall_delete|].
  intros h w Hw. destruct (W h w Hw) as [Hg Ht]. split; [done|]. specialize (Hn h w Hw). unfold on_target in *.
  destruct (wa_target w.1) as [a|n]; [|done]. rewrite lookup_delete_ne by congruence. done.
Qed.

Lemma add_worker_wf h w x l : local_wf l → good w → on_target (l_maps l) w x → local_wf (add_worker h (w, x) l).
Proof. intros [F M W] Hg Ht. split; cbn; [done..|]. by apply map_Forall_insert_2. Qed.

Lemma del_worker_wf h l : local_wf l → local_wf (del_worker h l).
Proof. intros [F M W]. split; cbn; [done..|]. by apply map_Forall_delete. Qed.

Lemma add_fd_wf fd l : local_wf l → local_wf (add_fd fd o l).
Proof. intros [F M W]. split; cbn; [by apply map_Forall_insert_2|done..]. Qed.

Lemma del_fd_wf fd l : local_wf l → local_wf (del_fd fd l).
Proof. intros [F M W]. split; cbn; [by apply map_Forall_delete|done..]. Qed.

Lemma kids_wf l kids : local_wf l → local_wf (Local (l_fds l) (l_maps l) (l_workers l) kids).
Proof. by intros []. Qed.

Lemma del_kid_none j l : j ∉ l_kids l → del_kid j l = l.
Proof. intros Hj. destruct l as [f m w kids]. unfold del_kid. cbn in *. f_equal. set_solver. Qed.
#[local] Hint Resolve no_local_wf forked_wf add_map_wf del_map_wf add_worker_wf del_worker_wf add_fd_wf del_fd_wf kids_wf : core.

(** ** Parents and children *)
Lemma kids_update procs i p p' :
  kids_linked procs → procs !! i = Some p → ¬ dead p → pr_parent p' = pr_parent p →
  (∀ j q, j ∈ l_kids (pr_local p) → procs !! j = Some q → j ∈ l_kids (pr_local p') ∨ dead q) →
  kids_linked (<[i := p']> procs).
Proof.
  intros Hk Hi Hd Hp Hj j q i0 Hq Hpar. destruct (decide (j = i)) as [->|Hne].
  - rewrite lookup_insert_eq in Hq. simplify_eq. rewrite Hp in Hpar.
    destruct (Hk i p i0 Hi Hpar) as (p0 & Hp0 & [Hin|]); [|done].
    destruct (decide (i0 = i)) as [->|]; [|rewrite lookup_insert_ne by done; eauto].
    simplify_eq. rewrite lookup_insert_eq. destruct (Hj i p Hin Hi); [eauto|done].
  - rewrite lookup_insert_ne in Hq by done. destruct (Hk j q i0 Hq Hpar) as (p0 & Hp0 & Hin).
    destruct (decide (i0 = i)) as [->|]; [|rewrite lookup_insert_ne by done; eauto].
    simplify_eq. rewrite lookup_insert_eq. destruct Hin; [|eauto]. destruct (Hj j q); eauto.
Qed.

Lemma kids_fork procs i p p' j q :
  kids_linked procs → procs !! i = Some p → ¬ dead p → pr_parent p' = pr_parent p →
  l_kids (pr_local p') = {[j]} ∪ l_kids (pr_local p) → procs !! j = None → pr_parent q = Some i →
  kids_linked (<[j := q]> (<[i := p']> procs)).
Proof.
  intros Hk Hi Hd Hp Hkids Hj Hq.
  assert (Hk' : kids_linked (<[i := p']> procs)) by (eapply kids_update; eauto; intros; left; set_solver).
  assert (i ≠ j) by congruence. intros j0 q0 i0 Hq0 Hpar. destruct (decide (j0 = j)) as [->|].
  - rewrite lookup_insert_eq in Hq0. simplify_eq. exists p'. rewrite lookup_insert_ne, lookup_insert_eq by done.
    split; [done|]. left. set_solver.
  - rewrite lookup_insert_ne in Hq0 by done. destruct (Hk' j0 q0 i0 Hq0 Hpar) as (p0 & Hp0 & Hin).
    exists p0. split; [|done]. rewrite lookup_insert_ne; [done|]. intros <-.
    rewrite lookup_insert_ne in Hp0 by done. congruence.
Qed.

(** ** The invariant *)
Lemma sys_sharing names objs l c r names' objs' l' k :
  (names = names0 ∨ names = delete (s, nm) names0) → ok l (Call c k) → local_wf l → sys names objs l c r names' objs' l' →
  (names' = names0 ∨ names' = delete (s, nm) names0) ∧ objs' = objs ∧
  ok l' (k r) ∧ local_wf l' ∧ l_kids l' = l_kids l.
Proof.
  intros Hn Hok Hwf H.
  assert (Hnm : ∀ o', names !! (s, nm) = Some o' → o' = o).
  { intros o' Ho. destruct Hn as [->| ->]; [congruence|]. by rewrite lookup_delete_eq in Ho. }
  destruct H; cbn in Hok; destruct_and?; try done; simplify_eq; split_and!; eauto.
  - rewrite (Hnm o0) by done. eauto.
  - rewrite (Hnm o0) by done. by apply add_fd_wf.
  - rewrite (lw_fds l Hwf _ _ H) in *. eauto.
  - rewrite (lw_fds l Hwf _ _ H) in *. by apply add_map_wf.
  - right. destruct Hn as [->| ->]; [done|]. by rewrite delete_delete_eq.
  - apply add_worker_wf; [done..|]. unfold on_target. rewrite H.
    pose proof (lw_maps l Hwf _ _ H0). cbn in *. subst. destruct H4 as [x Hx]. unfold on_target in Hx.
    rewrite H in Hx. by destruct Hx.
  - apply add_worker_wf; [done..|]. destruct H4 as [x Hx]. unfold on_target in *. rewrite H in Hx |- *.
    destruct Hx as (-> & -> & _). rewrite (Hnm o0 H0). eauto.
  - apply add_worker_wf; [done..|]. destruct H3 as [x Hx]. unfold on_target in *. rewrite H in Hx |- *.
    destruct Hx as (-> & -> & _). eauto.
Qed.

Lemma sharing_step k lbl k' : sharing k → kernel_step program k lbl k' → sharing k'.
Proof.
  intros [Hn Ho Hp Hk] H.
  destruct H as [names objs procs i c kont l par r names' objs' l' Hi Hs|names objs procs i c kont l par Hi Hb
    |names objs procs i kont l par j Hi Hj Hj'|names objs procs i kont l par Hi|names objs procs i path argv kont l par p Hi Hx
    |names objs procs i path argv kont l par Hi|names objs procs i j kont l par q Hi Hj Hq Hd|names objs procs i j kont l par Hi Hj];
    cbn in *; destruct (Hp i _ Hi) as [Hok Hwf]; cbn [pr_prog pr_local] in *.
  - destruct (sys_sharing _ _ _ _ _ _ _ _ _ Hn Hok Hwf Hs) as (Hn' & -> & Hok' & Hwf' & Hkids).
    split; cbn; [done..|by apply map_Forall_insert_2|]. eapply kids_update; eauto; cbn; rewrite ?Hkids; eauto.
  - split; cbn; [done..|apply map_Forall_insert_2; [split|]; done|]. eapply kids_update; eauto; cbn; eauto.
  - cbn in Hok. destruct Hok as (_ & Hpar & Hkid). split; cbn; [done..| |].
    + apply map_Forall_insert_2; [split; [done|by apply forked_wf]|].
      apply map_Forall_insert_2; [split; [by apply Hpar|by apply kids_wf]|done].
    + eapply kids_fork; eauto; done.
  - cbn in Hok. destruct Hok as (Hok & _). split; cbn; [done..|by apply map_Forall_insert_2|].
    eapply kids_update; eauto; cbn; eauto.
  - cbn in Hok. destruct Hok as (Hnk & He & _). split; cbn; [done..| |].
    + apply map_Forall_insert_2; [|done]. split; cbn; rewrite execed_no_kids by done; eauto.
    + eapply kids_update; eauto; cbn; eauto.
  - cbn in Hok. destruct Hok as (_ & _ & Hok). split; cbn; [done..|by apply map_Forall_insert_2|].
    eapply kids_update; eauto; cbn; eauto.
  - split; cbn; [done..|apply map_Forall_insert_2; [split; [apply Hok|by apply kids_wf]|done]|].
    eapply kids_update; [done|exact Hi|by intros []|done|]. cbn. intros j0 q0 Hj0 Hq0. destruct (decide (j0 = j)) as [->|]; [|left; set_solver].
    simplify_eq. by right.
  - specialize (Hok (-1)). rewrite del_kid_none in Hok by done.
    split; cbn; [done..|by apply map_Forall_insert_2|]. eapply kids_update; eauto; cbn; eauto.
Qed.

End Sharing.
