(* ===== verification/SimInv.v ===== *)
(** * The simulations' processes keep to their one object

    What the parent hands on is what the children read, each of the programs of
    [SimProcs] is [ok] for the object that bears its id, and hence every state a
    simulation reaches is one of the parent's first stages or satisfies the
    invariant of [ProcLogic]. *)
From stdpp Require Import gmap.
From S2P Require Import Prelude Digits SharedMem Scheduler Getopt Process SimProcs ProcLogic.
From S2P Require ShmQueue.

(** ** The settings, from the parent to its children *)
Definition is_int (z : Z) : Prop := INT_MIN ≤ z ≤ INT_MAX.

Record settings_wf (s : sim_settings) : Prop := {
  sw_id : is_int (st_id s);
  sw_core : is_int (st_core s);
  sw_seconds : is_int (st_seconds s)
}.

Lemma c_atoi_is_int t v : c_atoi t = Ok v → is_int v.
Proof.
  unfold c_atoi. destruct (skip_spaces t) as [|c s']; [intros [= <-]; done|].
  destruct (c =? 45); [|destruct (c =? 43)]; intros H; by apply int_of_Ok in H as [-> ?].
Qed.

Lemma read_sim_options_wf opts s s' : settings_wf s → read_sim_options opts s = Ok (Some s') → settings_wf s'.
Proof.
  revert s. induction opts as [|[opt arg] opts IH]; intros s Hs; cbn [read_sim_options]; [congruence|].
  destruct Hs as [H1 H2 H3].
  destruct (opt =? 104); [congruence|]. destruct (opt =? 99), (opt =? 110), (opt =? 116);
    try (intros E; eapply IH, E; done); intros E; apply bind_Ok in E as (v & Ev & E); apply c_atoi_is_int in Ev;
    eapply IH, E; done.
Qed.

Lemma sim_command_line_wf argv s : sim_command_line argv = Ok (Some s) → settings_wf s.
Proof. apply read_sim_options_wf. done. Qed.

Lemma store_string_text buf t r c : Forall (λ c, c ≠ 0) t → store_string buf t = Ok r → c_string r = Ok c → c = t.
Proof.
  intros Ht Er Ec. pose proof (store_string_cases buf t) as H. destruct (length t <? length buf)%nat; [|by rewrite Er in H].
  destruct H as (r' & Er' & Hc). rewrite Er in Er'. injection Er' as <-. rewrite (Hc Ht) in Ec. congruence.
Qed.

(** The object's name, whatever the array held. *)
Definition object_name (prefix : list Z) (id : Z) : list Z := prefix ++ print_d id.

Lemma sim_object_name prefix buf id n :
  Forall (λ c, c ≠ 0) prefix → sim_object prefix buf id = Ok n → n = object_name prefix id.
Proof.
  intros Hp H. unfold sim_object, sim_name in H. apply bind_Ok in H as (r & Er & Ec).
  eapply store_string_text; [|done..]. apply Forall_app. split; [done|apply print_d_nonnul].
Qed.

Lemma shm_prefix_nonnul : Forall (λ c, c ≠ 0) shm_prefix.
Proof. repeat constructor; lia. Qed.
Lemma mq_prefix_nonnul : Forall (λ c, c ≠ 0) mq_prefix.
Proof. repeat constructor; lia. Qed.

(** The texts the parent makes, and that it always makes them or faults. *)
Definition setting_text (z : Z) : list Z := print_d (u32 z).

Lemma sim_texts_shape id core secs b :
  (∃ f, sim_texts id core secs b = Fault f) ∨
  ∃ c i t, sim_texts id core secs b = Ok (Some (c, i, t)) ∧
    ∀ cs ids ts, c_string c = Ok cs → c_string i = Ok ids → c_string t = Ok ts →
      cs = setting_text core ∧ ids = setting_text id ∧ ts = setting_text secs.
Proof.
  unfold sim_texts. rewrite !itoa_ten by apply u32_bounds.
  destruct (store_string (core_str b) _) as [c|] eqn:Ec; [|by left; eexists]. simpl_bind.
  destruct (store_string (id_str b) _) as [i|] eqn:Ei; [|by left; eexists]. simpl_bind.
  destruct (store_string (time_str b) _) as [t|] eqn:Et; [|by left; eexists]. simpl_bind.
  right. exists c, i, t. split; [done|]. intros cs ids ts Hc Hi Ht.
  split_and!; eapply store_string_text; try done; apply print_d_nonnul.
Qed.

(** What a child reads from these texts. *)
Lemma c_atoi_setting z : is_int z → c_atoi (setting_text z) = if 0 <=? z then Ok z else Fault SignedOverflow.
Proof.
  intros Hz. unfold setting_text, is_int, INT_MIN, INT_MAX in *. pose proof (u32_of_int z Hz) as Eu. destruct (Z.leb_spec 0 z).
  - rewrite (proj2 (Z.ltb_ge z 0)) in Eu by lia. rewrite Eu. apply c_atoi_print_d_ok. unfold INT_MAX. lia.
  - rewrite (proj2 (Z.ltb_lt z 0)) in Eu by lia. rewrite Eu, c_atoi_print_d by lia.
    unfold int_of. destruct (in_int (z + 4294967296)) eqn:E; [|done].
    apply in_int_true in E. unfold INT_MAX in E. lia.
Qed.

Lemma child_reads cmd s r :
  settings_wf s →
  sim_command_line (child_argv cmd (setting_text (st_core s)) (setting_text (st_id s)) (setting_text (st_seconds s))) = Ok r →
  r = Some s.
Proof.
  intros [H1 H2 H3]. rewrite child_command_line, !c_atoi_setting by done.
  destruct (0 <=? st_core s), (0 <=? st_id s), (0 <=? st_seconds s); try done. simpl_bind. intros [= <-]. by destruct s.
Qed.

(** ** The programs keep to the object *)
Definition sim_good (s : sim_settings) (w : worker_args) : Prop := ∃ kind t, w = sim_worker kind t s.

Definition sim_execs (s : sim_settings) (path : list Z) (argv : list (list Z)) : Prop :=
  ∃ cmd, argv = child_argv cmd (setting_text (st_core s)) (setting_text (st_id s)) (setting_text (st_seconds s)).

Section Sharing.
Context (s : sim_settings) (s_wf : settings_wf s) (o : oid).

Section Parents.
Context (sp : space) (nm : list Z).
Abbreviation ok := (ok sp nm o (sim_good s) (sim_execs s)).

(** The children a process with this [producer_pid] may have. *)
Definition child_of (p : Z) : gset pid := if 0 <? p then {[p]} else ∅.

(** What is done last, by a process without workers and children. *)
Definition cleans_up (cleanup : prog) : Prop :=
  ∀ l, l_workers l = ∅ → l_kids l = ∅ → ok l cleanup.

Lemma ok_wait_children p c cleanup l :
  cleans_up cleanup → l_workers l = ∅ → l_kids l ⊆ child_of p ∪ child_of c → ok l (wait_children p c cleanup).
Proof.
  intros Hc Hw Hk. unfold wait_children, child_of in *.
  destruct (0 <? p), (0 <? c); cbn; intros; try apply Hc; try done; cbn; set_solver.
Qed.

Lemma ok_fork_consumer p cleanup l cmd core idt time :
  cleans_up cleanup → sim_execs s consumer_sim (child_argv cmd core idt time) → cmd = consumer_sim →
  l_workers l = ∅ → l_kids l ⊆ child_of p → ok l (fork_consumer core idt time p cleanup).
Proof.
  intros Hc He -> Hw Hk. unfold fork_consumer. cbn [ProcLogic.ok]. split_and!.
  - done.
  - intros j Hj. rewrite (proj2 (Z.eqb_neq j 0)), (proj2 (Z.ltb_ge j 0)) by lia.
    apply ok_wait_children; [done..|]. unfold child_of. rewrite (proj2 (Z.ltb_lt 0 j)) by lia. cbn. set_solver.
  - cbn. split_and!; [done..|]. apply ok_wait_children; [done..|]. cbn. set_solver.
Qed.

Lemma ok_fork_children cleanup l core idt time :
  cleans_up cleanup → (∀ cmd, sim_execs s cmd (child_argv cmd core idt time)) →
  l_workers l = ∅ → l_kids l = ∅ → ok l (fork_children core idt time cleanup).
Proof.
  intros Hc He Hw Hk. unfold fork_children. cbn [ProcLogic.ok]. split_and!.
  - done.
  - intros j Hj. rewrite (proj2 (Z.eqb_neq j 0)), (proj2 (Z.ltb_ge j 0)) by lia.
    eapply ok_fork_consumer; [done..|]. unfold child_of. rewrite (proj2 (Z.ltb_lt 0 j)) by lia. cbn. set_solver.
  - cbn [Z.eqb ProcLogic.ok]. split_and!; [done..|]. eapply ok_fork_consumer; [done..|]. cbn. set_solver.
Qed.

Lemma ok_start_children b cleanup l :
  cleans_up cleanup → l_workers l = ∅ → l_kids l = ∅ → ok l (start_children b s cleanup).
Proof.
  intros Hc Hw Hk. unfold start_children.
  destruct (sim_texts_shape (st_id s) (st_core s) (st_seconds s) b) as [[f ->]|(c & i & t & -> & Ht)]; [done|]. cbn [check].
  destruct (c_string c) as [cs|]; [|done]. simpl_bind. destruct (c_string i) as [ids|]; [|done]. simpl_bind.
  destruct (c_string t) as [ts|]; [|done]. cbn. destruct (Ht cs ids ts) as (-> & -> & ->); [done..|].
  apply ok_fork_children; [done| |done..]. intros cmd. by exists cmd.
Qed.
End Parents.

Section Shm.
Abbreviation nm := (object_name shm_prefix (st_id s)).

Lemma shm_cleans_up addr : cleans_up Shm nm (shm_cleanup nm addr).
Proof. intros l Hw Hk. cbn. rewrite Hw. split_and!; [apply map_Forall_empty|done|done|done]. Qed.

Lemma shm_child_ok kind st buf path argv :
  sim_execs s path argv → ok Shm nm o (sim_good s) (sim_execs s) no_local (shm_child kind st buf argv).
Proof.
  intros [cmd ->]. unfold shm_child. destruct (sim_command_line _) as [r|] eqn:Er; [|done].
  apply child_reads in Er as ->; [|done]. cbn [check].
  destruct (sim_object _ _ _) as [n|] eqn:En; [|done]. apply sim_object_name in En as ->; [|apply shm_prefix_nonnul].
  cbn [check ok]. split_and!; [done..|]. intros fd Hfd. rewrite (proj2 (Z.eqb_neq fd (-1))) by lia.
  cbn [ok]. split; [done|]. intros addr Ha _. rewrite (proj2 (Z.eqb_neq addr (-1))) by lia. cbn [ok]. split_and!.
  - by do 2 eexists.
  - exists (Some o). cbn. by rewrite lookup_insert_eq.
  - intros h x _. cbn [ok]. split; [|by split_and!]. cbn. rewrite delete_insert_id by done. apply map_Forall_empty.
Qed.

Lemma shm_programs_ok buf path argv p :
  sim_execs s path argv → shm_programs buf path argv = Some p → ok Shm nm o (sim_good s) (sim_execs s) no_local p.
Proof.
  intros He. unfold shm_programs. repeat case_decide; intros [= <-]; by eapply shm_child_ok.
Qed.

Lemma shm_started_ok b addr l :
  l_workers l = ∅ → l_kids l = ∅ →
  ok Shm nm o (sim_good s) (sim_execs s) l (start_children b s (shm_cleanup nm addr)).
Proof. apply ok_start_children, shm_cleans_up. Qed.
End Shm.

Section Mq.
Abbreviation nm := (object_name mq_prefix (st_id s)).

Lemma mq_cleans_up mqd : cleans_up Mq nm (mq_cleanup nm mqd).
Proof. intros l Hw Hk. cbn. split_and!; done. Qed.

Lemma mq_child_ok kind buf path argv :
  sim_execs s path argv → ok Mq nm o (sim_good s) (sim_execs s) no_local (mq_child kind buf argv).
Proof.
  intros [cmd ->]. unfold mq_child. destruct (sim_command_line _) as [r|] eqn:Er; [|done].
  apply child_reads in Er as ->; [|done]. cbn [check].
  destruct (sim_object _ _ _) as [n|] eqn:En; [|done]. apply sim_object_name in En as ->; [|apply mq_prefix_nonnul].
  cbn [check ok]. split_and!; [by do 2 eexists| |done]. exists None. cbn. split_and!; [done..|by left].
Qed.

Lemma mq_programs_ok buf path argv p :
  sim_execs s path argv → mq_programs buf path argv = Some p → ok Mq nm o (sim_good s) (sim_execs s) no_local p.
Proof.
  intros He. unfold mq_programs. repeat case_decide; intros [= <-]; by eapply mq_child_ok.
Qed.

Lemma mq_started_ok b mqd l :
  l_workers l = ∅ → l_kids l = ∅ →
  ok Mq nm o (sim_good s) (sim_execs s) l (start_children b s (mq_cleanup nm mqd)).
Proof. apply ok_start_children, mq_cleans_up. Qed.
End Mq.
End Sharing.

(** ** From the start *)

(** One process that runs alone takes a step. *)
Lemma alone_step program names objs i c k l par lbl σ :
  kernel_step program (Kernel names objs {[i := Process (Call c k) l par]}) lbl σ →
  match c with Fork | Execl _ _ | Waitpid _ => False | _ => True end →
  (∃ r names' objs' l', sys names objs l c r names' objs' l' ∧ σ = Kernel names' objs' {[i := Process (k r) l' par]}) ∨
  (bad_access objs l c ∧ σ = Kernel names objs {[i := Process (Crash OutOfBounds) l par]}).
Proof.
  intros H Hc. inversion H; subst;
    match goal with H : {[i := _]} !! _ = Some _ |- _ => apply lookup_singleton_Some in H as [<- ?] end;
    simplify_eq; rewrite ?insert_singleton_eq; try done; eauto 10.
Qed.

Lemma dead_alone_step program names objs i p lbl σ :
  dead p → ¬ kernel_step program (Kernel names objs {[i := p]}) lbl σ.
Proof.
  intros Hd H. inversion H; subst;
    repeat match goal with H : {[i := _]} !! _ = Some _ |- _ => apply lookup_singleton_Some in H as [<- ?] end;
    by subst.
Qed.

(** All but the object [o] named [key] is as it was. *)
Definition frame (key : space * list Z) (o : oid) (names0 names : namespace) (objs0 objs : objects) : Prop :=
  (∀ key', key' ≠ key → names !! key' = names0 !! key') ∧ (∀ o', o' ≠ o → objs !! o' = objs0 !! o').

Lemma frame_refl key o names objs : frame key o names names objs objs.
Proof. done. Qed.

Lemma frame_object key o names0 names objs0 objs ob :
  frame key o names0 names objs0 objs → frame key o names0 names objs0 (<[o := ob]> objs).
Proof. intros [Hn Ho]. split; [done|]. intros o' Hne. rewrite lookup_insert_ne by done. auto. Qed.

Lemma frame_name key o names0 names objs0 objs :
  frame key o names0 names objs0 objs → frame key o names0 (<[key := o]> names) objs0 objs.
Proof. intros [Hn Ho]. split; [|done]. intros k Hne. rewrite lookup_insert_ne by done. auto. Qed.

(** A process that has ended before it had children or workers. *)
Definition over (σ : kernel) : Prop :=
  ∃ i p, k_procs σ = {[i := p]} ∧ dead p ∧ l_workers (pr_local p) = ∅ ∧ pr_parent p = None.

Lemma over_step program σ lbl σ' : over σ → ¬ kernel_step program σ lbl σ'.
Proof. destruct σ as [names objs procs]. intros (i & p & Hp & Hd & _). cbn in Hp. subst. by apply dead_alone_step. Qed.

Section States.
Context (names0 : namespace) (objs0 : objects) (i : pid) (b : sim_buffers) (buf : list Z) (s : sim_settings).

(** The one object of the simulation: the one of this name before, or a new
    one; nothing else has changed. *)
Record owned (key : space * list Z) (o : oid) (names : namespace) (objs : objects) : Prop := {
  ow_object : names0 !! key = Some o ∨ (names0 !! key = None ∧ objs0 !! o = None);
  ow_named : names !! key = Some o;
  ow_frame : frame key o names0 names objs0 objs
}.

Lemma owned_open key o : names0 !! key = Some o → owned key o names0 objs0.
Proof. by split; [left| |]. Qed.

Lemma owned_create key o ob : names0 !! key = None → objs0 !! o = None → owned key o (<[key := o]> names0) (<[o := ob]> objs0).
Proof.
  intros Hn Ho. split; [by right|apply lookup_insert_eq|]. by apply frame_name, frame_object.
Qed.

Lemma owned_object key o names objs ob : owned key o names objs → owned key o names (<[o := ob]> objs).
Proof. intros []. split; [done..|]. by apply frame_object. Qed.

Definition alone names objs p l : kernel := Kernel names objs {[i := Process p l None]}.

Section Shm.
Abbreviation nm := (object_name shm_prefix (st_id s)).
Abbreviation good := (sim_good s).

Inductive shm_state : kernel → Prop :=
  | shm_start : shm_state (alone names0 objs0 (Call (Open Shm nm true) (shm_opened b s nm)) no_local)
  | shm_unopened σ : over σ → k_names σ = names0 → k_objs σ = objs0 → shm_state σ
  | shm_to_truncate o names objs fd :
      owned (Shm, nm) o names objs → objs !! o = Some (Object 0 None) → 
      shm_state (alone names objs (Call (Ftruncate fd ShmQueue.SHARED_MEM_SIZE) (λ _, shm_truncated b s nm fd))
                   (add_fd fd o no_local))
  | shm_to_map o names objs fd size :
      owned (Shm, nm) o names objs → objs !! o = Some (Object size None) → size = 0 ∨ size = ShmQueue.SHARED_MEM_SIZE →
      shm_state (alone names objs (shm_truncated b s nm fd) (add_fd fd o no_local))
  | shm_to_place o names objs fd size addr l :
      owned (Shm, nm) o names objs → objs !! o = Some (Object size None) → size = 0 ∨ size = ShmQueue.SHARED_MEM_SIZE →
      l = add_fd fd o no_local ∨ l = add_map addr o (add_fd fd o no_local) →
      shm_state (alone names objs (shm_mapped b s nm addr) l)
  | shm_unplaced o σ : owned (Shm, nm) o (k_names σ) (k_objs σ) → over σ → shm_state σ
  | shm_sharing o names objs σ :
      owned (Shm, nm) o names objs →
      objs !! o = Some (Object ShmQueue.SHARED_MEM_SIZE (Some (ShmQueue.QUEUE_SIZE, st_id s))) →
      sharing Shm nm o good (sim_execs s) names objs σ → shm_state σ.

Context (s_wf : settings_wf s).

Lemma shm_state_step σ lbl σ' : shm_state σ → kernel_step (shm_programs buf) σ lbl σ' → shm_state σ'.
Proof.
  intros [|σ0 Hov Hn Ho|o names objs fd Hown Ho|o names objs fd size Hown Ho Hsz|o names objs fd size addr l Hown Ho Hsz Hl
    |o σ0 Hown Hov|o names objs σ0 Hown Ho Hsh] H.
  - apply alone_step in H as [(r & names' & objs' & l' & Hs & ->)|[[] _]]; [|done].
    inversion Hs; subst; cbn -[object_name] in *.
    + unfold shm_opened. rewrite (proj2 (Z.eqb_neq r (-1))) by lia.
      apply shm_to_truncate; [by apply owned_object, owned_open|apply lookup_insert_eq].
    + unfold shm_opened. rewrite (proj2 (Z.eqb_neq r (-1))) by lia.
      apply shm_to_truncate; [by apply owned_create|apply lookup_insert_eq].
    + apply shm_unopened; [|done..]. by do 2 eexists.
  - by apply over_step in H.
  - apply alone_step in H as [(r & names' & objs' & l' & Hs & ->)|[[] _]]; [|done].
    inversion Hs; subst; cbn -[object_name] in *.
    + match goal with H : _ !! fd = Some _ |- _ => rewrite lookup_insert_eq in H; injection H as <- end.
      assert (ob = Object 0 None) as -> by congruence.
      eapply shm_to_map; [by apply owned_object|apply lookup_insert_eq|by right].
    + eapply shm_to_map; eauto.
  - apply alone_step in H as [(r & names' & objs' & l' & Hs & ->)|[[] _]]; [|done].
    inversion Hs; subst; cbn -[object_name] in *.
    + match goal with H : _ !! fd = Some _ |- _ => rewrite lookup_insert_eq in H; injection H as <- end.
      eapply (shm_to_place o names' objs' fd size r); eauto.
    + eapply (shm_to_place o names' objs' fd size (-1)); eauto.
  - apply alone_step in H as [(r & names' & objs' & l' & Hs & ->)|[_ ->]]; [|apply (shm_unplaced o); [done|]|done];
      [|do 2 eexists; split_and!; [done..| |done]; by destruct Hl as [->| ->]].
    inversion Hs; subst; cbn -[object_name] in *.
    match goal with H : l_maps l' !! _ = Some _ |- _ => rename H into Ha end.
    destruct Hl as [->| ->]; [done|]. cbn in Ha. rewrite lookup_insert_eq in Ha. injection Ha as <-.
    assert (ob = Object size None) as -> by congruence. cbn -[object_name] in *.
    destruct Hsz as [->| ->]; [by match goal with H : queue_bytes _ ≤ _ |- _ => vm_compute in H; destruct H end|].
    eapply shm_sharing; [by apply owned_object|apply lookup_insert_eq|]. split; cbn; [by left|done| |].
    + apply map_Forall_singleton. split; [by apply shm_started_ok|]. apply add_map_wf; [apply add_fd_wf, no_local_wf|done].
    + intros j q i0 Hj. apply lookup_singleton_Some in Hj as [_ <-]. done.
  - by apply over_step in H.
  - eapply shm_sharing; [done..|]. eapply sharing_step; [apply Hown|intros; by eapply shm_programs_ok|done..].
Qed.
End Shm.
Section Mq.
Abbreviation nm := (object_name mq_prefix (st_id s)).

Inductive mq_state : kernel → Prop :=
  | mq_start : mq_state (alone names0 objs0 (Call (Open Mq nm true) (mq_opened b s nm)) no_local)
  | mq_unopened σ : over σ → k_names σ = names0 → k_objs σ = objs0 → mq_state σ
  | mq_sharing o names objs σ :
      owned (Mq, nm) o names objs → sharing Mq nm o (sim_good s) (sim_execs s) names objs σ → mq_state σ.

Context (s_wf : settings_wf s).

Lemma mq_opened_sharing o fd names objs :
  owned (Mq, nm) o names objs → 0 ≤ fd → mq_state (alone names objs (mq_opened b s nm fd) (add_fd fd o no_local)).
Proof.
  intros Hown Hfd. unfold mq_opened. rewrite (proj2 (Z.eqb_neq fd (-1))) by lia.
  eapply mq_sharing; [done|]. split; cbn -[object_name]; [by left|done| |].
  - apply map_Forall_singleton. split; [by apply mq_started_ok|]. apply add_fd_wf, no_local_wf.
  - intros j q i0 Hj. apply lookup_singleton_Some in Hj as [_ <-]. done.
Qed.

Lemma mq_state_step σ lbl σ' : mq_state σ → kernel_step (mq_programs buf) σ lbl σ' → mq_state σ'.
Proof.
  intros [|σ0 Hov Hn Ho|o names objs σ0 Hown Hsh] H.
  - apply alone_step in H as [(r & names' & objs' & l' & Hs & ->)|[[] _]]; [|done].
    inversion Hs; subst; cbn -[object_name] in *.
    + apply mq_opened_sharing; [by apply owned_open|done].
    + apply mq_opened_sharing; [by apply owned_create|done].
    + apply mq_unopened; [|done..]. by do 2 eexists.
  - by apply over_step in H.
  - eapply mq_sharing; [done..|]. eapply sharing_step; [apply Hown|intros; by eapply mq_programs_ok|done..].
Qed.
End Mq.
End States.

(** ** Either simulation *)
Definition sim_prefix (sp : space) : list Z := match sp with Shm => shm_prefix | Mq => mq_prefix end.
Definition sim_programs (sp : space) := match sp with Shm => shm_programs | Mq => mq_programs end.
Definition sim_main (sp : space) := match sp with Shm => shm_sim_main | Mq => mq_sim_main end.
Definition sim_key (sp : space) (id : Z) : space * list Z := (sp, object_name (sim_prefix sp) id).

(** The runs of a simulation started alone as process [i]. *)
Definition sim_reaches (sp : space) (b : sim_buffers) (buf : list Z) (argv : list (list Z))
    (names : namespace) (objs : objects) (i : pid) : kernel → Prop :=
  reachable (kernel_step (sim_programs sp buf)) (booted names objs i (sim_main sp b argv)).

(** What holds of every state: a process alone, without workers, or the
    invariant of [ProcLogic]; with shared memory the queue is then in place. *)
Record sim_state (sp : space) (s : sim_settings) (names0 : namespace) (objs0 : objects) (o : oid) (σ : kernel) : Prop := {
  ss_object : names0 !! sim_key sp (st_id s) = Some o ∨ (names0 !! sim_key sp (st_id s) = None ∧ objs0 !! o = None);
  ss_frame : frame (sim_key sp (st_id s)) o names0 (k_names σ) objs0 (k_objs σ);
  ss_phase :
    (∃ i p, k_procs σ = {[i := p]} ∧ l_workers (pr_local p) = ∅ ∧ pr_parent p = None) ∨
    ((sp = Shm → k_objs σ !! o = Some (Object ShmQueue.SHARED_MEM_SIZE (Some (ShmQueue.QUEUE_SIZE, st_id s)))) ∧
     ∃ names objs, sharing sp (object_name (sim_prefix sp) (st_id s)) o (sim_good s) (sim_execs s) names objs σ)
}.

Lemma own_object_exists (names0 : namespace) (objs0 : objects) key :
  ∃ o, names0 !! key = Some o ∨ (names0 !! key = None ∧ objs0 !! o = None).
Proof.
  destruct (names0 !! key) as [o|]; [by exists o; left|]. exists (fresh (dom objs0)). right. split; [done|].
  apply not_elem_of_dom, is_fresh.
Qed.

Lemma sharing_frame sp nm o good execs names0 objs0 names objs σ :
  owned names0 objs0 (sp, nm) o names objs → sharing sp nm o good execs names objs σ →
  frame (sp, nm) o names0 (k_names σ) objs0 (k_objs σ).
Proof.
  intros [_ _ [Fn Fo]] [Hn Ho _ _]. split; [|by rewrite Ho]. intros key Hne.
  destruct Hn as [->| ->]; rewrite ?lookup_delete_ne by done; auto.
Qed.

Lemma shm_state_summary names0 objs0 i b s σ :
  shm_state names0 objs0 i b s σ → ∃ o, sim_state Shm s names0 objs0 o σ.
Proof.
  intros [|σ0 (j & p & Hp & Hd & Hw & Hpar) Hn Ho|o names objs fd [] Ho|o names objs fd size [] Ho Hsz|o names objs fd size addr l [] Ho Hsz Hl
    |o σ0 [] (j & p & Hp & Hd & Hw & Hpar)|o names objs σ0 Hown Ho Hsh].
  - destruct (own_object_exists names0 objs0 (sim_key Shm (st_id s))) as [o Hown]. exists o. split; [done..|].
    left. by do 2 eexists.
  - destruct (own_object_exists names0 objs0 (sim_key Shm (st_id s))) as [o Hown]. exists o.
    split; [done|by rewrite Hn, Ho|]. left. by do 2 eexists.
  - exists o. split; [done..|]. left. by do 2 eexists.
  - exists o. split; [done..|]. left. by do 2 eexists.
  - exists o. split; [done..|]. left. do 2 eexists. split; [done|]. by destruct Hl as [->| ->].
  - exists o. split; [done..|]. left. by do 2 eexists.
  - exists o. pose proof (sharing_frame _ _ _ _ _ _ _ _ _ _ Hown Hsh). split; [apply Hown|done|].
    right. split; [|by do 2 eexists]. intros _. by rewrite (sh_objs _ _ _ _ _ _ _ _ Hsh).
Qed.

Lemma mq_state_summary names0 objs0 i b s σ :
  mq_state names0 objs0 i b s σ → ∃ o, sim_state Mq s names0 objs0 o σ.
Proof.
  intros [|σ0 (j & p & Hp & Hd & Hw & Hpar) Hn Ho|o names objs σ0 Hown Hsh].
  - destruct (own_object_exists names0 objs0 (sim_key Mq (st_id s))) as [o Hown]. exists o. split; [done..|].
    left. by do 2 eexists.
  - destruct (own_object_exists names0 objs0 (sim_key Mq (st_id s))) as [o Hown]. exists o.
    split; [done|by rewrite Hn, Ho|]. left. by do 2 eexists.
  - exists o. pose proof (sharing_frame _ _ _ _ _ _ _ _ _ _ Hown Hsh). split; [apply Hown|done|].
    right. split; [done|by do 2 eexists].
Qed.

(** A program that ends before its first call stays as it is. *)
Lemma ended_reachable program names objs i p σ :
  (∀ c k, p ≠ Call c k) → reachable (kernel_step program) (booted names objs i p) σ → σ = booted names objs i p.
Proof.
  intros Hp. apply (reachable_invariant _ (λ σ, σ = booted names objs i p)); [|done].
  intros σ0 lbl σ1 -> H. unfold booted in H. inversion H; subst;
    repeat match goal with H : {[i := _]} !! _ = Some _ |- _ => apply lookup_singleton_Some in H as [<- ?] end;
    simplify_eq; naive_solver.
Qed.

(** Every state of a simulation is such a state of its settings, or it ended
    before its first call. *)
Lemma sim_reaches_state sp b buf argv names0 objs0 i σ :
  sim_reaches sp b buf argv names0 objs0 i σ →
  (∃ s o, sim_command_line argv = Ok (Some s) ∧ sim_state sp s names0 objs0 o σ) ∨
  (σ = booted names0 objs0 i (sim_main sp b argv) ∧ ∀ c k, sim_main sp b argv ≠ Call c k).
Proof.
  unfold sim_reaches. intros Hr.
  assert (E : (∀ c k, sim_main sp b argv ≠ Call c k) ∨ ∃ s, sim_command_line argv = Ok (Some s) ∧
    match sp with Shm => shm_state names0 objs0 i b s (booted names0 objs0 i (sim_main sp b argv))
                | Mq => mq_state names0 objs0 i b s (booted names0 objs0 i (sim_main sp b argv)) end).
  { destruct sp; cbn [sim_main]; unfold shm_sim_main, mq_sim_main;
      (destruct (sim_command_line argv) as [[s|]|] eqn:Ec; [|by left..]); cbn [check];
      (destruct (sim_object _ _ _) as [n|] eqn:En; [|by left]); right; exists s; (split; [done|]); cbn [check];
      apply sim_object_name in En as ->; auto using shm_prefix_nonnul, mq_prefix_nonnul; constructor. }
  destruct E as [E|(s & Es & E)]; [right; split; [by eapply ended_reachable|done]|].
  pose proof (sim_command_line_wf _ _ Es) as Hwf. left. exists s. destruct sp.
  - destruct (shm_state_summary names0 objs0 i b s σ) as [o Ho]; [|by exists o].
    eapply reachable_invariant; [|exact E|exact Hr]. intros ???. by apply shm_state_step.
  - destruct (mq_state_summary names0 objs0 i b s σ) as [o Ho]; [|by exists o].
    eapply reachable_invariant; [|exact E|exact Hr]. intros ???. by apply mq_state_step.
Qed.
