(* ===== verification/ProcEnds.v ===== *)
(** * The simulations' processes end

    A bound on the steps of a program and of all it starts; the tree of
    processes; and that a kernel whose processes are bounded always takes a
    step until all are dead. *)
From stdpp Require Import gmap relations.
From S2P Require Import Prelude Digits SharedMem Getopt Process SimProcs SimInv.

Section Bound.
(** The programs in files take at most [E] steps. *)
Context (program : list Z → list (list Z) → option prog) (E : nat).

(** [within n p]: [p], its children and what they execute take together at most
    [n] steps, and [p] does not run on without calls. *)
Fixpoint within (n : nat) (p : prog) {struct p} : Prop :=
  match p with
  | Exit _ | Crash _ => True
  | Diverge => False
  | Call c k =>
      match n with
      | O => False
      | S m =>
          match c with
          | Fork => within m (k (-1)) ∧ ∃ a b, (a + b ≤ m)%nat ∧ (∀ j, 0 < j → within a (k j)) ∧ within b (k 0)
          | Execl _ _ => (E ≤ m)%nat ∧ within m (k (-1))
          | _ => ∀ r, within m (k r)
          end
      end
  end.

Lemma within_mono n m p : within n p → (n ≤ m)%nat → within m p.
Proof.
  revert n m. induction p as [| | |c k IH]; intros n m Hp Hle; [done..|].
  destruct n as [|n]; [done|]. destruct m as [|m]; [lia|].
  destruct c; cbn in *; try (intros r; eapply IH; [apply Hp|lia]).
  - destruct Hp as [Hf (a & b & Hab & Ha & Hb)]. split; [eapply IH; [done|lia]|]. exists a, b. split; [lia|done].
  - destruct Hp as [He Hf]. split; [lia|]. eapply IH; [done|lia].
Qed.

(** The budgets of all processes, and their sum. *)
Definition total (bs : gmap pid nat) : nat := map_fold (λ _ n acc, (n + acc)%nat) 0%nat bs.

Lemma total_new bs i n : bs !! i = None → total (<[i := n]> bs) = (n + total bs)%nat.
Proof. intros Hi. unfold total. rewrite map_fold_insert_L; [done| |done]. intros. lia. Qed.

Lemma total_update bs i n m : bs !! i = Some n → (total (<[i := m]> bs) + n = m + total bs)%nat.
Proof.
  intros Hi. rewrite <-insert_delete_eq, total_new by apply lookup_delete_eq.
  rewrite <-(insert_delete_id bs i n Hi) at 2. rewrite total_new by apply lookup_delete_eq. lia.
Qed.

Record budget (k : kernel) (bs : gmap pid nat) : Prop := {
  bu_within i p : k_procs k !! i = Some p → ∃ n, bs !! i = Some n ∧ within n (pr_prog p);
  bu_fresh i : k_procs k !! i = None → bs !! i = None
}.

Context (programs_within : ∀ path argv p, program path argv = Some p → within E p).

(** One process goes on with a smaller budget. *)
Lemma budget_update names objs procs names' objs' i p p' bs n m :
  budget (Kernel names objs procs) bs → procs !! i = Some p → bs !! i = Some (S n) → within m (pr_prog p') → (m ≤ n)%nat →
  ∃ bs', budget (Kernel names' objs' (<[i := p']> procs)) bs' ∧ (total bs' < total bs)%nat.
Proof.
  intros [Hw Hf] Hi Hn Hp' Hm. exists (<[i := m]> bs). split.
  - split; cbn in *; intros j; (destruct (decide (j = i)) as [->|]; [rewrite !lookup_insert_eq|rewrite !lookup_insert_ne by done; eauto]).
    + intros q [= <-]. eauto.
    + done.
  - pose proof (total_update bs i (S n) m Hn). lia.
Qed.

Lemma budget_step k lbl k' bs :
  budget k bs → kernel_step program k lbl k' → ∃ bs', budget k' bs' ∧ (total bs' < total bs)%nat.
Proof.
  intros Hb H. destruct H as [names objs procs i c kont l par r names' objs' l' Hi Hs|names objs procs i c kont l par Hi Hx
    |names objs procs i kont l par j Hi Hj Hj'|names objs procs i kont l par Hi|names objs procs i path argv kont l par p Hi Hx
    |names objs procs i path argv kont l par Hi|names objs procs i j kont l par q Hi Hj Hq Hd|names objs procs i j kont l par Hi Hj];
    destruct (bu_within _ _ Hb i _ Hi) as ([|n] & Hn & Hw); cbn in Hw; try done.
  - eapply budget_update; [done..| |done]. cbn. by destruct Hs.
  - eapply (budget_update _ _ _ _ _ _ _ _ _ _ 0); [done..|lia].
  - destruct Hw as [_ (a & b & Hab & Ha & Hb')].
    exists (<[j := b]> (<[i := a]> bs)). assert (j ≠ i) by congruence. pose proof (bu_fresh _ _ Hb j Hj') as Hbj. split.
    + split; cbn in *; intros x; (destruct (decide (x = j)) as [->|]; [rewrite !lookup_insert_eq|rewrite !(lookup_insert_ne _ j) by done]).
      * intros q [= <-]. eauto.
      * destruct (decide (x = i)) as [->|]; [rewrite !lookup_insert_eq|rewrite !lookup_insert_ne by done; apply Hb].
        intros q [= <-]. eauto.
      * done.
      * destruct (decide (x = i)) as [->|]; [rewrite !lookup_insert_eq|rewrite !lookup_insert_ne by done; apply Hb]. done.
    + rewrite total_new by (by rewrite lookup_insert_ne). pose proof (total_update bs i (S n) a Hn). lia.
  - eapply budget_update; [done..| |done]. apply Hw.
  - destruct Hw as [He _]. eapply budget_update; [done..| |exact He]. by eapply programs_within.
  - eapply budget_update; [done..| |done]. apply Hw.
  - eapply budget_update; [done..| |done]. apply Hw.
  - eapply budget_update; [done..| |done]. apply Hw.
Qed.

Lemma budget_nsteps n k k' bs :
  nsteps (λ k k', kernel_step program k None k') n k k' → budget k bs →
  ∃ bs', budget k' bs' ∧ (total bs' + n ≤ total bs)%nat.
Proof.
  intros H. revert bs. induction H as [k|n k k1 k2 Hs _ IH]; intros bs Hb; [exists bs; split; [done|lia]|].
  destruct (budget_step _ _ _ _ Hb Hs) as (bs1 & Hb1 & H1). destruct (IH bs1 Hb1) as (bs2 & Hb2 & H2).
  exists bs2. split; [done|lia].
Qed.
End Bound.

(** ** The tree of processes *)
Definition tree (k : kernel) : Prop :=
  ∃ (rank : pid → nat) (top : nat), ∀ i p, k_procs k !! i = Some p →
    (rank i ≤ top)%nat ∧ ∀ j, j ∈ l_kids (pr_local p) → ∃ q, k_procs k !! j = Some q ∧ (rank i < rank j)%nat.

Lemma tree_update names objs names' objs' procs i p p' :
  tree (Kernel names objs procs) → procs !! i = Some p → l_kids (pr_local p') ⊆ l_kids (pr_local p) →
  tree (Kernel names' objs' (<[i := p']> procs)).
Proof.
  intros (rank & top & Ht) Hi Hk. exists rank, top. cbn in *. intros x q Hq.
  assert (Hx : ∃ q0, procs !! x = Some q0 ∧ l_kids (pr_local q) ⊆ l_kids (pr_local q0)).
  { destruct (decide (x = i)) as [->|]; [rewrite lookup_insert_eq in Hq; simplify_eq; eauto|].
    rewrite lookup_insert_ne in Hq by done. by exists q. }
  destruct Hx as (q0 & Hq0 & Hsub). destruct (Ht x q0 Hq0) as [Htop Hkids]. split; [done|]. intros j Hj.
  destruct (Hkids j) as (r & Hr & Hlt); [set_solver|].
  destruct (decide (j = i)) as [->|]; [exists p'; by rewrite lookup_insert_eq|exists r; by rewrite lookup_insert_ne].
Qed.

Lemma sys_kids names objs l c r names' objs' l' : sys names objs l c r names' objs' l' → l_kids l' = l_kids l.
Proof. by destruct 1. Qed.

Lemma tree_step program k lbl k' : tree k → kernel_step program k lbl k' → tree k'.
Proof.
  intros Ht H. destruct H as [names objs procs i c kont l par r names' objs' l' Hi Hs| | names objs procs i kont l par j Hi Hj Hj'| | | | |];
    try (eapply tree_update; [done..|]; cbn; rewrite ?(sys_kids _ _ _ _ _ _ _ _ Hs); set_solver).
  destruct Ht as (rank & top & Ht). exists (λ x, if decide (x = j) then S (rank i) else rank x), (S top). cbn in *.
  assert (j ≠ i) by congruence. destruct (Ht i _ Hi) as [Hir Hik]. cbn in Hik. intros x q Hq.
  destruct (decide (x = j)) as [->|Hx].
  - rewrite lookup_insert_eq in Hq. simplify_eq. cbn. split; [lia|set_solver].
  - rewrite lookup_insert_ne in Hq by done. destruct (decide (x = i)) as [->|Hxi].
    + rewrite lookup_insert_eq in Hq. simplify_eq. cbn. split; [lia|]. intros y Hy.
      destruct (decide (y = j)) as [->|Hy']; [exists (Process (kont 0) (forked l) (Some i)); rewrite lookup_insert_eq; split; [done|lia]|].
      destruct (Hik y) as (r & Hr & Hlt); [set_solver|]. rewrite lookup_insert_ne by done.
      destruct (decide (y = i)) as [->|]; [lia|]. rewrite lookup_insert_ne by done. eauto.
    + rewrite lookup_insert_ne in Hq by done. destruct (Ht x q Hq) as [Hxr Hxk]. split; [lia|]. intros y Hy.
      destruct (Hxk y Hy) as (r & Hr & Hlt). assert (y ≠ j) by congruence. rewrite decide_False by done.
      rewrite lookup_insert_ne by done. destruct (decide (y = i)) as [->|]; [rewrite lookup_insert_eq; eauto|].
      rewrite lookup_insert_ne by done. eauto.
Qed.

(** ** Progress *)
Lemma call_moves program names objs procs i c k l par :
  procs !! i = Some (Process (Call c k) l par) → (∀ j, c ≠ Waitpid j) →
  ∃ σ, kernel_step program (Kernel names objs procs) None σ.
Proof.
  intros Hi Hc. assert (Hh : l_workers l !! fresh (dom (l_workers l)) = None) by apply not_elem_of_dom, is_fresh.
  destruct c as [s n create|fd size|fd len|addr len|fd|s n|addr size qid|addr|w|h|n| |path argv|j];
    try (eexists; eapply step_call; [done|constructor]; fail).
  - destruct (l_maps l !! addr) as [o|] eqn:Ea; [|eexists; eapply step_crash; [done|]; cbn; by rewrite Ea].
    destruct (objs !! o) as [ob|] eqn:Eo; [|eexists; eapply step_crash; [done|]; cbn; by rewrite Ea, Eo].
    destruct (Z.lt_ge_cases (ob_size ob) (queue_bytes size)).
    + eexists. eapply step_crash; [done|]. cbn. by rewrite Ea, Eo.
    + eexists. eapply step_call; [done|]. by eapply sys_queue.
  - destruct (l_maps l !! addr) as [o|] eqn:Ea.
    + eexists. eapply step_call; [done|]. by eapply sys_report.
    + eexists. by eapply step_crash.
  - destruct (wa_target w) as [addr|n] eqn:Ew.
    + destruct (l_maps l !! addr) as [o|] eqn:Ea.
      * eexists. eapply step_call; [done|]. by eapply sys_worker_at.
      * eexists. eapply step_crash; [done|]. cbn. by rewrite Ew.
    + eexists. eapply step_call; [done|]. by eapply sys_worker_error.
  - eexists. by eapply step_fork_error.
  - eexists. by eapply step_exec_error.
  - by destruct (Hc j).
Qed.

Lemma progress_or_dead program k :
  tree k → map_Forall (λ _ p, pr_prog p ≠ Diverge) (k_procs k) →
  (∃ k', kernel_step program k None k') ∨ map_Forall (λ _ p, dead p) (k_procs k).
Proof.
  destruct k as [names objs procs]. intros (rank & top & Ht) Hnd. cbn in *.
  destruct (decide (map_Forall (λ _ p, dead p) procs)) as [|Hnot]; [by right|]. left.
  apply map_not_Forall in Hnot as (i & p & Hi & Hp); [|intros ??; apply _].
  remember (top - rank i)%nat as n eqn:En. revert i p Hi Hp En. induction n as [n IH] using lt_wf_ind.
  intros i [p l par] Hi Hp En. destruct p as [| | |c k]; [by destruct Hp|by destruct Hp|by destruct (Hnd i _ Hi)|].
  assert (Hc : (∀ j, c ≠ Waitpid j) ∨ ∃ j, c = Waitpid j) by (destruct c; naive_solver).
  destruct Hc as [Hc|[j ->]]; [by eapply call_moves|].
  destruct (decide (j ∈ l_kids l)) as [Hj|Hj]; [|eexists; by eapply step_wait_error].
  destruct (Ht i _ Hi) as [Htop Hkids]. destruct (Hkids j Hj) as (q & Hq & Hlt). destruct (Ht j q Hq) as [Hjt _].
  destruct (decide (dead q)); [eexists; by eapply step_wait|]. eapply (IH (top - rank j)%nat); [lia|done..].
Qed.

(** ** The simulations *)
Definition CHILD_STEPS : nat := 7.
Definition SIM_STEPS : nat := 34.

Lemma shm_child_within kind st buf argv : within CHILD_STEPS CHILD_STEPS (shm_child kind st buf argv).
Proof.
  unfold shm_child. destruct (sim_command_line argv) as [[s|]|]; [|done..]. cbn [check].
  destruct (sim_object _ _ _) as [n|]; [|done]. cbn [check within CHILD_STEPS]. intros fd. destruct (fd =? -1); [done|].
  cbn. intros addr. by destruct (addr =? -1).
Qed.

Lemma mq_child_within kind buf argv : within CHILD_STEPS CHILD_STEPS (mq_child kind buf argv).
Proof.
  unfold mq_child. destruct (sim_command_line argv) as [[s|]|]; [|done..]. cbn [check].
  by destruct (sim_object _ _ _).
Qed.

Lemma sim_programs_within sp buf path argv p : sim_programs sp buf path argv = Some p → within CHILD_STEPS CHILD_STEPS p.
Proof.
  destruct sp; cbn; unfold shm_programs, mq_programs; repeat case_decide; intros [= <-];
    apply shm_child_within || apply mq_child_within.
Qed.

Lemma wait_children_within p c cleanup : within CHILD_STEPS 3 cleanup → within CHILD_STEPS 5 (wait_children p c cleanup).
Proof.
  intros Hc. unfold wait_children.
  destruct (0 <? p), (0 <? c); cbn [within]; intros; try done; eapply within_mono; [done|lia|done|lia|done|lia].
Qed.

Lemma fork_children_within core idt time cleanup :
  within CHILD_STEPS 3 cleanup → within CHILD_STEPS 30 (fork_children core idt time cleanup).
Proof.
  intros Hc.
  assert (Hf : ∀ p, within CHILD_STEPS 14 (fork_consumer core idt time p cleanup)).
  { intros p. unfold fork_consumer. cbn [within Z.eqb Z.ltb Z.compare]. split; [done|]. exists 5%nat, 8%nat. split; [lia|]. split.
    - intros j Hj. rewrite (proj2 (Z.eqb_neq j 0)), (proj2 (Z.ltb_ge j 0)) by lia. by apply wait_children_within.
    - split; [unfold CHILD_STEPS; lia|]. eapply within_mono; [by apply wait_children_within|lia]. }
  unfold fork_children. cbn [within Z.eqb Z.ltb Z.compare]. split; [done|]. exists 14%nat, 15%nat. split; [lia|]. split.
  - intros j Hj. rewrite (proj2 (Z.eqb_neq j 0)), (proj2 (Z.ltb_ge j 0)) by lia. apply Hf.
  - split; [unfold CHILD_STEPS; lia|]. eapply within_mono; [apply Hf|lia].
Qed.

Lemma start_children_within b s cleanup : within CHILD_STEPS 3 cleanup → within CHILD_STEPS 30 (start_children b s cleanup).
Proof.
  intros Hc. unfold start_children.
  destruct (sim_texts_shape (st_id s) (st_core s) (st_seconds s) b) as [[f ->]|(c & i & t & -> & _)]; [done|]. cbn [check].
  destruct (c_string c); [|done]. simpl_bind. destruct (c_string i); [|done]. simpl_bind.
  destruct (c_string t); [|done]. by apply fork_children_within.
Qed.

Lemma sim_main_within sp b argv : within CHILD_STEPS SIM_STEPS (sim_main sp b argv).
Proof.
  unfold SIM_STEPS. destruct sp; cbn [sim_main]; unfold shm_sim_main, mq_sim_main;
    (destruct (sim_command_line argv) as [[s|]|]; [|done..]); cbn [check]; (destruct (sim_object _ _ _) as [n|]; [|done]);
    cbn [check within]; intros fd.
  - unfold shm_opened. destruct (fd =? -1); [done|]. cbn [within shm_truncated shm_mapped]. intros _ addr _.
    by apply start_children_within.
  - unfold mq_opened. destruct (fd =? -1); [done|]. eapply within_mono; [by apply start_children_within|lia].
Qed.

(** The invariant of the two: within the bound, in a tree. *)
Lemma sim_bounded sp b buf argv names objs i n σ :
  nsteps (λ k k', kernel_step (sim_programs sp buf) k None k') n (booted names objs i (sim_main sp b argv)) σ →
  (n ≤ SIM_STEPS)%nat ∧ tree σ ∧ map_Forall (λ _ p, pr_prog p ≠ Diverge) (k_procs σ).
Proof.
  intros Hn. assert (Hb : budget CHILD_STEPS (booted names objs i (sim_main sp b argv)) {[i := SIM_STEPS]}).
  { split; cbn; intros j.
    - intros p Hp. apply lookup_singleton_Some in Hp as [<- <-]. exists SIM_STEPS. rewrite lookup_singleton_eq.
      split; [done|]. apply sim_main_within.
    - rewrite !lookup_singleton_None. done. }
  destruct (budget_nsteps _ _ (sim_programs_within sp buf) _ _ _ _ Hn Hb) as (bs & Hb' & Ht). split_and!.
  - assert (total {[i := SIM_STEPS]} = SIM_STEPS) by (unfold total; by rewrite map_fold_singleton, Nat.add_0_r). lia.
  - clear Hb Hb' Ht. remember (booted names objs i (sim_main sp b argv)) as σ0 eqn:E0.
    assert (Ht : tree σ0).
    { subst. exists (λ _, 0%nat), 0%nat. cbn. intros j p Hp. apply lookup_singleton_Some in Hp as [<- <-].
      split; [done|]. cbn. set_solver. }
    clear E0. induction Hn as [|? ? ? ? Hs _ IH]; [done|]. eapply IH, tree_step; done.
  - intros j p Hp Hd. destruct (bu_within _ _ _ Hb' j p Hp) as (m & _ & Hw). by rewrite Hd in Hw.
Qed.
