(* ===== verification/ProcRun.v ===== *)
(** * Running the kernel of [Process]

    [advance] computes the step that a choice names: which process goes on,
    whether its call succeeds and with what answer.  Every such step is one of
    [kernel_step], so concrete runs can be evaluated. *)
From stdpp Require Import gmap relations.
From S2P Require Import Prelude Scheduler Process.

(** [Goes i r o]: the call of [i] succeeds with [r], a new object is [o];
    [Fails i]: it fails. *)
Inductive choice := Goes (i : pid) (r : Z) (o : oid) | Fails (i : pid).

Section Run.
Context (program : list Z → list (list Z) → option prog).

(** A call that succeeds. *)
Definition succeed (names : namespace) (objs : objects) (l : local) (c : syscall) (r : Z) (o : oid)
    : option (namespace * objects * local) :=
  match c with
  | Open s n create =>
      guard (0 ≤ r ∧ l_fds l !! r = None);;
      match names !! (s, n) with
      | Some o' => Some (names, if create then match s with Shm => <[o' := Object 0 None]> objs | Mq => objs end else objs,
                         add_fd r o' l)
      | None => guard (create = true ∧ objs !! o = None);;
                Some (<[(s, n) := o]> names, <[o := Object 0 None]> objs, add_fd r o l)
      end
  | Ftruncate fd size =>
      guard (r = 0);; o ← l_fds l !! fd; ob ← objs !! o; Some (names, <[o := Object size (ob_queue ob)]> objs, l)
  | Mmap fd _ => guard (0 < r ∧ l_maps l !! r = None);; o ← l_fds l !! fd; Some (names, objs, add_map r o l)
  | Munmap addr _ => guard (r = 0);; Some (names, objs, del_map addr l)
  | Close fd => guard (r = 0);; Some (names, objs, del_fd fd l)
  | Unlink s n => guard (r = 0);; o ← names !! (s, n); Some (delete (s, n) names, objs, l)
  | NewQueue addr size qid =>
      guard (r = 0);; o ← l_maps l !! addr; ob ← objs !! o; guard (queue_bytes size ≤ ob_size ob);;
      Some (names, <[o := Object (ob_size ob) (Some (size, qid))]> objs, l)
  | ReportQueue addr => guard (r = 0);; _ ← l_maps l !! addr; Some (names, objs, l)
  | NewWorker w =>
      guard (l_workers l !! r = None);;
      match wa_target w with
      | AtAddress addr => o ← l_maps l !! addr; Some (names, objs, add_worker r (w, Some o) l)
      | ByName n => Some (names, objs, add_worker r (w, names !! (Mq, n)) l)
      end
  | DeleteWorker h => guard (r = 0);; Some (names, objs, del_worker h l)
  | Sleep _ => guard (r = 0);; Some (names, objs, l)
  | Fork | Execl _ _ | Waitpid _ => None
  end.

(** The calls that may fail with -1. *)
Definition may_fail (l : local) (c : syscall) : bool :=
  match c with
  | Open _ _ _ | Ftruncate _ _ | Mmap _ _ | Unlink _ _ | Fork | Execl _ _ => true
  | Waitpid j => bool_decide (j ∉ l_kids l)
  | _ => false
  end.

Definition advance (σ : kernel) (ch : choice) : option kernel :=
  let '(Kernel names objs procs) := σ in
  let i := match ch with Goes i _ _ | Fails i => i end in
  match procs !! i with
  | Some (Process (Call c k) l par) =>
      match ch with
      | Fails _ =>
          guard (may_fail l c = true);; Some (Kernel names objs (<[i := Process (k (-1)) l par]> procs))
      | Goes _ r o =>
          match c with
          | Fork =>
              guard (0 < r ∧ procs !! r = None);;
              Some (Kernel names objs (<[r := Process (k 0) (forked l) (Some i)]> (<[i := Process (k r) (add_kid r l) par]> procs)))
          | Execl path argv =>
              p ← program path argv; Some (Kernel names objs (<[i := Process p (execed l) par]> procs))
          | Waitpid j =>
              q ← procs !! j; guard (r = j ∧ j ∈ l_kids l ∧ dead q);;
              Some (Kernel names objs (<[i := Process (k j) (del_kid j l) par]> procs))
          | _ =>
              '(names', objs', l') ← succeed names objs l c r o;
              Some (Kernel names' objs' (<[i := Process (k r) l' par]> procs))
          end
      end
  | _ => None
  end.

Fixpoint advances (σ : kernel) (chs : list choice) : option kernel :=
  match chs with [] => Some σ | ch :: chs' => σ' ← advance σ ch; advances σ' chs' end.

(** ** Proofs *)
Lemma succeed_sys names objs l c r o names' objs' l' :
  succeed names objs l c r o = Some (names', objs', l') → sys names objs l c r names' objs' l'.
Proof.
  intros H. destruct c; cbn in H; repeat case_guard; simplify_option_eq; destruct_and?; subst; try done;
    try (econstructor; eauto; fail).
  - destruct (names !! (s, n)) eqn:E; simplify_option_eq; [by apply (sys_open _ _ _ s n true)|by apply sys_create].
  - destruct (names !! (s, n)) eqn:E; simplify_option_eq; by apply (sys_open _ _ _ s n create).
  - destruct (wa_target w) as [addr|n] eqn:E; simplify_option_eq; [by eapply sys_worker_at|].
    destruct (names' !! (Mq, n)) eqn:En; [by eapply sys_worker_named|by eapply sys_worker_error].
Qed.

Lemma may_fail_step names objs procs i c k l par :
  procs !! i = Some (Process (Call c k) l par) → may_fail l c = true →
  kernel_step program (Kernel names objs procs) None (Kernel names objs (<[i := Process (k (-1)) l par]> procs)).
Proof.
  intros Hi H. destruct c; try done; try (eapply step_call; [done|constructor]; fail).
  - by eapply step_fork_error.
  - by eapply step_exec_error.
  - eapply step_wait_error; [done|]. cbn in H. by apply bool_decide_eq_true in H.
Qed.

Lemma advance_step σ ch σ' : advance σ ch = Some σ' → kernel_step program σ None σ'.
Proof.
  destruct σ as [names objs procs]. unfold advance. intros H.
  destruct (procs !! match ch with Goes i _ _ | Fails i => i end) as [[[| | |c k] l par]|] eqn:Hi; try done.
  destruct ch as [i r o|i].
  - destruct c; try (apply bind_Some in H as ([[names' objs'] l'] & Hs & [= <-]);
      eapply step_call; [exact Hi|by eapply succeed_sys]); simplify_option_eq; destruct_and?.
    + by eapply step_fork.
    + by eapply step_exec.
    + subst. by eapply step_wait.
  - simplify_option_eq. by eapply may_fail_step.
Qed.

Lemma advances_reachable σ chs σ' : advances σ chs = Some σ' → reachable (kernel_step program) σ σ'.
Proof.
  intros H. enough (Hx : ∀ τ, reachable (kernel_step program) τ σ → reachable (kernel_step program) τ σ').
  { apply Hx. exists []. constructor. }
  revert σ H. induction chs as [|ch chs IH]; intros σ H τ [tr Hr]; cbn in H; [simplify_eq; by exists tr|].
  apply bind_Some in H as (σ1 & H1 & H). eapply IH; [done|]. exists (tr ++ option_list None).
  eapply exec_snoc; [done|by eapply advance_step].
Qed.

Lemma advances_nsteps σ chs σ' :
  advances σ chs = Some σ' → nsteps (λ k k', kernel_step program k None k') (length chs) σ σ'.
Proof.
  revert σ. induction chs as [|ch chs IH]; intros σ H; cbn in *; [simplify_eq; constructor|].
  apply bind_Some in H as (σ1 & H1 & H). econstructor; [by eapply advance_step|by apply IH].
Qed.
End Run.

(** A run whose last state passes a test. *)
Lemma run_to program σ chs (f : kernel → bool) :
  match advances program σ chs with Some σ' => f σ' | None => false end = true →
  ∃ σ', reachable (kernel_step program) σ σ' ∧ nsteps (λ k k', kernel_step program k None k') (length chs) σ σ' ∧ f σ' = true.
Proof.
  destruct (advances program σ chs) as [σ'|] eqn:E; [|done]. intros Hf. exists σ'.
  split_and!; [by eapply advances_reachable|by apply advances_nsteps|done].
Qed.
