(* ===== verification/ProcProps.v ===== *)
(** * Properties of Chapter 14's processes

    What a simulation does as a set of processes, for shared memory and for
    message queues alike: which object its workers use, what else it touches,
    that it waits and ends, and what its children read; and two runs that go
    wrong. *)
From stdpp Require Import gmap relations.
From S2P Require Import Prelude Digits SharedMem Scheduler Getopt Process SimProcs ProcLogic SimInv ProcEnds ProcRun.
From S2P Require ShmQueue.

(** ** A simulation to run *)

(** Arrays of zeros, the command line [sim -t 0], and the processes: 1 the
    parent, 2 the producer, 3 the consumer. *)
Definition blank_buffers : sim_buffers := SimBuffers (replicate 30 0) (replicate 4 0) (replicate 12 0) (replicate 12 0).
Definition blank_name : list Z := replicate 30 0.
Definition brief_argv : list (list Z) := [[115]; [45; 116]; [48]].
Definition brief_settings : sim_settings := MkSettings 0 0 0.

(** Up to the two forks with shared memory and with a message queue. *)
Definition shm_forked : list choice :=
  [Goes 1 3 1; Goes 1 0 1; Goes 1 4096 1; Goes 1 0 1; Goes 1 2 1; Goes 1 3 1].
Definition mq_forked : list choice := [Goes 1 3 1; Goes 1 2 1; Goes 1 3 1].
(** Child [i] up to its worker, with each. *)
Definition shm_child_starts (i : pid) : list choice := [Goes i 0 1; Goes i 3 1; Goes i 8192 1; Goes i 7 1].
Definition mq_child_starts (i : pid) : list choice := [Goes i 0 1; Goes i 7 1].
Definition shm_working : list choice := shm_forked ++ shm_child_starts 2 ++ shm_child_starts 3.
Definition mq_working : list choice := mq_forked ++ mq_child_starts 2 ++ mq_child_starts 3.
Definition shm_child_ends (i : pid) : list choice := [Goes i 0 1; Goes i 0 1; Goes i 0 1].
(** To the end: the producer unlinks, the consumer and the parent fail to. *)
Definition shm_whole_run : list choice :=
  shm_working ++ shm_child_ends 2 ++ [Goes 2 0 1] ++ shm_child_ends 3 ++ [Fails 3] ++
  [Goes 1 2 1; Goes 1 3 1; Goes 1 0 1; Goes 1 0 1; Fails 1].

Definition brief_start (sp : space) : kernel := booted ∅ ∅ 1 (sim_main sp blank_buffers brief_argv).

Definition has_worker (j : pid) (h : Z) (σ : kernel) : bool :=
  match k_procs σ !! j with Some p => match l_workers (pr_local p) !! h with Some _ => true | None => false end | None => false end.

Definition exited (j : pid) (status : Z) (σ : kernel) : bool :=
  match k_procs σ !! j with Some (Process (Exit st) _ _) => st =? status | _ => false end.

(** Process [j] is about to open the memory [n], and exits with [status] if
    that fails. *)
Definition opens_name (j : pid) (n : list Z) (status : Z) (σ : kernel) : bool :=
  match k_procs σ !! j with
  | Some (Process (Call (Open Shm n' false) k) _ _) =>
      bool_decide (n' = n) && match k (-1) with Exit st => st =? status | _ => false end
  | _ => false
  end.

Lemma opens_name_true j n status σ :
  opens_name j n status σ = true →
  ∃ k l par, k_procs σ !! j = Some (Process (Call (Open Shm n false) k) l par) ∧ k (-1) = Exit status.
Proof.
  unfold opens_name. destruct (k_procs σ !! j) as [[[| | |c k] l par]|]; try done.
  destruct c as [[] n' []| | | | | | | | | | | | |]; try done.
  intros [->%bool_decide_eq_true Hk]%andb_true_iff. exists k, l, par. split; [done|].
  destruct (k (-1)); try done. by apply Z.eqb_eq in Hk as ->.
Qed.

(** Process [j], a child of [parent], has the consumer of these settings on
    [o]. *)
Definition consumes (j parent addr : Z) (s : sim_settings) (o : oid) (σ : kernel) : bool :=
  match k_procs σ !! j with
  | Some p => bool_decide (pr_parent p = Some parent) &&
              bool_decide (l_workers (pr_local p) !! 7 = Some (sim_worker ConsumerKind (AtAddress addr) s, Some o))
  | None => false
  end.

Lemma consumes_true j parent addr s o σ :
  consumes j parent addr s o σ = true →
  ∃ p, k_procs σ !! j = Some p ∧ pr_parent p = Some parent ∧
       l_workers (pr_local p) !! 7 = Some (sim_worker ConsumerKind (AtAddress addr) s, Some o).
Proof.
  unfold consumes. destruct (k_procs σ !! j) as [p|]; [|done].
  intros [?%bool_decide_eq_true ?%bool_decide_eq_true]%andb_true_iff. by exists p.
Qed.

Lemma has_worker_true j h σ :
  has_worker j h σ = true → ∃ p w x, k_procs σ !! j = Some p ∧ l_workers (pr_local p) !! h = Some (w, x).
Proof.
  unfold has_worker. destruct (k_procs σ !! j) as [p|]; [|done].
  destruct (l_workers (pr_local p) !! h) as [[w x]|] eqn:E; [|done]. eauto.
Qed.

Lemma exited_true j status σ : exited j status σ = true → ∃ p, k_procs σ !! j = Some p ∧ pr_prog p = Exit status.
Proof.
  unfold exited. destruct (k_procs σ !! j) as [[[st| | |] l par]|]; try done. intros ->%Z.eqb_eq. eauto.
Qed.

(** ** The shared object *)

(** C9. All workers of a simulation, of whichever processes, work on one
    object. With shared memory it is a mapping of full size in which the parent has
    placed the queue of this id; with message queues it is the queue of this
    name, if the worker found one. Id, priority, policy and core of each worker
    are those on the parent's command line. *)
Theorem workers_share_one_object sp b buf argv names objs i σ :
  sim_reaches sp b buf argv names objs i σ →
  ∃ o, ∀ j p h w x, k_procs σ !! j = Some p → l_workers (pr_local p) !! h = Some (w, x) →
    ∃ s kind t, sim_command_line argv = Ok (Some s) ∧ w = sim_worker kind t s ∧
    match sp with
    | Shm => ∃ addr, t = AtAddress addr ∧ l_maps (pr_local p) !! addr = Some o ∧ x = Some o ∧
               k_objs σ !! o = Some (Object ShmQueue.SHARED_MEM_SIZE (Some (ShmQueue.QUEUE_SIZE, st_id s)))
    | Mq => t = ByName (object_name mq_prefix (st_id s)) ∧ (x = None ∨ x = Some o)
    end.
Proof.
  intros H. apply sim_reaches_state in H as [(s & o & Es & [_ _ [(i0 & p0 & Hp & Hw & _)|(Hq & n & os & Hsh)]])|[-> _]].
  - exists o. intros j p h w x Hj Hx. rewrite Hp in Hj. apply lookup_singleton_Some in Hj as [_ <-].
    by rewrite Hw in Hx.
  - exists o. intros j p h w x Hj Hx. destruct (sh_procs _ _ _ _ _ _ _ _ Hsh j p Hj) as [_ [_ _ Hwf]].
    destruct (Hwf h (w, x) Hx) as [(kind & t & Ew) Ht]. cbn in Ew, Ht. subst w. exists s, kind, t. split_and!; [done..|].
    unfold on_target in Ht. cbn in Ht. destruct sp, t as [addr|nm]; cbn; destruct_and?; simplify_eq; eauto 6.
  - exists 1%positive. cbn. intros j p h w x Hj Hx. apply lookup_singleton_Some in Hj as [_ <-]. done.
Qed.

Lemma workers_share_one_object_witness :
  ∃ σ, sim_reaches Shm blank_buffers blank_name brief_argv ∅ ∅ 1 σ ∧
  has_worker 2 7 σ = true ∧ has_worker 3 7 σ = true ∧
  ∃ o, ∀ j p h w x, k_procs σ !! j = Some p → l_workers (pr_local p) !! h = Some (w, x) →
    ∃ s kind t, sim_command_line brief_argv = Ok (Some s) ∧ w = sim_worker kind t s ∧
    ∃ addr, t = AtAddress addr ∧ l_maps (pr_local p) !! addr = Some o ∧ x = Some o ∧
               k_objs σ !! o = Some (Object ShmQueue.SHARED_MEM_SIZE (Some (ShmQueue.QUEUE_SIZE, st_id s))).
Proof.
  destruct (run_to (shm_programs blank_name) (brief_start Shm) shm_working (λ σ, has_worker 2 7 σ && has_worker 3 7 σ))
    as (σ & Hr & _ & [H2 H3]%andb_true_iff); [by vm_compute|].
  exists σ. split_and!; [exact Hr|done..|].
  apply (workers_share_one_object Shm blank_buffers blank_name brief_argv ∅ ∅ 1 σ Hr).
Defined.

(** A process of a simulation that exits with status 0 has waited for every
    child it forked: all of them have ended. *)
Lemma sim_waits_for_its_children sp b buf argv names objs i σ j p k q :
  sim_reaches sp b buf argv names objs i σ →
  k_procs σ !! j = Some p → pr_prog p = Exit 0 → k_procs σ !! k = Some q → pr_parent q = Some j → dead q.
Proof.
  intros H Hj He Hk Hpar. apply sim_reaches_state in H as [(s & o & _ & [_ _ [(i0 & p0 & Hp & _ & Hn)|(_ & n & os & Hsh)]])|[-> _]].
  - rewrite Hp in Hk. apply lookup_singleton_Some in Hk as [_ <-]. congruence.
  - exact (sharing_waits _ _ _ _ _ _ _ σ j k p q Hsh Hj He Hk Hpar).
  - cbn in Hk. apply lookup_singleton_Some in Hk as [_ <-]. done.
Qed.

Lemma sim_waits_for_its_children_witness :
  ∃ σ p q, k_procs σ !! 1 = Some p ∧ pr_prog p = Exit 0 ∧ k_procs σ !! 3 = Some q ∧ pr_parent q = Some 1 ∧ dead q.
Proof.
  destruct (run_to (shm_programs blank_name) (brief_start Shm) shm_whole_run
    (λ σ, exited 1 0 σ && bool_decide ((pr_parent <$> k_procs σ !! 3) = Some (Some 1))))
    as (σ & Hr & _ & [H1 H3]%andb_true_iff); [by vm_compute|].
  apply exited_true in H1 as (p & Hp & Ep). apply bool_decide_eq_true, fmap_Some in H3 as (q & Hq & Eq).
  exists σ, p, q. split_and!; [done..|].
  apply (sim_waits_for_its_children Shm blank_buffers blank_name brief_argv ∅ ∅ 1 σ 1 p 3 q Hr Hp Ep Hq). done.
Defined.

(** A simulation changes no other object and no other name than those of its
    id: simulations with different ids leave each other alone. *)
Lemma sim_touches_one_object sp b buf argv names objs i s σ :
  sim_reaches sp b buf argv names objs i σ → sim_command_line argv = Ok (Some s) →
  ∃ o, (names !! sim_key sp (st_id s) = Some o ∨ (names !! sim_key sp (st_id s) = None ∧ objs !! o = None)) ∧
  (∀ key, key ≠ sim_key sp (st_id s) → k_names σ !! key = names !! key) ∧
  (∀ o', o' ≠ o → k_objs σ !! o' = objs !! o').
Proof.
  intros H Es. apply sim_reaches_state in H as [(s' & o & Es' & [Ho [Fn Fo] _])|[-> _]].
  - assert (s' = s) as -> by congruence. by exists o.
  - destruct (own_object_exists names objs (sim_key sp (st_id s))) as [o Ho]. by exists o.
Qed.

Lemma sim_touches_one_object_witness :
  ∃ σ o, has_worker 2 7 σ = true ∧ k_names σ !! sim_key Mq 5 = Some 9%positive ∧
  (∀ o', o' ≠ o → k_objs σ !! o' = ({[9%positive := Object 0 None]} : objects) !! o').
Proof.
  destruct (run_to (mq_programs blank_name) (booted {[sim_key Mq 5 := 9%positive]} {[9%positive := Object 0 None]} 1
              (sim_main Mq blank_buffers brief_argv)) mq_working (has_worker 2 7)) as (σ & Hr & _ & Hw); [by vm_compute|].
  destruct (sim_touches_one_object Mq blank_buffers blank_name brief_argv {[sim_key Mq 5 := 9%positive]}
              {[9%positive := Object 0 None]} 1 brief_settings σ Hr) as (o & _ & Fn & Fo); [by vm_compute|].
  exists σ, o. split_and!; [done| |done]. rewrite Fn by done. apply lookup_singleton_eq.
Defined.

(** C16. A simulation ends: it and its children make at most 34 calls in all,
    whatever the kernel answers and however they interleave, and as long as one
    of them has not ended, some call can return: they never wait for each other
    for ever. *)
Theorem sim_always_ends sp b buf argv names objs i n σ :
  nsteps (λ k k', kernel_step (sim_programs sp buf) k None k') n (booted names objs i (sim_main sp b argv)) σ →
  (n ≤ SIM_STEPS)%nat ∧
  ((∃ σ', kernel_step (sim_programs sp buf) σ None σ') ∨ map_Forall (λ _ p, dead p) (k_procs σ)).
Proof.
  intros Hn. destruct (sim_bounded _ _ _ _ _ _ _ _ _ Hn) as (Hle & Ht & Hd). split; [done|].
  by apply progress_or_dead.
Qed.

Lemma sim_always_ends_witness :
  ∃ σ, exited 1 0 σ = true ∧ (length shm_whole_run ≤ SIM_STEPS)%nat ∧
  ((∃ σ', kernel_step (shm_programs blank_name) σ None σ') ∨ map_Forall (λ _ p, dead p) (k_procs σ)).
Proof.
  destruct (run_to (shm_programs blank_name) (brief_start Shm) shm_whole_run (exited 1 0)) as (σ & _ & Hn & He); [by vm_compute|].
  exists σ. split; [done|]. apply (sim_always_ends Shm blank_buffers blank_name brief_argv ∅ ∅ 1 _ σ Hn).
Defined.

(** ** The settings *)

(** C29. The children read the settings of the parent's own command line: the
    three texts are made exactly when the core lies between 0 and 999, and
    either child reads all three numbers back, unless the id or the time is
    negative: then its [atoi] meets a number that is no [int]. *)
Theorem children_read_the_settings argv s b :
  sim_command_line argv = Ok (Some s) → buffers_wf b →
  if decide (0 ≤ st_core s ≤ 999)
  then ∃ c i t core idt time, sim_texts (st_id s) (st_core s) (st_seconds s) b = Ok (Some (c, i, t)) ∧
    c_string c = Ok core ∧ c_string i = Ok idt ∧ c_string t = Ok time ∧
    ∀ cmd, sim_command_line (child_argv cmd core idt time) =
           if (0 <=? st_id s) && (0 <=? st_seconds s) then Ok (Some s) else Fault SignedOverflow
  else ¬ is_ok (sim_texts (st_id s) (st_core s) (st_seconds s) b).
Proof.
  intros Es Hb. destruct (sim_command_line_wf _ _ Es) as [Hi Hc Ht].
  pose proof (sim_texts_cases (st_id s) (st_core s) (st_seconds s) b Hc Hb) as H. case_decide as Hcore; [|done].
  destruct H as (c & i & t & E & Ec & Ei & Et). exists c, i, t. do 3 eexists. split_and!; [done..|].
  intros cmd. rewrite child_command_line. rewrite <-(u32_small (st_core s)) at 1 by lia.
  fold (setting_text (st_core s)) (setting_text (st_id s)) (setting_text (st_seconds s)).
  rewrite !c_atoi_setting by done. rewrite (proj2 (Z.leb_le 0 (st_core s))) by lia. simpl_bind.
  destruct (0 <=? st_id s), (0 <=? st_seconds s); try done. by destruct s.
Qed.

Lemma children_read_the_settings_witness :
  if decide (0 ≤ 0 ≤ 999)
  then ∃ c i t core idt time, sim_texts 0 0 0 blank_buffers = Ok (Some (c, i, t)) ∧
    c_string c = Ok core ∧ c_string i = Ok idt ∧ c_string t = Ok time ∧
    ∀ cmd, sim_command_line (child_argv cmd core idt time) = Ok (Some brief_settings)
  else ¬ is_ok (sim_texts 0 0 0 blank_buffers).
Proof. apply (children_read_the_settings brief_argv brief_settings blank_buffers); [by vm_compute|by split]. Defined.

(** ** Runs that go wrong *)

(** Either child unlinks the name when it is done, so a child that starts
    late cannot find the queue: here the producer has ended with status 0, the
    consumer is at its [shm_open], and the only answer left is -1, on which it
    exits with -1. *)
Lemma late_child_misses_the_queue :
  ∃ σ k l par, sim_reaches Shm blank_buffers blank_name brief_argv ∅ ∅ 1 σ ∧ exited 2 0 σ = true ∧
  k_procs σ !! 3 = Some (Process (Call (Open Shm (object_name shm_prefix 0) false) k) l par) ∧
  ∀ r names' objs' l', sys (k_names σ) (k_objs σ) l (Open Shm (object_name shm_prefix 0) false) r names' objs' l' →
    k r = Exit (-1).
Proof.
  destruct (run_to (shm_programs blank_name) (brief_start Shm)
    (shm_forked ++ shm_child_starts 2 ++ shm_child_ends 2 ++ [Goes 2 0 1; Goes 3 0 1])
    (λ σ, exited 2 0 σ && bool_decide (k_names σ = ∅) && opens_name 3 (object_name shm_prefix 0) (-1) σ))
    as (σ & Hr & _ & [[He Hn%bool_decide_eq_true]%andb_true_iff H3]%andb_true_iff); [by vm_compute|].
  apply opens_name_true in H3 as (k & l & par & H3 & Hk). exists σ, k, l, par. split_and!; [exact Hr|done..|].
  intros r names' objs' l' Hs. rewrite Hn in Hs. inversion Hs; subst; [|done].
  match goal with H : _ !! _ = Some _ |- _ => by rewrite lookup_empty in H end.
Qed.

(** A child whose [execl] fails goes on as if it were the parent: here the
    first child forks a consumer of its own, and the two consumers of the two
    "parents" both work on the queue, which has no producer. *)
Lemma failed_exec_makes_two_consumers :
  ∃ σ p q t t', sim_reaches Shm blank_buffers blank_name brief_argv ∅ ∅ 1 σ ∧
  k_procs σ !! 3 = Some p ∧ pr_parent p = Some 1 ∧ k_procs σ !! 4 = Some q ∧ pr_parent q = Some 2 ∧
  l_workers (pr_local p) !! 7 = Some (sim_worker ConsumerKind t brief_settings, Some 1%positive) ∧
  l_workers (pr_local q) !! 7 = Some (sim_worker ConsumerKind t' brief_settings, Some 1%positive).
Proof.
  destruct (run_to (shm_programs blank_name) (brief_start Shm)
    (shm_forked ++ [Fails 2; Goes 2 4 1] ++ shm_child_starts 3 ++ shm_child_starts 4)
    (λ σ, consumes 3 1 8192 brief_settings 1 σ && consumes 4 2 8192 brief_settings 1 σ))
    as (σ & Hr & _ & [H3 H4]%andb_true_iff); [by vm_compute|].
  apply consumes_true in H3 as (p & ? & ? & ?), H4 as (q & ? & ? & ?). by exists σ, p, q, (AtAddress 8192), (AtAddress 8192).
Qed.

(** C35. What a simulation does not promise.  A child that starts after the other
    has finished cannot find the queue, whose name that one has unlinked: it
    can only exit with -1.  And a child whose [execl] fails runs on as a second
    parent: two consumers share a queue, which is made for one. *)
Theorem sim_runs_that_go_wrong :
  (∃ σ k l par, sim_reaches Shm blank_buffers blank_name brief_argv ∅ ∅ 1 σ ∧ exited 2 0 σ = true ∧
  k_procs σ !! 3 = Some (Process (Call (Open Shm (object_name shm_prefix 0) false) k) l par) ∧
  ∀ r names' objs' l', sys (k_names σ) (k_objs σ) l (Open Shm (object_name shm_prefix 0) false) r names' objs' l' →
    k r = Exit (-1)) ∧
  (∃ σ p q t t', sim_reaches Shm blank_buffers blank_name brief_argv ∅ ∅ 1 σ ∧
  k_procs σ !! 3 = Some p ∧ pr_parent p = Some 1 ∧ k_procs σ !! 4 = Some q ∧ pr_parent q = Some 2 ∧
  l_workers (pr_local p) !! 7 = Some (sim_worker ConsumerKind t brief_settings, Some 1%positive) ∧
  l_workers (pr_local q) !! 7 = Some (sim_worker ConsumerKind t' brief_settings, Some 1%positive)).
Proof. split; [exact late_child_misses_the_queue|exact failed_exec_makes_two_consumers]. Qed.
