(* ===== verification/TreeHeap.v ===== *)
(** * Memory for the tree utilities of Chapter10

    The heap of [malloc] and [free], with the struct [TreeNode] of
    Chapter10/include/tree.h in its blocks; the computations on it are a state
    and error monad, in which the C code is written. *)
From stdpp Require Import gmap.
From S2P Require Import Prelude Items.

(** ** Data *)
Abbreviation loc := positive.

(** A pointer to a node; [None] is [NULL]. *)
Abbreviation ptr := (option loc).

(** A block: fields are [None] until they are assigned. *)
Record TreeNode := MkNode {
  data : option Z;
  left : option ptr;
  right : option ptr
}.

Abbreviation cells := (gmap loc TreeNode).

(** The allocated blocks, the number of blocks [malloc] can still provide, and
    the stream of [rand()]. *)
Record memory := MkMem {
  mem_cells : cells;
  mem_avail : Z;
  mem_rands : rands
}.

(** ** The monad: [Ok None] when the fuel of a recursion is spent *)
Definition M (A : Type) : Type := memory → outcome (option (A * memory)).

#[export] Instance M_ret : MRet M := λ A a m, Ok (Some (a, m)).
#[export] Instance M_bind : MBind M := λ A B k c m,
  match c m with
  | Ok (Some (a, m')) => k a m'
  | Ok None => Ok None
  | Fault f => Fault f
  end.

Definition out_of_fuel {A} : M A := λ _, Ok None.
Definition fails {A} (f : fault) : M A := λ _, Fault f.
Definition lift {A} (c : outcome A) : M A := λ m, match c with Ok a => Ok (Some (a, m)) | Fault f => Fault f end.

(** ** Operations of the C library and of the language *)
Definition do_rand : M Z := λ m,
  let '(v, r) := rand (mem_rands m) in Ok (Some (v, MkMem (mem_cells m) (mem_avail m) r)).

(** [malloc(sizeof(TreeNode))]: [NULL] when nothing is left. *)
Definition malloc : M ptr := λ m,
  if mem_avail m <=? 0 then Ok (Some (None, m)) else
  let l := fresh (dom (mem_cells m)) in
  Ok (Some (Some l, MkMem (<[l := MkNode None None None]> (mem_cells m)) (mem_avail m - 1) (mem_rands m))).

(** [free(NULL)] does nothing. *)
Definition free (p : ptr) : M unit := λ m,
  match p with
  | None => Ok (Some (tt, m))
  | Some l =>
      match mem_cells m !! l with
      | None => Fault DeadBlock
      | Some _ => Ok (Some (tt, MkMem (delete l (mem_cells m)) (mem_avail m + 1) (mem_rands m)))
      end
  end.

(** [*p], and the assignment of a field of it by [f]. *)
Definition load (p : ptr) : M TreeNode := λ m,
  match p with
  | None => Fault NullPointer
  | Some l => match mem_cells m !! l with None => Fault DeadBlock | Some n => Ok (Some (n, m)) end
  end.

Definition store (p : ptr) (n : TreeNode) : M unit := λ m,
  match p with
  | None => Fault NullPointer
  | Some l => Ok (Some (tt, MkMem (<[l := n]> (mem_cells m)) (mem_avail m) (mem_rands m)))
  end.

Definition modify (p : ptr) (f : TreeNode → TreeNode) : M unit := n ← load p; store p (f n).

Definition read_field {A} (field : TreeNode → option A) (p : ptr) : M A :=
  n ← load p;
  match field n with Some v => mret v | None => fails Uninitialised end.

Definition set_data (p : ptr) (v : Z) : M unit := modify p (λ n, MkNode (Some v) (left n) (right n)).
Definition set_left (p : ptr) (q : ptr) : M unit := modify p (λ n, MkNode (data n) (Some q) (right n)).
Definition set_right (p : ptr) (q : ptr) : M unit := modify p (λ n, MkNode (data n) (left n) (Some q)).

(** ** Specification: the trees that pointers stand for *)
Inductive tree := Leaf | Node (d : Z) (l r : tree).

#[export] Instance tree_eq_dec : EqDecision tree.
Proof. solve_decision. Defined.

Fixpoint height (t : tree) : nat :=
  match t with Leaf => 0 | Node _ l r => S (height l `max` height r) end.

Fixpoint nodes (t : tree) : Z :=
  match t with Leaf => 0 | Node _ l r => 1 + nodes l + nodes r end.

(** The blocks [c] are those of the tree [t] at [p]: one for each node, all
    different. *)
Fixpoint is_tree (c : cells) (p : ptr) (t : tree) : Prop :=
  match t with
  | Leaf => p = None ∧ c = ∅
  | Node d tl tr => ∃ k pl pr cl cr,
      p = Some k ∧ c = <[k := MkNode (Some d) (Some pl) (Some pr)]> (cl ∪ cr) ∧
      cl !! k = None ∧ cr !! k = None ∧ cl ##ₘ cr ∧ is_tree cl pl tl ∧ is_tree cr pr tr
  end.

(** ** Proofs *)
Lemma nodes_nonneg t : 0 ≤ nodes t.
Proof. induction t; cbn [nodes]; lia. Qed.
#[export] Hint Resolve nodes_nonneg : blp.

Lemma M_bind_eq {A B} (c : M A) (k : A → M B) m a m' :
  c m = Ok (Some (a, m')) → (c ≫= k) m = k a m'.
Proof. intros E. unfold mbind, M_bind. by rewrite E. Qed.

Lemma M_bind_fault {A B} (c : M A) (k : A → M B) m f : c m = Fault f → (c ≫= k) m = Fault f.
Proof. intros E. unfold mbind, M_bind. by rewrite E. Qed.

(** The next computation is [c] with the known result [E]. *)
Ltac run_next E := first [rewrite (M_bind_eq _ _ _ _ _ E)|rewrite (M_bind_fault _ _ _ _ E)]; cbn beta.

Lemma load_at l n m : mem_cells m !! l = Some n → load (Some l) m = Ok (Some (n, m)).
Proof. intros E. unfold load. by rewrite E. Qed.

Lemma modify_at l f n m : mem_cells m !! l = Some n →
  modify (Some l) f m = Ok (Some (tt, MkMem (<[l := f n]> (mem_cells m)) (mem_avail m) (mem_rands m))).
Proof. intros E. unfold modify. by run_next (load_at l n m E). Qed.

Lemma read_at {A} (field : TreeNode → option A) l n v m :
  mem_cells m !! l = Some n → field n = Some v → read_field field (Some l) m = Ok (Some (v, m)).
Proof. intros E Ev. unfold read_field. run_next (load_at l n m E). by rewrite Ev. Qed.

Lemma free_at l n m : mem_cells m !! l = Some n →
  free (Some l) m = Ok (Some (tt, MkMem (delete l (mem_cells m)) (mem_avail m + 1) (mem_rands m))).
Proof. intros E. unfold free. by rewrite E. Qed.

(** [malloc] provides a block that was not allocated. *)
Lemma malloc_ok m : 0 < mem_avail m →
  ∃ l, mem_cells m !! l = None ∧
    malloc m = Ok (Some (Some l, MkMem (<[l := MkNode None None None]> (mem_cells m)) (mem_avail m - 1) (mem_rands m))).
Proof.
  intros Ha. exists (fresh (dom (mem_cells m))). split; [apply not_elem_of_dom, is_fresh|].
  unfold malloc. by rewrite (proj2 (Z.leb_gt _ _)).
Qed.

Lemma malloc_null m : mem_avail m ≤ 0 → malloc m = Ok (Some (None, m)).
Proof. intros Ha. unfold malloc. by rewrite (proj2 (Z.leb_le _ _)). Qed.

(** A null pointer is a tree exactly when the tree is empty. *)
Lemma is_tree_null c t : is_tree c None t ↔ t = Leaf ∧ c = ∅.
Proof.
  destruct t as [|d tl tr]; cbn [is_tree]; [naive_solver|].
  split; [intros (k & pl & pr & cl & cr & [=] & _)|by intros [[=] _]].
Qed.

Lemma is_tree_node c k t : is_tree c (Some k) t →
  ∃ d tl tr pl pr cl cr, t = Node d tl tr ∧
    c !! k = Some (MkNode (Some d) (Some pl) (Some pr)) ∧ delete k c = cl ∪ cr ∧
    cl ##ₘ cr ∧ is_tree cl pl tl ∧ is_tree cr pr tr.
Proof.
  destruct t as [|d tl tr]; cbn [is_tree]; [by intros [[=] _]|].
  intros (k' & pl & pr & cl & cr & [= <-] & -> & Hl & Hr & Hd & Htl & Htr).
  exists d, tl, tr, pl, pr, cl, cr. split_and!; try done; [apply lookup_insert_eq|].
  apply delete_insert_id. by rewrite lookup_union_None.
Qed.

Lemma cells_union_sub (c d h : cells) : c ∪ d ⊆ h → c ##ₘ d → c ⊆ h ∧ d ⊆ h.
Proof.
  intros Hs Hd. split; (etrans; [|exact Hs]); [by apply map_union_subseteq_l|by apply map_union_subseteq_r].
Qed.

(** The blocks of the subtrees of a node. *)
Lemma tree_part_sub (c cl cr h : cells) k :
  delete k c = cl ∪ cr → cl ##ₘ cr → c ⊆ h → cl ⊆ h ∧ cr ⊆ h.
Proof.
  intros E Hd Hs. apply cells_union_sub; [|done]. rewrite <-E. etrans; [apply delete_subseteq|done].
Qed.
