(* ===== verification/TreeUtil.v ===== *)
(** * The tree utilities of Chapter10/test/util

    [generate_tree] of random_tree.cpp, and [is_same_tree] and [destroy_tree]
    of tree_struct_determine.cpp, on the memory of [TreeHeap].  The recursions
    have fuel; the theorems say how much is enough. *)
From stdpp Require Import gmap.
From S2P Require Import Prelude Items TreeHeap.

(** ** Operations *)
Definition MAX_RANDOM_TREE_NODE : Z := 100000.

(** [generate_tree_internal(random_degree, node_count)]. *)
Fixpoint generate_tree_internal (fuel : nat) (random_degree node_count : Z) : M ptr :=
  match fuel with
  | O => out_of_fuel
  | S fuel' =>
      if MAX_RANDOM_TREE_NODE <? node_count then mret None else
      v ← do_rand;
      rem ← lift (u32_rem (u32 v) random_degree);
      if rem =? 0 then mret None else
      root ← malloc;
      let node_count := u32 (node_count + 1) in
      d ← do_rand;
      _ ← set_data root d;
      l ← generate_tree_internal fuel' random_degree node_count;
      _ ← set_left root l;
      r ← generate_tree_internal fuel' random_degree node_count;
      _ ← set_right root r;
      mret root
  end.

(** [generate_tree(random_degree)]. *)
Definition generate_tree (fuel : nat) (random_degree : Z) : M ptr :=
  if random_degree <? 2 then mret None else generate_tree_internal fuel random_degree 0.

(** [is_same_tree(root1, root2)]; [&&] evaluates its right side only when the
    left one is true. *)
Fixpoint is_same_tree (fuel : nat) (root1 root2 : ptr) : M bool :=
  match fuel with
  | O => out_of_fuel
  | S fuel' =>
      if bool_decide (root1 = None) && bool_decide (root2 = None) then mret true else
      if bool_decide (root1 = None) || bool_decide (root2 = None) then mret false else
      d1 ← read_field data root1;
      d2 ← read_field data root2;
      if negb (d1 =? d2) then mret false else
      l1 ← read_field left root1;
      l2 ← read_field left root2;
      same ← is_same_tree fuel' l1 l2;
      if negb same then mret false else
      r1 ← read_field right root1;
      r2 ← read_field right root2;
      is_same_tree fuel' r1 r2
  end.

(** [destroy_tree(root)]. *)
Fixpoint destroy_tree (fuel : nat) (root : ptr) : M unit :=
  match fuel with
  | O => out_of_fuel
  | S fuel' =>
      if bool_decide (root = None) then mret tt else
      l ← read_field left root;
      _ ← destroy_tree fuel' l;
      r ← read_field right root;
      _ ← destroy_tree fuel' r;
      free root
  end.

(** ** Specification: the random tree a stream describes

    [random_tree levels degree r] is the tree of at most [levels] levels that
    the stream [r] describes, in prefix order, and what is left of it. *)
Fixpoint random_tree (levels : nat) (degree : Z) (r : rands) : tree * rands :=
  match levels with
  | O => (Leaf, r)
  | S levels' =>
      let '(v, r1) := rand r in
      if v mod degree =? 0 then (Leaf, r1) else
      let '(d, r2) := rand r1 in
      let '(tl, r3) := random_tree levels' degree r2 in
      let '(tr, r4) := random_tree levels' degree r3 in
      (Node d tl tr, r4)
  end.

(** The tree of [n] full levels with [v] everywhere. *)
Fixpoint complete_tree (n : nat) (v : Z) : tree :=
  match n with O => Leaf | S n' => Node v (complete_tree n' v) (complete_tree n' v) end.

(** The levels a call may still add. *)
Definition levels_left (node_count : Z) : nat := Z.to_nat (MAX_RANDOM_TREE_NODE + 1 - node_count).

(** Fuel for the deepest trees of [generate_tree]. *)
Definition enough : nat := S (levels_left 0).

(** ** Proofs: [is_same_tree] *)
Lemma is_same_tree_ok fuel p1 p2 t1 t2 c1 c2 m :
  is_tree c1 p1 t1 → is_tree c2 p2 t2 → c1 ⊆ mem_cells m → c2 ⊆ mem_cells m →
  (height t1 < fuel)%nat →
  is_same_tree fuel p1 p2 m = Ok (Some (bool_decide (t1 = t2), m)).
Proof.
  revert fuel p1 p2 t2 c1 c2. induction t1 as [|d l IHl r IHr]; intros [|fuel] p1 p2 t2 c1 c2 H1 H2 S1 S2 Hf;
    [lia| |lia|]; cbn [is_same_tree].
  - destruct H1 as [-> ->]. destruct p2 as [k2|]; cbn -[bool_decide].
    + apply is_tree_node in H2 as (d & l & r & ? & ? & ? & ? & -> & _). done.
    + apply is_tree_null in H2 as [-> _]. done.
  - destruct p1 as [k1|]; [|by apply is_tree_null in H1 as [[=] _]].
    apply is_tree_node in H1 as (d1 & l1 & r1 & pl & pr & cl & cr & [= <- <- <-] & K1 & D1 & Hd1 & Hl1 & Hr1).
    destruct p2 as [k2|]; [|by apply is_tree_null in H2 as [-> _]].
    apply is_tree_node in H2 as (d' & l' & r' & pl' & pr' & cl' & cr' & -> & K2 & D2 & Hd2 & Hl2 & Hr2).
    cbn [height] in Hf. rewrite !bool_decide_false by done. cbn [andb orb].
    pose proof (lookup_weaken _ _ _ _ K1 S1) as M1. pose proof (lookup_weaken _ _ _ _ K2 S2) as M2.
    destruct (tree_part_sub _ _ _ _ _ D1 Hd1 S1) as [Sl Sr].
    destruct (tree_part_sub _ _ _ _ _ D2 Hd2 S2) as [Sl' Sr'].
    do 2 (erewrite M_bind_eq by (by eapply read_at)).
    destruct (Z.eqb_spec d d') as [<-|Hd]; cbn [negb]; [|by rewrite bool_decide_false by congruence].
    do 2 (erewrite M_bind_eq by (by eapply read_at)).
    erewrite M_bind_eq by (eapply IHl; [exact Hl1|exact Hl2|done|done|lia]).
    case_bool_decide as El; cbn [negb]; [|by rewrite bool_decide_false by congruence].
    do 2 (erewrite M_bind_eq by (by eapply read_at)).
    rewrite (IHr fuel pr pr' r' cr cr') by (done || lia).
    do 3 f_equal. apply bool_decide_ext. naive_solver.
Qed.

(** ** Proofs: [destroy_tree] *)
Lemma node_split (cl cr f : cells) k n :
  cl !! k = None → cr !! k = None →
  <[k := n]> (cl ∪ cr) ∪ f = cl ∪ <[k := n]> (cr ∪ f) ∧ <[k := n]> (cr ∪ f) = cr ∪ <[k := n]> f.
Proof.
  intros Hl Hr. split; [|by apply insert_union_r].
  by rewrite <-insert_union_l, <-(assoc_L (∪)), insert_union_r.
Qed.

Lemma destroy_tree_ok fuel p t c f m :
  is_tree c p t → c ##ₘ f → mem_cells m = c ∪ f → (height t < fuel)%nat →
  destroy_tree fuel p m = Ok (Some (tt, MkMem f (mem_avail m + nodes t) (mem_rands m))).
Proof.
  revert fuel p c f m. induction t as [|d l IHl r IHr]; intros [|fuel] p c f m Ht Hd Hm Hf;
    [lia| |lia|]; cbn [destroy_tree].
  - destruct Ht as [-> ->]. rewrite (left_id_L ∅ (∪)) in Hm. destruct m as [h a rs]; cbn in *. subst h.
    unfold mret, M_ret. by rewrite Z.add_0_r.
  - destruct Ht as (k & pl & pr & cl & cr & -> & -> & Kl & Kr & Hlr & Hl & Hr). cbn [height] in Hf.
    apply map_disjoint_insert_l in Hd as [Kf Hd]. apply map_disjoint_union_l in Hd as [Hlf Hrf].
    destruct (node_split cl cr f k (MkNode (Some d) (Some pl) (Some pr)) Kl Kr) as [E1 E2].
    rewrite E1 in Hm. rewrite bool_decide_false by done.
    set (n := MkNode (Some d) (Some pl) (Some pr)) in *.
    erewrite M_bind_eq by (eapply (read_at left _ n); [rewrite Hm, lookup_union_r by done; apply lookup_insert_eq|done]).
    erewrite M_bind_eq.
    2: { eapply (IHl fuel pl cl (<[k := n]> (cr ∪ f))); [done| |done|lia].
         apply map_disjoint_insert_r_2; [done|]. by apply map_disjoint_union_r. }
    cbn beta. erewrite M_bind_eq by (eapply (read_at right _ n); [apply lookup_insert_eq|done]).
    erewrite M_bind_eq.
    2: { eapply (IHr fuel pr cr (<[k := n]> f)); [done| |done|lia]. by apply map_disjoint_insert_r_2. }
    cbn beta. erewrite free_at by apply lookup_insert_eq. cbn [mem_cells mem_avail mem_rands nodes].
    rewrite delete_insert_id by done. do 4 f_equal. lia.
Qed.

(** ** Proofs: [generate_tree] *)
Lemma random_tree_ok levels degree r :
  rand_ok r → rand_ok (random_tree levels degree r).2 ∧ (height (random_tree levels degree r).1 ≤ levels)%nat.
Proof.
  revert r. induction levels as [|n IH]; intros r Hr; [by split|]. cbn [random_tree rand].
  destruct (_ =? 0); [split; [by apply (rand_ok_next r)|cbn; lia]|].
  pose proof (IH _ (rand_ok_next _ (rand_ok_next _ Hr))) as [H1 L1]. cbn [rand snd] in H1, L1.
  destruct (random_tree n degree _) as [tl r3]. specialize (IH r3 H1) as [H2 L2].
  destruct (random_tree n degree r3) as [tr r4]. cbn in *. split; [done|lia].
Qed.

(** An assignment to a field of the block [k], between other blocks. *)
Lemma modify_in (c h : cells) k f n a rs :
  c !! k = None →
  modify (Some k) f (MkMem (c ∪ <[k := n]> h) a rs) = Ok (Some (tt, MkMem (c ∪ <[k := f n]> h) a rs)).
Proof.
  intros Hc. erewrite modify_at by (cbn; rewrite lookup_union_r by done; apply lookup_insert_eq).
  cbn [mem_cells mem_avail mem_rands]. by rewrite insert_union_r, insert_insert_eq by done.
Qed.

(** What a call that grows the tree [t] leaves: the tree in fresh blocks, or
    an access through the null pointer [malloc] returned. *)
Definition generated (t : tree) (r' : rands) (m : memory) (res : outcome (option (ptr * memory))) : Prop :=
  if nodes t <=? mem_avail m
  then ∃ p c, res = Ok (Some (p, MkMem (c ∪ mem_cells m) (mem_avail m - nodes t) r')) ∧
         is_tree c p t ∧ c ##ₘ mem_cells m
  else res = Fault NullPointer.

Lemma generated_leaf r' m : 0 ≤ mem_avail m →
  generated Leaf r' m (Ok (Some (None, MkMem (mem_cells m) (mem_avail m) r'))).
Proof.
  intros Ha. unfold generated. cbn [nodes]. rewrite (proj2 (Z.leb_le _ _)) by done.
  exists None, ∅. rewrite (left_id_L ∅ (∪)), Z.sub_0_r. split_and!; [done|done|apply map_disjoint_empty_l].
Qed.

Lemma levels_left_S node_count : 0 ≤ node_count ≤ MAX_RANDOM_TREE_NODE →
  levels_left node_count = S (levels_left (u32 (node_count + 1))) ∧
  0 ≤ u32 (node_count + 1) ≤ MAX_RANDOM_TREE_NODE + 1.
Proof. unfold levels_left, MAX_RANDOM_TREE_NODE. intros Hn. rewrite u32_small by lia. lia. Qed.

Lemma do_rand_eq h a r : do_rand (MkMem h a r) = Ok (Some (r 0%nat, MkMem h a (rand r).2)).
Proof. done. Qed.

(** Reading one subtree after the other, into the blocks of a node. *)
Lemma node_blocks (h c1 c2 : cells) k d p1 p2 t1 t2 :
  h !! k = None → is_tree c1 p1 t1 → is_tree c2 p2 t2 → c1 !! k = None → c2 !! k = None →
  c1 ##ₘ h → c2 ##ₘ h → c2 ##ₘ c1 →
  let n := MkNode (Some d) (Some p1) (Some p2) in
  is_tree (<[k := n]> (c1 ∪ c2)) (Some k) (Node d t1 t2) ∧ <[k := n]> (c1 ∪ c2) ##ₘ h ∧
  c2 ∪ (c1 ∪ <[k := n]> h) = <[k := n]> (c1 ∪ c2) ∪ h.
Proof.
  intros Hk H1 H2 K1 K2 D1 D2 D n. split_and!.
  - exists k, p1, p2, c1, c2. by split_and!.
  - apply map_disjoint_insert_l_2; [done|]. by apply map_disjoint_union_l_2.
  - destruct (node_split c1 c2 h k n K1 K2) as [-> ->].
    rewrite !(assoc_L (∪)). by rewrite (map_union_comm c2 c1).
Qed.

(** A node and its two subtrees, each grown by [gen]. *)
Lemma grow_node_ok (gen : M ptr) (rt : rands → tree * rands) h a r :
  (∀ m, 0 ≤ mem_avail m → rand_ok (mem_rands m) →
     generated (rt (mem_rands m)).1 (rt (mem_rands m)).2 m (gen m)) →
  (∀ r, rand_ok r → rand_ok (rt r).2) → 0 ≤ a → rand_ok r →
  let tl := rt (rand r).2 in let tr := rt tl.2 in
  generated (Node (rand r).1 tl.1 tr.1) tr.2 (MkMem h a r)
    ((root ← malloc; d ← do_rand; _ ← set_data root d; l ← gen; _ ← set_left root l;
      r ← gen; _ ← set_right root r; mret root) (MkMem h a r)).
Proof.
  intros Hgen Hrt Ha Hr. cbv zeta. set (tl := rt (rand r).2). set (tr := rt tl.2).
  pose proof (rand_ok_next _ Hr) as Hr2. pose proof (Hrt _ Hr2) as Hr3. fold tl in Hr3.
  pose proof (nodes_nonneg tl.1) as Hnl. pose proof (nodes_nonneg tr.1) as Hnr.
  unfold generated. cbn [nodes mem_avail mem_cells].
  destruct (decide (a = 0)) as [->|Ha0].
  { rewrite (proj2 (Z.leb_gt _ _)) by lia. erewrite M_bind_eq by (by apply malloc_null). done. }
  destruct (malloc_ok (MkMem h a r)) as (k & Hk & E); [cbn; lia|]. erewrite M_bind_eq by exact E.
  cbn [mem_cells mem_avail mem_rands] in *. erewrite M_bind_eq by apply do_rand_eq.
  change (r 0%nat) with (rand r).1. generalize (rand r).1. intros d.
  erewrite M_bind_eq by (apply modify_at, lookup_insert_eq). cbn [mem_cells mem_avail mem_rands data left right].
  rewrite insert_insert_eq. set (h1 := <[k := MkNode (Some d) None None]> h).
  specialize (Hgen (MkMem h1 (a - 1) (rand r).2) ltac:(cbn; lia) Hr2) as Hl. cbn [mem_rands] in Hl. fold tl in Hl.
  unfold generated in Hl. cbn [mem_avail mem_cells] in Hl. destruct (Z.leb_spec (nodes tl.1) (a - 1)) as [Hal|Hal].
  2: { rewrite (M_bind_fault _ _ _ _ Hl). by rewrite (proj2 (Z.leb_gt _ _)) by lia. }
  destruct Hl as (pl & cl & El & Htl & Dl). erewrite M_bind_eq by exact El.
  apply map_disjoint_insert_r in Dl as [Kl Dl].
  unfold h1. erewrite M_bind_eq by (by apply modify_in). cbn [data left right].
  set (h2 := cl ∪ <[k := MkNode (Some d) (Some pl) None]> h).
  specialize (Hgen (MkMem h2 (a - 1 - nodes tl.1) tl.2) ltac:(cbn; lia) Hr3) as Hg2. cbn [mem_rands] in Hg2. fold tr in Hg2.
  unfold generated in Hg2. cbn [mem_avail mem_cells] in Hg2. destruct (Z.leb_spec (nodes tr.1) (a - 1 - nodes tl.1)) as [Har|Har].
  2: { rewrite (M_bind_fault _ _ _ _ Hg2). by rewrite (proj2 (Z.leb_gt _ _)) by lia. }
  destruct Hg2 as (pr & cr & Er & Htr & Dr). erewrite M_bind_eq by exact Er.
  apply map_disjoint_union_r in Dr as [Drl Dr]. apply map_disjoint_insert_r in Dr as [Kr Dr].
  unfold h2. rewrite (assoc_L (∪)). erewrite M_bind_eq by (apply modify_in; by rewrite lookup_union_None).
  cbn [data left right]. rewrite (proj2 (Z.leb_le _ _)) by lia.
  destruct (node_blocks h cl cr k d pl pr tl.1 tr.1) as (Ht & Hd & Hu); try done.
  exists (Some k), (<[k := MkNode (Some d) (Some pl) (Some pr)]> (cl ∪ cr)). split_and!; [|done|done].
  rewrite <-Hu, (assoc_L (∪)). unfold mret, M_ret. do 4 f_equal. lia.
Qed.

Lemma generate_tree_internal_ok levels fuel degree node_count m :
  levels = levels_left node_count → 0 ≤ node_count ≤ MAX_RANDOM_TREE_NODE + 1 → (levels < fuel)%nat →
  2 ≤ degree → 0 ≤ mem_avail m → rand_ok (mem_rands m) →
  generated (random_tree levels degree (mem_rands m)).1 (random_tree levels degree (mem_rands m)).2 m
    (generate_tree_internal fuel degree node_count m).
Proof.
  intros Hl Hn Hf Hg. revert fuel node_count m Hl Hn Hf.
  induction levels as [|levels IH]; intros [|fuel] node_count m Hl Hn Hf Ha Hr; [lia| |lia|];
    cbn [generate_tree_internal random_tree].
  - rewrite (proj2 (Z.ltb_lt _ _)) by (unfold levels_left in Hl; lia). destruct m. by apply generated_leaf.
  - rewrite (proj2 (Z.ltb_ge _ _)) by (unfold levels_left in Hl; lia).
    destruct m as [h a r]. cbn [mem_avail mem_rands] in *. erewrite M_bind_eq by apply do_rand_eq.
    pose proof (Hr 0%nat) as Hv. unfold RAND_MAX in Hv. cbn [rand].
    unfold lift at 1, u32_rem. rewrite (proj2 (Z.eqb_neq degree 0)), (u32_small (r 0%nat)) by lia.
    erewrite M_bind_eq by done. destruct (r 0%nat mod degree =? 0).
    { by apply (generated_leaf _ (MkMem h a r)). }
    destruct (levels_left_S node_count) as [Hs Hn']; [unfold levels_left in *; lia|].
    rewrite Hs in Hl. injection Hl as Hl.
    assert (Hr1 := rand_ok_next _ Hr).
    pose proof (grow_node_ok (generate_tree_internal fuel degree (u32 (node_count + 1)))
      (random_tree levels degree) h a (rand r).2) as G. cbn [rand fst snd] in *.
    destruct (random_tree levels degree (λ k, r (S (S k)))) as [tl r3]. cbn [fst snd] in *.
    destruct (random_tree levels degree r3) as [tr r4]. cbn [fst snd] in *.
    apply G; [|intros; by apply random_tree_ok|done|done].
    intros m Hm Hrm. apply IH; [done|done|lia|done|done].
Qed.

Lemma nodes_complete n v : nodes (complete_tree n v) = 2 ^ Z.of_nat n - 1.
Proof.
  induction n as [|n IH]; [done|]. cbn [complete_tree nodes]. rewrite IH, Nat2Z.inj_succ, Z.pow_succ_r; lia.
Qed.

Lemma random_tree_complete n degree v :
  v mod degree ≠ 0 → random_tree n degree (λ _, v) = (complete_tree n v, λ _, v).
Proof.
  intros Hv. induction n as [|n IH]; [done|]. cbn [random_tree rand].
  rewrite (proj2 (Z.eqb_neq _ _)) by done. by rewrite IH; cbn; rewrite IH.
Qed.

(** What [generate_tree] leaves when it returns. *)
Lemma generate_tree_inv fuel degree m p m' :
  (enough ≤ fuel)%nat → 0 ≤ mem_avail m → rand_ok (mem_rands m) →
  generate_tree fuel degree m = Ok (Some (p, m')) →
  ∃ t c, is_tree c p t ∧ c ##ₘ mem_cells m ∧ mem_cells m' = c ∪ mem_cells m ∧
    mem_avail m' = mem_avail m - nodes t ∧ (height t < enough)%nat.
Proof.
  unfold generate_tree. intros Hf Ha Hr. destruct (Z.ltb_spec degree 2) as [Hd|Hd].
  { intros [= <- <-]. exists Leaf, ∅. rewrite (left_id_L ∅ (∪)). cbn [nodes height].
    split_and!; try done; [apply map_disjoint_empty_l|lia|unfold enough; lia]. }
  intros E. assert (G := generate_tree_internal_ok (levels_left 0) fuel degree 0 m eq_refl
    ltac:(unfold MAX_RANDOM_TREE_NODE; lia) Hf Hd Ha Hr).
  destruct (random_tree_ok (levels_left 0) degree _ Hr) as [_ Hh].
  destruct (random_tree _ degree (mem_rands m)) as [t r']. cbn [fst snd] in *. unfold generated in G.
  destruct (nodes t <=? mem_avail m); [|by rewrite E in G].
  destruct G as (p' & c & E' & Ht & Hc). rewrite E in E'. injection E' as <- ->.
  exists t, c. split_and!; try done. unfold enough. lia.
Qed.
