(* ===== verification/TreeTest.v ===== *)
(** * Chapter 10: the test program and the serializer it is to test

    The options of test/test_tree_serialize.cpp and what it then does, and the
    functions of serialize/serialize.cpp, which are empty so far. *)
From stdpp Require Import gmap.
From S2P Require Import Prelude Digits Getopt TreeHeap TreeUtil.

(** ** The serializer *)

(** On the bytes of the stream: [serialize] writes nothing, [deserialize]
    reads nothing. *)
Definition serialize (outfile : list Z) (root : ptr) : M (list Z) := mret outfile.
Definition deserialize (infile : list Z) : M ptr := mret None.

(** ** The program *)

(** What it prints, a call of [printf] (or of [print_help]) at a time. *)
Inductive message := Help | Newline | InvalidOption | OutTest3 | TestFinished.

Definition out_test : list message := [OutTest3].

Record test_settings := MkTest { exp_times : Z; rand_degree : Z }.
Definition default_test : test_settings := MkTest 1 10.

(** "hd:n:" *)
Definition options_array : list Z := [104; 100; 58; 110; 58].

(** The loop over what [getopt] returns: the settings, and what is printed. *)
Fixpoint read_test_options (opts : list (Z * list Z)) (c : test_settings)
    : outcome (test_settings * list message) :=
  match opts with
  | [] => Ok (c, [])
  | (option, optarg) :: opts' =>
      if option =? 104 then
        '(c', out) ← read_test_options opts' c; Ok (c', Help :: Newline :: out)
      else if option =? 100 then
        n ← c_atoi optarg; read_test_options opts' (MkTest (exp_times c) n)
      else if option =? 110 then
        n ← c_atoi optarg; read_test_options opts' (MkTest n (rand_degree c))
      else if option =? 63 then
        '(c', out) ← read_test_options opts' c; Ok (c', InvalidOption :: out)
      else read_test_options opts' c
  end.

(** [main]: what it prints, and its exit code.  The loop over the experiments
    is commented out, and with it the use of the settings. *)
Definition main (argv : list (list Z)) : outcome (list message * Z) :=
  '(_, out) ← read_test_options (getopt options_array (tail argv)) default_test;
  Ok (out ++ out_test ++ [TestFinished], 0).

(** ** Properties *)

(** The options that are numbers. *)
Definition numeric (x : Z * list Z) : bool := (x.1 =? 100) || (x.1 =? 110).

Lemma read_test_options_ok opts c :
  is_ok (read_test_options opts c) ↔ Forall (λ x, numeric x → is_ok (c_atoi x.2)) opts.
Proof.
  revert c. induction opts as [|[option optarg] opts IH]; intros c; [split; [constructor|done]|].
  rewrite Forall_cons. unfold numeric at 1. cbn [read_test_options fst snd].
  destruct (Z.eqb_spec option 104) as [->|_].
  { rewrite bind_is_ok, <-(IH c). split; [intros (? & E & _); split; [done|by rewrite E]|].
    intros [_ Hok]. destruct (read_test_options opts c) as [[c' out]|]; [by eexists|done]. }
  destruct (Z.eqb_spec option 100) as [->|_]; [|destruct (Z.eqb_spec option 110) as [->|_]].
  - rewrite bind_is_ok. split.
    + intros (n & E & Hok). apply IH in Hok. split; [intros _; by rewrite E|done].
    + intros [Hn Hf]. specialize (Hn I). destruct (c_atoi optarg) as [n|]; [|done]. exists n. split; [done|]. by apply IH.
  - rewrite bind_is_ok. split.
    + intros (n & E & Hok). apply IH in Hok. split; [intros _; by rewrite E|done].
    + intros [Hn Hf]. specialize (Hn I). destruct (c_atoi optarg) as [n|]; [|done]. exists n. split; [done|]. by apply IH.
  - destruct (Z.eqb_spec option 63) as [->|_]; [|rewrite IH; naive_solver].
    rewrite bind_is_ok, <-(IH c). split; [intros (? & E & _); split; [done|by rewrite E]|].
    intros [_ Hok]. destruct (read_test_options opts c) as [[c' out]|]; [by eexists|done].
Qed.

(** The program tests nothing: whatever its options, it exits with 0 and ends
    in the same two lines, or a number is no [int]. *)
Lemma test_main_tests_nothing argv :
  (is_ok (main argv) ↔ Forall (λ x, numeric x → is_ok (c_atoi x.2)) (getopt options_array (tail argv))) ∧
  (∀ out code, main argv = Ok (out, code) →
     code = 0 ∧ ∃ before, out = before ++ [OutTest3; TestFinished]).
Proof.
  unfold main. split.
  - rewrite bind_is_ok, <-read_test_options_ok. split; [intros (? & E & _); by rewrite E|].
    intros Hok. destruct (read_test_options _ _) as [[c out]|]; [by eexists|done].
  - intros out code E. apply bind_Ok in E as ([c before] & _ & E). injection E as <- <-.
    split; [done|]. by exists before.
Qed.

(** The check the program is to make, that a tree is read back as it was
    written, would fail for every tree but the empty one. *)
Lemma serializer_loses_the_tree fuel file p t c m :
  is_tree c p t → c ⊆ mem_cells m → (height t < fuel)%nat →
  (file' ← serialize file p; q ← deserialize file'; is_same_tree fuel p q) m =
    Ok (Some (bool_decide (t = Leaf), m)).
Proof.
  intros Ht Hc Hf. change (is_same_tree fuel p None m = Ok (Some (bool_decide (t = Leaf), m))).
  apply (is_same_tree_ok fuel p None t Leaf c ∅ m Ht); try done. apply map_empty_subseteq.
Qed.
