(* ===== verification/TreeProps.v ===== *)
(** * Properties of the tree utilities (Chapter10/test/util)

    What [generate_tree] builds and needs, and that [is_same_tree] and
    [destroy_tree] compare and free such trees, with witnesses on concrete
    memories. *)
From stdpp Require Import gmap.
From S2P Require Import Prelude Items TreeHeap TreeUtil.

(** ** Concrete memories for the witnesses *)

(** The stream of a list, zeros after it. *)
Definition draws (l : list Z) : rands := λ k, nth k l 0.

(** The draws of a tree of three nodes for degree two: 5, with 6 on its left
    and 7 on its right. *)
Definition three_nodes : rands := draws [1; 5; 1; 6; 0; 0; 1; 7; 0; 0].
Definition three_tree : tree := Node 5 (Node 6 Leaf Leaf) (Node 7 Leaf Leaf).
Definition no_cells : cells := ∅.
Definition empty_memory (avail : Z) (r : rands) : memory := MkMem no_cells avail r.

Lemma draws_ok l : Forall (λ v, 0 ≤ v ≤ RAND_MAX) l → rand_ok (draws l).
Proof.
  intros Hl k. unfold draws. destruct (nth_in_or_default k l 0) as [Hi|E]; [|rewrite E; unfold RAND_MAX; lia].
  rewrite Forall_forall in Hl. apply Hl. by apply list_elem_of_In.
Qed.

Lemma three_nodes_ok : rand_ok three_nodes.
Proof. apply draws_ok. repeat constructor; by apply Z.leb_le. Qed.

Definition run_of {A} (r : outcome (option (A * memory))) (d : A) : A * memory :=
  match r with Ok (Some x) => x | _ => (d, empty_memory 0 (draws [])) end.

Definition demo_generated : ptr * memory :=
  run_of (generate_tree enough 2 (empty_memory 4 three_nodes)) None.

(** ** [generate_tree] *)

(** C26. [generate_tree] ends and builds the tree its draws describe, in blocks
    that were free and are the tree's alone, at most one hundred thousand and
    one levels high, whatever else is allocated; when the memory has too few
    blocks for it, the result of [malloc] is used although it is null.  A
    degree below two gives the empty tree. *)
Theorem generate_tree_builds_random_tree fuel degree m :
  (enough ≤ fuel)%nat → 0 ≤ mem_avail m → rand_ok (mem_rands m) →
  let '(t, r') := random_tree (Z.to_nat (MAX_RANDOM_TREE_NODE + 1)) degree (mem_rands m) in
  (2 ≤ degree → Z.of_nat (height t) ≤ MAX_RANDOM_TREE_NODE + 1 ∧
     (nodes t ≤ mem_avail m → ∃ p c,
        generate_tree fuel degree m = Ok (Some (p, MkMem (c ∪ mem_cells m) (mem_avail m - nodes t) r')) ∧
        is_tree c p t ∧ c ##ₘ mem_cells m) ∧
     (mem_avail m < nodes t → generate_tree fuel degree m = Fault NullPointer)) ∧
  (degree < 2 → generate_tree fuel degree m = Ok (Some (None, m))).
Proof.
  intros Hf Ha Hr. destruct (random_tree_ok (Z.to_nat (MAX_RANDOM_TREE_NODE + 1)) degree _ Hr) as [_ Hh].
  destruct (random_tree _ degree (mem_rands m)) as [t r'] eqn:E. split.
  - intros Hd. assert (G := generate_tree_internal_ok (levels_left 0) fuel degree 0 m eq_refl).
    change (levels_left 0) with (Z.to_nat (MAX_RANDOM_TREE_NODE + 1)) in G. rewrite E in G.
    unfold generate_tree. rewrite (proj2 (Z.ltb_ge _ _)) by done.
    specialize (G ltac:(unfold MAX_RANDOM_TREE_NODE; lia) Hf Hd Ha Hr). unfold generated in G. cbn [fst snd] in *.
    split; [unfold MAX_RANDOM_TREE_NODE in Hh |- *; lia|]. by destruct (Z.leb_spec (nodes t) (mem_avail m)); split; intros; try lia.
  - intros Hd. unfold generate_tree. by rewrite (proj2 (Z.ltb_lt _ _)).
Qed.

Lemma generate_tree_builds_random_tree_witness :
  (random_tree (Z.to_nat (MAX_RANDOM_TREE_NODE + 1)) 2 three_nodes).1 = three_tree ∧
  ∃ p c, generate_tree enough 2 (empty_memory 4 three_nodes)
      = Ok (Some (p, MkMem (c ∪ ∅) (4 - 3) (random_tree (Z.to_nat (MAX_RANDOM_TREE_NODE + 1)) 2 three_nodes).2)) ∧
    is_tree c p three_tree ∧ c ##ₘ ∅.
Proof.
  assert (E : (random_tree (Z.to_nat (MAX_RANDOM_TREE_NODE + 1)) 2 three_nodes).1 = three_tree)
    by (vm_compute; reflexivity).
  split; [exact E|].
  pose proof (generate_tree_builds_random_tree enough 2 (empty_memory 4 three_nodes) (le_n _)
    ltac:(by apply Z.leb_le) three_nodes_ok) as G.
  change (mem_rands (empty_memory 4 three_nodes)) with three_nodes in G.
  destruct (random_tree (Z.to_nat (MAX_RANDOM_TREE_NODE + 1)) 2 three_nodes) as [t r'].
  cbn [fst snd] in E |- *. subst t. destruct G as [G _]. apply G; by apply Z.leb_le.
Defined.

(** [MAX_RANDOM_TREE_NODE] bounds the levels and not the nodes: the count
    is passed by value.  While no draw is a multiple of the degree the tree is
    complete, with [2 ^ 100001 - 1] nodes, and every smaller memory runs out. *)
Lemma node_limit_bounds_levels_only fuel degree v m :
  (enough ≤ fuel)%nat → 2 ≤ degree → 0 ≤ v ≤ RAND_MAX → v mod degree ≠ 0 →
  mem_rands m = (λ _, v) → 0 ≤ mem_avail m < 2 ^ (MAX_RANDOM_TREE_NODE + 1) - 1 →
  generate_tree fuel degree m = Fault NullPointer.
Proof.
  intros Hf Hd Hv Hn Hm Ha.
  assert (Hr : rand_ok (mem_rands m)) by (rewrite Hm; by intros k).
  assert (G := generate_tree_internal_ok (levels_left 0) fuel degree 0 m eq_refl
    ltac:(unfold MAX_RANDOM_TREE_NODE; lia) Hf Hd ltac:(lia) Hr).
  unfold generate_tree. rewrite (proj2 (Z.ltb_ge _ _)) by done.
  unfold generated in G. rewrite Hm, random_tree_complete in G by done. cbn [fst] in G.
  rewrite nodes_complete in G. unfold levels_left in G. rewrite Z2Nat.id in G by (unfold MAX_RANDOM_TREE_NODE; lia).
  rewrite Z.sub_0_r, (proj2 (Z.leb_gt _ _)) in G by lia. exact G.
Qed.

(** ** [is_same_tree] and [destroy_tree] *)

(** C28. [is_same_tree] ends and decides whether two trees have the same shape
    and data, wherever their blocks lie (they may share some), and changes
    nothing. *)
Theorem is_same_tree_decides_equality fuel p1 p2 t1 t2 c1 c2 m :
  is_tree c1 p1 t1 → is_tree c2 p2 t2 → c1 ⊆ mem_cells m → c2 ⊆ mem_cells m →
  (height t1 < fuel)%nat →
  is_same_tree fuel p1 p2 m = Ok (Some (bool_decide (t1 = t2), m)).
Proof. apply is_same_tree_ok. Qed.

(** Two copies of the tree of one node, and one of another. *)
Definition one_node (d : Z) : TreeNode := MkNode (Some d) (Some None) (Some None).
Definition demo_cells : cells := {[ 1%positive := one_node 5; 2%positive := one_node 5; 3%positive := one_node 8 ]}.

Lemma one_node_tree k d : is_tree {[ k := one_node d ]} (Some k) (Node d Leaf Leaf).
Proof. exists k, None, None, ∅, ∅. by split_and!. Qed.

Lemma is_same_tree_decides_equality_witness :
  is_same_tree 2 (Some 1%positive) (Some 2%positive) (MkMem demo_cells 0 three_nodes)
    = Ok (Some (true, MkMem demo_cells 0 three_nodes)) ∧
  is_same_tree 2 (Some 1%positive) (Some 3%positive) (MkMem demo_cells 0 three_nodes)
    = Ok (Some (false, MkMem demo_cells 0 three_nodes)).
Proof.
  split.
  - apply (is_same_tree_decides_equality 2 _ _ (Node 5 Leaf Leaf) (Node 5 Leaf Leaf)
      {[ 1%positive := one_node 5 ]} {[ 2%positive := one_node 5 ]});
      [apply one_node_tree|apply one_node_tree|apply map_singleton_subseteq_l; reflexivity..|simpl; lia].
  - apply (is_same_tree_decides_equality 2 _ _ (Node 5 Leaf Leaf) (Node 8 Leaf Leaf)
      {[ 1%positive := one_node 5 ]} {[ 3%positive := one_node 8 ]});
      [apply one_node_tree|apply one_node_tree|apply map_singleton_subseteq_l; reflexivity..|simpl; lia].
Defined.

(** C27. [destroy_tree] ends on every tree of [generate_tree] and frees each of
    its blocks once and no other block: the memory is again what it was before
    the tree, together with the blocks [g] allocated in the meantime. *)
Theorem destroy_tree_undoes_generate_tree fuel degree m p m' g r :
  (enough ≤ fuel)%nat → 0 ≤ mem_avail m → rand_ok (mem_rands m) →
  generate_tree fuel degree m = Ok (Some (p, m')) → mem_cells m' ##ₘ g →
  destroy_tree fuel p (MkMem (mem_cells m' ∪ g) (mem_avail m') r)
    = Ok (Some (tt, MkMem (mem_cells m ∪ g) (mem_avail m) r)).
Proof.
  intros Hf Ha Hr E Hg. destruct (generate_tree_inv fuel degree m p m' Hf Ha Hr E)
    as (t & c & Ht & Hd & Hc & Hav & Hh). rewrite Hc in Hg |- *. apply map_disjoint_union_l in Hg as [Hcg Hg].
  rewrite (destroy_tree_ok fuel p t c (mem_cells m ∪ g)); [|done| |by cbn; rewrite (assoc_L (∪))|].
  - cbn [mem_avail mem_rands]. do 4 f_equal. lia.
  - by apply map_disjoint_union_r.
  - lia.
Qed.

Lemma destroy_tree_undoes_generate_tree_witness :
  size (mem_cells demo_generated.2) = 3%nat ∧
  destroy_tree enough demo_generated.1 (MkMem (mem_cells demo_generated.2 ∪ ∅) (mem_avail demo_generated.2) three_nodes)
    = Ok (Some (tt, MkMem (∅ ∪ ∅) 4 three_nodes)).
Proof.
  split; [vm_compute; reflexivity|].
  apply (destroy_tree_undoes_generate_tree enough 2 (empty_memory 4 three_nodes)).
  - apply le_n.
  - by apply Z.leb_le.
  - apply three_nodes_ok.
  - vm_compute. reflexivity.
  - apply map_disjoint_empty_r.
Defined.
